(** * Baikal scene tracker: a shallow embedding of [App/Scene/scene_tracker.cpp]

    The scene tracker translates a host-side scene graph (shapes, instances,
    materials, textures, lights, one camera) into flat device buffers and a
    set of intersection-API handles, and keeps one compiled record per scene.

    Objects of the scene graph are identified by their address; the stores
    below map addresses to object states.  The dirty bits are the only part
    of the scene graph that the tracker writes. *)

From Stdlib Require Import ZArith Lia List Sorted.
From stdpp Require Import gmap strings list fin_maps.

Open Scope Z_scope.

(** ** Machine data *)

(** An object pointer.  A nullable pointer is an [option addr]. *)
Definition addr := N.

(** A [float] is kept as its IEEE-754 binary32 bit pattern: the tracker only
    copies floats and compares one of them with zero. *)
Definition float := Z.

Definition f32_zero : float := 0.
(** [1.f] *)
Definition f32_one : float := 0x3F800000.
(** [0.99f]: sign 0, exponent 126, mantissa 0x7D70A4. *)
Definition f32_0_99 : float := 0x3F7D70A4.
Definition f32_0_09 : float := 0x3DB851EC.
Definition f32_0_1 : float := 0x3DCCCCCD.

Definition f32_sign (f : float) : bool := Z.testbit f 31.
Definition f32_exponent (f : float) : Z := Z.land (Z.shiftr f 23) 0xFF.
Definition f32_mantissa (f : float) : Z := Z.land f 0x7FFFFF.
Definition f32_is_nan (f : float) : bool :=
  (f32_exponent f =? 0xFF) && negb (f32_mantissa f =? 0).

(** [f > 0] on binary32: positive sign, not a zero, not a NaN. *)
Definition f32_gt_zero (f : float) : bool :=
  negb (f32_sign f) && negb (f32_is_nan f)
  && negb ((f32_exponent f =? 0) && (f32_mantissa f =? 0)).

(** [static_cast<int>] of an unsigned size: reduction into the 32-bit
    two's complement range. *)
Definition static_cast_int (n : Z) : Z :=
  (n + 2 ^ 31) mod 2 ^ 32 - 2 ^ 31.

(** RadeonRays [float3] has four lanes, and [float4] is the same type. *)
Record float3 := mk_float3 { f_x : float; f_y : float; f_z : float; f_w : float }.
Definition float4 := float3.
Record float2 := mk_float2 { f2_x : float; f2_y : float }.

Definition float4_zero : float4 := mk_float3 0 0 0 0.

Record matrix := mk_matrix {
  m00 : float; m01 : float; m02 : float; m03 : float;
  m10 : float; m11 : float; m12 : float; m13 : float;
  m20 : float; m21 : float; m22 : float; m23 : float;
  m30 : float; m31 : float; m32 : float; m33 : float }.

(** The device-side 4x4 matrix: four rows. *)
Record matrix4x4 := mk_matrix4x4 {
  row_m0 : float4; row_m1 : float4; row_m2 : float4; row_m3 : float4 }.

Definition rows_of (t : matrix) : matrix4x4 :=
  {| row_m0 := mk_float3 (m00 t) (m01 t) (m02 t) (m03 t);
     row_m1 := mk_float3 (m10 t) (m11 t) (m12 t) (m13 t);
     row_m2 := mk_float3 (m20 t) (m21 t) (m22 t) (m23 t);
     row_m3 := mk_float3 (m30 t) (m31 t) (m32 t) (m33 t) |}.

(** Position of the first occurrence of a pointer in a sequence. *)
Fixpoint index_of (a : addr) (l : list addr) : option nat :=
  match l with
  | [] => None
  | b :: l' => if (a =? b)%N then Some O else S <$> index_of a l'
  end.

(** ** [std::set] of pointers

    [std::set<T const*>] iterates in ascending pointer order and holds each
    pointer once.  It is kept as the ascending list of its elements. *)
Module StdSet.

Definition t := list addr.

Definition empty : t := [].

Fixpoint emplace (a : addr) (s : t) : t :=
  match s with
  | [] => [a]
  | b :: s' =>
      if (a <? b)%N then a :: s
      else if (a =? b)%N then s
      else b :: emplace a s'
  end.

Definition find (a : addr) (s : t) : bool :=
  existsb (N.eqb a) s.

Definition size (s : t) : nat := length s.

Definition union (s1 s2 : t) : t := fold_left (fun acc a => emplace a acc) s1 s2.

Definition wf (s : t) : Prop := StronglySorted N.lt s.

End StdSet.

(** ** The scene graph (read by the tracker; only dirty bits are written) *)

(** The indices of a mesh are [std::uint32_t] values. *)
Record MeshData := mk_MeshData {
  GetVertices : list float3;
  GetNormals : list float3;
  GetUVs : list float2;
  GetIndices : list Z }.

Definition GetNumVertices (m : MeshData) : nat := length (GetVertices m).
Definition GetNumNormals (m : MeshData) : nat := length (GetNormals m).
Definition GetNumUVs (m : MeshData) : nat := length (GetUVs m).
Definition GetNumIndices (m : MeshData) : nat := length (GetIndices m).

(** The dynamic type of a [Shape]: a [Mesh] with its geometry, or an
    [Instance] with the pointer to its base shape. *)
Inductive ShapeKind :=
| Mesh (geometry : MeshData)
| Instance (base_shape : addr).

Record Shape := mk_Shape {
  shape_kind : ShapeKind;
  shape_transform : matrix;
  shape_material : option addr;
  shape_dirty : bool }.

Module Material.
Inductive InputType := kFloat4 | kTexture | kMaterial.

Record InputValue := mk_InputValue {
  type : InputType;
  float_value : float4;
  tex_value : option addr;
  mat_value : option addr }.
End Material.

Module SingleBxdf.
Inductive BxdfType :=
| kZero | kLambert | kEmissive | kPassthrough | kTranslucent
| kIdealReflect | kIdealRefract
| kMicrofacetGGX | kMicrofacetBeckmann
| kMicrofacetRefractionGGX | kMicrofacetRefractionBeckmann.
End SingleBxdf.

Module MultiBxdf.
Inductive Type_ := kMix | kLayered | kFresnelBlend.
End MultiBxdf.

(** The dynamic type of a [Material]; [OtherMaterial] stands for a subclass
    that is neither [SingleBxdf] nor [MultiBxdf]. *)
Inductive MaterialKind :=
| SingleBxdf (t : SingleBxdf.BxdfType)
| MultiBxdf (t : MultiBxdf.Type_)
| OtherMaterial.

Record MaterialObj := mk_Material {
  material_kind : MaterialKind;
  material_inputs : gmap string Material.InputValue;
  material_dirty : bool }.

Module Texture.
Inductive Format := kRgba8 | kRgba16 | kRgba32.
End Texture.

Record TextureObj := mk_Texture {
  texture_size : Z * Z;
  texture_format : Texture.Format;
  texture_data : list Z;
  texture_dirty : bool }.

Inductive LightKind :=
| PointLight
| DirectionalLight
| SpotLight (cone_shape : float2)
| ImageBasedLight (texture : option addr) (multiplier : float)
| AreaLight (shape : addr) (prim_idx : nat).

Record Light := mk_Light {
  light_kind : LightKind;
  light_position : float3;
  light_direction : float3;
  light_radiance : float3;
  light_dirty : bool }.

Record PerspectiveCamera := mk_Camera {
  GetForwardVector : float3;
  GetUpVector : float3;
  GetRightVector : float3;
  GetPosition : float3;
  GetAperture : float;
  GetAspectRatio : float;
  GetSensorSize : float2;
  GetFocalLength : float;
  GetFocusDistance : float;
  GetDepthRange : float2;
  camera_dirty : bool }.

Record Scene1 := mk_Scene1 {
  scene_shapes : list addr;
  scene_lights : list addr;
  scene_camera : option addr;
  scene_dirty_flags : Z }.

(** Modelled from the spec: the dirty-flag bits of [Scene1] ([scene1.h] is
    not part of the sources); the tracker only tests them with [&], so any
    three distinct bits do. *)
Module Scene1Flags.
Definition kNone : Z := 0.
Definition kLights : Z := 1.
Definition kShapes : Z := 2.
Definition kCamera : Z := 8.
End Scene1Flags.

(** ** Device-side records ([ClwScene])

    Modelled from the spec: the records of [clwscene.h], which is not part
    of the sources.  A record has the fields that the writers of the tracker
    assign and that the spec names (sections 3 and 4.5 to 4.9). *)

Module ClwScene.

Inductive Bxdf :=
| kZero | kLambert | kEmissive | kPassthrough | kTranslucent
| kIdealReflect | kIdealRefract
| kMicrofacetGGX | kMicrofacetBeckmann
| kMicrofacetRefractionGGX | kMicrofacetRefractionBeckmann
| kMix | kLayered | kFresnelBlend.

Inductive LightType := kPoint | kDirectional | kSpot | kIbl | kArea.

Inductive TextureFormat := RGBA8 | RGBA16 | RGBA32.

Inductive CameraType := kDefault | kPhysical.

Record Shape := mk_Shape {
  numprims : Z;
  startvtx : Z;
  startidx : Z;
  start_material_idx : Z;
  transform : matrix4x4;
  linearvelocity : float3;
  angularvelocity : float3 }.

(** Modelled from the spec: [ClwScene::Material], one field per name that
    the material writer assigns (section 4.7).  The spec gives no layout.
    Fields that one branch of the writer assigns together are distinct
    storage.  Whether two fields that no branch assigns together
    ([kxmapidx] and [brdftopidx], [nmapidx] and [brdfbaseidx]) share
    storage is not decided by the sources; the theorems on the compound
    branch and on the normal map state the fields that their branch assigns
    and nothing about the others. *)
Record Material := mk_Material {
  kx : float4;
  ni : float;
  ns : float;
  kxmapidx : Z;
  nmapidx : Z;
  nsmapidx : Z;
  fresnel : float;
  brdftopidx : Z;
  brdfbaseidx : Z;
  type : Bxdf;
  bump_flag : Z }.

Record Light := mk_Light {
  l_type : LightType;
  l_p : float3;
  l_d : float3;
  l_intensity : float3;
  l_ia : float;
  l_oa : float;
  l_multiplier : float;
  l_tex : Z;
  l_texdiffuse : Z;
  l_shapeidx : Z;
  l_primidx : Z }.

Record Texture := mk_Texture {
  w : Z;
  h : Z;
  fmt : TextureFormat;
  dataoffset : Z }.

Record Camera := mk_Camera {
  forward : float3;
  up : float3;
  right : float3;
  p : float3;
  aperture : float;
  aspect_ratio : float;
  dim : float2;
  focal_length : float;
  focus_distance : float;
  zcap : float2 }.

Record Volume := mk_Volume {
  vol_type : Z;
  vol_phase_func : Z;
  vol_data : Z;
  vol_extra : Z;
  sigma_a : float3;
  sigma_s : float3;
  sigma_e : float3 }.

End ClwScene.

(** ** The collector

    Modelled from the spec: the [Collector] class ([Scene/Collector/collector.h]
    is not part of the sources).  It gathers item identities in a working set,
    [Commit] fixes their iteration order and numbers them from 0, a bundle is
    a snapshot of the committed sequence, and [NeedsUpdate] compares the
    committed sequence with a snapshot and asks every item for its dirty bit. *)
Module Collector.

Record t := mk {
  working : StdSet.t;
  items : list addr }.

Definition Bundle := list addr.

Definition Clear (c : t) : t := mk StdSet.empty [].

(** One root: the set [expand root] joins the working set. *)
Definition add (c : t) (found : StdSet.t) : t :=
  mk (StdSet.union (working c) found) (items c).

Definition Commit (c : t) : t := mk (working c) (working c).

Definition GetNumItems (c : t) : nat := length (items c).

Definition CreateIterator (c : t) : list addr := items c.

Definition GetItemIndex (c : t) (item : addr) : option nat :=
  index_of item (items c).

Definition CreateBundle (c : t) : Bundle := items c.

Definition NeedsUpdate (c : t) (prev : Bundle) (is_dirty : addr -> bool) : bool :=
  negb (bool_decide (items c = prev)) || existsb is_dirty (items c).

End Collector.

(** ** The intersection API

    Modelled from the spec: the RadeonRays intersection API is an external
    service; a handle is a fresh number, the API keeps what was passed to it
    for every live handle and the list of attached handles. *)
Definition handle := N.

Inductive RRGeometry :=
| RRMesh (vertices : list float3) (vnum : Z) (vstride : Z)
         (indices : list Z) (istride : Z) (numfaces : Z)
| RRInstance (base : option handle).

(** [SetTransform] receives the matrix and its inverse; the inverse is kept
    as the matrix it was computed from. *)
Inductive InverseOf := inverse (m : matrix).

Record RRShape := mk_RRShape {
  rr_geometry : RRGeometry;
  rr_transform : option (matrix * InverseOf);
  rr_id : option Z }.

Record IntersectionApi := mk_Api {
  api_shapes : gmap handle RRShape;
  api_next : handle;
  api_attached : list handle;
  api_committed : list handle }.

(** ** The compiled scene and the tracker state *)

Inductive BufferName :=
| BufCamera | BufVertices | BufNormals | BufUVs | BufIndices | BufShapes
| BufMaterialIds | BufMaterials | BufTextures | BufTextureData | BufLights
| BufVolumes.

#[global] Instance BufferName_eq_dec : EqDecision BufferName.
Proof. solve_decision. Defined.

(** Operations issued to the device context, in program order. *)
Inductive DeviceOp :=
| CreateBuffer (b : BufferName) (count : nat)
| MapBuffer (b : BufferName)
| UnmapBuffer (b : BufferName).

Definition op_buffer (o : DeviceOp) : BufferName :=
  match o with
  | CreateBuffer b _ => b
  | MapBuffer b => b
  | UnmapBuffer b => b
  end.

Record ClwSceneData := mk_ClwScene {
  camera : list ClwScene.Camera;
  camera_type : ClwScene.CameraType;
  vertices : list float3;
  normals : list float3;
  uvs : list float2;
  indices : list Z;
  shapes : list ClwScene.Shape;
  materialids : list Z;
  materials : list ClwScene.Material;
  textures : list ClwScene.Texture;
  texturedata : list Z;
  lights : list ClwScene.Light;
  num_lights : Z;
  envmapidx : Z;
  volumes : list ClwScene.Volume;
  isect_shapes : list handle;
  visible_shapes : list handle;
  material_bundle : option Collector.Bundle;
  texture_bundle : option Collector.Bundle }.

(** A default-constructed [ClwScene]: no buffer, no handle, no bundle. *)
Definition ClwScene_new : ClwSceneData :=
  {| camera := []; camera_type := ClwScene.kDefault;
     vertices := []; normals := []; uvs := []; indices := [];
     shapes := []; materialids := []; materials := [];
     textures := []; texturedata := []; lights := [];
     num_lights := 0; envmapidx := 0; volumes := [];
     isect_shapes := []; visible_shapes := [];
     material_bundle := None; texture_bundle := None |}.

(** The content of a freshly created device buffer is not determined by the
    program; one fixed filler per element type stands for it. *)
Class Filler (A : Type) := filler : A.

#[global] Instance filler_Z : Filler Z := 0.
#[global] Instance filler_float3 : Filler float3 := float4_zero.
#[global] Instance filler_float2 : Filler float2 := mk_float2 0 0.
#[global] Instance filler_matrix4x4 : Filler matrix4x4 :=
  mk_matrix4x4 float4_zero float4_zero float4_zero float4_zero.
#[global] Instance filler_Shape : Filler ClwScene.Shape :=
  ClwScene.mk_Shape 0 0 0 0 filler float4_zero float4_zero.
#[global] Instance filler_Material : Filler ClwScene.Material :=
  ClwScene.mk_Material float4_zero 0 0 0 0 0 0 0 0 ClwScene.kZero 0.
#[global] Instance filler_Light : Filler ClwScene.Light :=
  ClwScene.mk_Light ClwScene.kPoint float4_zero float4_zero float4_zero 0 0 0 0 0 0 0.
#[global] Instance filler_Texture : Filler ClwScene.Texture :=
  ClwScene.mk_Texture 0 0 ClwScene.RGBA8 0.
#[global] Instance filler_Camera : Filler ClwScene.Camera :=
  ClwScene.mk_Camera float4_zero float4_zero float4_zero float4_zero 0 0
    (mk_float2 0 0) 0 0 (mk_float2 0 0).

Definition fresh_buffer {A} `{Filler A} (count : nat) : list A :=
  replicate count filler.

Record State := mk_State {
  st_shapes : gmap addr Shape;
  st_materials : gmap addr MaterialObj;
  st_textures : gmap addr TextureObj;
  st_lights : gmap addr Light;
  st_cameras : gmap addr PerspectiveCamera;
  st_scenes : gmap addr Scene1;
  m_default_material : addr;
  m_scene_cache : gmap addr ClwSceneData;
  m_current_scene : option addr;
  m_api : IntersectionApi;
  m_context : list DeviceOp }.

(** Field updates. *)

Definition set_st_shapes (v : gmap addr Shape) (r : State) : State :=
  {| st_shapes := v; st_materials := st_materials r; st_textures := st_textures r; st_lights := st_lights r; st_cameras := st_cameras r; st_scenes := st_scenes r; m_default_material := m_default_material r; m_scene_cache := m_scene_cache r; m_current_scene := m_current_scene r; m_api := m_api r; m_context := m_context r |}.

Definition set_st_materials (v : gmap addr MaterialObj) (r : State) : State :=
  {| st_shapes := st_shapes r; st_materials := v; st_textures := st_textures r; st_lights := st_lights r; st_cameras := st_cameras r; st_scenes := st_scenes r; m_default_material := m_default_material r; m_scene_cache := m_scene_cache r; m_current_scene := m_current_scene r; m_api := m_api r; m_context := m_context r |}.

Definition set_st_textures (v : gmap addr TextureObj) (r : State) : State :=
  {| st_shapes := st_shapes r; st_materials := st_materials r; st_textures := v; st_lights := st_lights r; st_cameras := st_cameras r; st_scenes := st_scenes r; m_default_material := m_default_material r; m_scene_cache := m_scene_cache r; m_current_scene := m_current_scene r; m_api := m_api r; m_context := m_context r |}.

Definition set_st_lights (v : gmap addr Light) (r : State) : State :=
  {| st_shapes := st_shapes r; st_materials := st_materials r; st_textures := st_textures r; st_lights := v; st_cameras := st_cameras r; st_scenes := st_scenes r; m_default_material := m_default_material r; m_scene_cache := m_scene_cache r; m_current_scene := m_current_scene r; m_api := m_api r; m_context := m_context r |}.

Definition set_st_cameras (v : gmap addr PerspectiveCamera) (r : State) : State :=
  {| st_shapes := st_shapes r; st_materials := st_materials r; st_textures := st_textures r; st_lights := st_lights r; st_cameras := v; st_scenes := st_scenes r; m_default_material := m_default_material r; m_scene_cache := m_scene_cache r; m_current_scene := m_current_scene r; m_api := m_api r; m_context := m_context r |}.

Definition set_st_scenes (v : gmap addr Scene1) (r : State) : State :=
  {| st_shapes := st_shapes r; st_materials := st_materials r; st_textures := st_textures r; st_lights := st_lights r; st_cameras := st_cameras r; st_scenes := v; m_default_material := m_default_material r; m_scene_cache := m_scene_cache r; m_current_scene := m_current_scene r; m_api := m_api r; m_context := m_context r |}.

Definition set_m_scene_cache (v : gmap addr ClwSceneData) (r : State) : State :=
  {| st_shapes := st_shapes r; st_materials := st_materials r; st_textures := st_textures r; st_lights := st_lights r; st_cameras := st_cameras r; st_scenes := st_scenes r; m_default_material := m_default_material r; m_scene_cache := v; m_current_scene := m_current_scene r; m_api := m_api r; m_context := m_context r |}.

Definition set_m_current_scene (v : option addr) (r : State) : State :=
  {| st_shapes := st_shapes r; st_materials := st_materials r; st_textures := st_textures r; st_lights := st_lights r; st_cameras := st_cameras r; st_scenes := st_scenes r; m_default_material := m_default_material r; m_scene_cache := m_scene_cache r; m_current_scene := v; m_api := m_api r; m_context := m_context r |}.

Definition set_m_api (v : IntersectionApi) (r : State) : State :=
  {| st_shapes := st_shapes r; st_materials := st_materials r; st_textures := st_textures r; st_lights := st_lights r; st_cameras := st_cameras r; st_scenes := st_scenes r; m_default_material := m_default_material r; m_scene_cache := m_scene_cache r; m_current_scene := m_current_scene r; m_api := v; m_context := m_context r |}.

Definition set_m_context (v : list DeviceOp) (r : State) : State :=
  {| st_shapes := st_shapes r; st_materials := st_materials r; st_textures := st_textures r; st_lights := st_lights r; st_cameras := st_cameras r; st_scenes := st_scenes r; m_default_material := m_default_material r; m_scene_cache := m_scene_cache r; m_current_scene := m_current_scene r; m_api := m_api r; m_context := v |}.

Definition with_camera (v : list ClwScene.Camera) (r : ClwSceneData) : ClwSceneData :=
  {| camera := v; camera_type := camera_type r; vertices := vertices r; normals := normals r; uvs := uvs r; indices := indices r; shapes := shapes r; materialids := materialids r; materials := materials r; textures := textures r; texturedata := texturedata r; lights := lights r; num_lights := num_lights r; envmapidx := envmapidx r; volumes := volumes r; isect_shapes := isect_shapes r; visible_shapes := visible_shapes r; material_bundle := material_bundle r; texture_bundle := texture_bundle r |}.

Definition with_camera_type (v : ClwScene.CameraType) (r : ClwSceneData) : ClwSceneData :=
  {| camera := camera r; camera_type := v; vertices := vertices r; normals := normals r; uvs := uvs r; indices := indices r; shapes := shapes r; materialids := materialids r; materials := materials r; textures := textures r; texturedata := texturedata r; lights := lights r; num_lights := num_lights r; envmapidx := envmapidx r; volumes := volumes r; isect_shapes := isect_shapes r; visible_shapes := visible_shapes r; material_bundle := material_bundle r; texture_bundle := texture_bundle r |}.

Definition with_vertices (v : list float3) (r : ClwSceneData) : ClwSceneData :=
  {| camera := camera r; camera_type := camera_type r; vertices := v; normals := normals r; uvs := uvs r; indices := indices r; shapes := shapes r; materialids := materialids r; materials := materials r; textures := textures r; texturedata := texturedata r; lights := lights r; num_lights := num_lights r; envmapidx := envmapidx r; volumes := volumes r; isect_shapes := isect_shapes r; visible_shapes := visible_shapes r; material_bundle := material_bundle r; texture_bundle := texture_bundle r |}.

Definition with_normals (v : list float3) (r : ClwSceneData) : ClwSceneData :=
  {| camera := camera r; camera_type := camera_type r; vertices := vertices r; normals := v; uvs := uvs r; indices := indices r; shapes := shapes r; materialids := materialids r; materials := materials r; textures := textures r; texturedata := texturedata r; lights := lights r; num_lights := num_lights r; envmapidx := envmapidx r; volumes := volumes r; isect_shapes := isect_shapes r; visible_shapes := visible_shapes r; material_bundle := material_bundle r; texture_bundle := texture_bundle r |}.

Definition with_uvs (v : list float2) (r : ClwSceneData) : ClwSceneData :=
  {| camera := camera r; camera_type := camera_type r; vertices := vertices r; normals := normals r; uvs := v; indices := indices r; shapes := shapes r; materialids := materialids r; materials := materials r; textures := textures r; texturedata := texturedata r; lights := lights r; num_lights := num_lights r; envmapidx := envmapidx r; volumes := volumes r; isect_shapes := isect_shapes r; visible_shapes := visible_shapes r; material_bundle := material_bundle r; texture_bundle := texture_bundle r |}.

Definition with_indices (v : list Z) (r : ClwSceneData) : ClwSceneData :=
  {| camera := camera r; camera_type := camera_type r; vertices := vertices r; normals := normals r; uvs := uvs r; indices := v; shapes := shapes r; materialids := materialids r; materials := materials r; textures := textures r; texturedata := texturedata r; lights := lights r; num_lights := num_lights r; envmapidx := envmapidx r; volumes := volumes r; isect_shapes := isect_shapes r; visible_shapes := visible_shapes r; material_bundle := material_bundle r; texture_bundle := texture_bundle r |}.

Definition with_shapes (v : list ClwScene.Shape) (r : ClwSceneData) : ClwSceneData :=
  {| camera := camera r; camera_type := camera_type r; vertices := vertices r; normals := normals r; uvs := uvs r; indices := indices r; shapes := v; materialids := materialids r; materials := materials r; textures := textures r; texturedata := texturedata r; lights := lights r; num_lights := num_lights r; envmapidx := envmapidx r; volumes := volumes r; isect_shapes := isect_shapes r; visible_shapes := visible_shapes r; material_bundle := material_bundle r; texture_bundle := texture_bundle r |}.

Definition with_materialids (v : list Z) (r : ClwSceneData) : ClwSceneData :=
  {| camera := camera r; camera_type := camera_type r; vertices := vertices r; normals := normals r; uvs := uvs r; indices := indices r; shapes := shapes r; materialids := v; materials := materials r; textures := textures r; texturedata := texturedata r; lights := lights r; num_lights := num_lights r; envmapidx := envmapidx r; volumes := volumes r; isect_shapes := isect_shapes r; visible_shapes := visible_shapes r; material_bundle := material_bundle r; texture_bundle := texture_bundle r |}.

Definition with_materials (v : list ClwScene.Material) (r : ClwSceneData) : ClwSceneData :=
  {| camera := camera r; camera_type := camera_type r; vertices := vertices r; normals := normals r; uvs := uvs r; indices := indices r; shapes := shapes r; materialids := materialids r; materials := v; textures := textures r; texturedata := texturedata r; lights := lights r; num_lights := num_lights r; envmapidx := envmapidx r; volumes := volumes r; isect_shapes := isect_shapes r; visible_shapes := visible_shapes r; material_bundle := material_bundle r; texture_bundle := texture_bundle r |}.

Definition with_textures (v : list ClwScene.Texture) (r : ClwSceneData) : ClwSceneData :=
  {| camera := camera r; camera_type := camera_type r; vertices := vertices r; normals := normals r; uvs := uvs r; indices := indices r; shapes := shapes r; materialids := materialids r; materials := materials r; textures := v; texturedata := texturedata r; lights := lights r; num_lights := num_lights r; envmapidx := envmapidx r; volumes := volumes r; isect_shapes := isect_shapes r; visible_shapes := visible_shapes r; material_bundle := material_bundle r; texture_bundle := texture_bundle r |}.

Definition with_texturedata (v : list Z) (r : ClwSceneData) : ClwSceneData :=
  {| camera := camera r; camera_type := camera_type r; vertices := vertices r; normals := normals r; uvs := uvs r; indices := indices r; shapes := shapes r; materialids := materialids r; materials := materials r; textures := textures r; texturedata := v; lights := lights r; num_lights := num_lights r; envmapidx := envmapidx r; volumes := volumes r; isect_shapes := isect_shapes r; visible_shapes := visible_shapes r; material_bundle := material_bundle r; texture_bundle := texture_bundle r |}.

Definition with_lights (v : list ClwScene.Light) (r : ClwSceneData) : ClwSceneData :=
  {| camera := camera r; camera_type := camera_type r; vertices := vertices r; normals := normals r; uvs := uvs r; indices := indices r; shapes := shapes r; materialids := materialids r; materials := materials r; textures := textures r; texturedata := texturedata r; lights := v; num_lights := num_lights r; envmapidx := envmapidx r; volumes := volumes r; isect_shapes := isect_shapes r; visible_shapes := visible_shapes r; material_bundle := material_bundle r; texture_bundle := texture_bundle r |}.

Definition with_num_lights (v : Z) (r : ClwSceneData) : ClwSceneData :=
  {| camera := camera r; camera_type := camera_type r; vertices := vertices r; normals := normals r; uvs := uvs r; indices := indices r; shapes := shapes r; materialids := materialids r; materials := materials r; textures := textures r; texturedata := texturedata r; lights := lights r; num_lights := v; envmapidx := envmapidx r; volumes := volumes r; isect_shapes := isect_shapes r; visible_shapes := visible_shapes r; material_bundle := material_bundle r; texture_bundle := texture_bundle r |}.

Definition with_envmapidx (v : Z) (r : ClwSceneData) : ClwSceneData :=
  {| camera := camera r; camera_type := camera_type r; vertices := vertices r; normals := normals r; uvs := uvs r; indices := indices r; shapes := shapes r; materialids := materialids r; materials := materials r; textures := textures r; texturedata := texturedata r; lights := lights r; num_lights := num_lights r; envmapidx := v; volumes := volumes r; isect_shapes := isect_shapes r; visible_shapes := visible_shapes r; material_bundle := material_bundle r; texture_bundle := texture_bundle r |}.

Definition with_volumes (v : list ClwScene.Volume) (r : ClwSceneData) : ClwSceneData :=
  {| camera := camera r; camera_type := camera_type r; vertices := vertices r; normals := normals r; uvs := uvs r; indices := indices r; shapes := shapes r; materialids := materialids r; materials := materials r; textures := textures r; texturedata := texturedata r; lights := lights r; num_lights := num_lights r; envmapidx := envmapidx r; volumes := v; isect_shapes := isect_shapes r; visible_shapes := visible_shapes r; material_bundle := material_bundle r; texture_bundle := texture_bundle r |}.

Definition with_isect_shapes (v : list handle) (r : ClwSceneData) : ClwSceneData :=
  {| camera := camera r; camera_type := camera_type r; vertices := vertices r; normals := normals r; uvs := uvs r; indices := indices r; shapes := shapes r; materialids := materialids r; materials := materials r; textures := textures r; texturedata := texturedata r; lights := lights r; num_lights := num_lights r; envmapidx := envmapidx r; volumes := volumes r; isect_shapes := v; visible_shapes := visible_shapes r; material_bundle := material_bundle r; texture_bundle := texture_bundle r |}.

Definition with_visible_shapes (v : list handle) (r : ClwSceneData) : ClwSceneData :=
  {| camera := camera r; camera_type := camera_type r; vertices := vertices r; normals := normals r; uvs := uvs r; indices := indices r; shapes := shapes r; materialids := materialids r; materials := materials r; textures := textures r; texturedata := texturedata r; lights := lights r; num_lights := num_lights r; envmapidx := envmapidx r; volumes := volumes r; isect_shapes := isect_shapes r; visible_shapes := v; material_bundle := material_bundle r; texture_bundle := texture_bundle r |}.

Definition with_material_bundle (v : option Collector.Bundle) (r : ClwSceneData) : ClwSceneData :=
  {| camera := camera r; camera_type := camera_type r; vertices := vertices r; normals := normals r; uvs := uvs r; indices := indices r; shapes := shapes r; materialids := materialids r; materials := materials r; textures := textures r; texturedata := texturedata r; lights := lights r; num_lights := num_lights r; envmapidx := envmapidx r; volumes := volumes r; isect_shapes := isect_shapes r; visible_shapes := visible_shapes r; material_bundle := v; texture_bundle := texture_bundle r |}.

Definition with_texture_bundle (v : option Collector.Bundle) (r : ClwSceneData) : ClwSceneData :=
  {| camera := camera r; camera_type := camera_type r; vertices := vertices r; normals := normals r; uvs := uvs r; indices := indices r; shapes := shapes r; materialids := materialids r; materials := materials r; textures := textures r; texturedata := texturedata r; lights := lights r; num_lights := num_lights r; envmapidx := envmapidx r; volumes := volumes r; isect_shapes := isect_shapes r; visible_shapes := visible_shapes r; material_bundle := material_bundle r; texture_bundle := v |}.

Module WithMaterial.

Definition kx (v : float4) (r : ClwScene.Material) : ClwScene.Material :=
  {| ClwScene.kx := v; ClwScene.ni := ClwScene.ni r; ClwScene.ns := ClwScene.ns r; ClwScene.kxmapidx := ClwScene.kxmapidx r; ClwScene.nmapidx := ClwScene.nmapidx r; ClwScene.nsmapidx := ClwScene.nsmapidx r; ClwScene.fresnel := ClwScene.fresnel r; ClwScene.brdftopidx := ClwScene.brdftopidx r; ClwScene.brdfbaseidx := ClwScene.brdfbaseidx r; ClwScene.type := ClwScene.type r; ClwScene.bump_flag := ClwScene.bump_flag r |}.

Definition ni (v : float) (r : ClwScene.Material) : ClwScene.Material :=
  {| ClwScene.kx := ClwScene.kx r; ClwScene.ni := v; ClwScene.ns := ClwScene.ns r; ClwScene.kxmapidx := ClwScene.kxmapidx r; ClwScene.nmapidx := ClwScene.nmapidx r; ClwScene.nsmapidx := ClwScene.nsmapidx r; ClwScene.fresnel := ClwScene.fresnel r; ClwScene.brdftopidx := ClwScene.brdftopidx r; ClwScene.brdfbaseidx := ClwScene.brdfbaseidx r; ClwScene.type := ClwScene.type r; ClwScene.bump_flag := ClwScene.bump_flag r |}.

Definition ns (v : float) (r : ClwScene.Material) : ClwScene.Material :=
  {| ClwScene.kx := ClwScene.kx r; ClwScene.ni := ClwScene.ni r; ClwScene.ns := v; ClwScene.kxmapidx := ClwScene.kxmapidx r; ClwScene.nmapidx := ClwScene.nmapidx r; ClwScene.nsmapidx := ClwScene.nsmapidx r; ClwScene.fresnel := ClwScene.fresnel r; ClwScene.brdftopidx := ClwScene.brdftopidx r; ClwScene.brdfbaseidx := ClwScene.brdfbaseidx r; ClwScene.type := ClwScene.type r; ClwScene.bump_flag := ClwScene.bump_flag r |}.

Definition kxmapidx (v : Z) (r : ClwScene.Material) : ClwScene.Material :=
  {| ClwScene.kx := ClwScene.kx r; ClwScene.ni := ClwScene.ni r; ClwScene.ns := ClwScene.ns r; ClwScene.kxmapidx := v; ClwScene.nmapidx := ClwScene.nmapidx r; ClwScene.nsmapidx := ClwScene.nsmapidx r; ClwScene.fresnel := ClwScene.fresnel r; ClwScene.brdftopidx := ClwScene.brdftopidx r; ClwScene.brdfbaseidx := ClwScene.brdfbaseidx r; ClwScene.type := ClwScene.type r; ClwScene.bump_flag := ClwScene.bump_flag r |}.

Definition nmapidx (v : Z) (r : ClwScene.Material) : ClwScene.Material :=
  {| ClwScene.kx := ClwScene.kx r; ClwScene.ni := ClwScene.ni r; ClwScene.ns := ClwScene.ns r; ClwScene.kxmapidx := ClwScene.kxmapidx r; ClwScene.nmapidx := v; ClwScene.nsmapidx := ClwScene.nsmapidx r; ClwScene.fresnel := ClwScene.fresnel r; ClwScene.brdftopidx := ClwScene.brdftopidx r; ClwScene.brdfbaseidx := ClwScene.brdfbaseidx r; ClwScene.type := ClwScene.type r; ClwScene.bump_flag := ClwScene.bump_flag r |}.

Definition nsmapidx (v : Z) (r : ClwScene.Material) : ClwScene.Material :=
  {| ClwScene.kx := ClwScene.kx r; ClwScene.ni := ClwScene.ni r; ClwScene.ns := ClwScene.ns r; ClwScene.kxmapidx := ClwScene.kxmapidx r; ClwScene.nmapidx := ClwScene.nmapidx r; ClwScene.nsmapidx := v; ClwScene.fresnel := ClwScene.fresnel r; ClwScene.brdftopidx := ClwScene.brdftopidx r; ClwScene.brdfbaseidx := ClwScene.brdfbaseidx r; ClwScene.type := ClwScene.type r; ClwScene.bump_flag := ClwScene.bump_flag r |}.

Definition fresnel (v : float) (r : ClwScene.Material) : ClwScene.Material :=
  {| ClwScene.kx := ClwScene.kx r; ClwScene.ni := ClwScene.ni r; ClwScene.ns := ClwScene.ns r; ClwScene.kxmapidx := ClwScene.kxmapidx r; ClwScene.nmapidx := ClwScene.nmapidx r; ClwScene.nsmapidx := ClwScene.nsmapidx r; ClwScene.fresnel := v; ClwScene.brdftopidx := ClwScene.brdftopidx r; ClwScene.brdfbaseidx := ClwScene.brdfbaseidx r; ClwScene.type := ClwScene.type r; ClwScene.bump_flag := ClwScene.bump_flag r |}.

Definition brdftopidx (v : Z) (r : ClwScene.Material) : ClwScene.Material :=
  {| ClwScene.kx := ClwScene.kx r; ClwScene.ni := ClwScene.ni r; ClwScene.ns := ClwScene.ns r; ClwScene.kxmapidx := ClwScene.kxmapidx r; ClwScene.nmapidx := ClwScene.nmapidx r; ClwScene.nsmapidx := ClwScene.nsmapidx r; ClwScene.fresnel := ClwScene.fresnel r; ClwScene.brdftopidx := v; ClwScene.brdfbaseidx := ClwScene.brdfbaseidx r; ClwScene.type := ClwScene.type r; ClwScene.bump_flag := ClwScene.bump_flag r |}.

Definition brdfbaseidx (v : Z) (r : ClwScene.Material) : ClwScene.Material :=
  {| ClwScene.kx := ClwScene.kx r; ClwScene.ni := ClwScene.ni r; ClwScene.ns := ClwScene.ns r; ClwScene.kxmapidx := ClwScene.kxmapidx r; ClwScene.nmapidx := ClwScene.nmapidx r; ClwScene.nsmapidx := ClwScene.nsmapidx r; ClwScene.fresnel := ClwScene.fresnel r; ClwScene.brdftopidx := ClwScene.brdftopidx r; ClwScene.brdfbaseidx := v; ClwScene.type := ClwScene.type r; ClwScene.bump_flag := ClwScene.bump_flag r |}.

Definition type (v : ClwScene.Bxdf) (r : ClwScene.Material) : ClwScene.Material :=
  {| ClwScene.kx := ClwScene.kx r; ClwScene.ni := ClwScene.ni r; ClwScene.ns := ClwScene.ns r; ClwScene.kxmapidx := ClwScene.kxmapidx r; ClwScene.nmapidx := ClwScene.nmapidx r; ClwScene.nsmapidx := ClwScene.nsmapidx r; ClwScene.fresnel := ClwScene.fresnel r; ClwScene.brdftopidx := ClwScene.brdftopidx r; ClwScene.brdfbaseidx := ClwScene.brdfbaseidx r; ClwScene.type := v; ClwScene.bump_flag := ClwScene.bump_flag r |}.

Definition bump_flag (v : Z) (r : ClwScene.Material) : ClwScene.Material :=
  {| ClwScene.kx := ClwScene.kx r; ClwScene.ni := ClwScene.ni r; ClwScene.ns := ClwScene.ns r; ClwScene.kxmapidx := ClwScene.kxmapidx r; ClwScene.nmapidx := ClwScene.nmapidx r; ClwScene.nsmapidx := ClwScene.nsmapidx r; ClwScene.fresnel := ClwScene.fresnel r; ClwScene.brdftopidx := ClwScene.brdftopidx r; ClwScene.brdfbaseidx := ClwScene.brdfbaseidx r; ClwScene.type := ClwScene.type r; ClwScene.bump_flag := v |}.

End WithMaterial.

Module WithLight.

Definition l_type (v : ClwScene.LightType) (r : ClwScene.Light) : ClwScene.Light :=
  {| ClwScene.l_type := v; ClwScene.l_p := ClwScene.l_p r; ClwScene.l_d := ClwScene.l_d r; ClwScene.l_intensity := ClwScene.l_intensity r; ClwScene.l_ia := ClwScene.l_ia r; ClwScene.l_oa := ClwScene.l_oa r; ClwScene.l_multiplier := ClwScene.l_multiplier r; ClwScene.l_tex := ClwScene.l_tex r; ClwScene.l_texdiffuse := ClwScene.l_texdiffuse r; ClwScene.l_shapeidx := ClwScene.l_shapeidx r; ClwScene.l_primidx := ClwScene.l_primidx r |}.

Definition l_p (v : float3) (r : ClwScene.Light) : ClwScene.Light :=
  {| ClwScene.l_type := ClwScene.l_type r; ClwScene.l_p := v; ClwScene.l_d := ClwScene.l_d r; ClwScene.l_intensity := ClwScene.l_intensity r; ClwScene.l_ia := ClwScene.l_ia r; ClwScene.l_oa := ClwScene.l_oa r; ClwScene.l_multiplier := ClwScene.l_multiplier r; ClwScene.l_tex := ClwScene.l_tex r; ClwScene.l_texdiffuse := ClwScene.l_texdiffuse r; ClwScene.l_shapeidx := ClwScene.l_shapeidx r; ClwScene.l_primidx := ClwScene.l_primidx r |}.

Definition l_d (v : float3) (r : ClwScene.Light) : ClwScene.Light :=
  {| ClwScene.l_type := ClwScene.l_type r; ClwScene.l_p := ClwScene.l_p r; ClwScene.l_d := v; ClwScene.l_intensity := ClwScene.l_intensity r; ClwScene.l_ia := ClwScene.l_ia r; ClwScene.l_oa := ClwScene.l_oa r; ClwScene.l_multiplier := ClwScene.l_multiplier r; ClwScene.l_tex := ClwScene.l_tex r; ClwScene.l_texdiffuse := ClwScene.l_texdiffuse r; ClwScene.l_shapeidx := ClwScene.l_shapeidx r; ClwScene.l_primidx := ClwScene.l_primidx r |}.

Definition l_intensity (v : float3) (r : ClwScene.Light) : ClwScene.Light :=
  {| ClwScene.l_type := ClwScene.l_type r; ClwScene.l_p := ClwScene.l_p r; ClwScene.l_d := ClwScene.l_d r; ClwScene.l_intensity := v; ClwScene.l_ia := ClwScene.l_ia r; ClwScene.l_oa := ClwScene.l_oa r; ClwScene.l_multiplier := ClwScene.l_multiplier r; ClwScene.l_tex := ClwScene.l_tex r; ClwScene.l_texdiffuse := ClwScene.l_texdiffuse r; ClwScene.l_shapeidx := ClwScene.l_shapeidx r; ClwScene.l_primidx := ClwScene.l_primidx r |}.

Definition l_ia (v : float) (r : ClwScene.Light) : ClwScene.Light :=
  {| ClwScene.l_type := ClwScene.l_type r; ClwScene.l_p := ClwScene.l_p r; ClwScene.l_d := ClwScene.l_d r; ClwScene.l_intensity := ClwScene.l_intensity r; ClwScene.l_ia := v; ClwScene.l_oa := ClwScene.l_oa r; ClwScene.l_multiplier := ClwScene.l_multiplier r; ClwScene.l_tex := ClwScene.l_tex r; ClwScene.l_texdiffuse := ClwScene.l_texdiffuse r; ClwScene.l_shapeidx := ClwScene.l_shapeidx r; ClwScene.l_primidx := ClwScene.l_primidx r |}.

Definition l_oa (v : float) (r : ClwScene.Light) : ClwScene.Light :=
  {| ClwScene.l_type := ClwScene.l_type r; ClwScene.l_p := ClwScene.l_p r; ClwScene.l_d := ClwScene.l_d r; ClwScene.l_intensity := ClwScene.l_intensity r; ClwScene.l_ia := ClwScene.l_ia r; ClwScene.l_oa := v; ClwScene.l_multiplier := ClwScene.l_multiplier r; ClwScene.l_tex := ClwScene.l_tex r; ClwScene.l_texdiffuse := ClwScene.l_texdiffuse r; ClwScene.l_shapeidx := ClwScene.l_shapeidx r; ClwScene.l_primidx := ClwScene.l_primidx r |}.

Definition l_multiplier (v : float) (r : ClwScene.Light) : ClwScene.Light :=
  {| ClwScene.l_type := ClwScene.l_type r; ClwScene.l_p := ClwScene.l_p r; ClwScene.l_d := ClwScene.l_d r; ClwScene.l_intensity := ClwScene.l_intensity r; ClwScene.l_ia := ClwScene.l_ia r; ClwScene.l_oa := ClwScene.l_oa r; ClwScene.l_multiplier := v; ClwScene.l_tex := ClwScene.l_tex r; ClwScene.l_texdiffuse := ClwScene.l_texdiffuse r; ClwScene.l_shapeidx := ClwScene.l_shapeidx r; ClwScene.l_primidx := ClwScene.l_primidx r |}.

Definition l_tex (v : Z) (r : ClwScene.Light) : ClwScene.Light :=
  {| ClwScene.l_type := ClwScene.l_type r; ClwScene.l_p := ClwScene.l_p r; ClwScene.l_d := ClwScene.l_d r; ClwScene.l_intensity := ClwScene.l_intensity r; ClwScene.l_ia := ClwScene.l_ia r; ClwScene.l_oa := ClwScene.l_oa r; ClwScene.l_multiplier := ClwScene.l_multiplier r; ClwScene.l_tex := v; ClwScene.l_texdiffuse := ClwScene.l_texdiffuse r; ClwScene.l_shapeidx := ClwScene.l_shapeidx r; ClwScene.l_primidx := ClwScene.l_primidx r |}.

Definition l_texdiffuse (v : Z) (r : ClwScene.Light) : ClwScene.Light :=
  {| ClwScene.l_type := ClwScene.l_type r; ClwScene.l_p := ClwScene.l_p r; ClwScene.l_d := ClwScene.l_d r; ClwScene.l_intensity := ClwScene.l_intensity r; ClwScene.l_ia := ClwScene.l_ia r; ClwScene.l_oa := ClwScene.l_oa r; ClwScene.l_multiplier := ClwScene.l_multiplier r; ClwScene.l_tex := ClwScene.l_tex r; ClwScene.l_texdiffuse := v; ClwScene.l_shapeidx := ClwScene.l_shapeidx r; ClwScene.l_primidx := ClwScene.l_primidx r |}.

Definition l_shapeidx (v : Z) (r : ClwScene.Light) : ClwScene.Light :=
  {| ClwScene.l_type := ClwScene.l_type r; ClwScene.l_p := ClwScene.l_p r; ClwScene.l_d := ClwScene.l_d r; ClwScene.l_intensity := ClwScene.l_intensity r; ClwScene.l_ia := ClwScene.l_ia r; ClwScene.l_oa := ClwScene.l_oa r; ClwScene.l_multiplier := ClwScene.l_multiplier r; ClwScene.l_tex := ClwScene.l_tex r; ClwScene.l_texdiffuse := ClwScene.l_texdiffuse r; ClwScene.l_shapeidx := v; ClwScene.l_primidx := ClwScene.l_primidx r |}.

Definition l_primidx (v : Z) (r : ClwScene.Light) : ClwScene.Light :=
  {| ClwScene.l_type := ClwScene.l_type r; ClwScene.l_p := ClwScene.l_p r; ClwScene.l_d := ClwScene.l_d r; ClwScene.l_intensity := ClwScene.l_intensity r; ClwScene.l_ia := ClwScene.l_ia r; ClwScene.l_oa := ClwScene.l_oa r; ClwScene.l_multiplier := ClwScene.l_multiplier r; ClwScene.l_tex := ClwScene.l_tex r; ClwScene.l_texdiffuse := ClwScene.l_texdiffuse r; ClwScene.l_shapeidx := ClwScene.l_shapeidx r; ClwScene.l_primidx := v |}.

End WithLight.

Module WithShape.

Definition numprims (v : Z) (r : ClwScene.Shape) : ClwScene.Shape :=
  {| ClwScene.numprims := v; ClwScene.startvtx := ClwScene.startvtx r; ClwScene.startidx := ClwScene.startidx r; ClwScene.start_material_idx := ClwScene.start_material_idx r; ClwScene.transform := ClwScene.transform r; ClwScene.linearvelocity := ClwScene.linearvelocity r; ClwScene.angularvelocity := ClwScene.angularvelocity r |}.

Definition startvtx (v : Z) (r : ClwScene.Shape) : ClwScene.Shape :=
  {| ClwScene.numprims := ClwScene.numprims r; ClwScene.startvtx := v; ClwScene.startidx := ClwScene.startidx r; ClwScene.start_material_idx := ClwScene.start_material_idx r; ClwScene.transform := ClwScene.transform r; ClwScene.linearvelocity := ClwScene.linearvelocity r; ClwScene.angularvelocity := ClwScene.angularvelocity r |}.

Definition startidx (v : Z) (r : ClwScene.Shape) : ClwScene.Shape :=
  {| ClwScene.numprims := ClwScene.numprims r; ClwScene.startvtx := ClwScene.startvtx r; ClwScene.startidx := v; ClwScene.start_material_idx := ClwScene.start_material_idx r; ClwScene.transform := ClwScene.transform r; ClwScene.linearvelocity := ClwScene.linearvelocity r; ClwScene.angularvelocity := ClwScene.angularvelocity r |}.

Definition start_material_idx (v : Z) (r : ClwScene.Shape) : ClwScene.Shape :=
  {| ClwScene.numprims := ClwScene.numprims r; ClwScene.startvtx := ClwScene.startvtx r; ClwScene.startidx := ClwScene.startidx r; ClwScene.start_material_idx := v; ClwScene.transform := ClwScene.transform r; ClwScene.linearvelocity := ClwScene.linearvelocity r; ClwScene.angularvelocity := ClwScene.angularvelocity r |}.

Definition transform (v : matrix4x4) (r : ClwScene.Shape) : ClwScene.Shape :=
  {| ClwScene.numprims := ClwScene.numprims r; ClwScene.startvtx := ClwScene.startvtx r; ClwScene.startidx := ClwScene.startidx r; ClwScene.start_material_idx := ClwScene.start_material_idx r; ClwScene.transform := v; ClwScene.linearvelocity := ClwScene.linearvelocity r; ClwScene.angularvelocity := ClwScene.angularvelocity r |}.

Definition linearvelocity (v : float3) (r : ClwScene.Shape) : ClwScene.Shape :=
  {| ClwScene.numprims := ClwScene.numprims r; ClwScene.startvtx := ClwScene.startvtx r; ClwScene.startidx := ClwScene.startidx r; ClwScene.start_material_idx := ClwScene.start_material_idx r; ClwScene.transform := ClwScene.transform r; ClwScene.linearvelocity := v; ClwScene.angularvelocity := ClwScene.angularvelocity r |}.

Definition angularvelocity (v : float3) (r : ClwScene.Shape) : ClwScene.Shape :=
  {| ClwScene.numprims := ClwScene.numprims r; ClwScene.startvtx := ClwScene.startvtx r; ClwScene.startidx := ClwScene.startidx r; ClwScene.start_material_idx := ClwScene.start_material_idx r; ClwScene.transform := ClwScene.transform r; ClwScene.linearvelocity := ClwScene.linearvelocity r; ClwScene.angularvelocity := v |}.

End WithShape.

(** ** The execution monad

    A computation runs on the state and either returns, throws a
    [std::runtime_error] (the state at the throw is kept), leaves the defined
    behaviour of the program ([Fault]: a null or dangling pointer is
    dereferenced, an assertion fails, a buffer is overrun, or a collaborator
    that is not part of the sources rejects its argument), or exhausts the
    fuel of the one unbounded loop. *)
Inductive Result (A : Type) :=
| Ok (a : A) (s : State)
| Throw (msg : string) (s : State)
| Fault
| OutOfFuel.

Arguments Ok {A} a s.
Arguments Throw {A} msg s.
Arguments Fault {A}.
Arguments OutOfFuel {A}.

Definition M (A : Type) : Type := State -> Result A.

#[global] Instance M_ret : MRet M := fun A a s => Ok a s.

#[global] Instance M_bind : MBind M := fun A B f m s =>
  match m s with
  | Ok a s' => f a s'
  | Throw msg s' => Throw msg s'
  | Fault => Fault
  | OutOfFuel => OutOfFuel
  end.

Definition throw {A} (msg : string) : M A := fun s => Throw msg s.
Definition fault {A} : M A := fun _ => Fault.
Definition out_of_fuel {A} : M A := fun _ => OutOfFuel.
Definition gets {A} (f : State -> A) : M A := fun s => Ok (f s) s.
Definition modify (f : State -> State) : M unit := fun s => Ok tt (f s).

(** A read that must succeed for the program to stay defined. *)
Definition defined {A} (o : option A) : M A :=
  match o with
  | Some a => mret a
  | None => fault
  end.

Definition assert_false {A} : M A := fault.

(** [for (auto& x : l) body] with the loop-carried variables in [b]. *)
Fixpoint foldM {A B} (body : B -> A -> M B) (l : list A) (b : B) : M B :=
  match l with
  | [] => mret b
  | a :: l' => b' ← body b a; foldM body l' b'
  end.

Definition for_each {A} (l : list A) (body : A -> M unit) : M unit :=
  foldM (fun _ a => body a) l tt.

(** ** Partition of the shapes ([SplitMeshesAndInstances]) *)

Definition is_instance (s : Shape) : bool :=
  match shape_kind s with
  | Instance _ => true
  | Mesh _ => false
  end.

Definition GetBaseShape (s : Shape) : option addr :=
  match shape_kind s with
  | Instance b => Some b
  | Mesh _ => None
  end.

(** [static_cast<Mesh const*>] followed by a use of the mesh. *)
Definition as_mesh (s : Shape) : option MeshData :=
  match shape_kind s with
  | Mesh d => Some d
  | Instance _ => None
  end.

(** First loop: every shape of the iterator goes to [meshes] or to
    [instances]. *)
Fixpoint split_shapes (heap : gmap addr Shape) (shape_iter : list addr)
    (meshes instances : StdSet.t) : option (StdSet.t * StdSet.t) :=
  match shape_iter with
  | [] => Some (meshes, instances)
  | shape :: rest =>
      s ← heap !! shape;
      if negb (is_instance s)
      then split_shapes heap rest (StdSet.emplace shape meshes) instances
      else split_shapes heap rest meshes (StdSet.emplace shape instances)
  end.

(** Second loop: the base of every instance that is not in [meshes]. *)
Fixpoint split_excluded (heap : gmap addr Shape) (instances : list addr)
    (meshes excluded_meshes : StdSet.t) : option StdSet.t :=
  match instances with
  | [] => Some excluded_meshes
  | i :: rest =>
      s ← heap !! i;
      base_mesh ← GetBaseShape s;
      if negb (StdSet.find base_mesh meshes)
      then split_excluded heap rest meshes (StdSet.emplace base_mesh excluded_meshes)
      else split_excluded heap rest meshes excluded_meshes
  end.

Record Partition := mk_Partition {
  meshes : StdSet.t;
  instances : StdSet.t;
  excluded_meshes : StdSet.t }.

Definition SplitMeshesAndInstances (heap : gmap addr Shape) (shape_iter : list addr)
    : option Partition :=
  '(meshes, instances) ← split_shapes heap shape_iter StdSet.empty StdSet.empty;
  excluded_meshes ← split_excluded heap instances meshes StdSet.empty;
  Some (mk_Partition meshes instances excluded_meshes).

(** The order in which every pass walks the partition. *)
Definition partition_order (p : Partition) : list addr :=
  meshes p ++ excluded_meshes p ++ instances p.

(** [GetShapeIdx]: position of [shape] in that order, or [-1] converted to
    [std::size_t]. *)
Definition GetShapeIdx (heap : gmap addr Shape) (shape_iter : list addr)
    (shape : addr) : option Z :=
  p ← SplitMeshesAndInstances heap shape_iter;
  Some (match index_of shape (partition_order p) with
        | Some idx => Z.of_nat idx
        | None => 2 ^ 64 - 1
        end).

(** ** Access to the stores *)

Definition deref {T} (store : State -> gmap addr T) (a : addr) : M T :=
  fun s => defined (store s !! a) s.

(** The compiled record of a scene is the cache entry under the scene's
    address; [out] in the source is a reference to it. *)
Definition get_out (scene : addr) : M ClwSceneData :=
  deref m_scene_cache scene.

Definition update_out (scene : addr) (f : ClwSceneData -> ClwSceneData) : M unit :=
  out ← get_out scene;
  modify (fun s => set_m_scene_cache (<[scene := f out]> (m_scene_cache s)) s).

Definition CreateShapeIterator (scene : addr) : M (list addr) :=
  sc ← deref st_scenes scene; mret (scene_shapes sc).

Definition CreateLightIterator (scene : addr) : M (list addr) :=
  sc ← deref st_scenes scene; mret (scene_lights sc).

Definition GetCamera (scene : addr) : M (option addr) :=
  sc ← deref st_scenes scene; mret (scene_camera sc).

Definition GetDirtyFlags (scene : addr) : M Z :=
  sc ← deref st_scenes scene; mret (scene_dirty_flags sc).

Definition ClearDirtyFlags (scene : addr) : M unit :=
  sc ← deref st_scenes scene;
  modify (fun s => set_st_scenes
    (<[scene := mk_Scene1 (scene_shapes sc) (scene_lights sc) (scene_camera sc)
                  Scene1Flags.kNone]> (st_scenes s)) s).

(** Modelled from the spec: [Scene1::GetNumLights] ([scene1.h] is not part
    of the sources) is the number of lights the light iterator yields. *)
Definition GetNumLights (scene : addr) : M nat :=
  sc ← deref st_scenes scene; mret (length (scene_lights sc)).

Definition Shape_SetDirty (a : addr) (d : bool) : M unit :=
  s ← deref st_shapes a;
  modify (fun st => set_st_shapes
    (<[a := mk_Shape (shape_kind s) (shape_transform s) (shape_material s) d]>
       (st_shapes st)) st).

Definition Material_SetDirty (a : addr) (d : bool) : M unit :=
  m ← deref st_materials a;
  modify (fun st => set_st_materials
    (<[a := mk_Material (material_kind m) (material_inputs m) d]>
       (st_materials st)) st).

Definition Light_SetDirty (a : addr) (d : bool) : M unit :=
  l ← deref st_lights a;
  modify (fun st => set_st_lights
    (<[a := mk_Light (light_kind l) (light_position l) (light_direction l)
              (light_radiance l) d]> (st_lights st)) st).

Definition Camera_SetDirty (a : addr) (d : bool) : M unit :=
  c ← deref st_cameras a;
  modify (fun st => set_st_cameras
    (<[a := mk_Camera (GetForwardVector c) (GetUpVector c) (GetRightVector c)
              (GetPosition c) (GetAperture c) (GetAspectRatio c) (GetSensorSize c)
              (GetFocalLength c) (GetFocusDistance c) (GetDepthRange c) d]>
       (st_cameras st)) st).

(** The partition of the scene's shapes, read from the current stores. *)
Definition split_scene (shape_iter : list addr) : M Partition :=
  fun s => defined (SplitMeshesAndInstances (st_shapes s) shape_iter) s.

(** ** Device context *)

Definition device (o : DeviceOp) : M unit :=
  modify (fun s => set_m_context (m_context s ++ [o]) s).

(** ** Intersection API calls *)

Definition update_api (f : IntersectionApi -> IntersectionApi) : M unit :=
  modify (fun s => set_m_api (f (m_api s)) s).

Definition api_create (g : RRGeometry) : M handle :=
  fun s =>
    let api := m_api s in
    let h := api_next api in
    Ok h (set_m_api
            (mk_Api (<[h := mk_RRShape g None None]> (api_shapes api))
                    (N.succ h) (api_attached api) (api_committed api)) s).

Definition api_shape (h : handle) : M RRShape :=
  fun s => defined (api_shapes (m_api s) !! h) s.

Definition SetTransform (h : handle) (m : matrix) (minv : InverseOf) : M unit :=
  sh ← api_shape h;
  update_api (fun api =>
    mk_Api (<[h := mk_RRShape (rr_geometry sh) (Some (m, minv)) (rr_id sh)]> (api_shapes api))
           (api_next api) (api_attached api) (api_committed api)).

Definition SetId (h : handle) (id : Z) : M unit :=
  sh ← api_shape h;
  update_api (fun api =>
    mk_Api (<[h := mk_RRShape (rr_geometry sh) (rr_transform sh) (Some id)]> (api_shapes api))
           (api_next api) (api_attached api) (api_committed api)).

Definition DetachShape (h : handle) : M unit :=
  update_api (fun api =>
    mk_Api (api_shapes api) (api_next api)
           (filter (fun x => x ≠ h) (api_attached api)) (api_committed api)).

Definition DeleteShape (h : handle) : M unit :=
  update_api (fun api =>
    mk_Api (delete h (api_shapes api)) (api_next api)
           (api_attached api) (api_committed api)).

Definition AttachShape (h : handle) : M unit :=
  update_api (fun api =>
    mk_Api (api_shapes api) (api_next api)
           (api_attached api ++ [h]) (api_committed api)).

Definition DetachAll : M unit :=
  update_api (fun api =>
    mk_Api (api_shapes api) (api_next api) [] (api_committed api)).

Definition Commit : M unit :=
  update_api (fun api =>
    mk_Api (api_shapes api) (api_next api) (api_attached api) (api_attached api)).

(** [sizeof(float3)]: four 32-bit lanes. *)
Definition sizeof_float3 : Z := 16.

(** [id++] on an [int]. *)
Definition int_succ (id : Z) : Z := static_cast_int (id + 1).

(** [m_api->CreateMesh(...)] with the arguments the tracker passes for a
    mesh, then [SetTransform].  The index array is passed as it is: the
    [reinterpret_cast] hands the API the mesh's own array. *)
Definition create_mesh_shape (mesh : addr) : M handle :=
  s ← deref st_shapes mesh;
  d ← defined (as_mesh s);
  shape ← api_create
    (RRMesh (GetVertices d) (static_cast_int (Z.of_nat (GetNumVertices d)))
            sizeof_float3 (GetIndices d) 0
            (static_cast_int (Z.of_nat (GetNumIndices d / 3))));
  let transform := shape_transform s in
  SetTransform shape transform (inverse transform);;
  mret shape.

Definition push_isect (scene : addr) (shape : handle) : M unit :=
  update_out scene (fun out => with_isect_shapes (isect_shapes out ++ [shape]) out).

Definition push_visible (scene : addr) (shape : handle) : M unit :=
  update_out scene (fun out => with_visible_shapes (visible_shapes out ++ [shape]) out).

(** Loop-carried variables of [UpdateIntersector]: the next id and the
    shape-to-handle association. *)
Definition IsectLoop : Type := Z * gmap addr handle.

Definition isect_mesh (scene : addr) (st : IsectLoop) (mesh : addr) : M IsectLoop :=
  let '(id, rr_shapes) := st in
  shape ← create_mesh_shape mesh;
  SetId shape id;;
  push_isect scene shape;;
  push_visible scene shape;;
  mret (int_succ id, <[mesh := shape]> rr_shapes).

Definition isect_excluded (scene : addr) (st : IsectLoop) (mesh : addr) : M IsectLoop :=
  let '(id, rr_shapes) := st in
  shape ← create_mesh_shape mesh;
  SetId shape id;;
  push_isect scene shape;;
  mret (int_succ id, <[mesh := shape]> rr_shapes).

Definition isect_instance (scene : addr) (st : IsectLoop) (instance : addr) : M IsectLoop :=
  let '(id, rr_shapes) := st in
  s ← deref st_shapes instance;
  base ← defined (GetBaseShape s);
  let rr_mesh := rr_shapes !! base in
  shape ← api_create (RRInstance rr_mesh);
  let transform := shape_transform s in
  SetTransform shape transform (inverse transform);;
  SetId shape id;;
  push_isect scene shape;;
  push_visible scene shape;;
  mret (int_succ id, rr_shapes).

Definition UpdateIntersector (scene : addr) : M unit :=
  out ← get_out scene;
  for_each (isect_shapes out) (fun shape => DetachShape shape;; DeleteShape shape);;
  update_out scene (with_isect_shapes []);;
  update_out scene (with_visible_shapes []);;
  shape_iter ← CreateShapeIterator scene;
  match shape_iter with
  | [] => throw "No shapes in the scene"
  | _ :: _ =>
      p ← split_scene shape_iter;
      st ← foldM (isect_mesh scene) (meshes p) (1, ∅);
      st ← foldM (isect_excluded scene) (excluded_meshes p) st;
      _ ← foldM (isect_instance scene) (instances p) st;
      mret tt
  end.

Definition ReloadIntersector (scene : addr) : M unit :=
  DetachAll;;
  inout ← get_out scene;
  for_each (visible_shapes inout) AttachShape;;
  Commit.

(** ** Material writer *)

Definition GetMaterialType (material : MaterialObj) : ClwScene.Bxdf :=
  match material_kind material with
  | SingleBxdf t =>
      match t with
      | SingleBxdf.kZero => ClwScene.kZero
      | SingleBxdf.kLambert => ClwScene.kLambert
      | SingleBxdf.kEmissive => ClwScene.kEmissive
      | SingleBxdf.kPassthrough => ClwScene.kPassthrough
      | SingleBxdf.kTranslucent => ClwScene.kTranslucent
      | SingleBxdf.kIdealReflect => ClwScene.kIdealReflect
      | SingleBxdf.kIdealRefract => ClwScene.kIdealRefract
      | SingleBxdf.kMicrofacetGGX => ClwScene.kMicrofacetGGX
      | SingleBxdf.kMicrofacetBeckmann => ClwScene.kMicrofacetBeckmann
      | SingleBxdf.kMicrofacetRefractionGGX => ClwScene.kMicrofacetRefractionGGX
      | SingleBxdf.kMicrofacetRefractionBeckmann => ClwScene.kMicrofacetRefractionBeckmann
      end
  | MultiBxdf t =>
      match t with
      | MultiBxdf.kMix => ClwScene.kMix
      | MultiBxdf.kLayered => ClwScene.kLayered
      | MultiBxdf.kFresnelBlend => ClwScene.kFresnelBlend
      end
  | OtherMaterial => ClwScene.kZero
  end.

(** Modelled from the spec: [Material::GetInputValue] ([material.h] is not
    part of the sources) looks the name up in the material's map of named
    inputs; a name that is not an input of the material is rejected. *)
Definition GetInputValue (material : MaterialObj) (name : string)
    : option Material.InputValue :=
  material_inputs material !! name.

(** A collector index stored into an [int] field. *)
Definition index_to_int (i : nat) : Z := static_cast_int (Z.of_nat i).

(** [GetItemIndex] on a pointer that may be null. *)
Definition GetItemIndexPtr (c : Collector.t) (item : option addr) : option nat :=
  a ← item; Collector.GetItemIndex c a.

(** [value.tex_value ? tex_collector.GetItemIndex(value.tex_value) : -1] *)
Definition tex_index_or_minus_one (tex_collector : Collector.t) (tex : option addr)
    : option Z :=
  match tex with
  | Some t => index_to_int <$> Collector.GetItemIndex tex_collector t
  | None => Some (-1)
  end.

(** The first block of the [switch]: roughness of the microfacet kinds.
    It has no [break]. *)
Definition write_roughness (material : MaterialObj) (tex_collector : Collector.t)
    (clw : ClwScene.Material) : option ClwScene.Material :=
  value ← GetInputValue material "roughness";
  match Material.type value with
  | Material.kFloat4 =>
      Some (WithMaterial.nsmapidx (-1)
             (WithMaterial.ns (f_x (Material.float_value value)) clw))
  | Material.kTexture =>
      idx ← tex_index_or_minus_one tex_collector (Material.tex_value value);
      Some (WithMaterial.nsmapidx idx clw)
  | Material.kMaterial => None
  end.

(** The second block: albedo, normal map, fresnel factor, ior, roughness. *)
Definition write_general (material : MaterialObj) (tex_collector : Collector.t)
    (clw : ClwScene.Material) : option ClwScene.Material :=
  value ← GetInputValue material "albedo";
  clw ← match Material.type value with
        | Material.kFloat4 =>
            Some (WithMaterial.kxmapidx (-1)
                   (WithMaterial.kx (Material.float_value value) clw))
        | Material.kTexture =>
            idx ← tex_index_or_minus_one tex_collector (Material.tex_value value);
            Some (WithMaterial.kxmapidx idx clw)
        | Material.kMaterial => None
        end;
  value ← GetInputValue material "normal";
  clw ← match Material.type value, Material.tex_value value with
        | Material.kTexture, Some tex =>
            idx ← Collector.GetItemIndex tex_collector tex;
            Some (WithMaterial.bump_flag 0
                   (WithMaterial.nmapidx (index_to_int idx) clw))
        | _, _ =>
            value ← GetInputValue material "bump";
            match Material.type value, Material.tex_value value with
            | Material.kTexture, Some tex =>
                idx ← Collector.GetItemIndex tex_collector tex;
                Some (WithMaterial.bump_flag 1
                       (WithMaterial.nmapidx (index_to_int idx) clw))
            | _, _ =>
                Some (WithMaterial.bump_flag 0 (WithMaterial.nmapidx (-1) clw))
            end
        end;
  value ← GetInputValue material "fresnel";
  let clw :=
    match Material.type value with
    | Material.kFloat4 =>
        WithMaterial.fresnel
          (if f32_gt_zero (f_x (Material.float_value value)) then f32_one else f32_zero) clw
    | _ => WithMaterial.fresnel f32_zero clw
    end in
  value ← GetInputValue material "ior";
  let clw :=
    match Material.type value with
    | Material.kFloat4 => WithMaterial.ni (f_x (Material.float_value value)) clw
    | _ => WithMaterial.ni f32_one clw
    end in
  value ← GetInputValue material "roughness";
  let clw :=
    match Material.type value with
    | Material.kFloat4 => WithMaterial.ns (f_x (Material.float_value value)) clw
    | _ => WithMaterial.ns f32_0_99 clw
    end in
  Some clw.

(** The third block: compound materials. *)
Definition write_compound (type : ClwScene.Bxdf) (material : MaterialObj)
    (mat_collector tex_collector : Collector.t)
    (clw : ClwScene.Material) : option ClwScene.Material :=
  value0 ← GetInputValue material "base_material";
  value1 ← GetInputValue material "top_material";
  clw ← match Material.type value0, Material.type value1 with
        | Material.kMaterial, Material.kMaterial =>
            base ← GetItemIndexPtr mat_collector (Material.mat_value value0);
            top ← GetItemIndexPtr mat_collector (Material.mat_value value1);
            Some (WithMaterial.brdftopidx (index_to_int top)
                   (WithMaterial.brdfbaseidx (index_to_int base) clw))
        | _, _ => None
        end;
  match type with
  | ClwScene.kMix =>
      let clw := WithMaterial.fresnel f32_zero clw in
      value ← GetInputValue material "weight";
      match Material.type value with
      | Material.kTexture =>
          idx ← GetItemIndexPtr tex_collector (Material.tex_value value);
          Some (WithMaterial.nsmapidx (index_to_int idx) clw)
      | _ =>
          Some (WithMaterial.ns (f_x (Material.float_value value))
                 (WithMaterial.nsmapidx (-1) clw))
      end
  | _ =>
      let clw := WithMaterial.fresnel f32_one clw in
      value ← GetInputValue material "ior";
      match Material.type value with
      | Material.kFloat4 => Some (WithMaterial.ni (f_x (Material.float_value value)) clw)
      | _ => None
      end
  end.

(** The record [WriteMaterial] leaves at [data]; [None] when an assertion
    fails or a collaborator rejects its argument. *)
Definition write_material_record (material : MaterialObj)
    (mat_collector tex_collector : Collector.t)
    (data : ClwScene.Material) : option ClwScene.Material :=
  let type := GetMaterialType material in
  let clw_material := WithMaterial.type type data in
  match type with
  | ClwScene.kZero => Some (WithMaterial.kx float4_zero clw_material)
  | ClwScene.kMicrofacetGGX
  | ClwScene.kMicrofacetBeckmann
  | ClwScene.kMicrofacetRefractionGGX
  | ClwScene.kMicrofacetRefractionBeckmann =>
      clw_material ← write_roughness material tex_collector clw_material;
      write_general material tex_collector clw_material
  | ClwScene.kLambert
  | ClwScene.kEmissive
  | ClwScene.kPassthrough
  | ClwScene.kTranslucent
  | ClwScene.kIdealRefract
  | ClwScene.kIdealReflect =>
      write_general material tex_collector clw_material
  | ClwScene.kMix
  | ClwScene.kFresnelBlend =>
      write_compound type material mat_collector tex_collector clw_material
  | ClwScene.kLayered => Some clw_material
  end.

Definition WriteMaterial (material : addr) (mat_collector tex_collector : Collector.t)
    (data : ClwScene.Material) : M ClwScene.Material :=
  m ← deref st_materials material;
  clw_material ← defined (write_material_record m mat_collector tex_collector data);
  Material_SetDirty material false;;
  mret clw_material.

(** ** Buffer writes through a mapped pointer *)

(** [std::copy(src, src + n, buf + off)]; the write stays inside the buffer
    or the behaviour is undefined. *)
Definition copy_to {A} (off : nat) (src : list A) (buf : list A) : option (list A) :=
  if decide (off + length src <= length buf)%nat
  then Some (take off buf ++ src ++ drop (off + length src) buf)
  else None.

(** [std::fill(buf + off, buf + off + n, v)] *)
Definition fill_to {A} (off n : nat) (v : A) (buf : list A) : option (list A) :=
  copy_to off (replicate n v) buf.

(** [buf[i] = v] *)
Definition store_at {A} (i : nat) (v : A) (buf : list A) : option (list A) :=
  if decide (i < length buf)%nat then Some (<[i := v]> buf) else None.

(** ** Light writer *)

Definition GetLightType (light : Light) : ClwScene.LightType :=
  match light_kind light with
  | PointLight => ClwScene.kPoint
  | DirectionalLight => ClwScene.kDirectional
  | SpotLight _ => ClwScene.kSpot
  | ImageBasedLight _ _ => ClwScene.kIbl
  | AreaLight _ _ => ClwScene.kArea
  end.

Definition is_ibl (light : Light) : bool :=
  match light_kind light with
  | ImageBasedLight _ _ => true
  | _ => false
  end.

Definition WriteLight (scene : addr) (light : addr) (tex_collector : Collector.t)
    (data : ClwScene.Light) : M ClwScene.Light :=
  l ← deref st_lights light;
  let type := GetLightType l in
  let clw_light := WithLight.l_type type data in
  match light_kind l with
  | PointLight =>
      mret (WithLight.l_intensity (light_radiance l)
             (WithLight.l_p (light_position l) clw_light))
  | DirectionalLight =>
      mret (WithLight.l_intensity (light_radiance l)
             (WithLight.l_d (light_direction l) clw_light))
  | SpotLight cone_shape =>
      mret (WithLight.l_oa (f2_y cone_shape)
             (WithLight.l_ia (f2_x cone_shape)
               (WithLight.l_intensity (light_radiance l)
                 (WithLight.l_d (light_direction l)
                   (WithLight.l_p (light_position l) clw_light)))))
  | ImageBasedLight tex multiplier =>
      idx ← defined (GetItemIndexPtr tex_collector tex);
      mret (WithLight.l_texdiffuse (index_to_int idx)
             (WithLight.l_tex (index_to_int idx)
               (WithLight.l_multiplier multiplier clw_light)))
  | AreaLight shape prim_idx =>
      shape_iter ← CreateShapeIterator scene;
      heap ← gets st_shapes;
      idx ← defined (GetShapeIdx heap shape_iter shape);
      mret (WithLight.l_primidx (static_cast_int (Z.of_nat prim_idx))
             (WithLight.l_shapeidx (static_cast_int idx) clw_light))
  end.

(** One turn of the serialization loop of [UpdateLights];
    [num_lights_written] is the loop-carried counter. *)
Definition write_next_light (scene : addr) (tex_collector : Collector.t)
    (num_lights_written : nat) (light : addr) : M nat :=
  out ← get_out scene;
  data ← defined (lights out !! num_lights_written);
  clw_light ← WriteLight scene light tex_collector data;
  update_out scene (fun out => with_lights (<[num_lights_written := clw_light]> (lights out)) out);;
  let num_lights_written := S num_lights_written in
  l ← deref st_lights light;
  (if is_ibl l
   then update_out scene
          (with_envmapidx (static_cast_int (Z.of_nat num_lights_written - 1)))
   else mret tt);;
  Light_SetDirty light false;;
  mret num_lights_written.

Definition UpdateLights (scene : addr) (mat_collector tex_collector : Collector.t)
    : M unit :=
  num_lights ← GetNumLights scene;
  out ← get_out scene;
  (if decide (length (lights out) < num_lights)%nat
   then device (CreateBuffer BufLights num_lights);;
        update_out scene (with_lights (fresh_buffer num_lights))
   else mret tt);;
  device (MapBuffer BufLights);;
  light_iter ← CreateLightIterator scene;
  update_out scene (with_envmapidx (-1));;
  num_lights_written ← foldM (write_next_light scene tex_collector) light_iter O;
  device (UnmapBuffer BufLights);;
  update_out scene (with_num_lights (static_cast_int (Z.of_nat num_lights_written))).

(** ** Camera *)

Definition UpdateCamera (scene : addr) (mat_collector tex_collector : Collector.t)
    : M unit :=
  ptr ← GetCamera scene;
  a ← defined ptr;
  cam ← deref st_cameras a;
  update_out scene
    (with_camera_type
       (if f32_gt_zero (GetAperture cam) then ClwScene.kPhysical else ClwScene.kDefault));;
  device (MapBuffer BufCamera);;
  out ← get_out scene;
  buf ← defined (store_at 0
    (ClwScene.mk_Camera (GetForwardVector cam) (GetUpVector cam)
       (GetRightVector cam) (GetPosition cam) (GetAperture cam)
       (GetAspectRatio cam) (GetSensorSize cam) (GetFocalLength cam)
       (GetFocusDistance cam) (GetDepthRange cam))
    (camera out));
  update_out scene (with_camera buf);;
  device (UnmapBuffer BufCamera);;
  Camera_SetDirty a false.

(** ** Materials pass *)

Definition write_next_material (scene : addr) (mat_collector tex_collector : Collector.t)
    (num_materials_written : nat) (material : addr) : M nat :=
  out ← get_out scene;
  data ← defined (materials out !! num_materials_written);
  clw_material ← WriteMaterial material mat_collector tex_collector data;
  update_out scene
    (fun out => with_materials (<[num_materials_written := clw_material]> (materials out)) out);;
  mret (S num_materials_written).

Definition UpdateMaterials (scene : addr) (mat_collector tex_collector : Collector.t)
    : M unit :=
  let mat_buffer_size := Collector.GetNumItems mat_collector in
  out ← get_out scene;
  (if decide (length (materials out) < mat_buffer_size)%nat
   then device (CreateBuffer BufMaterials mat_buffer_size);;
        update_out scene (with_materials (fresh_buffer mat_buffer_size))
   else mret tt);;
  device (MapBuffer BufMaterials);;
  update_out scene (with_material_bundle (Some (Collector.CreateBundle mat_collector)));;
  _ ← foldM (write_next_material scene mat_collector tex_collector)
        (Collector.CreateIterator mat_collector) O;
  device (UnmapBuffer BufMaterials).

(** ** Textures pass *)

Definition GetTextureFormat (texture : TextureObj) : ClwScene.TextureFormat :=
  match texture_format texture with
  | Texture.kRgba8 => ClwScene.RGBA8
  | Texture.kRgba16 => ClwScene.RGBA16
  | Texture.kRgba32 => ClwScene.RGBA32
  end.

(** Modelled from the spec: [Texture::GetSizeInBytes] ([texture.h] is not
    part of the sources) is the length of the texture's byte payload. *)
Definition GetSizeInBytes (texture : TextureObj) : nat :=
  length (texture_data texture).

Definition WriteTexture (texture : TextureObj) (data_offset : nat)
    (data : ClwScene.Texture) : ClwScene.Texture :=
  let dim := texture_size texture in
  ClwScene.mk_Texture (fst dim) (snd dim) (GetTextureFormat texture)
    (static_cast_int (Z.of_nat data_offset)).

(** First loop of [UpdateTextures]: one header per texture; the loop carries
    [num_textures_written] and [tex_data_buffer_size]. *)
Definition write_next_texture (scene : addr) (st : nat * nat) (tex : addr)
    : M (nat * nat) :=
  let '(num_textures_written, tex_data_buffer_size) := st in
  t ← deref st_textures tex;
  out ← get_out scene;
  data ← defined (textures out !! num_textures_written);
  buf ← defined (store_at num_textures_written
                   (WriteTexture t tex_data_buffer_size data) (textures out));
  update_out scene (with_textures buf);;
  mret (S num_textures_written, (tex_data_buffer_size + GetSizeInBytes t)%nat).

(** Second loop: the payloads ([WriteTextureData]). *)
Definition write_next_texture_data (scene : addr) (num_bytes_written : nat) (tex : addr)
    : M nat :=
  t ← deref st_textures tex;
  out ← get_out scene;
  buf ← defined (copy_to num_bytes_written (texture_data t) (texturedata out));
  update_out scene (with_texturedata buf);;
  mret (num_bytes_written + GetSizeInBytes t)%nat.

Definition UpdateTextures (scene : addr) (mat_collector tex_collector : Collector.t)
    : M unit :=
  let tex_buffer_size := Collector.GetNumItems tex_collector in
  match tex_buffer_size with
  | O =>
      device (CreateBuffer BufTextures 1);;
      update_out scene (with_textures (fresh_buffer 1));;
      device (CreateBuffer BufTextureData 1);;
      update_out scene (with_texturedata (fresh_buffer 1))
  | S _ =>
      out ← get_out scene;
      (if decide (length (textures out) < tex_buffer_size)%nat
       then device (CreateBuffer BufTextures tex_buffer_size);;
            update_out scene (with_textures (fresh_buffer tex_buffer_size))
       else mret tt);;
      device (MapBuffer BufTextures);;
      update_out scene (with_texture_bundle (Some (Collector.CreateBundle tex_collector)));;
      st ← foldM (write_next_texture scene) (Collector.CreateIterator tex_collector) (O, O);
      let tex_data_buffer_size := snd st in
      device (UnmapBuffer BufTextures);;
      out ← get_out scene;
      (if decide (length (texturedata out) < tex_data_buffer_size)%nat
       then device (CreateBuffer BufTextureData tex_data_buffer_size);;
            update_out scene (with_texturedata (fresh_buffer tex_data_buffer_size))
       else mret tt);;
      device (MapBuffer BufTextureData);;
      _ ← foldM (write_next_texture_data scene) (Collector.CreateIterator tex_collector) O;
      device (UnmapBuffer BufTextureData)
  end.

(** ** Shapes pass *)

(** The counters of [UpdateShapes] and the records kept for the instances'
    base-shape lookup. *)
Record ShapesLoop := mk_ShapesLoop {
  num_vertices_written : nat;
  num_normals_written : nat;
  num_uvs_written : nat;
  num_indices_written : nat;
  num_matids_written : nat;
  num_shapes_written : nat;
  shape_data : gmap addr ClwScene.Shape }.

Record ShapeSizes := mk_ShapeSizes {
  num_vertices : nat;
  num_normals : nat;
  num_uvs : nat;
  num_indices : nat;
  num_material_ids : nat }.

Definition count_mesh (sz : ShapeSizes) (mesh : addr) : M ShapeSizes :=
  s ← deref st_shapes mesh;
  d ← defined (as_mesh s);
  mret (mk_ShapeSizes
          (num_vertices sz + GetNumVertices d)
          (num_normals sz + GetNumNormals d)
          (num_uvs sz + GetNumUVs d)
          (num_indices sz + GetNumIndices d)
          (num_material_ids sz + GetNumIndices d / 3))%nat.

Definition count_instance (sz : ShapeSizes) (instance : addr) : M ShapeSizes :=
  s ← deref st_shapes instance;
  base ← defined (GetBaseShape s);
  b ← deref st_shapes base;
  d ← defined (as_mesh b);
  mret (mk_ShapeSizes (num_vertices sz) (num_normals sz) (num_uvs sz) (num_indices sz)
          (num_material_ids sz + GetNumIndices d / 3))%nat.

Definition linearvelocity_default : float3 := mk_float3 f32_zero f32_zero f32_zero f32_zero.
Definition angularvelocity_default : float3 := mk_float3 f32_zero f32_zero f32_zero f32_one.

(** The shape descriptor prepared for a mesh. *)
Definition mesh_record (d : MeshData) (transform : matrix) (lp : ShapesLoop)
    : ClwScene.Shape :=
  {| ClwScene.numprims := static_cast_int (Z.of_nat (GetNumIndices d / 3));
     ClwScene.startvtx := static_cast_int (Z.of_nat (num_vertices_written lp));
     ClwScene.startidx := static_cast_int (Z.of_nat (num_indices_written lp));
     ClwScene.start_material_idx := static_cast_int (Z.of_nat (num_matids_written lp));
     ClwScene.transform := rows_of transform;
     ClwScene.linearvelocity := linearvelocity_default;
     ClwScene.angularvelocity := angularvelocity_default |}.

(** The indices of a mesh as the [int] buffer receives them: the mapped
    pointer is an [int*], so [std::copy] converts every [std::uint32_t]
    index to [int]. *)
Definition int_indices (d : MeshData) : list Z :=
  static_cast_int <$> GetIndices d.

(** The geometry of one mesh goes to the pools and its record to [shapes]. *)
Definition serialize_mesh (mesh : addr) (d : MeshData) (transform : matrix)
    (lp : ShapesLoop) (out : ClwSceneData) : option (ShapesLoop * ClwSceneData) :=
  let shape := mesh_record d transform lp in
  vertices' ← copy_to (num_vertices_written lp) (GetVertices d) (vertices out);
  normals' ← copy_to (num_normals_written lp) (GetNormals d) (normals out);
  uvs' ← copy_to (num_uvs_written lp) (GetUVs d) (uvs out);
  indices' ← copy_to (num_indices_written lp) (int_indices d) (indices out);
  shapes' ← store_at (num_shapes_written lp) shape (shapes out);
  Some (mk_ShapesLoop
          (num_vertices_written lp + GetNumVertices d)
          (num_normals_written lp + GetNumNormals d)
          (num_uvs_written lp + GetNumUVs d)
          (num_indices_written lp + GetNumIndices d)
          (num_matids_written lp)
          (S (num_shapes_written lp))
          (<[mesh := shape]> (shape_data lp)),
        with_shapes shapes' (with_indices indices' (with_uvs uvs'
          (with_normals normals' (with_vertices vertices' out)))))%nat.

(** [std::fill] of one material-ids region of [n] entries. *)
Definition fill_matids (n : nat) (matidx : Z) (lp : ShapesLoop) (out : ClwSceneData)
    : option (ShapesLoop * ClwSceneData) :=
  matids' ← fill_to (num_matids_written lp) n matidx (materialids out);
  Some (mk_ShapesLoop
          (num_vertices_written lp) (num_normals_written lp) (num_uvs_written lp)
          (num_indices_written lp)
          (num_matids_written lp + n)
          (num_shapes_written lp)
          (shape_data lp),
        with_materialids matids' out)%nat.

Definition material_or_default (material : option addr) : M addr :=
  match material with
  | Some m => mret m
  | None => gets m_default_material
  end.

Definition shapes_mesh (scene : addr) (mat_collector : Collector.t)
    (lp : ShapesLoop) (mesh : addr) : M ShapesLoop :=
  s ← deref st_shapes mesh;
  d ← defined (as_mesh s);
  out ← get_out scene;
  '(lp, out) ← defined (serialize_mesh mesh d (shape_transform s) lp out);
  material ← material_or_default (shape_material s);
  matidx ← defined (Collector.GetItemIndex mat_collector material);
  '(lp, out) ← defined (fill_matids (GetNumIndices d / 3) (index_to_int matidx) lp out);
  update_out scene (fun _ => out);;
  Shape_SetDirty mesh false;;
  mret lp.

Definition shapes_excluded (scene : addr)
    (lp : ShapesLoop) (mesh : addr) : M ShapesLoop :=
  s ← deref st_shapes mesh;
  d ← defined (as_mesh s);
  out ← get_out scene;
  '(lp, out) ← defined (serialize_mesh mesh d (shape_transform s) lp out);
  '(lp, out) ← defined (fill_matids (GetNumIndices d / 3) (-1) lp out);
  update_out scene (fun _ => out);;
  Shape_SetDirty mesh false;;
  mret lp.

(** [shape_data[base_shape]]: [operator[]] of [std::map] inserts a
    value-initialized record when the key is absent. *)
Definition shape_data_at (base_shape : addr) (lp : ShapesLoop)
    : ClwScene.Shape * ShapesLoop :=
  match shape_data lp !! base_shape with
  | Some shape => (shape, lp)
  | None =>
      (filler,
       mk_ShapesLoop
         (num_vertices_written lp) (num_normals_written lp) (num_uvs_written lp)
         (num_indices_written lp) (num_matids_written lp) (num_shapes_written lp)
         (<[base_shape := filler]> (shape_data lp)))
  end.

(** The record of an instance: the copy of its base mesh's record with the
    material range, the transform and the velocities written again. *)
Definition instance_record (base : ClwScene.Shape) (transform : matrix)
    (lp : ShapesLoop) : ClwScene.Shape :=
  WithShape.angularvelocity angularvelocity_default
    (WithShape.linearvelocity linearvelocity_default
      (WithShape.transform (rows_of transform)
        (WithShape.start_material_idx
           (static_cast_int (Z.of_nat (num_matids_written lp))) base))).

Definition serialize_instance (shape : ClwScene.Shape)
    (lp : ShapesLoop) (out : ClwSceneData) : option (ShapesLoop * ClwSceneData) :=
  shapes' ← store_at (num_shapes_written lp) shape (shapes out);
  Some (mk_ShapesLoop
          (num_vertices_written lp) (num_normals_written lp) (num_uvs_written lp)
          (num_indices_written lp) (num_matids_written lp)
          (S (num_shapes_written lp))
          (shape_data lp),
        with_shapes shapes' out).

Definition shapes_instance (scene : addr) (mat_collector : Collector.t)
    (lp : ShapesLoop) (instance : addr) : M ShapesLoop :=
  s ← deref st_shapes instance;
  base_shape ← defined (GetBaseShape s);
  let material := shape_material s in
  let transform := shape_transform s in
  b ← deref st_shapes base_shape;
  bd ← defined (as_mesh b);
  let mesh_num_indices := GetNumIndices bd in
  let '(shape, lp) := shape_data_at base_shape lp in
  let shape := instance_record shape transform lp in
  out ← get_out scene;
  '(lp, out) ← defined (serialize_instance shape lp out);
  material ← material_or_default material;
  mat_idx ← defined (Collector.GetItemIndex mat_collector material);
  '(lp, out) ← defined (fill_matids (mesh_num_indices / 3) (index_to_int mat_idx) lp out);
  update_out scene (fun _ => out);;
  Shape_SetDirty instance false;;
  mret lp.

Definition shapes_loop_start : ShapesLoop :=
  mk_ShapesLoop O O O O O O ∅.

Definition UpdateShapes (scene : addr) (mat_collector tex_collector : Collector.t)
    : M unit :=
  shape_iter ← CreateShapeIterator scene;
  p ← split_scene shape_iter;
  sz ← foldM count_mesh (meshes p) (mk_ShapeSizes O O O O O);
  sz ← foldM count_mesh (excluded_meshes p) sz;
  sz ← foldM count_instance (instances p) sz;
  device (CreateBuffer BufVertices (num_vertices sz));;
  update_out scene (with_vertices (fresh_buffer (num_vertices sz)));;
  device (CreateBuffer BufNormals (num_normals sz));;
  update_out scene (with_normals (fresh_buffer (num_normals sz)));;
  device (CreateBuffer BufUVs (num_uvs sz));;
  update_out scene (with_uvs (fresh_buffer (num_uvs sz)));;
  device (CreateBuffer BufIndices (num_indices sz));;
  update_out scene (with_indices (fresh_buffer (num_indices sz)));;
  let num_shapes :=
    (StdSet.size (meshes p) + StdSet.size (excluded_meshes p)
     + StdSet.size (instances p))%nat in
  device (CreateBuffer BufShapes num_shapes);;
  update_out scene (with_shapes (fresh_buffer num_shapes));;
  device (CreateBuffer BufMaterialIds (num_material_ids sz));;
  update_out scene (with_materialids (fresh_buffer (num_material_ids sz)));;
  device (MapBuffer BufVertices);;
  device (MapBuffer BufNormals);;
  device (MapBuffer BufUVs);;
  device (MapBuffer BufIndices);;
  device (MapBuffer BufMaterialIds);;
  device (MapBuffer BufShapes);;
  lp ← foldM (shapes_mesh scene mat_collector) (meshes p) shapes_loop_start;
  lp ← foldM (shapes_excluded scene) (excluded_meshes p) lp;
  _ ← foldM (shapes_instance scene mat_collector) (instances p) lp;
  device (UnmapBuffer BufVertices);;
  device (UnmapBuffer BufNormals);;
  device (UnmapBuffer BufUVs);;
  device (UnmapBuffer BufIndices);;
  device (UnmapBuffer BufMaterialIds);;
  device (UnmapBuffer BufShapes).

(** ** Full rebuild *)

Definition default_volume : ClwScene.Volume :=
  ClwScene.mk_Volume 1 0 0 0
    (mk_float3 f32_0_09 f32_0_09 f32_0_09 f32_zero)
    (mk_float3 f32_0_1 f32_0_1 f32_0_1 f32_zero)
    (mk_float3 f32_zero f32_zero f32_zero f32_zero).

Definition RecompileFull (scene : addr) (mat_collector tex_collector : Collector.t)
    : M unit :=
  out ← get_out scene;
  for_each (isect_shapes out) DeleteShape;;
  update_out scene (with_isect_shapes []);;
  device (CreateBuffer BufCamera 1);;
  update_out scene (with_camera (fresh_buffer 1));;
  UpdateCamera scene mat_collector tex_collector;;
  UpdateLights scene mat_collector tex_collector;;
  UpdateShapes scene mat_collector tex_collector;;
  UpdateMaterials scene mat_collector tex_collector;;
  UpdateTextures scene mat_collector tex_collector;;
  UpdateIntersector scene;;
  device (CreateBuffer BufVolumes 1);;
  update_out scene (with_volumes [default_volume]).

(** ** Dependency expansion *)

(** Modelled from the spec: [Material::CreateMaterialIterator] and
    [Material::CreateTextureIterator] ([material.h] is not part of the
    sources) yield the materials, respectively the textures, that the inputs
    of the material refer to. *)
Definition CreateMaterialIterator (m : MaterialObj) : list addr :=
  foldr (fun '(_, value) acc =>
           match Material.type value, Material.mat_value value with
           | Material.kMaterial, Some a => StdSet.emplace a acc
           | _, _ => acc
           end) StdSet.empty (map_to_list (material_inputs m)).

Definition CreateTextureIterator (m : MaterialObj) : list addr :=
  foldr (fun '(_, value) acc =>
           match Material.type value, Material.tex_value value with
           | Material.kTexture, Some a => StdSet.emplace a acc
           | _, _ => acc
           end) StdSet.empty (map_to_list (material_inputs m)).

(** Modelled from the spec: [Light::CreateTextureIterator] ([light.h] is not
    part of the sources); only an image-based light refers to a texture. *)
Definition Light_CreateTextureIterator (l : Light) : list addr :=
  match light_kind l with
  | ImageBasedLight (Some tex) _ => [tex]
  | _ => []
  end.

(** The [while (!material_stack.empty())] loop of the first expansion.  The
    head of the list is the top of the stack.  The loop pushes the
    dependencies of every material it pops, visited or not, so its length is
    not bounded by the number of materials: it runs on fuel. *)
Fixpoint drain_material_stack (fuel : nat) (material_stack : list addr)
    (mats : StdSet.t) : M StdSet.t :=
  match material_stack with
  | [] => mret mats
  | m :: material_stack =>
      match fuel with
      | O => out_of_fuel
      | S fuel =>
          mo ← deref st_materials m;
          let mats := StdSet.emplace m mats in
          let material_stack := rev (CreateMaterialIterator mo) ++ material_stack in
          drain_material_stack fuel material_stack mats
      end
  end.

Definition shape_materials (fuel : nat) (item : addr) : M StdSet.t :=
  shape ← deref st_shapes item;
  material ← material_or_default (shape_material shape);
  drain_material_stack fuel [material] StdSet.empty.

Definition material_textures (item : addr) : M StdSet.t :=
  material ← deref st_materials item;
  mret (foldr StdSet.emplace StdSet.empty (CreateTextureIterator material)).

Definition light_textures (item : addr) : M StdSet.t :=
  light ← deref st_lights item;
  mret (foldr StdSet.emplace StdSet.empty (Light_CreateTextureIterator light)).

Definition Collect (c : Collector.t) (iter : list addr) (expand : addr -> M StdSet.t)
    : M Collector.t :=
  foldM (fun c item => found ← expand item; mret (Collector.add c found)) iter c.

Definition Finalize (c : Collector.t) (f : addr -> M unit) : M unit :=
  for_each (Collector.items c) f.

(** [NeedsUpdate] with the dirty bit of every committed item read from a
    store. *)
Definition NeedsUpdate {T} (c : Collector.t) (prev : Collector.Bundle)
    (store : State -> gmap addr T) (is_dirty : T -> bool) : M bool :=
  heap ← gets store;
  bits ← defined (mapM (fun a => is_dirty <$> heap !! a) (Collector.items c));
  mret (negb (bool_decide (Collector.items c = prev)) || existsb id bits).

(** ** [CompileScene] *)

(** [for (...) if (item->IsDirty()) { changed = true; break; }] *)
Fixpoint any_dirty {T} (store : State -> gmap addr T) (is_dirty : T -> bool)
    (iter : list addr) : M bool :=
  match iter with
  | [] => mret false
  | a :: rest =>
      x ← deref store a;
      if is_dirty x then mret true else any_dirty store is_dirty rest
  end.

Definition has_flag (dirty flag : Z) : bool := negb (Z.land dirty flag =? 0).

Definition clear_material_flags (mat_collector : Collector.t) : M unit :=
  Finalize mat_collector (fun item => Material_SetDirty item false).

Definition compile_first (scene : addr) (mat_collector tex_collector : Collector.t)
    : M unit :=
  modify (fun s => set_m_scene_cache (<[scene := ClwScene_new]> (m_scene_cache s)) s);;
  RecompileFull scene mat_collector tex_collector;;
  ReloadIntersector scene;;
  modify (set_m_current_scene (Some scene));;
  ClearDirtyFlags scene;;
  clear_material_flags mat_collector.

Definition compile_cached (scene : addr) (mat_collector tex_collector : Collector.t)
    : M unit :=
  out ← get_out scene;
  dirty ← GetDirtyFlags scene;
  camera ← GetCamera scene;
  match camera with
  | None => throw "No camera in the scene"
  | Some cam =>
      c ← deref st_cameras cam;
      let camera_changed := camera_dirty c in
      (if has_flag dirty Scene1Flags.kCamera || camera_changed
       then UpdateCamera scene mat_collector tex_collector
       else mret tt);;
      light_iter ← CreateLightIterator scene;
      match light_iter with
      | [] => throw "No lights in the scene"
      | _ :: _ =>
          lights_changed ← any_dirty st_lights light_dirty light_iter;
          (if has_flag dirty Scene1Flags.kLights || lights_changed
           then UpdateLights scene mat_collector tex_collector
           else mret tt);;
          shape_iter ← CreateShapeIterator scene;
          match shape_iter with
          | [] => throw "No shapes in the scene"
          | _ :: _ =>
              shapes_changed ← any_dirty st_shapes shape_dirty shape_iter;
              (if has_flag dirty Scene1Flags.kShapes || shapes_changed
               then UpdateShapes scene mat_collector tex_collector;;
                    UpdateIntersector scene;;
                    ReloadIntersector scene
               else mret tt);;
              out ← get_out scene;
              materials_changed ←
                match material_bundle out return M bool with
                | None => mret true
                | Some bundle => NeedsUpdate mat_collector bundle st_materials material_dirty
                end;
              (if materials_changed : bool
               then UpdateMaterials scene mat_collector tex_collector
               else mret tt);;
              out ← get_out scene;
              textures_changed ←
                match Collector.GetNumItems tex_collector return M bool with
                | O => mret false
                | S _ =>
                    match texture_bundle out return M bool with
                    | None => mret true
                    | Some bundle => NeedsUpdate tex_collector bundle st_textures texture_dirty
                    end
                end;
              (if textures_changed : bool
               then UpdateTextures scene mat_collector tex_collector
               else mret tt);;
              current ← gets m_current_scene;
              (if bool_decide (current = Some scene)
               then mret tt
               else ReloadIntersector scene;;
                    modify (set_m_current_scene (Some scene)));;
              ClearDirtyFlags scene;;
              clear_material_flags mat_collector
          end
      end
  end.

(** The two collectors are arguments passed by reference: their final
    values are returned. *)
Definition CompileScene (fuel : nat) (scene : addr)
    (mat_collector tex_collector : Collector.t) : M (Collector.t * Collector.t) :=
  let mat_collector := Collector.Clear mat_collector in
  let tex_collector := Collector.Clear tex_collector in
  shape_iter ← CreateShapeIterator scene;
  light_iter ← CreateLightIterator scene;
  mat_collector ← Collect mat_collector shape_iter (shape_materials fuel);
  let mat_collector := Collector.Commit mat_collector in
  let mat_iter := Collector.CreateIterator mat_collector in
  tex_collector ← Collect tex_collector mat_iter material_textures;
  tex_collector ← Collect tex_collector light_iter light_textures;
  let tex_collector := Collector.Commit tex_collector in
  cache ← gets m_scene_cache;
  match cache !! scene with
  | None => compile_first scene mat_collector tex_collector
  | Some _ => compile_cached scene mat_collector tex_collector
  end;;
  mret (mat_collector, tex_collector).

(** ** Vocabulary of the statements *)

(** The four microfacet kinds, whose roughness the writer converts first. *)
Definition microfacet (t : SingleBxdf.BxdfType) : bool :=
  match t with
  | SingleBxdf.kMicrofacetGGX
  | SingleBxdf.kMicrofacetBeckmann
  | SingleBxdf.kMicrofacetRefractionGGX
  | SingleBxdf.kMicrofacetRefractionBeckmann => true
  | _ => false
  end.

(** A texture-valued input. *)
Definition texture_input (tex : option addr) : Material.InputValue :=
  Material.mk_InputValue Material.kTexture float4_zero tex None.

(** A float-valued input with first lane [x]. *)
Definition float_input (x : float) : Material.InputValue :=
  Material.mk_InputValue Material.kFloat4 (mk_float3 x f32_zero f32_zero f32_zero) None None.

(** The inputs of a single-BxDF material with the given albedo and roughness. *)
Definition bxdf_inputs (albedo roughness : Material.InputValue)
    : gmap string Material.InputValue :=
  <["albedo" := albedo]>
    (<["normal" := texture_input None]>
      (<["bump" := texture_input None]>
        (<["fresnel" := float_input f32_zero]>
          (<["ior" := float_input f32_one]>
            (<["roughness" := roughness]> ∅))))).

(** A state with nothing in it but the default material at address 5. *)
Definition empty_state : State :=
  {| st_shapes := ∅;
     st_materials :=
       {[ 5%N := mk_Material (SingleBxdf SingleBxdf.kLambert)
                   (bxdf_inputs (float_input f32_one) (float_input f32_one)) false ]};
     st_textures := ∅; st_lights := ∅; st_cameras := ∅; st_scenes := ∅;
     m_default_material := 5%N;
     m_scene_cache := ∅; m_current_scene := None;
     m_api := mk_Api ∅ 1%N [] [];
     m_context := [] |}.

(** A state whose only materials are the default one and, at address 10,
    [m]. *)
Definition state_with_material (m : MaterialObj) : State :=
  set_st_materials (<[10%N := m]> (st_materials empty_state)) empty_state.

(** A GGX material whose roughness is the texture at address 20. *)
Definition ggx_textured_roughness : MaterialObj :=
  mk_Material (SingleBxdf SingleBxdf.kMicrofacetGGX)
    (bxdf_inputs (float_input f32_one) (texture_input (Some 20%N))) true.

(** A layered material over two other materials. *)
Definition layered_material : MaterialObj :=
  mk_Material (MultiBxdf MultiBxdf.kLayered)
    (<["base_material" := Material.mk_InputValue Material.kMaterial float4_zero None (Some 5%N)]>
      (<["top_material" := Material.mk_InputValue Material.kMaterial float4_zero None (Some 5%N)]> ∅))
    true.

(** A record whose fields all differ from what any writer stores. *)
Definition marked_record : ClwScene.Material :=
  ClwScene.mk_Material (mk_float3 7 7 7 7) 7 7 7 7 7 7 7 7 ClwScene.kZero 7.

(** The light at [a] is an image-based light. *)
Definition ibl_at (heap : gmap addr Light) (a : addr) : bool :=
  match heap !! a with
  | Some l => is_ibl l
  | None => false
  end.

(** [last_ibl heap iter r]: [r] is the position in [iter] of the last
    image-based light, [None] when [iter] has none. *)
Definition last_ibl (heap : gmap addr Light) (iter : list addr) (r : option nat) : Prop :=
  match r with
  | Some k =>
      (exists a, iter !! k = Some a /\ ibl_at heap a = true) /\
      (forall j a, (k < j)%nat -> iter !! j = Some a -> ibl_at heap a = false)
  | None => forall a, a ∈ iter -> ibl_at heap a = false
  end.

(** [handle_of heap a sh]: the API shape [sh] is what [UpdateIntersector]
    creates for the scene shape at [a]: its transform and, for a mesh, its
    geometry. *)
Definition handle_of (heap : gmap addr Shape) (a : addr) (sh : RRShape) : Prop :=
  exists s,
    heap !! a = Some s /\
    rr_transform sh = Some (shape_transform s, inverse (shape_transform s)) /\
    match shape_kind s with
    | Mesh d =>
        rr_geometry sh =
          RRMesh (GetVertices d) (static_cast_int (Z.of_nat (GetNumVertices d)))
            sizeof_float3 (GetIndices d) 0
            (static_cast_int (Z.of_nat (GetNumIndices d / 3)))
    | Instance _ => exists base, rr_geometry sh = RRInstance base
    end.

(** The id the API holds for a handle. *)
Definition handle_id (api : IntersectionApi) (h : handle) : option Z :=
  sh ← api_shapes api !! h; rr_id sh.

(** The handles [first], [first + 1], ... : [count] of them. *)
Definition fresh_handles (first : handle) (count : nat) : list handle :=
  (fun k => (first + N.of_nat k)%N) <$> seq 0 count.

(** One turn of a handle-creating loop of [UpdateIntersector] on the shape
    [a] with the id [id]: one fresh handle is created, given the id and
    pushed to [isect_shapes], and to [visible_shapes] when [visible]. *)
Definition handle_step (visible : bool) (scene a : addr) (id : Z) (s s' : State) : Prop :=
  exists out out' rsh,
    m_scene_cache s !! scene = Some out /\
    m_scene_cache s' !! scene = Some out' /\
    isect_shapes out' = isect_shapes out ++ [api_next (m_api s)] /\
    visible_shapes out' =
      visible_shapes out ++ (if visible then [api_next (m_api s)] else []) /\
    api_shapes (m_api s') = <[api_next (m_api s) := rsh]> (api_shapes (m_api s)) /\
    api_next (m_api s') = N.succ (api_next (m_api s)) /\
    api_attached (m_api s') = api_attached (m_api s) /\
    rr_id rsh = Some id /\
    handle_of (st_shapes s) a rsh /\
    st_shapes s' = st_shapes s /\
    st_scenes s' = st_scenes s.

(** A shape with its dirty bit cleared. *)
Definition clean_shape (s : Shape) : Shape :=
  mk_Shape (shape_kind s) (shape_transform s) (shape_material s) false.

(** What the tracker reads of the shape at [a] and never writes. *)
Definition shape_static (heap : gmap addr Shape) (a : addr)
    : option (ShapeKind * matrix * option addr) :=
  (fun s => (shape_kind s, shape_transform s, shape_material s)) <$> heap !! a.

(** The mesh at [a], when the shape at [a] is a mesh. *)
Definition mesh_at (heap : gmap addr Shape) (a : addr) : option MeshData :=
  match shape_static heap a with
  | Some (Mesh d, _, _) => Some d
  | _ => None
  end.

(** The mesh whose geometry the shape at [a] shows: the shape itself, or
    the base of the instance. *)
Definition geometry_at (heap : gmap addr Shape) (a : addr) : option MeshData :=
  match shape_static heap a with
  | Some (Mesh d, _, _) => Some d
  | Some (Instance b, _, _) => mesh_at heap b
  | None => None
  end.

(** Number of material ids the shapes pass allots to the shape at [a]. *)
Definition prims_of (heap : gmap addr Shape) (a : addr) : nat :=
  match geometry_at heap a with
  | Some d => GetNumIndices d / 3
  | None => 0
  end.

Definition vertices_of (heap : gmap addr Shape) (a : addr) : nat :=
  match mesh_at heap a with
  | Some d => GetNumVertices d
  | None => 0
  end.

Definition indices_of (heap : gmap addr Shape) (a : addr) : nat :=
  match mesh_at heap a with
  | Some d => GetNumIndices d
  | None => 0
  end.

(** One turn of a mesh loop of [UpdateShapes] on the mesh at [a]. *)
Definition geometry_step (scene a : addr) (lp lp' : ShapesLoop) (s s' : State) : Prop :=
  exists sh d out out',
    st_shapes s !! a = Some sh /\ as_mesh sh = Some d /\
    m_scene_cache s !! scene = Some out /\
    m_scene_cache s' !! scene = Some out' /\
    (num_shapes_written lp < length (shapes out))%nat /\
    shapes out' =
      <[num_shapes_written lp := mesh_record d (shape_transform sh) lp]> (shapes out) /\
    (forall j, (j < num_matids_written lp)%nat ->
               materialids out' !! j = materialids out !! j) /\
    length (materialids out') = length (materialids out) /\
    length (vertices out') = length (vertices out) /\
    length (indices out') = length (indices out) /\
    num_shapes_written lp' = S (num_shapes_written lp) /\
    num_matids_written lp' = (num_matids_written lp + GetNumIndices d / 3)%nat /\
    shape_data lp' =
      <[a := mesh_record d (shape_transform sh) lp]> (shape_data lp) /\
    st_shapes s' = <[a := clean_shape sh]> (st_shapes s) /\
    m_default_material s' = m_default_material s /\
    st_scenes s' = st_scenes s.

(** One turn of the instance loop of [UpdateShapes] on the instance at [a]. *)
Definition instance_step (scene : addr) (mat_collector : Collector.t) (a : addr)
    (lp lp' : ShapesLoop) (s s' : State) : Prop :=
  exists sh base b bd out out' material matidx,
    st_shapes s !! a = Some sh /\ GetBaseShape sh = Some base /\
    st_shapes s !! base = Some b /\ as_mesh b = Some bd /\
    m_scene_cache s !! scene = Some out /\
    m_scene_cache s' !! scene = Some out' /\
    (num_shapes_written lp < length (shapes out))%nat /\
    shapes out' =
      <[num_shapes_written lp :=
          instance_record (default filler (shape_data lp !! base))
            (shape_transform sh) lp]> (shapes out) /\
    material = default (m_default_material s) (shape_material sh) /\
    Collector.GetItemIndex mat_collector material = Some matidx /\
    fill_to (num_matids_written lp) (GetNumIndices bd / 3) (index_to_int matidx)
      (materialids out) = Some (materialids out') /\
    vertices out' = vertices out /\
    indices out' = indices out /\
    num_shapes_written lp' = S (num_shapes_written lp) /\
    num_matids_written lp' = (num_matids_written lp + GetNumIndices bd / 3)%nat /\
    (forall k rec, shape_data lp !! k = Some rec -> shape_data lp' !! k = Some rec) /\
    st_shapes s' = <[a := clean_shape sh]> (st_shapes s) /\
    m_default_material s' = m_default_material s /\
    st_scenes s' = st_scenes s.

(** The meshes of a shape iterator in iterator order, as the specification
    words the first set of the partition. *)
Definition meshes_in_iterator_order (heap : gmap addr Shape) (shape_iter : list addr)
    : list addr :=
  List.filter (fun a => match heap !! a with
                        | Some s => negb (is_instance s)
                        | None => false
                        end) shape_iter.

(** Every instance of the heap has a mesh as its base shape. *)
Definition bases_are_meshes (heap : gmap addr Shape) : Prop :=
  forall i si b,
    heap !! i = Some si -> GetBaseShape si = Some b ->
    exists sb, heap !! b = Some sb /\ is_instance sb = false.

(** ** Frame conditions *)

(** [preserves R m]: every run of [m] that returns relates its initial and
    final states by [R]. *)
Definition preserves {A} (R : State -> State -> Prop) (m : M A) : Prop :=
  forall s a s', m s = Ok a s' -> R s s'.

(** [keeps scene P Q A]: the device operations issued all satisfy [P], the
    compiled record of [scene] stays and is changed within [Q], and the
    intersection API is changed within [A]. *)
Definition keeps (scene : addr) (P : DeviceOp -> Prop)
    (Q : ClwSceneData -> ClwSceneData -> Prop)
    (A : IntersectionApi -> IntersectionApi -> Prop) (s s' : State) : Prop :=
  (exists ops, m_context s' = m_context s ++ ops /\ Forall P ops) /\
  (forall out, m_scene_cache s !! scene = Some out ->
     exists out', m_scene_cache s' !! scene = Some out' /\ Q out out') /\
  A (m_api s) (m_api s').

(** The operation is on neither the camera buffer nor the lights buffer. *)
Definition off_camera_lights (o : DeviceOp) : Prop :=
  op_buffer o <> BufCamera /\ op_buffer o <> BufLights.

(** The camera and lights parts of two compiled records agree. *)
Definition same_camera_lights (out out' : ClwSceneData) : Prop :=
  camera out' = camera out /\ camera_type out' = camera_type out /\
  lights out' = lights out /\ num_lights out' = num_lights out /\
  envmapidx out' = envmapidx out.

(** Two compiled records agree on camera, lights and handles. *)
Definition same_camera_lights_handles (out out' : ClwSceneData) : Prop :=
  same_camera_lights out out' /\
  isect_shapes out' = isect_shapes out /\ visible_shapes out' = visible_shapes out.

Definition any_api (a a' : IntersectionApi) : Prop := True.

(** The device operations of one shapes pass, for the given buffer sizes. *)
Definition shapes_pass_ops (nv nn nu ni ns nm : nat) : list DeviceOp :=
  [ CreateBuffer BufVertices nv; CreateBuffer BufNormals nn; CreateBuffer BufUVs nu;
    CreateBuffer BufIndices ni; CreateBuffer BufShapes ns;
    CreateBuffer BufMaterialIds nm;
    MapBuffer BufVertices; MapBuffer BufNormals; MapBuffer BufUVs;
    MapBuffer BufIndices; MapBuffer BufMaterialIds; MapBuffer BufShapes;
    UnmapBuffer BufVertices; UnmapBuffer BufNormals; UnmapBuffer BufUVs;
    UnmapBuffer BufIndices; UnmapBuffer BufMaterialIds; UnmapBuffer BufShapes ].

(** ** A small scene

    One triangle mesh (address 1) with a Lambert material (10) whose albedo
    is the texture 20; a quad mesh (2) that is not in the scene; an instance
    (3) of the quad with the material 10; an instance (4) of the triangle
    without a material; a point light, an image-based light, a directional
    light and a second image-based light (30 to 33); a camera (40).  The
    scene 100 iterates the shapes as 4, 3, 1; the scene 101 is the same
    without a camera. *)
Definition identity_matrix : matrix :=
  mk_matrix f32_one 0 0 0  0 f32_one 0 0  0 0 f32_one 0  0 0 0 f32_one.

Definition translation (x : float) : matrix :=
  mk_matrix f32_one 0 0 x  0 f32_one 0 0  0 0 f32_one 0  0 0 0 f32_one.

Definition triangle : MeshData :=
  mk_MeshData (replicate 3 float4_zero) (replicate 3 float4_zero)
    (replicate 3 (mk_float2 0 0)) [0; 1; 2].

Definition quad : MeshData :=
  mk_MeshData (replicate 4 float4_zero) (replicate 4 float4_zero)
    (replicate 4 (mk_float2 0 0)) [0; 1; 2; 0; 2; 3].

Definition demo_camera : PerspectiveCamera :=
  mk_Camera float4_zero float4_zero float4_zero float4_zero
    0 f32_one (mk_float2 0 0) 0 0 (mk_float2 0 0) true.

Definition demo_light (k : LightKind) : Light :=
  mk_Light k float4_zero float4_zero float4_zero true.

Definition demo_texture : TextureObj :=
  mk_Texture (1, 1) Texture.kRgba8 [1; 2; 3; 4] true.

Definition demo_scene : Scene1 :=
  mk_Scene1 [4%N; 3%N; 1%N] [30%N; 31%N; 32%N; 33%N] (Some 40%N)
    (Z.lor Scene1Flags.kShapes (Z.lor Scene1Flags.kLights Scene1Flags.kCamera)).

Definition demo_scene_no_camera : Scene1 :=
  mk_Scene1 [4%N; 3%N; 1%N] [30%N; 31%N; 32%N; 33%N] None
    (Z.lor Scene1Flags.kShapes (Z.lor Scene1Flags.kLights Scene1Flags.kCamera)).

Definition demo_state : State :=
  {| st_shapes :=
       <[1%N := mk_Shape (Mesh triangle) identity_matrix (Some 10%N) true]>
       (<[2%N := mk_Shape (Mesh quad) (translation 2) None true]>
       (<[3%N := mk_Shape (Instance 2%N) (translation 3) (Some 10%N) true]>
       (<[4%N := mk_Shape (Instance 1%N) (translation 4) None true]> ∅)));
     st_materials :=
       <[10%N := mk_Material (SingleBxdf SingleBxdf.kLambert)
                   (bxdf_inputs (texture_input (Some 20%N)) (float_input f32_one))
                   true]>
       (st_materials empty_state);
     st_textures := <[20%N := demo_texture]> (<[21%N := demo_texture]> ∅);
     st_lights :=
       <[30%N := demo_light PointLight]>
       (<[31%N := demo_light (ImageBasedLight (Some 20%N) f32_one)]>
       (<[32%N := demo_light DirectionalLight]>
       (<[33%N := demo_light (ImageBasedLight (Some 21%N) f32_one)]> ∅)));
     st_cameras := <[40%N := demo_camera]> ∅;
     st_scenes := <[100%N := demo_scene]> (<[101%N := demo_scene_no_camera]> ∅);
     m_default_material := 5%N;
     m_scene_cache := ∅;
     m_current_scene := None;
     m_api := mk_Api ∅ 1%N [] [];
     m_context := [] |}.

(** The state when the passes of a first compile of scene 100 start: the
    scene has its fresh entry in the cache. *)
Definition demo_entered : State :=
  set_m_scene_cache (<[100%N := ClwScene_new]> ∅) demo_state.

Definition demo_partition : Partition :=
  mk_Partition [1%N] [3%N; 4%N] [2%N].

(** The committed collectors of the materials and of the textures. *)
Definition demo_materials : Collector.t := Collector.mk [5%N; 10%N] [5%N; 10%N].
Definition demo_textures : Collector.t := Collector.mk [20%N; 21%N] [20%N; 21%N].

Definition no_items : Collector.t := Collector.mk [] [].

(** The state a run ends in; the given state when the run does not return. *)
Definition state_after {A} (r : Result A) (s0 : State) : State :=
  match r with
  | Ok _ s => s
  | _ => s0
  end.

(** The states after the intersector, lights and shapes passes of the
    first compile. *)
Definition demo_intersected : State :=
  state_after (UpdateIntersector 100%N demo_entered) demo_entered.

Definition demo_lit : State :=
  state_after (UpdateLights 100%N demo_materials demo_textures demo_entered) demo_entered.

Definition demo_serialized : State :=
  state_after (UpdateShapes 100%N demo_materials demo_textures demo_entered) demo_entered.

(** The state after the first compile of scene 100. *)
Definition demo_compiled : State :=
  state_after (CompileScene 8 100%N no_items no_items demo_state) demo_state.

(** The state [demo_compiled] after a change of the shapes of the scene that
    set its [kShapes] flag. *)
Definition demo_shapes_changed : State :=
  set_st_scenes
    (<[100%N := mk_Scene1 [4%N; 3%N; 1%N] [30%N; 31%N; 32%N; 33%N] (Some 40%N)
                  Scene1Flags.kShapes]> (st_scenes demo_compiled))
    demo_compiled.

Definition demo_recompiled : State :=
  state_after (CompileScene 8 100%N no_items no_items demo_shapes_changed)
    demo_shapes_changed.

(** None of the lights of [iter] is dirty. *)
Definition lights_clean (heap : gmap addr Light) (iter : list addr) : bool :=
  forallb (fun l => match heap !! l with
                    | Some li => negb (light_dirty li)
                    | None => true
                    end) iter.

(** The cached state of the scene 101, which has no camera. *)
Definition demo_cached_no_camera : State :=
  set_m_scene_cache (<[101%N := ClwScene_new]> ∅) demo_state.

(** [quiet m]: a run of [m] raises no error and, when it returns, has left
    the state alone. *)
Definition quiet {A} (m : M A) : Prop :=
  forall s, match m s with
            | Ok _ s' => s' = s
            | Throw _ _ => False
            | Fault | OutOfFuel => True
            end.

(** The run neither returned nor raised an error. *)
Definition stuck {A} (r : Result A) : Prop := r = Fault \/ r = OutOfFuel.

(** The intersector of [scene] holds the handles [hs] and has the visible
    ones attached. *)
Definition intersector_loaded (scene : addr) (hs : list handle) (s : State) : Prop :=
  exists out, m_scene_cache s !! scene = Some out /\
    isect_shapes out = hs /\ api_attached (m_api s) = visible_shapes out.

(** ** Vocabulary of the passes *)

(** The API after the handles of [l] were detached and deleted. *)
Definition released (l : list handle) (api : IntersectionApi) : IntersectionApi :=
  mk_Api (foldl (fun m h => delete h m) (api_shapes api) l) (api_next api)
    (foldl (fun att h => filter (fun x => x ≠ h) att) (api_attached api) l)
    (api_committed api).

Arguments released : simpl never.

(** The compiled record of the small scene. *)
Definition demo_out : ClwSceneData :=
  default ClwScene_new (m_scene_cache demo_compiled !! 100%N).

(** The compiled small scene after its shapes were taken away. *)
Definition demo_emptied : State :=
  set_st_scenes (<[100%N := mk_Scene1 [] [30%N] (Some 40%N) 0]>
                   (st_scenes demo_compiled)) demo_compiled.

(** The compiled small scene after one more rebuild of its intersector. *)
Definition demo_reintersected : State :=
  state_after (UpdateIntersector 100%N demo_compiled) demo_compiled.

(** A light with its dirty bit cleared. *)
Definition clean_light (l : Light) : Light :=
  mk_Light (light_kind l) (light_position l) (light_direction l) (light_radiance l) false.

(** The store after every object of [iter] in it was replaced by its
    [clean] form. *)
Definition cleaned_by {A} (clean : A -> A) (heap : gmap addr A) (iter : list addr)
    : gmap addr A :=
  foldl (fun h a => match h !! a with
                    | Some l => <[a := clean l]> h
                    | None => h
                    end) heap iter.

(** The lights after the dirty bit of every light of [iter] was cleared. *)
Definition cleaned (heap : gmap addr Light) (iter : list addr) : gmap addr Light :=
  cleaned_by clean_light heap iter.

#[global] Arguments cleaned_by : simpl never.
#[global] Arguments cleaned : simpl never.

(** What the light writer reads of the light at [a]. *)
Definition light_static (heap : gmap addr Light) (a : addr)
    : option (LightKind * float3 * float3 * float3) :=
  (fun l => (light_kind l, light_position l, light_direction l, light_radiance l))
    <$> heap !! a.

(** The small scene with an area light on the instance 3 as second light. *)
Definition demo_area_scene : Scene1 :=
  mk_Scene1 [4%N; 3%N; 1%N] [30%N; 34%N] (Some 40%N) Scene1Flags.kLights.

(** The small scene with that area light, before its lights pass. *)
Definition demo_area : State :=
  set_st_lights (<[34%N := demo_light (AreaLight 3%N 1)]> (st_lights demo_entered))
    (set_st_scenes (<[100%N := demo_area_scene]> (st_scenes demo_entered)) demo_entered).

(** ... and after it. *)
Definition demo_area_lit : State :=
  state_after (UpdateLights 100%N demo_materials demo_textures demo_area) demo_area.

(** A camera with its dirty bit cleared. *)
Definition clean_camera (c : PerspectiveCamera) : PerspectiveCamera :=
  mk_Camera (GetForwardVector c) (GetUpVector c) (GetRightVector c) (GetPosition c)
    (GetAperture c) (GetAspectRatio c) (GetSensorSize c) (GetFocalLength c)
    (GetFocusDistance c) (GetDepthRange c) false.

(** The device record of a camera. *)
Definition camera_record (c : PerspectiveCamera) : ClwScene.Camera :=
  ClwScene.mk_Camera (GetForwardVector c) (GetUpVector c) (GetRightVector c)
    (GetPosition c) (GetAperture c) (GetAspectRatio c) (GetSensorSize c)
    (GetFocalLength c) (GetFocusDistance c) (GetDepthRange c).

(** The small scene without lights. *)
Definition demo_dark_scene : Scene1 :=
  mk_Scene1 [4%N; 3%N; 1%N] [] (Some 40%N) Scene1Flags.kLights.

(** The state in which the small scene has no lights. *)
Definition demo_dark : State :=
  set_st_scenes (<[100%N := demo_dark_scene]> (st_scenes demo_entered)) demo_entered.

(** The camera of the small scene after the first compile. *)
Definition demo_compiled_camera : PerspectiveCamera :=
  default demo_camera (st_cameras demo_compiled !! 40%N).

(** What the shapes pass reads and never writes. *)
Definition static_eq (s s' : State) : Prop :=
  (forall x, shape_static (st_shapes s') x = shape_static (st_shapes s) x) /\
  m_default_material s' = m_default_material s.

(** The chunk a mesh adds to a geometry buffer. *)
Definition chunk_of {A} (g : MeshData -> list A) (s : State) (a : addr)
    : option (list A) :=
  g <$> mesh_at (st_shapes s) a.

(** The material ids of a shape that is shaded. *)
Definition material_ids_of (mat_collector : Collector.t) (s : State) (a : addr)
    : option (list Z) :=
  '(_, _, m) ← shape_static (st_shapes s) a;
  idx ← Collector.GetItemIndex mat_collector (default (m_default_material s) m);
  Some (replicate (prims_of (st_shapes s) a) (index_to_int idx)).

(** The material ids of an excluded mesh. *)
Definition excluded_ids_of (s : State) (a : addr) : option (list Z) :=
  chunk_of (fun d => replicate (GetNumIndices d / 3) (-1)) s a.

(** The compiled record with the six buffers of the shapes pass created
    anew. *)
Definition shapes_buffers (sz : ShapeSizes) (num_shapes : nat) (out : ClwSceneData)
    : ClwSceneData :=
  with_materialids (fresh_buffer (num_material_ids sz))
    (with_shapes (fresh_buffer num_shapes)
      (with_indices (fresh_buffer (num_indices sz))
        (with_uvs (fresh_buffer (num_uvs sz))
          (with_normals (fresh_buffer (num_normals sz))
            (with_vertices (fresh_buffer (num_vertices sz)) out))))).

(** The shapes with the dirty bit of every shape of [iter] cleared. *)
Definition cleaned_shapes (heap : gmap addr Shape) (iter : list addr) : gmap addr Shape :=
  cleaned_by clean_shape heap iter.

(** Number of triangles of a mesh. *)
Definition triangles_of (d : MeshData) : nat := (GetNumIndices d / 3)%nat.

(** The record of a mesh whose vertices, indices and material ids start at
    the given offsets of their buffers. *)
Definition mesh_record_at (d : MeshData) (transform : matrix) (ov oi om : nat)
    : ClwScene.Shape :=
  mesh_record d transform (mk_ShapesLoop ov O O oi om O ∅).

(** What one turn of a mesh loop does to the records and the counters. *)
Definition record_step (scene : addr) (a : addr) (lp lp' : ShapesLoop) (s s' : State)
    : Prop :=
  exists out out' d t m,
    m_scene_cache s !! scene = Some out /\
    m_scene_cache s' !! scene = Some out' /\
    shape_static (st_shapes s) a = Some (Mesh d, t, m) /\
    store_at (num_shapes_written lp) (mesh_record d t lp) (shapes out)
      = Some (shapes out') /\
    num_vertices_written lp' = (num_vertices_written lp + GetNumVertices d)%nat /\
    num_indices_written lp' = (num_indices_written lp + GetNumIndices d)%nat /\
    num_matids_written lp' = (num_matids_written lp + triangles_of d)%nat /\
    num_shapes_written lp' = S (num_shapes_written lp) /\
    static_eq s s'.

(** The header of a texture whose payload starts at byte [off]. *)
Definition texture_header (t : TextureObj) (off : nat) : ClwScene.Texture :=
  ClwScene.mk_Texture (fst (texture_size t)) (snd (texture_size t))
    (GetTextureFormat t) (static_cast_int (Z.of_nat off)).

(** The device operations of a textures pass over a collector that is not
    empty. *)
Definition textures_pass_ops (old_headers n old_bytes total : nat) : list DeviceOp :=
  (if decide (old_headers < n)%nat then [CreateBuffer BufTextures n] else []) ++
  [MapBuffer BufTextures; UnmapBuffer BufTextures] ++
  (if decide (old_bytes < total)%nat then [CreateBuffer BufTextureData total] else []) ++
  [MapBuffer BufTextureData; UnmapBuffer BufTextureData].

(** The state after the textures pass of the small scene. *)
Definition demo_textured : State :=
  state_after (UpdateTextures 100%N demo_materials demo_textures demo_entered)
    demo_entered.

(** A material with its dirty bit cleared. *)
Definition clean_material (m : MaterialObj) : MaterialObj :=
  mk_Material (material_kind m) (material_inputs m) false.

(** The materials with the dirty bit of every material of [iter] cleared. *)
Definition cleaned_materials (heap : gmap addr MaterialObj) (iter : list addr)
    : gmap addr MaterialObj :=
  cleaned_by clean_material heap iter.

(** The state after the materials pass of the small scene. *)
Definition demo_shaded : State :=
  state_after (UpdateMaterials 100%N demo_materials demo_textures demo_entered)
    demo_entered.

(** [cleaner clean h h']: the store [h'] is [h] with some of its objects
    replaced by their [clean] form. *)
Definition cleaner {A} (clean : A -> A) (h h' : gmap addr A) : Prop :=
  forall a, h' !! a = h !! a \/ h' !! a = clean <$> h !! a.

(** [only_cleans s s']: from [s] to [s'] the scene graph has lost dirty bits
    and is otherwise the same. *)
Definition only_cleans (s s' : State) : Prop :=
  cleaner clean_shape (st_shapes s) (st_shapes s') /\
  cleaner clean_material (st_materials s) (st_materials s') /\
  cleaner clean_light (st_lights s) (st_lights s') /\
  cleaner clean_camera (st_cameras s) (st_cameras s') /\
  st_textures s' = st_textures s /\
  st_scenes s' = st_scenes s /\
  m_default_material s' = m_default_material s.

(** Every object of [iter] is in the store and is not dirty. *)
Definition all_clean {A} (dirty : A -> bool) (heap : gmap addr A) (iter : list addr)
    : Prop :=
  forall a, a ∈ iter -> exists x, heap !! a = Some x /\ dirty x = false.

(** [settled scene sc mc s s']: what a compile of [scene], whose record in
    [s] is [sc] and whose collected materials are [mc], has reached in [s']:
    the scene is the current one and is cached, its dirty flags are dropped,
    and its camera, its lights, its shapes and the collected materials are
    clean; the textures are as they were. *)
Definition settled (scene : addr) (sc : Scene1) (mc : Collector.t) (s s' : State)
    : Prop :=
  m_current_scene s' = Some scene /\
  is_Some (m_scene_cache s' !! scene) /\
  st_scenes s' =
    <[scene := mk_Scene1 (scene_shapes sc) (scene_lights sc) (scene_camera sc)
                 Scene1Flags.kNone]> (st_scenes s) /\
  all_clean material_dirty (st_materials s') (Collector.items mc) /\
  all_clean shape_dirty (st_shapes s') (scene_shapes sc) /\
  all_clean light_dirty (st_lights s') (scene_lights sc) /\
  (exists a, scene_camera sc = Some a /\ all_clean camera_dirty (st_cameras s') [a]) /\
  st_textures s' = st_textures s.

(** The collectors a first compile of the small scene returns. *)
Definition demo_collected : Collector.t * Collector.t :=
  match CompileScene 8 100%N no_items no_items demo_state with
  | Ok r _ => r
  | _ => (no_items, no_items)
  end.

(** None of the objects of [iter] that are in the store is dirty. *)
Definition none_dirty {A} (dirty : A -> bool) (heap : gmap addr A) (iter : list addr)
    : bool :=
  forallb (fun a => match heap !! a with
                    | Some x => negb (dirty x)
                    | None => true
                    end) iter.

(** A texture with its dirty bit cleared. *)
Definition clean_texture (t : TextureObj) : TextureObj :=
  mk_Texture (texture_size t) (texture_format t) (texture_data t) false.

(** The small scene after its first compile, with the dirty bits of the
    textures cleared by their owner. *)
Definition demo_rested : State :=
  set_st_textures (clean_texture <$> st_textures demo_compiled) demo_compiled.

(** [material_deps heap a b]: the material at [a] has the material at [b]
    as an input. *)
Definition material_deps (heap : gmap addr MaterialObj) (a b : addr) : Prop :=
  exists m, heap !! a = Some m /\ b ∈ CreateMaterialIterator m.

(** The material a shape is shaded with. *)
Definition material_of (s : State) (sh : Shape) : addr :=
  default (m_default_material s) (shape_material sh).

(** [depends_on heap a b]: the material iterator of the material at [a]
    yields [b]. *)
Definition depends_on (heap : gmap addr MaterialObj) (a b : addr) : bool :=
  match heap !! a with
  | Some m => bool_decide (b ∈ CreateMaterialIterator m)
  | None => false
  end.

(** [is_walk heap l]: every material of [l] but the last has the next one
    as an input. *)
Fixpoint is_walk (heap : gmap addr MaterialObj) (l : list addr) : bool :=
  match l with
  | a :: (b :: _) as rest => depends_on heap a b && is_walk heap rest
  | _ => true
  end.

(** [halts fuel stack s]: the drain of [stack] returns within [fuel]. *)
Definition halts (fuel : nat) (material_stack : list addr) (s : State) : Prop :=
  exists mats found s', drain_material_stack fuel material_stack mats s = Ok found s'.

(** A layered material at address 10 whose base is itself. *)
Definition self_layered : MaterialObj :=
  mk_Material (MultiBxdf MultiBxdf.kLayered)
    (<["base_material" :=
         Material.mk_InputValue Material.kMaterial float4_zero None (Some 10%N)]>
      (<["top_material" :=
           Material.mk_InputValue Material.kMaterial float4_zero None (Some 5%N)]> ∅))
    true.

(** The small scene with that material in the place of material 10. *)
Definition demo_cyclic : State :=
  set_st_materials (<[10%N := self_layered]> (st_materials demo_state)) demo_state.

(** A mix of the materials 5 and 10 with a constant weight. *)
Definition mix_material : MaterialObj :=
  mk_Material (MultiBxdf MultiBxdf.kMix)
    (<["base_material" := Material.mk_InputValue Material.kMaterial float4_zero None (Some 5%N)]>
      (<["top_material" := Material.mk_InputValue Material.kMaterial float4_zero None (Some 10%N)]>
        (<["weight" := float_input f32_one]> ∅)))
    true.

(** A Lambert material with a bump texture and no normal texture. *)
Definition lambert_bumped : MaterialObj :=
  mk_Material (SingleBxdf SingleBxdf.kLambert)
    (<["bump" := texture_input (Some 20%N)]>
       (bxdf_inputs (float_input f32_one) (float_input f32_one))) true.

(** The texture an input holds, if it holds one. *)
Definition texture_of (value : option Material.InputValue) : option addr :=
  match value with
  | Some v =>
      match Material.type v with
      | Material.kTexture => Material.tex_value v
      | _ => None
      end
  | None => None
  end.

(** The normal map of the second block and its bump flag: the [normal]
    texture when there is one, else the [bump] texture, else none. *)
Definition normal_map (material : MaterialObj) : option (addr * Z) :=
  match texture_of (GetInputValue material "normal") with
  | Some tex => Some (tex, 0)
  | None =>
      match texture_of (GetInputValue material "bump") with
      | Some tex => Some (tex, 1)
      | None => None
      end
  end.

(** [returns m s]: the run of [m] on [s] returns. *)
Definition returns {A} (m : M A) (s : State) : Prop :=
  exists a s', m s = Ok a s'.

(** [drains stack s]: with enough fuel the drain of [stack] returns,
    whatever set it starts from. *)
Definition drains (material_stack : list addr) (s : State) : Prop :=
  exists fuel0, forall fuel mats, (fuel0 <= fuel)%nat ->
    exists found, drain_material_stack fuel material_stack mats s = Ok found s.

(** [ranked rank heap]: the inputs of every material are materials of the
    heap of a smaller rank. *)
Definition ranked (rank : addr -> nat) (heap : gmap addr MaterialObj) : Prop :=
  forall a m b, heap !! a = Some m -> b ∈ CreateMaterialIterator m ->
    is_Some (heap !! b) /\ (rank b < rank a)%nat.

(** [room lp out v n u i m k]: behind the counters of [lp] the buffers of
    [out] have room for [v] vertices, [n] normals, [u] uvs, [i] indices,
    [m] material ids and [k] shape records. *)
Definition room (lp : ShapesLoop) (out : ClwSceneData) (v n u i m k : nat) : Prop :=
  (num_vertices_written lp + v <= length (vertices out))%nat /\
  (num_normals_written lp + n <= length (normals out))%nat /\
  (num_uvs_written lp + u <= length (uvs out))%nat /\
  (num_indices_written lp + i <= length (indices out))%nat /\
  (num_matids_written lp + m <= length (materialids out))%nat /\
  (num_shapes_written lp + k <= length (shapes out))%nat.

(** The length of one pool of the mesh at [a]; 0 when [a] is not a mesh. *)
Definition pool_of {A} (g : MeshData -> list A) (heap : gmap addr Shape) (a : addr)
    : nat :=
  match mesh_at heap a with
  | Some d => length (g d)
  | None => O
  end.

(** What the meshes of [l] need in one pool. *)
Definition need {A} (g : MeshData -> list A) (heap : gmap addr Shape) (l : list addr)
    : nat :=
  sum_list (pool_of g heap <$> l).

(** What a turn of a handle loop needs and keeps: the shapes and the entry
    of the scene in the cache. *)
Definition isect_inv (scene : addr) (heap : gmap addr Shape) (s : State) : Prop :=
  st_shapes s = heap /\ is_Some (m_scene_cache s !! scene).

(** [covers c c']: every item that has an index in [c] has one in [c']. *)
Definition covers (c c' : Collector.t) : Prop :=
  forall a, is_Some (Collector.GetItemIndex c a) ->
            is_Some (Collector.GetItemIndex c' a).

(** The collectors that hold the inputs of one material and nothing else. *)
Definition own_materials (m : MaterialObj) : Collector.t :=
  Collector.mk (CreateMaterialIterator m) (CreateMaterialIterator m).

(** The same for its textures. *)
Definition own_textures (m : MaterialObj) : Collector.t :=
  Collector.mk (CreateTextureIterator m) (CreateTextureIterator m).

(** The writer finds in [m] the inputs it reads, of the types it accepts. *)
Definition writer_accepts (m : MaterialObj) : bool :=
  match write_material_record m (own_materials m) (own_textures m) filler with
  | Some _ => true
  | None => false
  end.

(** The buffers that the shapes pass fills agree in two compiled
    records. *)
Definition same_geometry (out out' : ClwSceneData) : Prop :=
  vertices out' = vertices out /\ normals out' = normals out /\
  uvs out' = uvs out /\ indices out' = indices out /\
  shapes out' = shapes out /\ materialids out' = materialids out.

(** The buffers that the shapes pass fills have the same lengths in two
    compiled records. *)
Definition same_lengths (out out' : ClwSceneData) : Prop :=
  length (vertices out') = length (vertices out) /\
  length (normals out') = length (normals out) /\
  length (uvs out') = length (uvs out) /\
  length (indices out') = length (indices out) /\
  length (shapes out') = length (shapes out) /\
  length (materialids out') = length (materialids out).

(** Any device operation. *)
Definition any_op (o : DeviceOp) : Prop := True.

(** No device operation at all. *)
Definition no_op (o : DeviceOp) : Prop := False.

(** The handles of the API and the next fresh one are the same. *)
Definition same_handles (a a' : IntersectionApi) : Prop :=
  api_shapes a' = api_shapes a /\ api_next a' = api_next a.

(** The store holds an object at [a]. *)
Definition stored {T} (heap : gmap addr T) (a : addr) : bool :=
  match heap !! a with
  | Some _ => true
  | None => false
  end.

(** The material [m] at [a]: its inputs are stored materials of a smaller
    rank, its textures are stored, and the writer accepts it. *)
Definition material_ok (rank : addr -> nat) (s : State) (a : addr) (m : MaterialObj)
    : bool :=
  forallb (fun b => stored (st_materials s) b && (rank b <? rank a)%nat)
    (CreateMaterialIterator m)
  && forallb (stored (st_textures s)) (CreateTextureIterator m)
  && writer_accepts m.

(** The shape at [a]: it is stored with the material it is shaded with, and
    the base of an instance is a stored mesh. *)
Definition shape_ok (s : State) (a : addr) : bool :=
  match st_shapes s !! a with
  | Some sh =>
      stored (st_materials s) (material_of s sh) &&
      match shape_kind sh with
      | Mesh _ => true
      | Instance base =>
          match mesh_at (st_shapes s) base with
          | Some _ => true
          | None => false
          end
      end
  | None => false
  end.

(** The light at [a]: it is stored with the texture it refers to. *)
Definition light_ok (s : State) (a : addr) : bool :=
  match st_lights s !! a with
  | Some l => forallb (stored (st_textures s)) (Light_CreateTextureIterator l)
  | None => false
  end.

(** The scene has shapes and lights, they are well formed, and so is every
    material of the store; [rank] bounds the depth of the materials. *)
Definition scene_ok (rank : addr -> nat) (s : State) (sc : Scene1) : bool :=
  match scene_shapes sc, scene_lights sc with
  | _ :: _, _ :: _ =>
      forallb (shape_ok s) (scene_shapes sc) &&
      forallb (light_ok s) (scene_lights sc) &&
      forallb (fun am => material_ok rank s am.1 am.2) (map_to_list (st_materials s))
  | _, _ => false
  end.

(** [ready scene s0 s]: from [s0] to [s] the scene graph has only lost
    dirty bits, and [scene] is compiled in [s]. *)
Definition ready (scene : addr) (s0 s : State) : Prop :=
  only_cleans s0 s /\ is_Some (m_scene_cache s !! scene).

(** [shapes_rebuilt mat_collector s p out']: the buffers of the shapes pass
    in [out'] are the serialization of the partition [p] of the shapes of
    [s]: the vertices, normals, uvs and indices of the meshes followed by
    those of the excluded meshes; the material ids of the meshes, of the
    excluded meshes and of the instances; one record for every mesh, with
    its offsets into the buffers, and one for every instance, with the
    offsets of the record of its base. *)
Definition shapes_rebuilt (mat_collector : Collector.t) (s : State) (p : Partition)
    (out' : ClwSceneData) : Prop :=
  exists dm de xm xe xi,
    let ds := dm ++ de in
    mapM (mesh_at (st_shapes s)) (meshes p) = Some dm /\
    mapM (mesh_at (st_shapes s)) (excluded_meshes p) = Some de /\
    vertices out' = concat (GetVertices <$> ds) /\
    normals out' = concat (GetNormals <$> ds) /\
    uvs out' = concat (GetUVs <$> ds) /\
    indices out' = concat (int_indices <$> ds) /\
    mapM (material_ids_of mat_collector s) (meshes p) = Some xm /\
    mapM (excluded_ids_of s) (excluded_meshes p) = Some xe /\
    mapM (material_ids_of mat_collector s) (instances p) = Some xi /\
    materialids out' = concat xm ++ concat xe ++ concat xi /\
    length (shapes out') = length (partition_order p) /\
    (forall k a, (meshes p ++ excluded_meshes p) !! k = Some a ->
       exists d t m,
         shape_static (st_shapes s) a = Some (Mesh d, t, m) /\
         ds !! k = Some d /\
         shapes out' !! k =
           Some (mesh_record_at d t
                   (length (concat (GetVertices <$> take k ds)))
                   (length (concat (int_indices <$> take k ds)))
                   (sum_list (triangles_of <$> take k ds)))) /\
    (forall k a, instances p !! k = Some a ->
       exists base t m rec jb brec,
         shape_static (st_shapes s) a = Some (Instance base, t, m) /\
         shapes out' !! (length (meshes p) + length (excluded_meshes p) + k)%nat
           = Some rec /\
         (meshes p ++ excluded_meshes p) !! jb = Some base /\
         shapes out' !! jb = Some brec /\
         ClwScene.numprims rec = ClwScene.numprims brec /\
         ClwScene.startvtx rec = ClwScene.startvtx brec /\
         ClwScene.startidx rec = ClwScene.startidx brec /\
         ClwScene.transform rec = rows_of t /\
         ClwScene.start_material_idx rec =
           static_cast_int
             (Z.of_nat (sum_list (prims_of (st_shapes s) <$>
                          take (length (meshes p) + length (excluded_meshes p) + k)
                            (partition_order p))))).

(** [handles_rebuilt s p s']: in [s'] the API holds, for the [k]-th shape
    of the partition [p], the handle that was the [k]-th fresh one in [s]; it
    has the [k]-th id and the transform and geometry of that shape. *)
Definition handles_rebuilt (s : State) (p : Partition) (s' : State) : Prop :=
  forall k a, partition_order p !! k = Some a ->
    exists rsh,
      api_shapes (m_api s') !! (api_next (m_api s) + N.of_nat k)%N = Some rsh /\
      rr_id rsh = Some (Nat.iter k int_succ 1) /\
      handle_of (st_shapes s) a rsh.

(** * Properties *)

Arguments Nat.div : simpl never.
Arguments static_cast_int : simpl never.
Arguments Z.pow : simpl never.

(** ** Integers *)

Lemma static_cast_int_small n :
  - 2 ^ 31 <= n < 2 ^ 31 -> static_cast_int n = n.
Proof.
  intros H. unfold static_cast_int.
  rewrite Z.mod_small by lia. lia.
Qed.

Lemma index_to_int_small (i : nat) :
  Z.of_nat i < 2 ^ 31 -> index_to_int i = Z.of_nat i.
Proof. intros H. apply static_cast_int_small. lia. Qed.

Lemma rows_of_inj t u : rows_of t = rows_of u -> t = u.
Proof.
  destruct t, u. unfold rows_of. simpl. intros H.
  injection H. intros. subst. reflexivity.
Qed.

(** ** The execution monad *)

Section monad_facts.
Context {A B : Type}.

Lemma bind_Ok (m : M A) (f : A -> M B) s b s' :
  (m ≫= f) s = Ok b s' -> exists a s1, m s = Ok a s1 /\ f a s1 = Ok b s'.
Proof.
  unfold mbind, M_bind. destruct (m s) as [a s1| | |]; try discriminate.
  intros H. exists a, s1. auto.
Qed.

Lemma bind_run (m : M A) (f : A -> M B) s a s1 :
  m s = Ok a s1 -> (m ≫= f) s = f a s1.
Proof. unfold mbind, M_bind. intros ->. reflexivity. Qed.

Lemma ret_Ok (a b : A) s s' : @mret M _ A a s = Ok b s' -> b = a /\ s' = s.
Proof. unfold mret, M_ret. intros H. injection H. auto. Qed.

Lemma defined_Ok (o : option A) a s s' :
  defined o s = Ok a s' -> o = Some a /\ s' = s.
Proof.
  destruct o; simpl; unfold mret, M_ret, fault; intros H; inversion H; auto.
Qed.

Lemma gets_Ok (f : State -> A) a s s' : gets f s = Ok a s' -> a = f s /\ s' = s.
Proof. unfold gets. intros H. inversion H. auto. Qed.
End monad_facts.

Lemma deref_Ok {T} (store : State -> gmap addr T) a x s s' :
  deref store a s = Ok x s' -> store s !! a = Some x /\ s' = s.
Proof. unfold deref. apply defined_Ok. Qed.

Lemma modify_Ok f u s s' : modify f s = Ok u s' -> s' = f s.
Proof. unfold modify. intros H. inversion H. auto. Qed.

(** Inversion of a run that returned. *)
Ltac inv_ok :=
  repeat match goal with
  | H : Ok _ _ = Ok _ _ |- _ => inversion H; subst; clear H
  | H : Throw _ _ = Ok _ _ |- _ => discriminate H
  | H : Fault = Ok _ _ |- _ => discriminate H
  | H : OutOfFuel = Ok _ _ |- _ => discriminate H
  | H : (_ ≫= _) _ = Ok _ _ |- _ =>
      let a := fresh "a" in let s := fresh "s" in
      let H1 := fresh "H" in let H2 := fresh "H" in
      apply bind_Ok in H; destruct H as (a & s & H1 & H2)
  | H : @mret M _ _ _ _ = Ok _ _ |- _ => apply ret_Ok in H; destruct H as [? ?]; subst
  | H : defined _ _ = Ok _ _ |- _ => apply defined_Ok in H; destruct H as [? ?]; subst
  | H : deref _ _ _ = Ok _ _ |- _ => apply deref_Ok in H; destruct H as [? ?]; subst
  | H : gets _ _ = Ok _ _ |- _ => apply gets_Ok in H; destruct H as [? ?]; subst
  | H : modify _ _ = Ok _ _ |- _ => apply modify_Ok in H; subst
  | H : throw _ _ = Ok _ _ |- _ => discriminate H
  | H : fault _ = Ok _ _ |- _ => discriminate H
  | H : out_of_fuel _ = Ok _ _ |- _ => discriminate H
  | H : (if ?c then _ else _) _ = Ok _ _ |- _ => destruct c eqn:?
  end.

Lemma update_out_Ok scene f u s s' :
  update_out scene f s = Ok u s' ->
  exists out, m_scene_cache s !! scene = Some out /\
    s' = set_m_scene_cache (<[scene := f out]> (m_scene_cache s)) s.
Proof.
  unfold update_out, get_out. intros H. inv_ok. eauto.
Qed.

Lemma get_out_Ok scene out s s' :
  get_out scene s = Ok out s' -> m_scene_cache s !! scene = Some out /\ s' = s.
Proof. apply deref_Ok. Qed.

Ltac inv_out :=
  repeat match goal with
  | H : update_out _ _ _ = Ok _ _ |- _ =>
      let o := fresh "out" in
      apply update_out_Ok in H; destruct H as (o & ? & ?); subst
  | H : get_out _ _ = Ok _ _ |- _ => apply get_out_Ok in H; destruct H as [? ?]; subst
  end.

Ltac run_inv := repeat (progress (inv_ok; inv_out; simplify_map_eq/=)).

(** A loop that returned went through a chain of states. *)
Lemma foldM_Ok_ind {A B} (body : B -> A -> M B) (I : list A -> B -> State -> Prop) :
  forall l b s b' s',
    foldM body l b s = Ok b' s' ->
    I [] b s ->
    (forall done a b1 s1 b2 s2,
        I done b1 s1 -> body b1 a s1 = Ok b2 s2 -> I (done ++ [a]) b2 s2) ->
    I l b' s'.
Proof.
  intros l b s b' s' Hrun Hstart Hstep.
  assert (Hgen : forall rest done b1 s1,
             I done b1 s1 -> foldM body rest b1 s1 = Ok b' s' -> I (done ++ rest) b' s').
  { induction rest as [|a rest IH]; intros done b1 s1 Hinv Hr; simpl in Hr.
    - inv_ok. rewrite app_nil_r. exact Hinv.
    - inv_ok. replace (done ++ a :: rest) with ((done ++ [a]) ++ rest)
        by (rewrite <- app_assoc; reflexivity).
      eapply IH; [|eassumption]. eapply Hstep; eassumption. }
  apply (Hgen l [] b s Hstart Hrun).
Qed.

(** ** [std::set] *)

Lemma emplace_elem a x s : x ∈ StdSet.emplace a s <-> x = a \/ x ∈ s.
Proof.
  induction s as [|b s IH]; simpl.
  - rewrite list_elem_of_singleton. split; [auto|intros [?|H]; [auto|inversion H]].
  - destruct (N.ltb_spec a b).
    + rewrite elem_of_cons. tauto.
    + destruct (N.eqb_spec a b).
      * subst. rewrite elem_of_cons. tauto.
      * rewrite !elem_of_cons, IH. tauto.
Qed.

Lemma emplace_wf a s : StdSet.wf s -> StdSet.wf (StdSet.emplace a s).
Proof.
  unfold StdSet.wf. induction s as [|b s IH]; simpl; intros Hs.
  - repeat constructor.
  - apply StronglySorted_inv in Hs. destruct Hs as [Hs Hb].
    destruct (N.ltb_spec a b).
    + constructor; [constructor; assumption|].
      constructor; [assumption|].
      eapply Forall_impl; [exact Hb|]. simpl. intros. lia.
    + destruct (N.eqb_spec a b).
      * constructor; assumption.
      * constructor; [auto|].
        apply Forall_forall. intros x Hx. apply emplace_elem in Hx.
        destruct Hx as [->|Hx]; [lia|].
        rewrite Forall_forall in Hb. auto.
Qed.

Lemma find_spec a s : StdSet.find a s = true <-> a ∈ s.
Proof.
  unfold StdSet.find. rewrite existsb_exists. split.
  - intros (x & Hx & E). apply N.eqb_eq in E. subst. apply list_elem_of_In. exact Hx.
  - intros H. exists a. split; [apply list_elem_of_In; exact H|apply N.eqb_refl].
Qed.

Lemma wf_NoDup s : StdSet.wf s -> NoDup s.
Proof.
  unfold StdSet.wf. induction 1 as [|a s Hs IH Ha]; constructor; auto.
  intros Hin. rewrite Forall_forall in Ha. specialize (Ha a Hin). lia.
Qed.

Lemma wf_empty : StdSet.wf StdSet.empty.
Proof. constructor. Qed.

(** ** The partition *)

Lemma split_shapes_spec heap shape_iter :
  forall m i m' i',
    split_shapes heap shape_iter m i = Some (m', i') ->
    (forall a, a ∈ m' <->
       a ∈ m \/ (a ∈ shape_iter /\ exists s, heap !! a = Some s /\ is_instance s = false)) /\
    (forall a, a ∈ i' <->
       a ∈ i \/ (a ∈ shape_iter /\ exists s, heap !! a = Some s /\ is_instance s = true)) /\
    (StdSet.wf m -> StdSet.wf m') /\ (StdSet.wf i -> StdSet.wf i').
Proof.
  induction shape_iter as [|shape rest IH]; intros m i m' i' H; simpl in H.
  - injection H as <- <-. repeat split; auto.
    + intros [?|[Hin _]]; [auto|inversion Hin].
    + intros [?|[Hin _]]; [auto|inversion Hin].
  - destruct (heap !! shape) as [s|] eqn:Hs; simpl in H; [|discriminate].
    destruct (is_instance s) eqn:Hi; simpl in H; apply IH in H;
      destruct H as (Hm & Hinst & Hwm & Hwi).
    + repeat split; auto.
      * intros Ha. apply Hm in Ha. destruct Ha as [?|(Hin & Hex)]; [auto|].
        right. split; [right; exact Hin|exact Hex].
      * intros [Ha|(Hin & s' & Hs' & Hi')]; apply Hm; [auto|].
        apply elem_of_cons in Hin. destruct Hin as [->|Hin].
        -- congruence.
        -- right. eauto.
      * intros Ha. apply Hinst in Ha. destruct Ha as [Ha|(Hin & Hex)].
        -- apply emplace_elem in Ha. destruct Ha as [->|?]; [|auto].
           right. split; [left|eauto].
        -- right. split; [right; exact Hin|exact Hex].
      * intros [Ha|(Hin & s' & Hs' & Hi')]; apply Hinst.
        -- left. apply emplace_elem. auto.
        -- apply elem_of_cons in Hin. destruct Hin as [->|Hin].
           ++ left. apply emplace_elem. auto.
           ++ right. eauto.
      * intros Hw. apply Hwi, emplace_wf, Hw.
    + repeat split; auto.
      * intros Ha. apply Hm in Ha. destruct Ha as [Ha|(Hin & Hex)].
        -- apply emplace_elem in Ha. destruct Ha as [->|?]; [|auto].
           right. split; [left|eauto].
        -- right. split; [right; exact Hin|exact Hex].
      * intros [Ha|(Hin & s' & Hs' & Hi')]; apply Hm.
        -- left. apply emplace_elem. auto.
        -- apply elem_of_cons in Hin. destruct Hin as [->|Hin].
           ++ left. apply emplace_elem. auto.
           ++ right. eauto.
      * intros Ha. apply Hinst in Ha. destruct Ha as [?|(Hin & Hex)]; [auto|].
        right. split; [right; exact Hin|exact Hex].
      * intros [Ha|(Hin & s' & Hs' & Hi')]; apply Hinst; [auto|].
        apply elem_of_cons in Hin. destruct Hin as [->|Hin].
        -- congruence.
        -- right. eauto.
      * intros Hw. apply Hwm, emplace_wf, Hw.
Qed.

Lemma split_excluded_spec heap meshes insts :
  forall e e',
    split_excluded heap insts meshes e = Some e' ->
    (forall a, a ∈ e' <->
       a ∈ e \/ ((exists i s, i ∈ insts /\ heap !! i = Some s /\ GetBaseShape s = Some a)
                 /\ a ∉ meshes)) /\
    (StdSet.wf e -> StdSet.wf e').
Proof.
  induction insts as [|i rest IH]; intros e e' H; simpl in H.
  - injection H as <-. split; auto. intros a. split; auto.
    intros [?|[(i & s & Hin & _) _]]; [auto|inversion Hin].
  - destruct (heap !! i) as [s|] eqn:Hs; simpl in H; [|discriminate].
    destruct (GetBaseShape s) as [base|] eqn:Hb; simpl in H; [|discriminate].
    destruct (StdSet.find base meshes) eqn:Hf; simpl in H; apply IH in H;
      destruct H as (He & Hw).
    + split; auto. intros a. rewrite He. split.
      * intros [?|[(i' & s' & Hin & Hs' & Hb') Hn]]; [auto|].
        right. split; [|exact Hn]. exists i', s'. split; [right; exact Hin|auto].
      * intros [?|[(i' & s' & Hin & Hs' & Hb') Hn]]; [auto|].
        apply elem_of_cons in Hin. destruct Hin as [->|Hin].
        -- exfalso. apply Hn. apply find_spec. congruence.
        -- right. split; [|exact Hn]. eauto.
    + split; [|intros Hwf; apply Hw, emplace_wf, Hwf].
      intros a. rewrite He. split.
      * intros [Ha|[(i' & s' & Hin & Hs' & Hb') Hn]].
        -- apply emplace_elem in Ha. destruct Ha as [->|?]; [|auto].
           right. split.
           ++ exists i, s. split; [left|auto].
           ++ intros Hin. apply find_spec in Hin. congruence.
        -- right. split; [|exact Hn]. exists i', s'. split; [right; exact Hin|auto].
      * intros [?|[(i' & s' & Hin & Hs' & Hb') Hn]].
        -- left. apply emplace_elem. auto.
        -- apply elem_of_cons in Hin. destruct Hin as [->|Hin].
           ++ left. apply emplace_elem. left. congruence.
           ++ right. split; [|exact Hn]. eauto.
Qed.

Lemma SplitMeshesAndInstances_Some heap shape_iter p :
  SplitMeshesAndInstances heap shape_iter = Some p ->
  split_shapes heap shape_iter StdSet.empty StdSet.empty = Some (meshes p, instances p) /\
  split_excluded heap (instances p) (meshes p) StdSet.empty = Some (excluded_meshes p).
Proof.
  unfold SplitMeshesAndInstances. intros H.
  destruct (split_shapes heap shape_iter StdSet.empty StdSet.empty) as [[m i]|] eqn:H1;
    simpl in H; [|discriminate].
  destruct (split_excluded heap i m StdSet.empty) as [e|] eqn:H2;
    simpl in H; [|discriminate].
  injection H as <-. simpl. auto.
Qed.

(** What the three sets of the partition hold. *)
Lemma partition_members heap shape_iter p :
  SplitMeshesAndInstances heap shape_iter = Some p ->
  (forall a, a ∈ meshes p <->
     a ∈ shape_iter /\ exists s, heap !! a = Some s /\ is_instance s = false) /\
  (forall a, a ∈ instances p <->
     a ∈ shape_iter /\ exists s, heap !! a = Some s /\ is_instance s = true) /\
  (forall a, a ∈ excluded_meshes p <->
     (exists i s, i ∈ instances p /\ heap !! i = Some s /\ GetBaseShape s = Some a)
     /\ a ∉ meshes p).
Proof.
  intros H. apply SplitMeshesAndInstances_Some in H. destruct H as [H1 H2].
  apply split_shapes_spec in H1. destruct H1 as (Hm & Hi & _ & _).
  apply split_excluded_spec in H2. destruct H2 as (He & _).
  split; [|split]; intros a.
  - rewrite Hm. split; [intros [Ha|?]; [inversion Ha|assumption]|auto].
  - rewrite Hi. split; [intros [Ha|?]; [inversion Ha|assumption]|auto].
  - rewrite He. split; [intros [Ha|?]; [inversion Ha|assumption]|auto].
Qed.

Lemma partition_wf heap shape_iter p :
  SplitMeshesAndInstances heap shape_iter = Some p ->
  StdSet.wf (meshes p) /\ StdSet.wf (instances p) /\ StdSet.wf (excluded_meshes p).
Proof.
  intros H. apply SplitMeshesAndInstances_Some in H. destruct H as [H1 H2].
  apply split_shapes_spec in H1. destruct H1 as (_ & _ & Hwm & Hwi).
  apply split_excluded_spec in H2. destruct H2 as (_ & Hwe).
  repeat split; auto using wf_empty.
Qed.

(** ** The material writer *)

Lemma tex_index_Some tex_collector t i :
  Collector.GetItemIndex tex_collector t = Some i ->
  tex_index_or_minus_one tex_collector (Some t) = Some (index_to_int i).
Proof. intros H. simpl. rewrite H. reflexivity. Qed.

(** The second block leaves [nsmapidx] alone and, when the roughness input
    is not a [float4], stores the constant 0.99 in [ns]. *)
Lemma write_general_roughness material tex_collector clw r value :
  write_general material tex_collector clw = Some r ->
  GetInputValue material "roughness" = Some value ->
  ClwScene.nsmapidx r = ClwScene.nsmapidx clw /\
  ClwScene.ns r =
    match Material.type value with
    | Material.kFloat4 => f_x (Material.float_value value)
    | _ => f32_0_99
    end.
Proof.
  unfold write_general. intros H Hr. rewrite Hr in H.
  repeat match type of H with
  | context [GetInputValue material ?n] =>
      let v := fresh "v" in
      destruct (GetInputValue material n) as [v|]; simpl in H; [|discriminate H]
  | context [match Material.type ?v with _ => _ end] =>
      destruct (Material.type v); simpl in H; try discriminate H
  | context [match Material.tex_value ?v with _ => _ end] =>
      destruct (Material.tex_value v); simpl in H; try discriminate H
  | context [tex_index_or_minus_one ?c ?t] =>
      destruct (tex_index_or_minus_one c t); simpl in H; [|discriminate H]
  | context [Collector.GetItemIndex ?c ?t] =>
      destruct (Collector.GetItemIndex c t); simpl in H; [|discriminate H]
  end;
  injection H as <-; simpl; auto.
Qed.

Lemma WriteMaterial_Ok material mat_collector tex_collector data r s s' :
  WriteMaterial material mat_collector tex_collector data s = Ok r s' ->
  exists m,
    st_materials s !! material = Some m /\
    write_material_record m mat_collector tex_collector data = Some r /\
    s' = set_st_materials
           (<[material := mk_Material (material_kind m) (material_inputs m) false]>
              (st_materials s)) s.
Proof.
  unfold WriteMaterial, Material_SetDirty. intros H. inv_ok.
  match goal with
  | H1 : st_materials ?s !! material = Some ?m1, H2 : st_materials ?s !! material = Some ?m2 |- _ =>
      rewrite H1 in H2; injection H2 as ->
  end.
  eauto.
Qed.

Lemma WriteMaterial_run material mat_collector tex_collector data r s m :
  st_materials s !! material = Some m ->
  write_material_record m mat_collector tex_collector data = Some r ->
  WriteMaterial material mat_collector tex_collector data s =
  Ok r (set_st_materials
          (<[material := mk_Material (material_kind m) (material_inputs m) false]>
             (st_materials s)) s).
Proof.
  intros Hm Hrec.
  unfold WriteMaterial, Material_SetDirty, deref, modify, mbind, M_bind, defined.
  rewrite Hm. unfold mret, M_ret. cbn beta iota. rewrite Hrec.
  cbn beta iota. rewrite Hm. reflexivity.
Qed.

(** C5. For a material of a microfacet kind whose [roughness] input is a
    non-null texture, the record written by [WriteMaterial] has [nsmapidx]
    equal to the index of that texture in the texture collector, and [ns]
    holds the scalar fallback 0.99: the microfacet block has no [break] and
    the general block writes [ns] once more. *)
Theorem WriteMaterial_microfacet_texture_roughness
    material mat_collector tex_collector data s r s' m t value tex (i : nat) :
  st_materials s !! material = Some m ->
  material_kind m = SingleBxdf t ->
  microfacet t = true ->
  GetInputValue m "roughness" = Some value ->
  Material.type value = Material.kTexture ->
  Material.tex_value value = Some tex ->
  Collector.GetItemIndex tex_collector tex = Some i ->
  Z.of_nat i < 2 ^ 31 ->
  WriteMaterial material mat_collector tex_collector data s = Ok r s' ->
  ClwScene.nsmapidx r = Z.of_nat i /\ ClwScene.ns r = f32_0_99.
Proof.
  intros Hm Hk Hmf Hv Hty Htex Hidx Hi Hrun.
  apply WriteMaterial_Ok in Hrun. destruct Hrun as (m' & Hm' & Hrec & _).
  rewrite Hm in Hm'. injection Hm' as <-.
  assert (Hgen : exists clw,
             write_roughness m tex_collector
               (WithMaterial.type (GetMaterialType m) data) = Some clw /\
             write_general m tex_collector clw = Some r).
  { unfold write_material_record in Hrec. unfold GetMaterialType in *.
    rewrite Hk in *.
    destruct t; try discriminate Hmf; simpl in Hrec;
      match type of Hrec with
      | context [write_roughness ?a ?b ?c] =>
          destruct (write_roughness a b c) as [clw|] eqn:E; simpl in Hrec;
            [exists clw; split; [reflexivity|exact Hrec]|discriminate Hrec]
      end. }
  destruct Hgen as (clw & Hrough & Hgen).
  unfold write_roughness in Hrough. rewrite Hv in Hrough. simpl in Hrough.
  rewrite Hty, Htex in Hrough. rewrite (tex_index_Some _ _ _ Hidx) in Hrough.
  simpl in Hrough. injection Hrough as <-.
  destruct (write_general_roughness _ _ _ _ _ Hgen Hv) as [Hmap Hns].
  rewrite Hty in Hns. split; [|exact Hns].
  rewrite Hmap. simpl. apply index_to_int_small. exact Hi.
Qed.

Lemma WriteMaterial_microfacet_texture_roughness_witness :
  match WriteMaterial 10%N (Collector.mk [5%N; 10%N] [5%N; 10%N])
          (Collector.mk [20%N] [20%N]) marked_record
          (state_with_material ggx_textured_roughness) with
  | Ok r _ => ClwScene.nsmapidx r = 0 /\ ClwScene.ns r = f32_0_99
  | _ => False
  end.
Proof.
  destruct (WriteMaterial 10%N (Collector.mk [5%N; 10%N] [5%N; 10%N])
              (Collector.mk [20%N] [20%N]) marked_record
              (state_with_material ggx_textured_roughness))
    as [r s'| | |] eqn:E; try (vm_compute in E; discriminate E).
  apply (WriteMaterial_microfacet_texture_roughness
           10%N (Collector.mk [5%N; 10%N] [5%N; 10%N])
           (Collector.mk [20%N] [20%N]) marked_record
           (state_with_material ggx_textured_roughness) r s'
           ggx_textured_roughness SingleBxdf.kMicrofacetGGX
           (texture_input (Some 20%N)) 20%N O);
    try exact E; vm_compute; reflexivity.
Defined.

(** C10. For a [MultiBxdf] material of type [kLayered], [WriteMaterial]
    returns, stores the type tag [kLayered] in the record and clears the
    material's dirty bit; every other field of the record keeps the value it
    had: the [switch] has no case for [kLayered]. *)
Theorem WriteMaterial_layered material mat_collector tex_collector data s m :
  st_materials s !! material = Some m ->
  material_kind m = MultiBxdf MultiBxdf.kLayered ->
  exists r s',
    WriteMaterial material mat_collector tex_collector data s = Ok r s' /\
    ClwScene.type r = ClwScene.kLayered /\
    ClwScene.kx r = ClwScene.kx data /\
    ClwScene.kxmapidx r = ClwScene.kxmapidx data /\
    ClwScene.ns r = ClwScene.ns data /\
    ClwScene.nsmapidx r = ClwScene.nsmapidx data /\
    ClwScene.nmapidx r = ClwScene.nmapidx data /\
    ClwScene.bump_flag r = ClwScene.bump_flag data /\
    ClwScene.fresnel r = ClwScene.fresnel data /\
    ClwScene.ni r = ClwScene.ni data /\
    ClwScene.brdfbaseidx r = ClwScene.brdfbaseidx data /\
    ClwScene.brdftopidx r = ClwScene.brdftopidx data /\
    (material_dirty <$> st_materials s' !! material) = Some false /\
    (forall a, a <> material -> st_materials s' !! a = st_materials s !! a).
Proof.
  intros Hm Hk.
  exists (WithMaterial.type ClwScene.kLayered data),
    (set_st_materials
       (<[material := mk_Material (material_kind m) (material_inputs m) false]>
          (st_materials s)) s).
  split.
  - apply WriteMaterial_run; [exact Hm|].
    unfold write_material_record, GetMaterialType. rewrite Hk. reflexivity.
  - simpl. rewrite lookup_insert_eq. simpl. repeat split; auto.
    intros a Ha. rewrite lookup_insert_ne by auto. reflexivity.
Qed.

Lemma WriteMaterial_layered_witness :
  exists r s',
    WriteMaterial 10%N (Collector.mk [5%N; 10%N] [5%N; 10%N])
      (Collector.mk [] []) marked_record
      (state_with_material layered_material) = Ok r s' /\
    r = WithMaterial.type ClwScene.kLayered marked_record /\
    (material_dirty <$> st_materials s' !! 10%N) = Some false.
Proof.
  destruct (WriteMaterial_layered 10%N (Collector.mk [5%N; 10%N] [5%N; 10%N])
              (Collector.mk [] []) marked_record
              (state_with_material layered_material) layered_material)
    as (r & s' & Hrun & Hrest).
  - vm_compute. reflexivity.
  - reflexivity.
  - exists r, s'. split; [exact Hrun|].
    destruct Hrest as (H1 & H2 & H3 & H4 & H5 & H6 & H7 & H8 & H9 & H10 & H11 & Hd & _).
    split; [|exact Hd].
    destruct r. simpl in *. subst. reflexivity.
Defined.

(** ** The lights pass *)

Lemma last_ibl_unique heap iter r1 r2 :
  last_ibl heap iter r1 -> last_ibl heap iter r2 -> r1 = r2.
Proof.
  destruct r1 as [k1|], r2 as [k2|]; simpl; intros H1 H2; auto.
  - destruct H1 as [(a1 & Ha1 & Hi1) Hl1], H2 as [(a2 & Ha2 & Hi2) Hl2].
    destruct (lt_eq_lt_dec k1 k2) as [[Hlt|Heq]|Hgt]; [|congruence|].
    + specialize (Hl1 _ _ Hlt Ha2). congruence.
    + specialize (Hl2 _ _ Hgt Ha1). congruence.
  - destruct H1 as [(a1 & Ha1 & Hi1) _].
    apply list_elem_of_lookup_2 in Ha1. apply H2 in Ha1. congruence.
  - destruct H2 as [(a2 & Ha2 & Hi2) _].
    apply list_elem_of_lookup_2 in Ha2. apply H1 in Ha2. congruence.
Qed.

Lemma last_ibl_cons heap a iter r :
  last_ibl heap iter r ->
  last_ibl heap (a :: iter)
    (match r with
     | Some k => Some (S k)
     | None => if ibl_at heap a then Some O else None
     end).
Proof.
  destruct r as [k|]; simpl.
  - intros [(b & Hb & Hi) Hl]. split; [eauto|].
    intros j c Hj Hc. destruct j as [|j]; [lia|]. simpl in Hc.
    apply (Hl j); [lia|exact Hc].
  - intros Hn. destruct (ibl_at heap a) eqn:E; simpl.
    + split; [eauto|]. intros j c Hj Hc. destruct j as [|j]; [lia|].
      simpl in Hc. apply Hn. eapply list_elem_of_lookup_2; eauto.
    + intros c Hc. apply elem_of_cons in Hc. destruct Hc as [->|Hc]; auto.
Qed.

Lemma last_ibl_ext heap heap' iter r :
  (forall a, ibl_at heap' a = ibl_at heap a) ->
  last_ibl heap' iter r -> last_ibl heap iter r.
Proof.
  intros E. destruct r as [k|]; simpl.
  - intros [(a & Ha & Hi) Hl]. split.
    + exists a. rewrite <- E. auto.
    + intros j b Hj Hb. rewrite <- E. eauto.
  - intros H a Ha. rewrite <- E. auto.
Qed.

Lemma WriteLight_Ok scene light tex_collector data r s s' :
  WriteLight scene light tex_collector data s = Ok r s' ->
  s' = s /\ exists l, st_lights s !! light = Some l /\ ClwScene.l_type r = GetLightType l.
Proof.
  unfold WriteLight, CreateShapeIterator, GetLightType. intros H. inv_ok.
  match goal with
  | H : st_lights ?s !! light = Some ?l |- _ =>
      destruct (light_kind l) eqn:Hk; inv_ok; (split; [reflexivity|]);
        exists l; rewrite Hk; (split; [exact H|reflexivity])
  end.
Qed.

Lemma write_next_light_Ok scene tex_collector n light n' s s' :
  write_next_light scene tex_collector n light s = Ok n' s' ->
  n' = S n /\
  exists l out rec,
    st_lights s !! light = Some l /\
    m_scene_cache s !! scene = Some out /\
    (n < length (lights out))%nat /\
    ClwScene.l_type rec = GetLightType l /\
    m_scene_cache s' !! scene =
      Some ((if is_ibl l
             then with_envmapidx (static_cast_int (Z.of_nat n))
             else fun o => o)
              (with_lights (<[n := rec]> (lights out)) out)) /\
    st_lights s' =
      <[light := mk_Light (light_kind l) (light_position l) (light_direction l)
                   (light_radiance l) false]> (st_lights s) /\
    st_scenes s' = st_scenes s.
Proof.
  unfold write_next_light, Light_SetDirty. intros H. run_inv;
    (match goal with
     | H : WriteLight _ _ _ _ _ = Ok _ _ |- _ =>
         apply WriteLight_Ok in H; destruct H as (-> & l & Hl & Hty)
     end);
    run_inv; (split; [reflexivity|]);
    (match goal with
     | H : lights ?out !! n = Some _ |- _ =>
         pose proof (lookup_lt_Some _ _ _ H) as Hlen
     end);
    eexists _, _, _;
    (match goal with H : is_ibl _ = _ |- _ => rewrite H end);
    repeat split; eauto.
  replace (Z.of_nat (S n) - 1) with (Z.of_nat n) by lia. reflexivity.
Qed.

Lemma ibl_at_clean heap light l a :
  heap !! light = Some l ->
  ibl_at (<[light := mk_Light (light_kind l) (light_position l) (light_direction l)
                       (light_radiance l) false]> heap) a = ibl_at heap a.
Proof.
  intros Hl. unfold ibl_at. destruct (decide (light = a)) as [->|Hne].
  - rewrite lookup_insert_eq, Hl. reflexivity.
  - rewrite lookup_insert_ne by exact Hne. reflexivity.
Qed.

Lemma GetLightType_ibl l : is_ibl l = true -> GetLightType l = ClwScene.kIbl.
Proof. unfold is_ibl, GetLightType. destruct (light_kind l); congruence. Qed.

(** The serialization loop of [UpdateLights], started with
    [num_lights_written = n]. *)
Lemma lights_loop scene tex_collector :
  forall iter n s n' s' out,
    foldM (write_next_light scene tex_collector) iter n s = Ok n' s' ->
    m_scene_cache s !! scene = Some out ->
    exists out',
      m_scene_cache s' !! scene = Some out' /\
      n' = (n + length iter)%nat /\
      length (lights out') = length (lights out) /\
      (forall a, ibl_at (st_lights s') a = ibl_at (st_lights s) a) /\
      (forall j, (j < n)%nat -> lights out' !! j = lights out !! j) /\
      (forall k a, iter !! k = Some a -> ibl_at (st_lights s) a = true ->
         exists rec, lights out' !! (n + k)%nat = Some rec /\
                     ClwScene.l_type rec = ClwScene.kIbl) /\
      exists r,
        last_ibl (st_lights s) iter r /\
        envmapidx out' =
          match r with
          | Some k => static_cast_int (Z.of_nat (n + k))
          | None => envmapidx out
          end.
Proof.
  induction iter as [|light rest IH]; intros n s n' s' out Hrun Hout; simpl in Hrun.
  - inv_ok. exists out. repeat split; auto.
    + intros k a Hk. inversion Hk.
    + exists None. split; [|reflexivity]. intros a Ha. inversion Ha.
  - apply bind_Ok in Hrun. destruct Hrun as (n1 & s1 & Hstep & Hrest).
    apply write_next_light_Ok in Hstep.
    destruct Hstep as (-> & l & out0 & rec & Hl & Hout0 & Hlen & Hty & Hout1 & Hlights & _).
    rewrite Hout in Hout0. injection Hout0 as <-.
    destruct (IH _ _ _ _ _ Hrest Hout1)
      as (out' & Hout' & -> & Hlen' & Hibl' & Hbefore & Hrecs & r & Hlast & Henv).
    assert (Hkeep : forall a, ibl_at (st_lights s1) a = ibl_at (st_lights s) a).
    { intros a. rewrite Hlights. apply ibl_at_clean. exact Hl. }
    assert (Hlen1 : length (lights out') = length (lights out)).
    { rewrite Hlen'. destruct (is_ibl l); simpl; apply length_insert. }
    assert (Hat : lights out' !! n = Some rec).
    { rewrite Hbefore by lia.
      destruct (is_ibl l); simpl; apply list_lookup_insert_eq; exact Hlen. }
    exists out'. split; [exact Hout'|]. split; [simpl; lia|]. split; [exact Hlen1|].
    split; [intros a; rewrite Hibl'; apply Hkeep|].
    split.
    { intros j Hj. rewrite Hbefore by lia.
      destruct (is_ibl l); simpl; apply list_lookup_insert_ne; lia. }
    split.
    { intros k a Hk Ha. destruct k as [|k]; simpl in Hk.
      - injection Hk as <-. exists rec. rewrite Nat.add_0_r. split; [exact Hat|].
        rewrite Hty. apply GetLightType_ibl.
        unfold ibl_at in Ha. rewrite Hl in Ha. exact Ha.
      - replace (n + S k)%nat with (S n + k)%nat by lia.
        apply (Hrecs k a Hk). rewrite Hkeep. exact Ha. }
    exists (match r with
            | Some k => Some (S k)
            | None => if ibl_at (st_lights s) light then Some O else None
            end).
    split.
    { apply last_ibl_cons. eapply last_ibl_ext; [exact Hkeep|exact Hlast]. }
    rewrite Henv. destruct r as [k|].
    + f_equal. lia.
    + unfold ibl_at. rewrite Hl. destruct (is_ibl l); simpl.
      * rewrite Nat.add_0_r. reflexivity.
      * reflexivity.
Qed.

(** C6. After a lights rebuild, [envmapidx] is the 0-based position, in
    light-iterator order, of the last image-based light of the scene, and
    the record at that position of the lights buffer is an IBL record;
    [envmapidx] is -1 when the scene has no image-based light. *)
Theorem UpdateLights_envmapidx scene mat_collector tex_collector s s' sc :
  st_scenes s !! scene = Some sc ->
  Z.of_nat (length (scene_lights sc)) <= 2 ^ 31 ->
  UpdateLights scene mat_collector tex_collector s = Ok tt s' ->
  exists out' r,
    m_scene_cache s' !! scene = Some out' /\
    last_ibl (st_lights s) (scene_lights sc) r /\
    match r with
    | Some k =>
        envmapidx out' = Z.of_nat k /\
        exists rec, lights out' !! k = Some rec /\ ClwScene.l_type rec = ClwScene.kIbl
    | None => envmapidx out' = -1
    end.
Proof.
  intros Hsc Hbound Hrun.
  unfold UpdateLights, GetNumLights, CreateLightIterator, device in Hrun.
  run_inv.
  all: match goal with
       | H : foldM _ _ _ ?s0 = Ok _ _ |- _ =>
           assert (Hl0 : st_lights s0 = st_lights s /\
                         exists o, m_scene_cache s0 !! scene = Some o /\ envmapidx o = -1)
             by (simpl; split; [reflexivity|]; eexists;
                 split; [apply lookup_insert_eq|reflexivity]);
           destruct Hl0 as (Hl0 & o & Ho & Henv0);
           destruct (lights_loop _ _ _ _ _ _ _ _ H Ho)
             as (out1 & Hout1 & _ & _ & _ & _ & Hrecs & r & Hlast & Henv);
           rewrite Hl0 in Hlast, Hrecs
       end.
  all: run_inv.
  all: eexists _, r; (split; [reflexivity|]); (split; [exact Hlast|]).
  all: destruct r as [k|]; simpl; [|congruence].
  all: destruct Hlast as [(a' & Ha & Hibl) _].
  all: split; [|apply (Hrecs k a' Ha Hibl)].
  all: rewrite Henv; simpl; apply static_cast_int_small.
  all: apply lookup_lt_Some in Ha; lia.
Qed.

(** ** The intersector bridge *)

Lemma create_mesh_shape_Ok mesh h s s' :
  create_mesh_shape mesh s = Ok h s' ->
  exists sh d,
    st_shapes s !! mesh = Some sh /\ as_mesh sh = Some d /\
    h = api_next (m_api s) /\
    s' = set_m_api
           (mk_Api
              (<[h := mk_RRShape
                        (RRMesh (GetVertices d)
                           (static_cast_int (Z.of_nat (GetNumVertices d)))
                           sizeof_float3 (GetIndices d) 0
                           (static_cast_int (Z.of_nat (GetNumIndices d / 3))))
                        (Some (shape_transform sh, inverse (shape_transform sh)))
                        None]> (api_shapes (m_api s)))
              (N.succ h) (api_attached (m_api s)) (api_committed (m_api s))) s.
Proof.
  unfold create_mesh_shape, SetTransform, api_shape, update_api, api_create.
  intros H. run_inv. eexists _, _. repeat split; eauto.
  rewrite insert_insert_eq. reflexivity.
Qed.

Lemma as_mesh_kind sh d : as_mesh sh = Some d -> shape_kind sh = Mesh d.
Proof. unfold as_mesh. destruct (shape_kind sh); congruence. Qed.

Lemma GetBaseShape_kind sh b : GetBaseShape sh = Some b -> shape_kind sh = Instance b.
Proof. unfold GetBaseShape. destruct (shape_kind sh); congruence. Qed.

Lemma isect_mesh_step scene id rr mesh st' s s' :
  isect_mesh scene (id, rr) mesh s = Ok st' s' ->
  st'.1 = int_succ id /\ handle_step true scene mesh id s s'.
Proof.
  unfold isect_mesh, SetId, api_shape, update_api, push_isect, push_visible.
  intros H. run_inv.
  match goal with
  | H : create_mesh_shape _ _ = Ok _ _ |- _ =>
      apply create_mesh_shape_Ok in H; destruct H as (sh & d & Hsh & Hd & -> & ->)
  end.
  run_inv. split; [reflexivity|].
  unfold handle_step. eexists _, _, _. simpl.
  split; [eassumption|]. split; [apply lookup_insert_eq|]. simpl.
  split; [reflexivity|]. split; [reflexivity|].
  split; [apply insert_insert_eq|].
  repeat split; auto.
  exists sh. simpl. rewrite (as_mesh_kind _ _ Hd). auto.
Qed.

Lemma isect_excluded_step scene id rr mesh st' s s' :
  isect_excluded scene (id, rr) mesh s = Ok st' s' ->
  st'.1 = int_succ id /\ handle_step false scene mesh id s s'.
Proof.
  unfold isect_excluded, SetId, api_shape, update_api, push_isect.
  intros H. run_inv.
  match goal with
  | H : create_mesh_shape _ _ = Ok _ _ |- _ =>
      apply create_mesh_shape_Ok in H; destruct H as (sh & d & Hsh & Hd & -> & ->)
  end.
  run_inv. split; [reflexivity|].
  unfold handle_step. eexists _, _, _. simpl.
  split; [eassumption|]. split; [apply lookup_insert_eq|]. simpl.
  split; [reflexivity|]. split; [symmetry; apply app_nil_r|].
  split; [apply insert_insert_eq|].
  repeat split; auto.
  exists sh. simpl. rewrite (as_mesh_kind _ _ Hd). auto.
Qed.

Lemma isect_instance_step scene id rr instance st' s s' :
  isect_instance scene (id, rr) instance s = Ok st' s' ->
  st'.1 = int_succ id /\ handle_step true scene instance id s s'.
Proof.
  unfold isect_instance, SetId, SetTransform, api_shape, update_api, api_create,
    push_isect, push_visible.
  intros H. run_inv. split; [reflexivity|].
  unfold handle_step. eexists _, _, _. simpl.
  split; [eassumption|]. split; [apply lookup_insert_eq|]. simpl.
  split; [reflexivity|]. split; [reflexivity|].
  split; [rewrite !insert_insert_eq; reflexivity|].
  repeat split; auto.
  match goal with
  | H : st_shapes _ !! instance = Some ?sh, Hb : GetBaseShape ?sh = Some _ |- _ =>
      exists sh; simpl; rewrite (GetBaseShape_kind _ _ Hb); eauto
  end.
Qed.

Lemma fresh_handles_S first count :
  fresh_handles first (S count) = first :: fresh_handles (N.succ first) count.
Proof.
  unfold fresh_handles. simpl. rewrite N.add_0_r. f_equal.
  rewrite <- seq_shift, <- list_fmap_compose.
  apply list_fmap_ext. intros i x _. simpl. lia.
Qed.

Lemma fresh_handles_length first count : length (fresh_handles first count) = count.
Proof. unfold fresh_handles. rewrite length_fmap. apply length_seq. Qed.

Lemma fresh_handles_lookup first count k :
  (k < count)%nat -> fresh_handles first count !! k = Some (first + N.of_nat k)%N.
Proof.
  intros H. unfold fresh_handles. rewrite list_lookup_fmap.
  rewrite lookup_seq_lt by exact H. reflexivity.
Qed.

Lemma fresh_handles_app first n m :
  fresh_handles first (n + m) =
  fresh_handles first n ++ fresh_handles (first + N.of_nat n)%N m.
Proof.
  revert first. induction n as [|n IH]; intros first.
  - simpl. rewrite N.add_0_r. reflexivity.
  - replace (S n + m)%nat with (S (n + m)) by reflexivity.
    rewrite !fresh_handles_S, IH.
    replace (N.succ first + N.of_nat n)%N with (first + N.of_nat (S n))%N by lia.
    reflexivity.
Qed.

Lemma fresh_handles_elem first count h :
  h ∈ fresh_handles first count <->
  (first <= h)%N /\ (h < first + N.of_nat count)%N.
Proof.
  unfold fresh_handles. rewrite list_elem_of_fmap. split.
  - intros (k & -> & Hk). apply elem_of_seq in Hk. lia.
  - intros [H1 H2]. exists (N.to_nat (h - first)). split; [lia|].
    apply elem_of_seq. lia.
Qed.

Lemma fresh_handles_NoDup first count : NoDup (fresh_handles first count).
Proof.
  revert first. induction count as [|n IH]; intros first.
  - constructor.
  - rewrite fresh_handles_S. constructor; [|apply IH].
    rewrite fresh_handles_elem. lia.
Qed.

(** A handle-creating loop of [UpdateIntersector]. *)
Lemma handle_loop visible scene (body : IsectLoop -> addr -> M IsectLoop) :
  (forall id rr a st' s s',
      body (id, rr) a s = Ok st' s' ->
      st'.1 = int_succ id /\ handle_step visible scene a id s s') ->
  forall l id rr st' s s' out,
    foldM body l (id, rr) s = Ok st' s' ->
    m_scene_cache s !! scene = Some out ->
    exists out',
      m_scene_cache s' !! scene = Some out' /\
      st'.1 = Nat.iter (length l) int_succ id /\
      isect_shapes out' =
        isect_shapes out ++ fresh_handles (api_next (m_api s)) (length l) /\
      visible_shapes out' =
        visible_shapes out ++
        (if visible then fresh_handles (api_next (m_api s)) (length l) else []) /\
      api_next (m_api s') = (api_next (m_api s) + N.of_nat (length l))%N /\
      api_attached (m_api s') = api_attached (m_api s) /\
      (forall h, (h < api_next (m_api s))%N ->
         api_shapes (m_api s') !! h = api_shapes (m_api s) !! h) /\
      (forall k a, l !! k = Some a ->
         exists rsh,
           api_shapes (m_api s') !! (api_next (m_api s) + N.of_nat k)%N = Some rsh /\
           rr_id rsh = Some (Nat.iter k int_succ id) /\
           handle_of (st_shapes s) a rsh) /\
      st_shapes s' = st_shapes s /\
      st_scenes s' = st_scenes s.
Proof.
  intros Hbody.
  induction l as [|a rest IH]; intros id rr st' s s' out Hrun Hout; simpl in Hrun.
  - inv_ok. exists out. simpl. rewrite N.add_0_r.
    repeat split; auto.
    + unfold fresh_handles. simpl. symmetry. apply app_nil_r.
    + destruct visible; unfold fresh_handles; simpl; symmetry; apply app_nil_r.
    + intros k a Hk. inversion Hk.
  - apply bind_Ok in Hrun. destruct Hrun as ([id1 rr1] & s1 & Hstep & Hrest).
    apply Hbody in Hstep. destruct Hstep as [Hid Hstep]. simpl in Hid. subst id1.
    destruct Hstep as (out0 & out1 & rsh & Hout0 & Hout1 & Hisect & Hvis & Hshapes
                       & Hnext & Hatt & Hrid & Hof & Hheap & Hscenes).
    rewrite Hout in Hout0. injection Hout0 as <-.
    destruct (IH _ _ _ _ _ _ Hrest Hout1)
      as (out' & Hout' & Hst' & Hisect' & Hvis' & Hnext' & Hatt' & Hold & Hnew
          & Hheap' & Hscenes').
    exists out'. split; [exact Hout'|].
    split; [rewrite Hst'; symmetry; apply Nat.iter_succ_r|].
    split.
    { rewrite Hisect', Hisect, Hnext. simpl. rewrite fresh_handles_S.
      rewrite <- app_assoc. reflexivity. }
    split.
    { rewrite Hvis', Hvis, Hnext. simpl. destruct visible.
      - rewrite fresh_handles_S, <- app_assoc. reflexivity.
      - rewrite !app_nil_r. reflexivity. }
    split; [rewrite Hnext', Hnext; simpl; lia|].
    split; [congruence|].
    split.
    { intros h Hh. rewrite Hold by lia. rewrite Hshapes.
      apply lookup_insert_ne. lia. }
    split.
    { intros k b Hk. destruct k as [|k]; simpl in Hk.
      - injection Hk as <-. exists rsh. simpl. rewrite N.add_0_r.
        split; [|auto]. rewrite Hold by lia. rewrite Hshapes.
        apply lookup_insert_eq.
      - destruct (Hnew k b Hk) as (rsh' & Hl & Hid' & Hof').
        exists rsh'. split.
        + rewrite <- Hl. f_equal. rewrite Hnext. lia.
        + split.
          * rewrite Hid'. f_equal. symmetry. apply Nat.iter_succ_r.
          * rewrite <- Hheap. exact Hof'. }
    split; congruence.
Qed.

(** The first loop of [UpdateIntersector] only talks to the API. *)
Lemma detach_delete_loop :
  forall l u s s',
    for_each l (fun shape => DetachShape shape;; DeleteShape shape) s = Ok u s' ->
    st_shapes s' = st_shapes s /\
    st_scenes s' = st_scenes s /\
    m_scene_cache s' = m_scene_cache s /\
    api_next (m_api s') = api_next (m_api s) /\
    (forall h, api_shapes (m_api s) !! h = None \/ h ∈ l ->
               api_shapes (m_api s') !! h = None).
Proof.
  unfold for_each.
  induction l as [|a rest IH]; intros u s s' Hrun; simpl in Hrun.
  - inv_ok. repeat split; auto. intros h [H|H]; [exact H|inversion H].
  - apply bind_Ok in Hrun. destruct Hrun as (u1 & s1 & Hstep & Hrest).
    unfold DetachShape, DeleteShape, update_api in Hstep. run_inv.
    destruct u1. apply IH in Hrest. simpl in Hrest.
    destruct Hrest as (H1 & H2 & H3 & H4 & H5).
    repeat split; auto.
    intros h Hh. apply H5.
    destruct (decide (h = a)) as [->|Hne].
    + left. apply lookup_delete_eq.
    + destruct Hh as [Hh|Hh].
      * left. rewrite lookup_delete_ne by auto. exact Hh.
      * apply elem_of_cons in Hh. destruct Hh as [?|Hh]; [contradiction|auto].
Qed.

Lemma split_scene_Ok shape_iter p s s' :
  split_scene shape_iter s = Ok p s' ->
  SplitMeshesAndInstances (st_shapes s) shape_iter = Some p /\ s' = s.
Proof. unfold split_scene. apply defined_Ok. Qed.

Lemma partition_order_length p :
  length (partition_order p) =
  (length (meshes p) + length (excluded_meshes p) + length (instances p))%nat.
Proof. unfold partition_order. rewrite !length_app. lia. Qed.

(** What a run of [UpdateIntersector] that returns leaves behind: the
    handles are fresh and consecutive, in the order of the partition. *)
Lemma UpdateIntersector_Ok scene u s s' :
  UpdateIntersector scene s = Ok u s' ->
  exists sc p out',
    st_scenes s !! scene = Some sc /\
    SplitMeshesAndInstances (st_shapes s) (scene_shapes sc) = Some p /\
    m_scene_cache s' !! scene = Some out' /\
    isect_shapes out' =
      fresh_handles (api_next (m_api s)) (length (partition_order p)) /\
    visible_shapes out' =
      fresh_handles (api_next (m_api s)) (length (meshes p)) ++
      fresh_handles
        (api_next (m_api s) + N.of_nat (length (meshes p) + length (excluded_meshes p)))%N
        (length (instances p)) /\
    (forall k a, partition_order p !! k = Some a ->
       exists rsh,
         api_shapes (m_api s') !! (api_next (m_api s) + N.of_nat k)%N = Some rsh /\
         rr_id rsh = Some (Nat.iter k int_succ 1) /\
         handle_of (st_shapes s) a rsh) /\
    api_next (m_api s') =
      (api_next (m_api s) + N.of_nat (length (partition_order p)))%N /\
    st_shapes s' = st_shapes s /\
    st_scenes s' = st_scenes s.
Proof.
  unfold UpdateIntersector, CreateShapeIterator. intros H. run_inv.
  match goal with
  | H : for_each _ _ _ = Ok _ _ |- _ =>
      apply detach_delete_loop in H; destruct H as (Hsh0 & Hsc0 & Hca0 & Hnx0 & _)
  end.
  match goal with
  | H : scene_shapes _ = _ :: _ |- _ => rename H into Hiter
  end.
  match goal with
  | H : split_scene _ _ = Ok _ _ |- _ =>
      apply split_scene_Ok in H; destruct H as [Hp ->]
  end.
  simpl in Hp.
  repeat match goal with
  | x : IsectLoop |- _ => destruct x as [? ?]
  end.
  match goal with
  | Hm : foldM (isect_mesh scene) _ _ ?s0 = Ok _ ?s1,
    He : foldM (isect_excluded scene) _ _ ?s1 = Ok _ ?s2,
    Hi : foldM (isect_instance scene) _ _ ?s2 = Ok _ ?s3 |- _ =>
      assert (Hout0 : exists o, m_scene_cache s0 !! scene = Some o /\
                                isect_shapes o = [] /\ visible_shapes o = [])
        by (eexists; split; [apply lookup_insert_eq|split; reflexivity]);
      destruct Hout0 as (o0 & Ho0 & Hi0 & Hv0);
      destruct (handle_loop true scene (isect_mesh scene)
                  (fun id rr a st' s s' => isect_mesh_step scene id rr a st' s s')
                  _ _ _ _ _ _ _ Hm Ho0)
        as (o1 & Ho1 & Hid1 & Hi1 & Hv1 & Hn1 & _ & Hold1 & Hnew1 & Hh1 & Hs1);
      destruct (handle_loop false scene (isect_excluded scene)
                  (fun id rr a st' s s' => isect_excluded_step scene id rr a st' s s')
                  _ _ _ _ _ _ _ He Ho1)
        as (o2 & Ho2 & Hid2 & Hi2 & Hv2 & Hn2 & _ & Hold2 & Hnew2 & Hh2 & Hs2);
      destruct (handle_loop true scene (isect_instance scene)
                  (fun id rr a st' s s' => isect_instance_step scene id rr a st' s s')
                  _ _ _ _ _ _ _ Hi Ho2)
        as (o3 & Ho3 & Hid3 & Hi3 & Hv3 & Hn3 & _ & Hold3 & Hnew3 & Hh3 & Hs3)
  end.
  simpl in *. subst.
  rewrite Hsh0, Hsc0 in *.
  match goal with
  | H : SplitMeshesAndInstances _ _ = Some ?q |- _ => rename q into p
  end.
  match goal with
  | H : st_scenes s !! scene = Some ?sc |- _ => exists sc
  end.
  rewrite Hiter.
  exists p, o3. split; [assumption|]. split; [exact Hp|]. split; [exact Ho3|].
  rewrite Hnx0 in *.
  assert (Hsum : forall n m : nat,
             (api_next (m_api s) + N.of_nat n + N.of_nat m)%N =
             (api_next (m_api s) + N.of_nat (n + m))%N) by (intros; lia).
  split.
  { rewrite Hi3, Hi2, Hi1, Hi0, Hn2, Hn1. simpl.
    rewrite partition_order_length, !fresh_handles_app, Hsum. reflexivity. }
  split.
  { rewrite Hv3, Hv2, Hv1, Hv0, Hn2, Hn1. simpl. rewrite app_nil_r, Hsum.
    reflexivity. }
  split.
  { intros k a' Hk. unfold partition_order in Hk.
    destruct (decide (k < length (meshes p))%nat) as [Hlt|Hge].
    - rewrite lookup_app_l in Hk by exact Hlt.
      destruct (Hnew1 k a' Hk) as (rsh & Hl & Hid & Hof).
      exists rsh. split; [|auto].
      rewrite Hold3, Hold2 by (rewrite ?Hn2, Hn1; lia).
      exact Hl.
    - rewrite lookup_app_r in Hk by lia.
      destruct (decide (k - length (meshes p) < length (excluded_meshes p))%nat)
        as [Hlt|Hge2].
      + rewrite lookup_app_l in Hk by exact Hlt.
        destruct (Hnew2 _ a' Hk) as (rsh & Hl & Hid & Hof).
        exists rsh. split; [|split].
        * rewrite Hold3 by (rewrite Hn2, Hn1; lia).
          rewrite <- Hl. f_equal. rewrite Hn1. lia.
        * rewrite Hid. f_equal. rewrite <- Nat.iter_add. f_equal. lia.
        * rewrite <- Hh1. exact Hof.
      + rewrite lookup_app_r in Hk by lia.
        destruct (Hnew3 _ a' Hk) as (rsh & Hl & Hid & Hof).
        exists rsh. split; [|split].
        * rewrite <- Hl. f_equal. rewrite Hn2, Hn1. lia.
        * rewrite Hid. f_equal. rewrite <- !Nat.iter_add. f_equal. lia.
        * rewrite <- Hh1, <- Hh2. exact Hof. }
  split.
  { rewrite Hn3, Hn2, Hn1, partition_order_length. lia. }
  split; congruence.
Qed.

Lemma iter_int_succ k :
  Z.of_nat k + 1 < 2 ^ 31 -> Nat.iter k int_succ 1 = Z.of_nat k + 1.
Proof.
  induction k as [|k IH]; intros H.
  - reflexivity.
  - simpl. rewrite IH by lia. unfold int_succ.
    rewrite static_cast_int_small by lia. lia.
Qed.

(** C2. After an intersector rebuild the ids of the handles in
    [isect_shapes] are 1, 2, ..., N in this order, N being the number of
    meshes, excluded meshes and instances; the k-th handle is the one created
    for the k-th shape of the order meshes, excluded meshes, instances, and
    no handle occurs twice. *)
Theorem UpdateIntersector_ids scene s s' sc p :
  st_scenes s !! scene = Some sc ->
  SplitMeshesAndInstances (st_shapes s) (scene_shapes sc) = Some p ->
  Z.of_nat (length (meshes p) + length (excluded_meshes p) + length (instances p))
    < 2 ^ 31 ->
  UpdateIntersector scene s = Ok tt s' ->
  exists out',
    m_scene_cache s' !! scene = Some out' /\
    handle_id (m_api s') <$> isect_shapes out' =
      Some <$> seqZ 1 (Z.of_nat (length (meshes p) + length (excluded_meshes p)
                                 + length (instances p))) /\
    NoDup (isect_shapes out') /\
    (forall k a, partition_order p !! k = Some a ->
       exists h rsh,
         isect_shapes out' !! k = Some h /\
         api_shapes (m_api s') !! h = Some rsh /\
         rr_id rsh = Some (Z.of_nat k + 1) /\
         handle_of (st_shapes s) a rsh).
Proof.
  intros Hsc Hp Hbound Hrun.
  apply UpdateIntersector_Ok in Hrun.
  destruct Hrun as (sc' & p' & out' & Hsc' & Hp' & Hout & Hisect & _ & Hnew & _).
  rewrite Hsc in Hsc'. injection Hsc' as <-.
  rewrite Hp in Hp'. injection Hp' as <-.
  rewrite <- partition_order_length in *.
  assert (Hk : forall k a, partition_order p !! k = Some a ->
             exists h rsh,
               isect_shapes out' !! k = Some h /\
               api_shapes (m_api s') !! h = Some rsh /\
               rr_id rsh = Some (Z.of_nat k + 1) /\
               handle_of (st_shapes s) a rsh).
  { intros k a Hka. destruct (Hnew k a Hka) as (rsh & Hl & Hid & Hof).
    pose proof (lookup_lt_Some _ _ _ Hka) as Hlt.
    eexists _, rsh. split; [|split; [exact Hl|split; [|exact Hof]]].
    - rewrite Hisect. apply fresh_handles_lookup. exact Hlt.
    - rewrite Hid. f_equal. apply iter_int_succ. lia. }
  exists out'. split; [exact Hout|]. split; [|split; [|exact Hk]].
  - apply list_eq. intros i. rewrite !list_lookup_fmap.
    destruct (decide (i < length (partition_order p))%nat) as [Hlt|Hge].
    + destruct (lookup_lt_is_Some_2 (partition_order p) i Hlt) as [a Ha].
      destruct (Hk i a Ha) as (h & rsh & Hh & Hl & Hid & _).
      rewrite Hh, lookup_seqZ_lt by lia. simpl.
      unfold handle_id. rewrite Hl. simpl. rewrite Hid. f_equal. f_equal. lia.
    + rewrite lookup_seqZ_ge by lia.
      rewrite (lookup_ge_None_2 (isect_shapes out')); [reflexivity|].
      rewrite Hisect, fresh_handles_length. lia.
  - rewrite Hisect. apply fresh_handles_NoDup.
Qed.

Lemma attach_loop :
  forall l s,
    exists s',
      for_each l AttachShape s = Ok tt s' /\
      api_attached (m_api s') = api_attached (m_api s) ++ l /\
      api_shapes (m_api s') = api_shapes (m_api s) /\
      api_next (m_api s') = api_next (m_api s) /\
      m_scene_cache s' = m_scene_cache s.
Proof.
  unfold for_each. induction l as [|h rest IH]; intros s.
  - exists s. simpl. rewrite app_nil_r. repeat split; reflexivity.
  - simpl.
    destruct (IH (set_m_api
                    (mk_Api (api_shapes (m_api s)) (api_next (m_api s))
                       (api_attached (m_api s) ++ [h]) (api_committed (m_api s))) s))
      as (s' & Hrun & Hat & Hsh & Hnx & Hca).
    exists s'. split; [exact Hrun|].
    simpl in *. rewrite Hat, <- app_assoc. repeat split; auto.
Qed.

(** [ReloadIntersector] attaches the handles of [visible_shapes], and only
    them. *)
Lemma ReloadIntersector_run scene out s :
  m_scene_cache s !! scene = Some out ->
  exists s',
    ReloadIntersector scene s = Ok tt s' /\
    api_attached (m_api s') = visible_shapes out /\
    api_committed (m_api s') = visible_shapes out /\
    m_scene_cache s' = m_scene_cache s.
Proof.
  intros Hout. unfold ReloadIntersector.
  destruct (attach_loop (visible_shapes out)
              (set_m_api (mk_Api (api_shapes (m_api s)) (api_next (m_api s)) []
                            (api_committed (m_api s))) s))
    as (s1 & Hrun & Hat & Hsh & Hnx & Hca).
  eexists. split.
  - unfold DetachAll, update_api, modify, get_out, deref, Commit, mbind, M_bind.
    simpl. rewrite Hout. simpl. rewrite Hrun. reflexivity.
  - simpl. rewrite Hat. simpl. auto.
Qed.

(** C7. After an intersector rebuild [visible_shapes] is a part of
    [isect_shapes]: the handles created for the meshes and for the instances
    are in both lists, the handles created for the excluded meshes are in
    [isect_shapes] only, and [ReloadIntersector] then attaches exactly the
    handles of [visible_shapes]. *)
Theorem UpdateIntersector_visible scene s s' sc p :
  st_scenes s !! scene = Some sc ->
  SplitMeshesAndInstances (st_shapes s) (scene_shapes sc) = Some p ->
  UpdateIntersector scene s = Ok tt s' ->
  exists out' hm he hi,
    m_scene_cache s' !! scene = Some out' /\
    isect_shapes out' = hm ++ he ++ hi /\
    visible_shapes out' = hm ++ hi /\
    NoDup (hm ++ he ++ hi) /\
    (forall h, h ∈ visible_shapes out' -> h ∈ isect_shapes out') /\
    (forall h, h ∈ he -> h ∉ visible_shapes out') /\
    (forall k a, meshes p !! k = Some a ->
       exists h rsh, hm !! k = Some h /\ api_shapes (m_api s') !! h = Some rsh /\
                     handle_of (st_shapes s) a rsh) /\
    (forall k a, excluded_meshes p !! k = Some a ->
       exists h rsh, he !! k = Some h /\ api_shapes (m_api s') !! h = Some rsh /\
                     handle_of (st_shapes s) a rsh) /\
    (forall k a, instances p !! k = Some a ->
       exists h rsh, hi !! k = Some h /\ api_shapes (m_api s') !! h = Some rsh /\
                     handle_of (st_shapes s) a rsh) /\
    exists s'',
      ReloadIntersector scene s' = Ok tt s'' /\
      api_attached (m_api s'') = hm ++ hi.
Proof.
  intros Hsc Hp Hrun.
  apply UpdateIntersector_Ok in Hrun.
  destruct Hrun as (sc' & p' & out' & Hsc' & Hp' & Hout & Hisect & Hvis & Hnew & _).
  rewrite Hsc in Hsc'. injection Hsc' as <-.
  rewrite Hp in Hp'. injection Hp' as <-.
  set (h0 := api_next (m_api s)) in *.
  set (nm := length (meshes p)) in *.
  set (ne := length (excluded_meshes p)) in *.
  set (ni := length (instances p)) in *.
  assert (Hall : fresh_handles h0 (length (partition_order p)) =
                 fresh_handles h0 nm ++
                 fresh_handles (h0 + N.of_nat nm)%N ne ++
                 fresh_handles (h0 + N.of_nat (nm + ne))%N ni).
  { rewrite partition_order_length. fold nm ne ni.
    rewrite !fresh_handles_app, <- app_assoc. reflexivity. }
  exists out', (fresh_handles h0 nm), (fresh_handles (h0 + N.of_nat nm)%N ne),
    (fresh_handles (h0 + N.of_nat (nm + ne))%N ni).
  split; [exact Hout|]. split; [rewrite Hisect; exact Hall|]. split; [exact Hvis|].
  split; [rewrite <- Hall; apply fresh_handles_NoDup|].
  split.
  { intros h. rewrite Hvis, Hisect, Hall, !elem_of_app. tauto. }
  split.
  { intros h. rewrite Hvis, elem_of_app, !fresh_handles_elem. lia. }
  split.
  { intros k a Hk. pose proof (lookup_lt_Some _ _ _ Hk) as Hlt.
    destruct (Hnew k a) as (rsh & Hl & _ & Hof).
    - unfold partition_order. rewrite lookup_app_l by exact Hlt. exact Hk.
    - eexists _, rsh. split; [apply fresh_handles_lookup; exact Hlt|]. auto. }
  split.
  { intros k a Hk. pose proof (lookup_lt_Some _ _ _ Hk) as Hlt.
    destruct (Hnew (nm + k)%nat a) as (rsh & Hl & _ & Hof).
    - unfold partition_order. rewrite lookup_app_r by (fold nm; lia).
      fold nm. replace (nm + k - nm)%nat with k by lia.
      rewrite lookup_app_l by exact Hlt. exact Hk.
    - eexists _, rsh. split; [apply fresh_handles_lookup; exact Hlt|].
      split; [|exact Hof]. rewrite <- Hl. f_equal. lia. }
  split.
  { intros k a Hk. pose proof (lookup_lt_Some _ _ _ Hk) as Hlt.
    destruct (Hnew (nm + ne + k)%nat a) as (rsh & Hl & _ & Hof).
    - unfold partition_order. rewrite lookup_app_r by (fold nm; lia).
      rewrite lookup_app_r by (fold nm ne; lia).
      fold nm ne. replace (nm + ne + k - nm - ne)%nat with k by lia. exact Hk.
    - eexists _, rsh. split; [apply fresh_handles_lookup; exact Hlt|].
      split; [|exact Hof]. rewrite <- Hl. f_equal. lia. }
  destruct (ReloadIntersector_run scene out' s' Hout) as (s'' & Hre & Hat & _).
  exists s''. split; [exact Hre|]. rewrite Hat. exact Hvis.
Qed.

(** ** Writes through mapped pointers *)

Section buffer_writes.
Context {A : Type}.
Implicit Types (buf src : list A).

Lemma copy_to_Some off src buf buf' :
  copy_to off src buf = Some buf' ->
  (off + length src <= length buf)%nat /\
  buf' = take off buf ++ src ++ drop (off + length src) buf.
Proof.
  unfold copy_to. case_decide; [|discriminate]. intros Heq. injection Heq as <-. auto.
Qed.

Lemma copy_to_length off src buf buf' :
  copy_to off src buf = Some buf' -> length buf' = length buf.
Proof.
  intros H. apply copy_to_Some in H. destruct H as [Hle ->].
  rewrite !length_app, length_take, length_drop. lia.
Qed.

Lemma copy_to_before off src buf buf' j :
  copy_to off src buf = Some buf' -> (j < off)%nat -> buf' !! j = buf !! j.
Proof.
  intros H Hj. apply copy_to_Some in H. destruct H as [Hle ->].
  rewrite lookup_app_l by (rewrite length_take; lia).
  apply lookup_take_lt. exact Hj.
Qed.

Lemma copy_to_inside off src buf buf' q :
  copy_to off src buf = Some buf' -> (q < length src)%nat ->
  buf' !! (off + q)%nat = src !! q.
Proof.
  intros H Hq. apply copy_to_Some in H. destruct H as [Hle ->].
  rewrite lookup_app_r by (rewrite length_take; lia).
  rewrite length_take. replace (off + q - off `min` length buf)%nat with q by lia.
  apply lookup_app_l. exact Hq.
Qed.

Lemma fill_to_length off n (v : A) buf buf' :
  fill_to off n v buf = Some buf' -> length buf' = length buf.
Proof. apply copy_to_length. Qed.

Lemma fill_to_before off n (v : A) buf buf' j :
  fill_to off n v buf = Some buf' -> (j < off)%nat -> buf' !! j = buf !! j.
Proof. apply copy_to_before. Qed.

Lemma fill_to_inside off n (v : A) buf buf' q :
  fill_to off n v buf = Some buf' -> (q < n)%nat -> buf' !! (off + q)%nat = Some v.
Proof.
  intros H Hq. unfold fill_to in H.
  rewrite (copy_to_inside _ _ _ _ q H) by (rewrite length_replicate; exact Hq).
  apply lookup_replicate_2. exact Hq.
Qed.

Lemma store_at_Some i (v : A) buf buf' :
  store_at i v buf = Some buf' -> (i < length buf)%nat /\ buf' = <[i := v]> buf.
Proof.
  unfold store_at. case_decide; [|discriminate]. intros Heq. injection Heq as <-. auto.
Qed.
End buffer_writes.

(** ** The shapes pass *)

Lemma serialize_mesh_Some mesh d t lp out lp' out' :
  serialize_mesh mesh d t lp out = Some (lp', out') ->
  (num_shapes_written lp < length (shapes out))%nat /\
  shapes out' = <[num_shapes_written lp := mesh_record d t lp]> (shapes out) /\
  materialids out' = materialids out /\
  length (vertices out') = length (vertices out) /\
  length (indices out') = length (indices out) /\
  num_shapes_written lp' = S (num_shapes_written lp) /\
  num_matids_written lp' = num_matids_written lp /\
  shape_data lp' = <[mesh := mesh_record d t lp]> (shape_data lp).
Proof.
  unfold serialize_mesh. intros H.
  destruct (copy_to (num_vertices_written lp) (GetVertices d) (vertices out))
    as [v'|] eqn:Hv; simpl in H; [|discriminate].
  destruct (copy_to (num_normals_written lp) (GetNormals d) (normals out))
    as [n'|] eqn:Hn; simpl in H; [|discriminate].
  destruct (copy_to (num_uvs_written lp) (GetUVs d) (uvs out))
    as [u'|] eqn:Hu; simpl in H; [|discriminate].
  destruct (copy_to (num_indices_written lp) (int_indices d) (indices out))
    as [i'|] eqn:Hi; simpl in H; [|discriminate].
  destruct (store_at (num_shapes_written lp) (mesh_record d t lp) (shapes out))
    as [s'|] eqn:Hs; simpl in H; [|discriminate].
  injection H as <- <-. simpl.
  apply store_at_Some in Hs. destruct Hs as [Hlt ->].
  apply copy_to_length in Hv, Hi.
  repeat split; auto.
Qed.

Lemma fill_matids_Some n v lp out lp' out' :
  fill_matids n v lp out = Some (lp', out') ->
  fill_to (num_matids_written lp) n v (materialids out) = Some (materialids out') /\
  shapes out' = shapes out /\
  vertices out' = vertices out /\
  indices out' = indices out /\
  num_shapes_written lp' = num_shapes_written lp /\
  num_matids_written lp' = (num_matids_written lp + n)%nat /\
  shape_data lp' = shape_data lp.
Proof.
  unfold fill_matids. intros H.
  destruct (fill_to (num_matids_written lp) n v (materialids out)) as [m'|] eqn:Hm;
    simpl in H; [|discriminate].
  injection H as <- <-. simpl. repeat split; auto.
Qed.

Lemma material_or_default_Ok material m s s' :
  material_or_default material s = Ok m s' ->
  m = default (m_default_material s) material /\ s' = s.
Proof.
  unfold material_or_default. destruct material; intros H; inv_ok; auto.
Qed.

Lemma Shape_SetDirty_Ok a u s s' :
  Shape_SetDirty a false s = Ok u s' ->
  exists sh, st_shapes s !! a = Some sh /\
             s' = set_st_shapes (<[a := clean_shape sh]> (st_shapes s)) s.
Proof. unfold Shape_SetDirty. intros H. run_inv. eauto. Qed.

Ltac inv_shapes :=
  repeat match goal with
  | H : material_or_default _ _ = Ok _ _ |- _ =>
      apply material_or_default_Ok in H; destruct H as [? ?]; subst
  | H : Shape_SetDirty _ false _ = Ok _ _ |- _ =>
      apply Shape_SetDirty_Ok in H; destruct H as (? & ? & ?); subst
  | H : serialize_mesh _ _ _ _ _ = Some _ |- _ =>
      apply serialize_mesh_Some in H;
      destruct H as (? & ? & ? & ? & ? & ? & ? & ?)
  | H : fill_matids _ _ _ _ = Some _ |- _ =>
      apply fill_matids_Some in H;
      destruct H as (? & ? & ? & ? & ? & ? & ?)
  end.

Ltac inv_body :=
  repeat (progress
            (run_inv; inv_shapes;
             repeat match goal with
                    | x : (ShapesLoop * ClwSceneData)%type |- _ => destruct x
                    end)).

Lemma shapes_mesh_step scene mat_collector lp mesh lp' s s' :
  shapes_mesh scene mat_collector lp mesh s = Ok lp' s' ->
  geometry_step scene mesh lp lp' s s'.
Proof.
  unfold shapes_mesh. intros H. inv_body.
  unfold geometry_step. eexists _, _, _, _.
  split; [eassumption|]. split; [eassumption|]. split; [eassumption|].
  split; [apply lookup_insert_eq|].
  repeat match goal with
  | H : fill_to _ _ _ _ = Some _ |- _ =>
      pose proof (fill_to_length _ _ _ _ _ H);
      pose proof (fun j => fill_to_before _ _ _ _ _ j H);
      clear H
  end.
  repeat split; try congruence.
  intros j Hj. 
  match goal with H : forall j, _ -> _ !! j = _ !! j |- _ => rewrite H by congruence end.
  congruence.
Qed.

Lemma shapes_excluded_step scene lp mesh lp' s s' :
  shapes_excluded scene lp mesh s = Ok lp' s' ->
  geometry_step scene mesh lp lp' s s'.
Proof.
  unfold shapes_excluded. intros H. inv_body.
  unfold geometry_step. eexists _, _, _, _.
  split; [eassumption|]. split; [eassumption|]. split; [eassumption|].
  split; [apply lookup_insert_eq|].
  repeat match goal with
  | H : fill_to _ _ _ _ = Some _ |- _ =>
      pose proof (fill_to_length _ _ _ _ _ H);
      pose proof (fun j => fill_to_before _ _ _ _ _ j H);
      clear H
  end.
  repeat split; try congruence.
  intros j Hj.
  match goal with H : forall j, _ -> _ !! j = _ !! j |- _ => rewrite H by congruence end.
  congruence.
Qed.

Lemma shape_data_at_spec base lp :
  (shape_data_at base lp).1 = default filler (shape_data lp !! base) /\
  num_shapes_written (shape_data_at base lp).2 = num_shapes_written lp /\
  num_matids_written (shape_data_at base lp).2 = num_matids_written lp /\
  (forall k rec, shape_data lp !! k = Some rec ->
                 shape_data (shape_data_at base lp).2 !! k = Some rec).
Proof.
  unfold shape_data_at. destruct (shape_data lp !! base) as [rec|] eqn:E; simpl.
  - repeat split; auto.
  - repeat split; auto. intros k rec Hk.
    rewrite lookup_insert_ne; [exact Hk|]. intros ->. congruence.
Qed.

Lemma instance_record_matids base t lp lp2 :
  num_matids_written lp2 = num_matids_written lp ->
  instance_record base t lp2 = instance_record base t lp.
Proof. unfold instance_record. intros ->. reflexivity. Qed.

Lemma serialize_instance_Some shape lp out lp' out' :
  serialize_instance shape lp out = Some (lp', out') ->
  (num_shapes_written lp < length (shapes out))%nat /\
  shapes out' = <[num_shapes_written lp := shape]> (shapes out) /\
  materialids out' = materialids out /\
  vertices out' = vertices out /\
  indices out' = indices out /\
  num_shapes_written lp' = S (num_shapes_written lp) /\
  num_matids_written lp' = num_matids_written lp /\
  shape_data lp' = shape_data lp.
Proof.
  unfold serialize_instance. intros H.
  destruct (store_at (num_shapes_written lp) shape (shapes out)) as [sh'|] eqn:E;
    simpl in H; [|discriminate H].
  apply store_at_Some in E. destruct E as [Hlt ->].
  injection H as <- <-. simpl. repeat split; auto.
Qed.

Lemma shapes_instance_step scene mat_collector lp instance lp' s s' :
  shapes_instance scene mat_collector lp instance s = Ok lp' s' ->
  instance_step scene mat_collector instance lp lp' s s'.
Proof.
  unfold shapes_instance. intros H. run_inv.
  match goal with
  | H : GetBaseShape _ = Some ?b |- _ => rename b into base
  end.
  destruct (shape_data_at_spec base lp) as (Hrec & Hnsw & Hnmw & Hkeep).
  destruct (shape_data_at base lp) as [brec lp2] eqn:Hat. simpl in *.
  inv_body.
  match goal with
  | H : serialize_instance _ _ _ = Some _ |- _ =>
      apply serialize_instance_Some in H;
      destruct H as (? & ? & ? & ? & ? & ? & ? & ?)
  end.
  inv_body.
  rewrite (instance_record_matids _ _ lp lp2 Hnmw) in *.
  unfold instance_step. eexists _, _, _, _, _, _, _, _.
  split; [eassumption|]. split; [eassumption|]. split; [eassumption|].
  split; [eassumption|]. split; [eassumption|].
  split; [apply lookup_insert_eq|].
  repeat split; try congruence; eauto.
  - rewrite <- Hnmw. congruence.
  - intros k rec Hk. apply Hkeep in Hk. congruence.
Qed.

Lemma shape_static_clean heap a sh x :
  heap !! a = Some sh ->
  shape_static (<[a := clean_shape sh]> heap) x = shape_static heap x.
Proof.
  intros H. unfold shape_static. destruct (decide (a = x)) as [->|Hne].
  - rewrite lookup_insert_eq, H. reflexivity.
  - rewrite lookup_insert_ne by exact Hne. reflexivity.
Qed.

Section static_ext.
Variables heap heap' : gmap addr Shape.
Hypothesis Hext : forall x, shape_static heap' x = shape_static heap x.

Lemma mesh_at_ext a : mesh_at heap' a = mesh_at heap a.
Proof. unfold mesh_at. rewrite Hext. reflexivity. Qed.

Lemma geometry_at_ext a : geometry_at heap' a = geometry_at heap a.
Proof.
  unfold geometry_at. rewrite Hext.
  destruct (shape_static heap a) as [[[[d|b] t] m]|]; auto using mesh_at_ext.
Qed.

Lemma prims_of_ext a : prims_of heap' a = prims_of heap a.
Proof. unfold prims_of. rewrite geometry_at_ext. reflexivity. Qed.

Lemma prims_of_ext_list (l : list addr) : prims_of heap' <$> l = prims_of heap <$> l.
Proof. apply list_fmap_ext. intros. apply prims_of_ext. Qed.
End static_ext.

Lemma shape_static_mesh heap a sh d :
  heap !! a = Some sh -> as_mesh sh = Some d ->
  shape_static heap a = Some (Mesh d, shape_transform sh, shape_material sh).
Proof.
  intros H Hd. unfold shape_static. rewrite H. simpl.
  rewrite (as_mesh_kind _ _ Hd). reflexivity.
Qed.

Lemma shape_static_instance heap a sh b :
  heap !! a = Some sh -> GetBaseShape sh = Some b ->
  shape_static heap a = Some (Instance b, shape_transform sh, shape_material sh).
Proof.
  intros H Hb. unfold shape_static. rewrite H. simpl.
  rewrite (GetBaseShape_kind _ _ Hb). reflexivity.
Qed.

Lemma mesh_at_mesh heap a sh d :
  heap !! a = Some sh -> as_mesh sh = Some d -> mesh_at heap a = Some d.
Proof.
  intros H Hd. unfold mesh_at. rewrite (shape_static_mesh _ _ _ _ H Hd). reflexivity.
Qed.

Lemma prims_of_mesh heap a sh d :
  heap !! a = Some sh -> as_mesh sh = Some d ->
  prims_of heap a = (GetNumIndices d / 3)%nat.
Proof.
  intros H Hd. unfold prims_of, geometry_at.
  rewrite (shape_static_mesh _ _ _ _ H Hd). reflexivity.
Qed.

Lemma prims_of_instance heap a sh base b bd :
  heap !! a = Some sh -> GetBaseShape sh = Some base ->
  heap !! base = Some b -> as_mesh b = Some bd ->
  prims_of heap a = (GetNumIndices bd / 3)%nat.
Proof.
  intros H Hb Hbase Hbd. unfold prims_of, geometry_at.
  rewrite (shape_static_instance _ _ _ _ H Hb).
  rewrite (mesh_at_mesh _ _ _ _ Hbase Hbd). reflexivity.
Qed.

(** A mesh loop of [UpdateShapes] over distinct meshes. *)
Lemma geometry_loop scene (body : ShapesLoop -> addr -> M ShapesLoop) :
  (forall lp a lp' s s',
      body lp a s = Ok lp' s' -> geometry_step scene a lp lp' s s') ->
  forall l lp s lp' s' out,
    NoDup l ->
    foldM body l lp s = Ok lp' s' ->
    m_scene_cache s !! scene = Some out ->
    exists out',
      m_scene_cache s' !! scene = Some out' /\
      num_shapes_written lp' = (num_shapes_written lp + length l)%nat /\
      num_matids_written lp' =
        (num_matids_written lp + sum_list (prims_of (st_shapes s) <$> l))%nat /\
      length (shapes out') = length (shapes out) /\
      length (materialids out') = length (materialids out) /\
      length (vertices out') = length (vertices out) /\
      length (indices out') = length (indices out) /\
      (forall j, (j < num_shapes_written lp)%nat -> shapes out' !! j = shapes out !! j) /\
      (forall j, (j < num_matids_written lp)%nat ->
                 materialids out' !! j = materialids out !! j) /\
      (forall b, b ∉ l -> shape_data lp' !! b = shape_data lp !! b) /\
      (forall k a, l !! k = Some a ->
         exists d t m rec,
           shape_static (st_shapes s) a = Some (Mesh d, t, m) /\
           shapes out' !! (num_shapes_written lp + k)%nat = Some rec /\
           shape_data lp' !! a = Some rec /\
           ClwScene.numprims rec = static_cast_int (Z.of_nat (GetNumIndices d / 3)) /\
           ClwScene.transform rec = rows_of t) /\
      (forall x, shape_static (st_shapes s') x = shape_static (st_shapes s) x) /\
      m_default_material s' = m_default_material s /\
      st_scenes s' = st_scenes s.
Proof.
  intros Hbody.
  induction l as [|a rest IH]; intros lp s lp' s' out Hnd Hrun Hout; simpl in Hrun.
  - inv_ok. exists out. simpl. rewrite !Nat.add_0_r. repeat split; auto.
    intros k a Hk. inversion Hk.
  - apply bind_Ok in Hrun. destruct Hrun as (lp1 & s1 & Hstep & Hrest).
    apply Hbody in Hstep.
    destruct Hstep as (sh & d & out0 & out1 & Hsh & Hd & Hout0 & Hout1 & Hlt & Hshapes
                       & Hmfr & Hmlen & Hvlen & Hilen & Hnsw & Hnmw & Hsd & Hheap
                       & Hdef & Hscn).
    rewrite Hout in Hout0. injection Hout0 as <-.
    apply NoDup_cons in Hnd. destruct Hnd as [Hnotin Hnd].
    destruct (IH _ _ _ _ _ Hnd Hrest Hout1)
      as (out' & Hout' & Hnsw' & Hnmw' & Hl1 & Hl2 & Hl3 & Hl4 & Hfs & Hfm & Hfd
          & Hnew & Hst & Hdef' & Hscn').
    assert (Hext : forall x, shape_static (st_shapes s1) x = shape_static (st_shapes s) x).
    { intros x. rewrite Hheap. apply shape_static_clean. exact Hsh. }
    exists out'. split; [exact Hout'|].
    split; [rewrite Hnsw', Hnsw; simpl; lia|].
    split.
    { rewrite Hnmw', Hnmw. simpl.
      rewrite (prims_of_ext_list _ _ Hext), (prims_of_mesh _ _ _ _ Hsh Hd).
      rewrite <- Nat.add_assoc. reflexivity. }
    split; [rewrite Hl1, Hshapes; apply length_insert|].
    split; [congruence|]. split; [congruence|]. split; [congruence|].
    split.
    { intros j Hj. rewrite Hfs by lia. rewrite Hshapes.
      apply list_lookup_insert_ne. lia. }
    split.
    { intros j Hj. rewrite Hfm by lia. apply Hmfr. exact Hj. }
    split.
    { intros b Hb. apply not_elem_of_cons in Hb. destruct Hb as [Hne Hb].
      rewrite Hfd by exact Hb. rewrite Hsd. apply lookup_insert_ne. auto. }
    split.
    { intros k b Hk. destruct k as [|k]; simpl in Hk.
      - injection Hk as <-.
        exists d, (shape_transform sh), (shape_material sh),
          (mesh_record d (shape_transform sh) lp).
        split; [apply shape_static_mesh; assumption|].
        split.
        { rewrite Nat.add_0_r, Hfs by lia. rewrite Hshapes.
          apply list_lookup_insert_eq. exact Hlt. }
        split.
        { rewrite Hfd by exact Hnotin. rewrite Hsd. apply lookup_insert_eq. }
        split; reflexivity.
      - destruct (Hnew k b Hk) as (d' & t' & m' & rec & Hs' & Hr & Hsd' & Hnp & Htr).
        exists d', t', m', rec. rewrite <- Hext. split; [exact Hs'|].
        split; [|auto].
        rewrite <- Hr. f_equal. lia. }
    split; [intros x; rewrite Hst; apply Hext|].
    split; congruence.
Qed.

(** The instance loop of [UpdateShapes]. *)
Lemma instance_loop scene mat_collector :
  forall l lp s lp' s' out,
    foldM (shapes_instance scene mat_collector) l lp s = Ok lp' s' ->
    m_scene_cache s !! scene = Some out ->
    exists out',
      m_scene_cache s' !! scene = Some out' /\
      num_shapes_written lp' = (num_shapes_written lp + length l)%nat /\
      num_matids_written lp' =
        (num_matids_written lp + sum_list (prims_of (st_shapes s) <$> l))%nat /\
      length (shapes out') = length (shapes out) /\
      length (materialids out') = length (materialids out) /\
      vertices out' = vertices out /\
      indices out' = indices out /\
      (forall j, (j < num_shapes_written lp)%nat -> shapes out' !! j = shapes out !! j) /\
      (forall j, (j < num_matids_written lp)%nat ->
                 materialids out' !! j = materialids out !! j) /\
      (forall k a, l !! k = Some a ->
         exists base bd t m matidx rec,
           shape_static (st_shapes s) a = Some (Instance base, t, m) /\
           mesh_at (st_shapes s) base = Some bd /\
           shapes out' !! (num_shapes_written lp + k)%nat = Some rec /\
           (forall brec, shape_data lp !! base = Some brec ->
              ClwScene.numprims rec = ClwScene.numprims brec /\
              ClwScene.startvtx rec = ClwScene.startvtx brec /\
              ClwScene.startidx rec = ClwScene.startidx brec) /\
           ClwScene.transform rec = rows_of t /\
           Collector.GetItemIndex mat_collector (default (m_default_material s) m)
             = Some matidx /\
           ClwScene.start_material_idx rec =
             static_cast_int
               (Z.of_nat (num_matids_written lp
                          + sum_list (prims_of (st_shapes s) <$> take k l))) /\
           (forall q, (q < GetNumIndices bd / 3)%nat ->
              materialids out' !!
                (num_matids_written lp
                 + sum_list (prims_of (st_shapes s) <$> take k l) + q)%nat
              = Some (index_to_int matidx))) /\
      (forall x, shape_static (st_shapes s') x = shape_static (st_shapes s) x) /\
      m_default_material s' = m_default_material s /\
      st_scenes s' = st_scenes s.
Proof.
  induction l as [|a rest IH]; intros lp s lp' s' out Hrun Hout; simpl in Hrun.
  - inv_ok. exists out. simpl. rewrite !Nat.add_0_r. repeat split; auto.
    intros k a Hk. inversion Hk.
  - apply bind_Ok in Hrun. destruct Hrun as (lp1 & s1 & Hstep & Hrest).
    apply shapes_instance_step in Hstep.
    destruct Hstep as (sh & base & b & bd & out0 & out1 & material & matidx & Hsh & Hbase
                       & Hb & Hbd & Hout0 & Hout1 & Hlt & Hshapes & Hmat & Hidx & Hfill
                       & Hv & Hi & Hnsw & Hnmw & Hkeep & Hheap & Hdef & Hscn).
    rewrite Hout in Hout0. injection Hout0 as <-.
    destruct (IH _ _ _ _ _ Hrest Hout1)
      as (out' & Hout' & Hnsw' & Hnmw' & Hl1 & Hl2 & Hv' & Hi' & Hfs & Hfm
          & Hnew & Hst & Hdef' & Hscn').
    assert (Hext : forall x, shape_static (st_shapes s1) x = shape_static (st_shapes s) x).
    { intros x. rewrite Hheap. apply shape_static_clean. exact Hsh. }
    assert (Hpa : prims_of (st_shapes s) a = (GetNumIndices bd / 3)%nat)
      by (eapply prims_of_instance; eassumption).
    exists out'. split; [exact Hout'|].
    split; [rewrite Hnsw', Hnsw; simpl; lia|].
    split.
    { rewrite Hnmw', Hnmw. simpl.
      rewrite (prims_of_ext_list _ _ Hext), Hpa.
      rewrite <- Nat.add_assoc. reflexivity. }
    split; [rewrite Hl1, Hshapes; apply length_insert|].
    split; [rewrite Hl2; eapply fill_to_length; exact Hfill|].
    split; [congruence|]. split; [congruence|].
    split.
    { intros j Hj. rewrite Hfs by lia. rewrite Hshapes.
      apply list_lookup_insert_ne. lia. }
    split.
    { intros j Hj. rewrite Hfm by lia. eapply fill_to_before; eassumption. }
    split.
    { intros k c Hk. destruct k as [|k]; simpl in Hk.
      - injection Hk as <-.
        exists base, bd, (shape_transform sh), (shape_material sh), matidx,
          (instance_record (default filler (shape_data lp !! base))
             (shape_transform sh) lp).
        split; [apply shape_static_instance; assumption|].
        split; [eapply mesh_at_mesh; eassumption|].
        split.
        { rewrite Nat.add_0_r, Hfs by lia. rewrite Hshapes.
          apply list_lookup_insert_eq. exact Hlt. }
        split; [intros brec Hbrec; rewrite Hbrec; simpl; auto|].
        split; [reflexivity|].
        split; [congruence|].
        simpl. rewrite !Nat.add_0_r.
        split; [reflexivity|].
        intros q Hq. rewrite Hfm by lia.
        eapply fill_to_inside; eassumption.
      - destruct (Hnew k c Hk)
          as (base' & bd' & t' & m' & matidx' & rec & Hs' & Hm' & Hr & Hbr & Htr & Hgi
              & Hstart & Hreg).
        assert (Hsum : (num_matids_written lp1
                        + sum_list (prims_of (st_shapes s1) <$> take k rest))%nat =
                       (num_matids_written lp
                        + sum_list (prims_of (st_shapes s) <$> take (S k) (a :: rest)))%nat).
        { rewrite Hnmw. simpl. rewrite (prims_of_ext_list _ _ Hext), Hpa.
          rewrite <- Nat.add_assoc. reflexivity. }
        exists base', bd', t', m', matidx', rec.
        rewrite <- Hext. split; [exact Hs'|].
        split; [rewrite <- (mesh_at_ext _ _ Hext); exact Hm'|].
        split; [rewrite <- Hr; f_equal; lia|].
        split; [intros brec Hbrec; apply Hbr, Hkeep, Hbrec|].
        split; [exact Htr|].
        split; [rewrite <- Hdef; exact Hgi|].
        rewrite <- Hsum. split; [exact Hstart|exact Hreg]. }
    split; [intros x; rewrite Hst; apply Hext|].
    split; congruence.
Qed.

Lemma vertices_of_mesh heap a sh d :
  heap !! a = Some sh -> as_mesh sh = Some d ->
  vertices_of heap a = GetNumVertices d.
Proof.
  intros H Hd. unfold vertices_of. rewrite (mesh_at_mesh _ _ _ _ H Hd). reflexivity.
Qed.

Lemma indices_of_mesh heap a sh d :
  heap !! a = Some sh -> as_mesh sh = Some d ->
  indices_of heap a = GetNumIndices d.
Proof.
  intros H Hd. unfold indices_of. rewrite (mesh_at_mesh _ _ _ _ H Hd). reflexivity.
Qed.

Lemma count_mesh_loop :
  forall l sz s sz' s',
    foldM count_mesh l sz s = Ok sz' s' ->
    s' = s /\
    num_vertices sz' = (num_vertices sz + sum_list (vertices_of (st_shapes s) <$> l))%nat /\
    num_indices sz' = (num_indices sz + sum_list (indices_of (st_shapes s) <$> l))%nat /\
    num_material_ids sz' =
      (num_material_ids sz + sum_list (prims_of (st_shapes s) <$> l))%nat.
Proof.
  induction l as [|a rest IH]; intros sz s sz' s' Hrun; simpl in Hrun.
  - inv_ok. simpl. rewrite !Nat.add_0_r. auto.
  - apply bind_Ok in Hrun. destruct Hrun as (sz1 & s1 & Hstep & Hrest).
    unfold count_mesh in Hstep. run_inv.
    apply IH in Hrest. destruct Hrest as (-> & Hv & Hi & Hm). simpl in *.
    match goal with
    | Hs : st_shapes s !! a = Some ?sh, Hd : as_mesh ?sh = Some ?d |- _ =>
        rewrite (vertices_of_mesh _ _ _ _ Hs Hd), (indices_of_mesh _ _ _ _ Hs Hd),
          (prims_of_mesh _ _ _ _ Hs Hd)
    end.
    rewrite Hv, Hi, Hm. rewrite <- !Nat.add_assoc. auto.
Qed.

Lemma count_instance_loop :
  forall l sz s sz' s',
    foldM count_instance l sz s = Ok sz' s' ->
    s' = s /\
    num_vertices sz' = num_vertices sz /\
    num_indices sz' = num_indices sz /\
    num_material_ids sz' =
      (num_material_ids sz + sum_list (prims_of (st_shapes s) <$> l))%nat.
Proof.
  induction l as [|a rest IH]; intros sz s sz' s' Hrun; simpl in Hrun.
  - inv_ok. simpl. rewrite !Nat.add_0_r. auto.
  - apply bind_Ok in Hrun. destruct Hrun as (sz1 & s1 & Hstep & Hrest).
    unfold count_instance in Hstep. run_inv.
    apply IH in Hrest. destruct Hrest as (-> & Hv & Hi & Hm). simpl in *.
    match goal with
    | Hs : st_shapes s !! a = Some ?sh, Hb : GetBaseShape ?sh = Some ?base,
      Hbase : st_shapes s !! ?base = Some ?b, Hd : as_mesh ?b = Some ?d |- _ =>
        pose proof (prims_of_instance _ _ _ _ _ _ Hs Hb Hbase Hd) as Hpa
    end.
    rewrite Hpa, Hv, Hi, Hm. rewrite <- !Nat.add_assoc. auto.
Qed.

Lemma partition_geometry_NoDup heap shape_iter p :
  SplitMeshesAndInstances heap shape_iter = Some p ->
  NoDup (meshes p ++ excluded_meshes p).
Proof.
  intros Hp. destruct (partition_wf _ _ _ Hp) as (Hm & _ & He).
  destruct (partition_members _ _ _ Hp) as (_ & _ & Hex).
  apply NoDup_app. split; [apply wf_NoDup, Hm|]. split; [|apply wf_NoDup, He].
  intros x Hx Hxe. apply Hex in Hxe. tauto.
Qed.

Lemma partition_base_member heap shape_iter p i s base :
  SplitMeshesAndInstances heap shape_iter = Some p ->
  i ∈ instances p -> heap !! i = Some s -> GetBaseShape s = Some base ->
  base ∈ meshes p ++ excluded_meshes p.
Proof.
  intros Hp Hi Hs Hb. destruct (partition_members _ _ _ Hp) as (_ & _ & Hex).
  apply elem_of_app.
  destruct (decide (base ∈ meshes p)) as [Hin|Hnin]; [auto|].
  right. apply Hex. split; [|exact Hnin]. eauto.
Qed.

Lemma fresh_buffer_length {A} `{Filler A} n : length (fresh_buffer (A:=A) n) = n.
Proof. unfold fresh_buffer. apply length_replicate. Qed.

Lemma UpdateShapes_Ok scene mat_collector tex_collector u s s' :
  UpdateShapes scene mat_collector tex_collector s = Ok u s' ->
  exists sc p out',
    st_scenes s !! scene = Some sc /\
    SplitMeshesAndInstances (st_shapes s) (scene_shapes sc) = Some p /\
    m_scene_cache s' !! scene = Some out' /\
    length (shapes out') = length (partition_order p) /\
    length (vertices out') =
      sum_list (vertices_of (st_shapes s) <$> (meshes p ++ excluded_meshes p)) /\
    length (indices out') =
      sum_list (indices_of (st_shapes s) <$> (meshes p ++ excluded_meshes p)) /\
    length (materialids out') =
      sum_list (prims_of (st_shapes s) <$> partition_order p) /\
    (forall j a, (meshes p ++ excluded_meshes p) !! j = Some a ->
       exists d t m rec,
         shape_static (st_shapes s) a = Some (Mesh d, t, m) /\
         shapes out' !! j = Some rec /\
         ClwScene.numprims rec = static_cast_int (Z.of_nat (GetNumIndices d / 3)) /\
         ClwScene.transform rec = rows_of t) /\
    (forall k a, instances p !! k = Some a ->
       exists base bd t m matidx rec jb brec,
         shape_static (st_shapes s) a = Some (Instance base, t, m) /\
         mesh_at (st_shapes s) base = Some bd /\
         shapes out' !! (length (meshes p) + length (excluded_meshes p) + k)%nat
           = Some rec /\
         (meshes p ++ excluded_meshes p) !! jb = Some base /\
         shapes out' !! jb = Some brec /\
         ClwScene.numprims rec = ClwScene.numprims brec /\
         ClwScene.startvtx rec = ClwScene.startvtx brec /\
         ClwScene.startidx rec = ClwScene.startidx brec /\
         ClwScene.transform rec = rows_of t /\
         Collector.GetItemIndex mat_collector (default (m_default_material s) m)
           = Some matidx /\
         ClwScene.start_material_idx rec =
           static_cast_int
             (Z.of_nat (sum_list (prims_of (st_shapes s) <$>
                          take (length (meshes p) + length (excluded_meshes p) + k)
                            (partition_order p)))) /\
         (forall q, (q < GetNumIndices bd / 3)%nat ->
            materialids out' !!
              (sum_list (prims_of (st_shapes s) <$>
                 take (length (meshes p) + length (excluded_meshes p) + k)
                   (partition_order p)) + q)%nat
            = Some (index_to_int matidx))).
Proof.
  unfold UpdateShapes, CreateShapeIterator, device. intros H. run_inv.
  match goal with
  | H : split_scene _ _ = Ok _ _ |- _ =>
      apply split_scene_Ok in H; destruct H as [Hp ->]
  end.
  repeat match goal with
  | H : foldM count_mesh _ _ _ = Ok _ _ |- _ =>
      apply count_mesh_loop in H; destruct H as (-> & ? & ? & ?)
  | H : foldM count_instance _ _ _ = Ok _ _ |- _ =>
      apply count_instance_loop in H; destruct H as (-> & ? & ? & ?)
  end.
  run_inv.
  match goal with
  | H : SplitMeshesAndInstances _ _ = Some ?q |- _ => rename q into p
  end.
  match goal with
  | H : st_scenes s !! scene = Some ?q |- _ => rename q into sc
  end.
  match goal with
  | Hm : foldM (shapes_mesh _ _) _ _ ?s0 = Ok ?lp1 ?s1,
    He : foldM (shapes_excluded _) _ _ ?s1 = Ok ?lp2 ?s2,
    Hi : foldM (shapes_instance _ _) _ _ ?s2 = Ok ?lp3 ?s3 |- _ =>
      set (sA := s0) in *;
      assert (HsA : st_shapes sA = st_shapes s /\
                    m_default_material sA = m_default_material s /\
                    exists o, m_scene_cache sA !! scene = Some o /\
                              length (shapes o) = length (partition_order p) /\
                              length (vertices o) = num_vertices a3 /\
                              length (indices o) = num_indices a3 /\
                              length (materialids o) = num_material_ids a3)
        by (subst sA; simpl; split; [reflexivity|]; split; [reflexivity|];
            eexists; split; [apply lookup_insert_eq|]; simpl;
            rewrite !fresh_buffer_length, partition_order_length;
            unfold StdSet.size; repeat split; lia);
      clearbody sA;
      destruct HsA as (HshA & HdefA & oA & HoA & HlsA & HlvA & HliA & HlmA);
      pose proof (partition_geometry_NoDup _ _ _ Hp) as Hnd;
      apply NoDup_app in Hnd; destruct Hnd as (Hndm & Hdisj & Hnde);
      destruct (geometry_loop scene _ (shapes_mesh_step scene mat_collector)
                  _ _ _ _ _ _ Hndm Hm HoA)
        as (o1 & Ho1 & Hnsw1 & Hnmw1 & Hls1 & Hlm1 & Hlv1 & Hli1 & Hfs1 & Hfm1
            & Hfd1 & Hnew1 & Hst1 & Hdef1 & Hscn1);
      destruct (geometry_loop scene _ (shapes_excluded_step scene)
                  _ _ _ _ _ _ Hnde He Ho1)
        as (o2 & Ho2 & Hnsw2 & Hnmw2 & Hls2 & Hlm2 & Hlv2 & Hli2 & Hfs2 & Hfm2
            & Hfd2 & Hnew2 & Hst2 & Hdef2 & Hscn2);
      destruct (instance_loop scene mat_collector _ _ _ _ _ _ Hi Ho2)
        as (o3 & Ho3 & Hnsw3 & Hnmw3 & Hls3 & Hlm3 & Hlv3 & Hli3 & Hfs3 & Hfm3
            & Hnew3 & Hst3 & Hdef3 & Hscn3)
  end.
  simpl in Hnsw1, Hnmw1, Hfs1, Hfm1, Hfd1, Hnew1.
  rewrite HshA in *.
  assert (E1 : forall x, shape_static (st_shapes s23) x = shape_static (st_shapes s) x)
    by exact Hst1.
  assert (E2 : forall x, shape_static (st_shapes s24) x = shape_static (st_shapes s) x)
    by (intros x; rewrite Hst2; apply E1).
  rewrite (prims_of_ext_list _ _ E1) in Hnmw2.
  rewrite (prims_of_ext_list _ _ E2) in Hnmw3.
  assert (Hgeo : forall j a, (meshes p ++ excluded_meshes p) !! j = Some a ->
             exists d t m rec,
               shape_static (st_shapes s) a = Some (Mesh d, t, m) /\
               shapes o3 !! j = Some rec /\
               shape_data a23 !! a = Some rec /\
               ClwScene.numprims rec = static_cast_int (Z.of_nat (GetNumIndices d / 3)) /\
               ClwScene.transform rec = rows_of t).
  { intros j a Hj.
    destruct (decide (j < length (meshes p))%nat) as [Hlt|Hge].
    - rewrite lookup_app_l in Hj by exact Hlt.
      destruct (Hnew1 j a Hj) as (d & t & m & rec & Hs & Hr & Hsd & Hnp & Htr).
      exists d, t, m, rec. split; [exact Hs|].
      split; [rewrite Hfs3, Hfs2 by lia; exact Hr|].
      split; [|auto].
      rewrite Hfd2; [exact Hsd|]. apply Hdisj. eapply list_elem_of_lookup_2; eauto.
    - rewrite lookup_app_r in Hj by lia.
      destruct (Hnew2 _ a Hj) as (d & t & m & rec & Hs & Hr & Hsd & Hnp & Htr).
      exists d, t, m, rec. rewrite <- E1. split; [exact Hs|].
      split; [|auto].
      rewrite Hfs3 by (apply lookup_lt_Some in Hj; lia).
      rewrite <- Hr. f_equal. lia. }
  eexists sc, p, o3. split; [reflexivity|]. split; [exact Hp|]. split; [exact Ho3|].
  split; [congruence|].
  split.
  { rewrite Hlv3, Hlv2, Hlv1, HlvA, fmap_app, sum_list_with_app. lia. }
  split.
  { rewrite Hli3, Hli2, Hli1, HliA, fmap_app, sum_list_with_app. lia. }
  split.
  { rewrite Hlm3, Hlm2, Hlm1, HlmA. unfold partition_order.
    rewrite !fmap_app, !sum_list_with_app. lia. }
  split.
  { intros j a Hj. destruct (Hgeo j a Hj) as (d & t & m & rec & ? & ? & ? & ? & ?).
    exists d, t, m, rec. auto. }
  intros k a Hk.
  destruct (Hnew3 k a Hk)
    as (base & bd & t & m & matidx & rec & Hs & Hm & Hr & Hbr & Htr & Hgi & Hstart & Hreg).
  rewrite E2 in Hs. rewrite (mesh_at_ext _ _ E2) in Hm.
  rewrite (prims_of_ext_list _ _ E2) in Hstart, Hreg.
  assert (Hin : base ∈ meshes p ++ excluded_meshes p).
  { unfold shape_static in Hs.
    destruct (st_shapes s !! a) as [si|] eqn:Hsi; [|discriminate].
    simpl in Hs. injection Hs as Hkind _ _.
    eapply (partition_base_member _ _ p a si); eauto.
    - eapply list_elem_of_lookup_2; eauto.
    - unfold GetBaseShape. rewrite Hkind. reflexivity. }
  apply list_elem_of_lookup_1 in Hin. destruct Hin as [jb Hjb].
  destruct (Hgeo jb base Hjb) as (d' & t' & m' & brec & _ & Hbrec & Hsd & _ & _).
  destruct (Hbr brec Hsd) as (Hb1 & Hb2 & Hb3).
  assert (Hsum : (num_matids_written a23
                  + sum_list (prims_of (st_shapes s) <$> take k (instances p)))%nat =
                 sum_list (prims_of (st_shapes s) <$>
                   take (length (meshes p) + length (excluded_meshes p) + k)
                     (partition_order p))).
  { unfold partition_order. rewrite app_assoc.
    rewrite take_app_add' by (rewrite length_app; reflexivity).
    rewrite !fmap_app, !sum_list_with_app. lia. }
  exists base, bd, t, m, matidx, rec, jb, brec.
  split; [exact Hs|]. split; [exact Hm|].
  split; [rewrite <- Hr; f_equal; lia|].
  split; [exact Hjb|]. split; [exact Hbrec|].
  split; [exact Hb1|]. split; [exact Hb2|]. split; [exact Hb3|].
  split; [exact Htr|].
  split; [rewrite <- HdefA, <- Hdef1, <- Hdef2; exact Hgi|].
  rewrite <- Hsum. split; [exact Hstart|exact Hreg].
Qed.

Lemma index_of_lt a l i : index_of a l = Some i -> (i < length l)%nat.
Proof.
  revert i. induction l as [|b l IH]; intros i H; simpl in H; [discriminate|].
  destruct (a =? b)%N.
  - injection H as <-. simpl. lia.
  - destruct (index_of a l) as [j|]; simpl in H; [|discriminate].
    injection H as <-. specialize (IH j eq_refl). simpl. lia.
Qed.

Lemma sum_list_take_le (f : addr -> nat) (l : list addr) n :
  (sum_list (f <$> take n l) <= sum_list (f <$> l))%nat.
Proof.
  rewrite <- (take_drop n l) at 2. rewrite fmap_app, sum_list_with_app. lia.
Qed.

Lemma sum_list_take_lookup (f : addr -> nat) (l : list addr) n a :
  l !! n = Some a ->
  (sum_list (f <$> take n l) + f a <= sum_list (f <$> l))%nat.
Proof.
  intros H. rewrite <- (take_drop n l) at 2.
  rewrite (drop_S _ _ _ H), fmap_app, sum_list_with_app. simpl. lia.
Qed.

Lemma mesh_at_inv heap a d :
  mesh_at heap a = Some d -> exists sh, heap !! a = Some sh /\ as_mesh sh = Some d.
Proof.
  unfold mesh_at, shape_static, as_mesh.
  destruct (heap !! a) as [sh|]; simpl; [|discriminate].
  destruct (shape_kind sh) eqn:E; [|discriminate].
  intros H. injection H as <-. exists sh. rewrite E. auto.
Qed.

(** C8. For the k-th instance of the partition the written shape record has
    the [numprims], [startvtx] and [startidx] of the record of its base mesh
    (the instance adds nothing to the vertex and index pools, whose lengths
    are the sums over the meshes and excluded meshes), its transform is the
    instance's own, and [start_material_idx] is the start of a region of
    [numprims] material ids, lying after the regions of all earlier shapes,
    every entry of which is the collector index of the instance's own
    material, or of the default material when it has none. *)
Theorem UpdateShapes_instance_record
    scene mat_collector tex_collector s s' sc p k inst si base :
  st_scenes s !! scene = Some sc ->
  SplitMeshesAndInstances (st_shapes s) (scene_shapes sc) = Some p ->
  instances p !! k = Some inst ->
  st_shapes s !! inst = Some si ->
  GetBaseShape si = Some base ->
  Z.of_nat (sum_list (prims_of (st_shapes s) <$> partition_order p)) < 2 ^ 31 ->
  Z.of_nat (Collector.GetNumItems mat_collector) < 2 ^ 31 ->
  UpdateShapes scene mat_collector tex_collector s = Ok tt s' ->
  exists out' rec jb brec sb bd matidx,
    m_scene_cache s' !! scene = Some out' /\
    shapes out' !! (length (meshes p) + length (excluded_meshes p) + k)%nat = Some rec /\
    (meshes p ++ excluded_meshes p) !! jb = Some base /\
    shapes out' !! jb = Some brec /\
    st_shapes s !! base = Some sb /\ as_mesh sb = Some bd /\
    ClwScene.numprims rec = ClwScene.numprims brec /\
    ClwScene.startvtx rec = ClwScene.startvtx brec /\
    ClwScene.startidx rec = ClwScene.startidx brec /\
    ClwScene.numprims rec = Z.of_nat (GetNumIndices bd / 3) /\
    length (vertices out') =
      sum_list (vertices_of (st_shapes s) <$> (meshes p ++ excluded_meshes p)) /\
    length (indices out') =
      sum_list (indices_of (st_shapes s) <$> (meshes p ++ excluded_meshes p)) /\
    ClwScene.transform rec = rows_of (shape_transform si) /\
    Collector.GetItemIndex mat_collector
      (default (m_default_material s) (shape_material si)) = Some matidx /\
    let start :=
      sum_list (prims_of (st_shapes s) <$>
        take (length (meshes p) + length (excluded_meshes p) + k) (partition_order p)) in
    ClwScene.start_material_idx rec = Z.of_nat start /\
    forall q, (q < GetNumIndices bd / 3)%nat ->
      materialids out' !! (start + q)%nat = Some (Z.of_nat matidx).
Proof.
  intros Hsc Hp Hk Hsi Hbase Hfit Hfitc Hrun.
  apply UpdateShapes_Ok in Hrun.
  destruct Hrun as (sc' & p' & out' & Hsc' & Hp' & Hout & _ & Hlv & Hli & _ & Hgeo & Hinst).
  rewrite Hsc in Hsc'. injection Hsc' as <-.
  rewrite Hp in Hp'. injection Hp' as <-.
  destruct (Hinst k inst Hk)
    as (base' & bd & t & m & matidx & rec & jb & brec & Hs & Hm & Hr & Hjb & Hbrec
        & Hb1 & Hb2 & Hb3 & Htr & Hgi & Hstart & Hreg).
  rewrite (shape_static_instance _ _ _ _ Hsi Hbase) in Hs.
  injection Hs as <- <- <-.
  destruct (mesh_at_inv _ _ _ Hm) as (sb & Hsb & Hbd).
  assert (Hpos : partition_order p !!
                   (length (meshes p) + length (excluded_meshes p) + k)%nat = Some inst).
  { unfold partition_order. rewrite app_assoc.
    rewrite lookup_app_r by (rewrite length_app; lia).
    rewrite length_app.
    replace (length (meshes p) + length (excluded_meshes p) + k
             - (length (meshes p) + length (excluded_meshes p)))%nat with k by lia.
    exact Hk. }
  pose proof (sum_list_take_lookup (prims_of (st_shapes s)) _ _ _ Hpos) as Hle.
  rewrite (prims_of_instance _ _ _ _ _ _ Hsi Hbase Hsb Hbd) in Hle.
  destruct (Hgeo jb base Hjb) as (d' & t' & m' & brec' & Hs' & Hbrec' & Hnp & _).
  rewrite Hbrec in Hbrec'. injection Hbrec' as <-.
  rewrite (shape_static_mesh _ _ _ _ Hsb Hbd) in Hs'. injection Hs' as <- _ _.
  pose proof (index_of_lt _ _ _ Hgi) as Hmi.
  unfold Collector.GetNumItems in Hfitc.
  exists out', rec, jb, brec, sb, bd, matidx.
  split; [exact Hout|]. split; [exact Hr|]. split; [exact Hjb|]. split; [exact Hbrec|].
  split; [exact Hsb|]. split; [exact Hbd|].
  split; [exact Hb1|]. split; [exact Hb2|]. split; [exact Hb3|].
  split; [rewrite Hb1, Hnp; apply static_cast_int_small; lia|].
  split; [exact Hlv|]. split; [exact Hli|]. split; [exact Htr|]. split; [exact Hgi|].
  simpl. split.
  - rewrite Hstart. apply static_cast_int_small. lia.
  - intros q Hq. rewrite (Hreg q Hq). f_equal. apply index_to_int_small. lia.
Qed.

(** The partition as the specification words it fails on the code: the
    sets are [std::set]s of pointers, so the meshes come out in ascending
    address order, not in iterator order.  Two meshes at the addresses 1
    and 2, iterated as 2, 1, are a counterexample. *)
Lemma meshes_not_in_iterator_order :
  ~ (forall heap shape_iter p,
       SplitMeshesAndInstances heap shape_iter = Some p ->
       meshes p = meshes_in_iterator_order heap shape_iter).
Proof.
  intros H.
  set (m := mk_Shape (Mesh (mk_MeshData [] [] [] [])) 
              (mk_matrix 0 0 0 0 0 0 0 0 0 0 0 0 0 0 0 0) None false).
  specialize (H (<[1%N := m]> (<[2%N := m]> ∅)) [2%N; 1%N]
                (mk_Partition [1%N; 2%N] [] []) eq_refl).
  vm_compute in H. discriminate H.
Qed.

(** C4 (amended). The partition function produces three sets of shape
    addresses, each in ascending address order without repetition: [meshes]
    holds exactly the non-instance shapes of the iterator, [instances]
    exactly its instance shapes, and [excluded_meshes] exactly the base
    shapes of those instances that are not in [meshes].  [meshes] is
    disjoint from the other two, and [instances] is disjoint from
    [excluded_meshes] when the bases of all instances are meshes.  The
    shapes pass writes the records in the order meshes, excluded meshes,
    instances: the k-th record carries the transform of the k-th shape of
    that order. *)
Theorem partition_and_serialization_order heap shape_iter p :
  SplitMeshesAndInstances heap shape_iter = Some p ->
  (StronglySorted N.lt (meshes p) /\
   StronglySorted N.lt (instances p) /\
   StronglySorted N.lt (excluded_meshes p)) /\
  (forall a, a ∈ meshes p <->
     a ∈ shape_iter /\ exists s, heap !! a = Some s /\ is_instance s = false) /\
  (forall a, a ∈ instances p <->
     a ∈ shape_iter /\ exists s, heap !! a = Some s /\ is_instance s = true) /\
  (forall a, a ∈ excluded_meshes p <->
     (exists i s, i ∈ instances p /\ heap !! i = Some s /\ GetBaseShape s = Some a)
     /\ a ∉ meshes p) /\
  (forall a, a ∈ meshes p -> (a ∉ instances p) /\ (a ∉ excluded_meshes p)) /\
  (bases_are_meshes heap -> forall a, a ∈ instances p -> a ∉ excluded_meshes p) /\
  (forall scene mat_collector tex_collector s s' sc,
     st_shapes s = heap ->
     st_scenes s !! scene = Some sc ->
     scene_shapes sc = shape_iter ->
     UpdateShapes scene mat_collector tex_collector s = Ok tt s' ->
     exists out',
       m_scene_cache s' !! scene = Some out' /\
       length (shapes out') = length (meshes p ++ excluded_meshes p ++ instances p) /\
       forall k a,
         (meshes p ++ excluded_meshes p ++ instances p) !! k = Some a ->
         exists sh rec,
           heap !! a = Some sh /\
           shapes out' !! k = Some rec /\
           ClwScene.transform rec = rows_of (shape_transform sh)).
Proof.
  intros Hp.
  destruct (partition_wf _ _ _ Hp) as (Hwm & Hwi & Hwe).
  destruct (partition_members _ _ _ Hp) as (Hm & Hi & He).
  split; [auto|]. split; [exact Hm|]. split; [exact Hi|]. split; [exact He|].
  split.
  { intros a Ha. split.
    - intros Hai. apply Hm in Ha. apply Hi in Hai.
      destruct Ha as (_ & s1 & Hs1 & Hf), Hai as (_ & s2 & Hs2 & Ht). congruence.
    - intros Hae. apply He in Hae. tauto. }
  split.
  { intros Hbases a Hai Hae. apply He in Hae.
    destruct Hae as [(i & si & _ & Hsi & Hb) _].
    destruct (Hbases _ _ _ Hsi Hb) as (sb & Hsb & Hf).
    apply Hi in Hai. destruct Hai as (_ & s2 & Hs2 & Ht). congruence. }
  intros scene mat_collector tex_collector s s' sc Hheap Hsc Hiter Hrun. subst heap.
  apply UpdateShapes_Ok in Hrun.
  destruct Hrun as (sc' & p' & out' & Hsc' & Hp' & Hout & Hlen & _ & _ & _ & Hgeo & Hinst).
  rewrite Hsc in Hsc'. injection Hsc' as <-.
  rewrite Hiter, Hp in Hp'. injection Hp' as <-.
  exists out'. split; [exact Hout|]. split; [exact Hlen|].
  intros k a Hk. rewrite app_assoc in Hk.
  destruct (decide (k < length (meshes p ++ excluded_meshes p))%nat) as [Hlt|Hge].
  - rewrite lookup_app_l in Hk by exact Hlt.
    destruct (Hgeo k a Hk) as (d & t & m & rec & Hs & Hr & _ & Htr).
    unfold shape_static in Hs.
    destruct (st_shapes s !! a) as [sh|]; [|discriminate].
    simpl in Hs. injection Hs as _ <- _. eauto.
  - rewrite lookup_app_r in Hk by lia.
    destruct (Hinst _ a Hk)
      as (base & bd & t & m & matidx & rec & jb & brec & Hs & _ & Hr & _ & _ & _ & _ & _
          & Htr & _).
    unfold shape_static in Hs.
    destruct (st_shapes s !! a) as [sh|]; [|discriminate].
    simpl in Hs. injection Hs as _ <- _.
    exists sh, rec. split; [reflexivity|]. split; [|exact Htr].
    rewrite <- Hr. f_equal. rewrite length_app in *. lia.
Qed.

(** ** Frame conditions *)

Section preserves.
Variable R : State -> State -> Prop.
Hypothesis R_refl : forall s, R s s.
Hypothesis R_trans : forall s1 s2 s3, R s1 s2 -> R s2 s3 -> R s1 s3.

Lemma preserves_ret {A} (a : A) : preserves R (mret a).
Proof. intros s b s' H. apply ret_Ok in H. destruct H as [_ ->]. apply R_refl. Qed.

Lemma preserves_bind {A B} (m : M A) (f : A -> M B) :
  preserves R m -> (forall a, preserves R (f a)) -> preserves R (m ≫= f).
Proof.
  intros Hm Hf s b s' H. apply bind_Ok in H. destruct H as (a & s1 & H1 & H2).
  eapply R_trans; [eapply Hm|eapply Hf]; eassumption.
Qed.

Lemma preserves_throw {A} msg : preserves R (@throw A msg).
Proof. intros s a s' H. discriminate H. Qed.

Lemma preserves_fault {A} : preserves R (@fault A).
Proof. intros s a s' H. discriminate H. Qed.

Lemma preserves_out_of_fuel {A} : preserves R (@out_of_fuel A).
Proof. intros s a s' H. discriminate H. Qed.

Lemma preserves_gets {A} (f : State -> A) : preserves R (gets f).
Proof. intros s a s' H. apply gets_Ok in H. destruct H as [_ ->]. apply R_refl. Qed.

Lemma preserves_defined {A} (o : option A) : preserves R (defined o).
Proof. intros s a s' H. apply defined_Ok in H. destruct H as [_ ->]. apply R_refl. Qed.

Lemma preserves_deref {T} (store : State -> gmap addr T) a : preserves R (deref store a).
Proof. intros s x s' H. apply deref_Ok in H. destruct H as [_ ->]. apply R_refl. Qed.

Lemma preserves_modify f : (forall s, R s (f s)) -> preserves R (modify f).
Proof. intros Hf s u s' H. apply modify_Ok in H. subst. apply Hf. Qed.

Lemma preserves_foldM {A B} (body : B -> A -> M B) l b :
  (forall b a, preserves R (body b a)) -> preserves R (foldM body l b).
Proof.
  intros Hbody. revert b. induction l as [|a l IH]; intros b; simpl.
  - apply preserves_ret.
  - apply preserves_bind; [apply Hbody|]. intros b'. apply IH.
Qed.

Lemma preserves_for_each {A} (l : list A) (body : A -> M unit) :
  (forall a, preserves R (body a)) -> preserves R (for_each l body).
Proof. intros Hbody. unfold for_each. apply preserves_foldM. intros _ a. apply Hbody. Qed.

Lemma preserves_update_out scene f :
  (forall s out, m_scene_cache s !! scene = Some out ->
                 R s (set_m_scene_cache (<[scene := f out]> (m_scene_cache s)) s)) ->
  preserves R (update_out scene f).
Proof.
  intros Hf s u s' H. apply update_out_Ok in H. destruct H as (out & Hout & ->).
  apply Hf. exact Hout.
Qed.

Lemma preserves_any_dirty {T} (store : State -> gmap addr T) is_dirty l :
  preserves R (any_dirty store is_dirty l).
Proof.
  induction l as [|a l IH]; simpl.
  - apply preserves_ret.
  - apply preserves_bind; [apply preserves_deref|]. intros x.
    destruct (is_dirty x); [apply preserves_ret|exact IH].
Qed.
End preserves.

(** Structural steps of a frame proof, given the proofs [Hr] and [Ht] that
    the relation is reflexive and transitive; the leaves ([modify],
    [update_out]) are left to the caller. *)
Ltac frame_step Hr Ht :=
  first
    [ apply (preserves_ret _ Hr)
    | apply preserves_throw
    | apply preserves_fault
    | apply preserves_out_of_fuel
    | apply (preserves_gets _ Hr)
    | apply (preserves_defined _ Hr)
    | apply (preserves_deref _ Hr)
    | apply (preserves_any_dirty _ Hr Ht)
    | apply (preserves_bind _ Ht); [|intros ?]
    | apply (preserves_foldM _ Hr Ht); intros ? ?
    | apply (preserves_for_each _ Hr Ht); intros ?
    | match goal with
      | |- preserves _ (match ?x with _ => _ end) => destruct x
      end ].

Section keeps.
Variable scene : addr.
Variable P : DeviceOp -> Prop.
Variable Q : ClwSceneData -> ClwSceneData -> Prop.
Variable A : IntersectionApi -> IntersectionApi -> Prop.
Hypothesis Q_refl : forall o, Q o o.
Hypothesis Q_trans : forall o1 o2 o3, Q o1 o2 -> Q o2 o3 -> Q o1 o3.
Hypothesis A_refl : forall a, A a a.
Hypothesis A_trans : forall a1 a2 a3, A a1 a2 -> A a2 a3 -> A a1 a3.

Lemma keeps_refl s : keeps scene P Q A s s.
Proof.
  split; [|split].
  - exists []. rewrite app_nil_r. auto.
  - intros out Hout. eauto.
  - apply A_refl.
Qed.

Lemma keeps_trans s1 s2 s3 :
  keeps scene P Q A s1 s2 -> keeps scene P Q A s2 s3 -> keeps scene P Q A s1 s3.
Proof.
  intros ((ops1 & Hc1 & Hp1) & He1 & Ha1) ((ops2 & Hc2 & Hp2) & He2 & Ha2).
  split; [|split].
  - exists (ops1 ++ ops2). rewrite Hc2, Hc1, app_assoc. split; [reflexivity|].
    apply Forall_app. auto.
  - intros out Hout. destruct (He1 out Hout) as (out1 & Hout1 & Hq1).
    destruct (He2 out1 Hout1) as (out2 & Hout2 & Hq2). eauto.
  - eauto.
Qed.

Lemma keeps_device o s :
  P o -> keeps scene P Q A s (set_m_context (m_context s ++ [o]) s).
Proof.
  intros Ho. split; [|split]; simpl.
  - exists [o]. auto.
  - intros out Hout. eauto.
  - apply A_refl.
Qed.

Lemma keeps_update_out f s out :
  Q out (f out) ->
  m_scene_cache s !! scene = Some out ->
  keeps scene P Q A s (set_m_scene_cache (<[scene := f out]> (m_scene_cache s)) s).
Proof.
  intros Hq Hout. split; [|split]; simpl.
  - exists []. rewrite app_nil_r. auto.
  - intros out0 Hout0. rewrite Hout in Hout0. injection Hout0 as <-.
    exists (f out). split; [apply lookup_insert_eq|exact Hq].
  - apply A_refl.
Qed.

Lemma keeps_api a s :
  A (m_api s) a -> keeps scene P Q A s (set_m_api a s).
Proof.
  intros Ha. split; [|split]; simpl.
  - exists []. rewrite app_nil_r. auto.
  - intros out Hout. eauto.
  - exact Ha.
Qed.

(** A change of the scene graph or of the current scene. *)
Lemma keeps_elsewhere s s' :
  m_context s' = m_context s ->
  m_scene_cache s' = m_scene_cache s ->
  m_api s' = m_api s ->
  keeps scene P Q A s s'.
Proof.
  intros Hc He Ha. split; [|split].
  - exists []. rewrite app_nil_r. auto.
  - intros out Hout. rewrite He. eauto.
  - rewrite Ha. apply A_refl.
Qed.
End keeps.

Lemma same_camera_lights_refl o : same_camera_lights o o.
Proof. repeat split. Qed.

Lemma same_camera_lights_trans o1 o2 o3 :
  same_camera_lights o1 o2 -> same_camera_lights o2 o3 -> same_camera_lights o1 o3.
Proof.
  unfold same_camera_lights. intros (?&?&?&?&?) (?&?&?&?&?). repeat split; congruence.
Qed.

Lemma same_camera_lights_handles_refl o : same_camera_lights_handles o o.
Proof. repeat split. Qed.

Lemma same_camera_lights_handles_trans o1 o2 o3 :
  same_camera_lights_handles o1 o2 -> same_camera_lights_handles o2 o3 ->
  same_camera_lights_handles o1 o3.
Proof.
  unfold same_camera_lights_handles. intros (?&?&?) (?&?&?).
  split; [eapply same_camera_lights_trans; eassumption|]. split; congruence.
Qed.

Lemma any_api_refl a : any_api a a.
Proof. exact I. Qed.

Lemma any_api_trans a1 a2 a3 : any_api a1 a2 -> any_api a2 a3 -> any_api a1 a3.
Proof. intros _ _. exact I. Qed.

Create HintDb frame discriminated.
#[global] Hint Resolve same_camera_lights_refl same_camera_lights_handles_refl
  any_api_refl eq_refl : frame.

(** The leaves of a frame proof for [keeps]: device operations are checked
    against [P], updates of the compiled record against [Q], and changes
    elsewhere leave the three parts alone. *)
Ltac frame_leaf :=
  first
    [ apply preserves_modify; intros ?;
      first [ solve [apply keeps_device; auto with frame; split; discriminate]
            | solve [apply keeps_elsewhere; auto with frame]
            | solve [apply keeps_api; auto with frame; exact I] ]
    | apply preserves_update_out; intros ? ? ?;
      solve [apply keeps_update_out; auto with frame; repeat split] ].

Section pass_frames.
Variable scene : addr.

Let Rh := keeps scene off_camera_lights same_camera_lights_handles eq.

Let Rh_refl : forall s, Rh s s :=
  keeps_refl scene _ _ _ same_camera_lights_handles_refl (@eq_refl _).

Let Rh_trans : forall s1 s2 s3, Rh s1 s2 -> Rh s2 s3 -> Rh s1 s3 :=
  keeps_trans scene _ _ _ same_camera_lights_handles_trans (@eq_trans _).

Ltac frame_h :=
  repeat first [ frame_leaf | frame_step Rh_refl Rh_trans ].

Lemma Material_SetDirty_keeps a d : preserves Rh (Material_SetDirty a d).
Proof. unfold Material_SetDirty. frame_h. Qed.

Lemma UpdateMaterials_keeps mat_collector tex_collector :
  preserves Rh (UpdateMaterials scene mat_collector tex_collector).
Proof.
  unfold UpdateMaterials, write_next_material, WriteMaterial, get_out, device.
  frame_h; try apply Material_SetDirty_keeps.
Qed.

Lemma UpdateTextures_keeps mat_collector tex_collector :
  preserves Rh (UpdateTextures scene mat_collector tex_collector).
Proof.
  unfold UpdateTextures, write_next_texture, write_next_texture_data, get_out, device.
  frame_h.
Qed.

Lemma ClearDirtyFlags_keeps : preserves Rh (ClearDirtyFlags scene).
Proof. unfold ClearDirtyFlags. frame_h. Qed.

Lemma clear_material_flags_keeps mat_collector :
  preserves Rh (clear_material_flags mat_collector).
Proof.
  unfold clear_material_flags, Finalize. frame_h.
Qed.

Let Rc := keeps scene off_camera_lights same_camera_lights any_api.

Let Rc_refl : forall s, Rc s s :=
  keeps_refl scene _ _ _ same_camera_lights_refl any_api_refl.

Let Rc_trans : forall s1 s2 s3, Rc s1 s2 -> Rc s2 s3 -> Rc s1 s3 :=
  keeps_trans scene _ _ _ same_camera_lights_trans any_api_trans.

Ltac frame_c :=
  repeat first [ frame_leaf | frame_step Rc_refl Rc_trans ].

Lemma ReloadIntersector_keeps : preserves Rc (ReloadIntersector scene).
Proof.
  unfold ReloadIntersector, DetachAll, AttachShape, Commit, update_api, get_out.
  frame_c.
Qed.

Lemma split_scene_keeps shape_iter : preserves Rc (split_scene shape_iter).
Proof.
  intros s p s' H. apply split_scene_Ok in H. destruct H as [_ ->]. apply Rc_refl.
Qed.

Lemma api_create_keeps g : preserves Rc (api_create g).
Proof.
  intros s h s' H. unfold api_create in H. injection H as _ <-.
  apply keeps_api; auto with frame. exact I.
Qed.

Lemma UpdateIntersector_keeps : preserves Rc (UpdateIntersector scene).
Proof.
  unfold UpdateIntersector, isect_mesh, isect_excluded, isect_instance,
    create_mesh_shape, SetTransform, SetId, api_shape, DetachShape, DeleteShape,
    push_isect, push_visible, CreateShapeIterator, update_api, get_out.
  repeat first [ apply split_scene_keeps | apply api_create_keeps
               | frame_leaf | frame_step Rc_refl Rc_trans ].
Qed.

Lemma serialize_mesh_cl mesh d t lp out lp' out' :
  serialize_mesh mesh d t lp out = Some (lp', out') -> same_camera_lights out out'.
Proof.
  unfold serialize_mesh. intros H.
  repeat match type of H with
  | context [copy_to ?a ?b ?c] => destruct (copy_to a b c); simpl in H; [|discriminate H]
  | context [store_at ?a ?b ?c] => destruct (store_at a b c); simpl in H; [|discriminate H]
  end.
  injection H as <- <-. repeat split.
Qed.

Lemma fill_matids_cl n v lp out lp' out' :
  fill_matids n v lp out = Some (lp', out') -> same_camera_lights out out'.
Proof.
  unfold fill_matids. intros H.
  destruct (fill_to (num_matids_written lp) n v (materialids out)); simpl in H;
    [|discriminate H].
  injection H as <- <-. repeat split.
Qed.

Lemma serialize_instance_cl shape lp out lp' out' :
  serialize_instance shape lp out = Some (lp', out') -> same_camera_lights out out'.
Proof.
  unfold serialize_instance. intros H.
  destruct (store_at (num_shapes_written lp) shape (shapes out)); simpl in H;
    [|discriminate H].
  injection H as <- <-. repeat split.
Qed.

(** A turn of a loop of [UpdateShapes] replaces the compiled record by one
    computed from it. *)
Lemma shapes_body_keeps s out out' heap' :
  m_scene_cache s !! scene = Some out ->
  same_camera_lights out out' ->
  Rc s (set_st_shapes heap'
          (set_m_scene_cache (<[scene := out']> (m_scene_cache s)) s)).
Proof.
  intros Hout Hcl. split; [|split]; simpl.
  - exists []. rewrite app_nil_r. auto.
  - intros out0 Hout0. rewrite Hout in Hout0. injection Hout0 as <-.
    exists out'. split; [apply lookup_insert_eq|exact Hcl].
  - exact I.
Qed.

Ltac inv_pairs :=
  repeat (progress
            (run_inv;
             repeat match goal with
                    | x : (ShapesLoop * ClwSceneData)%type |- _ => destruct x
                    | H : material_or_default _ _ = Ok _ _ |- _ =>
                        apply material_or_default_Ok in H; destruct H as [? ?]; subst
                    end)).

Ltac use_cl :=
  repeat match goal with
  | H : serialize_mesh _ _ _ _ _ = Some _ |- _ => apply serialize_mesh_cl in H
  | H : fill_matids _ _ _ _ = Some _ |- _ => apply fill_matids_cl in H
  | H : serialize_instance _ _ _ = Some _ |- _ => apply serialize_instance_cl in H
  end.

Lemma shapes_mesh_keeps mat_collector lp mesh :
  preserves Rc (shapes_mesh scene mat_collector lp mesh).
Proof.
  intros s lp' s' H. unfold shapes_mesh, Shape_SetDirty in H. inv_pairs. use_cl.
  eapply shapes_body_keeps; [eassumption|].
  eapply same_camera_lights_trans; eassumption.
Qed.

Lemma shapes_excluded_keeps lp mesh :
  preserves Rc (shapes_excluded scene lp mesh).
Proof.
  intros s lp' s' H. unfold shapes_excluded, Shape_SetDirty in H. inv_pairs. use_cl.
  eapply shapes_body_keeps; [eassumption|].
  eapply same_camera_lights_trans; eassumption.
Qed.

Lemma shapes_instance_keeps mat_collector lp instance :
  preserves Rc (shapes_instance scene mat_collector lp instance).
Proof.
  intros s lp' s' H. unfold shapes_instance, Shape_SetDirty in H. run_inv.
  match goal with
  | H : context [shape_data_at ?b ?l] |- _ => destruct (shape_data_at b l)
  end.
  inv_pairs. use_cl.
  eapply shapes_body_keeps; [eassumption|].
  eapply same_camera_lights_trans; eassumption.
Qed.

Lemma UpdateShapes_keeps mat_collector tex_collector :
  preserves Rc (UpdateShapes scene mat_collector tex_collector).
Proof.
  unfold UpdateShapes, count_mesh, count_instance, CreateShapeIterator, device.
  repeat first [ apply split_scene_keeps
               | apply shapes_mesh_keeps
               | apply shapes_excluded_keeps
               | apply shapes_instance_keeps
               | frame_leaf | frame_step Rc_refl Rc_trans ].
Qed.
End pass_frames.


(** ** The partition reads the kinds of the shapes only *)

Lemma shape_static_lookup heap heap' x :
  shape_static heap' x = shape_static heap x ->
  match heap' !! x, heap !! x with
  | Some s', Some s =>
      shape_kind s' = shape_kind s /\ shape_transform s' = shape_transform s /\
      shape_material s' = shape_material s
  | None, None => True
  | _, _ => False
  end.
Proof.
  unfold shape_static. destruct (heap' !! x), (heap !! x); simpl; intros H;
    try discriminate H; auto.
  injection H. auto.
Qed.

Section split_ext.
Variables heap heap' : gmap addr Shape.
Hypothesis Hext : forall x, shape_static heap' x = shape_static heap x.

Lemma split_shapes_ext shape_iter m i :
  split_shapes heap' shape_iter m i = split_shapes heap shape_iter m i.
Proof.
  revert m i. induction shape_iter as [|a rest IH]; intros m i; simpl; [reflexivity|].
  pose proof (shape_static_lookup _ _ _ (Hext a)) as Ha.
  destruct (heap' !! a) as [s'|], (heap !! a) as [s|]; simpl; try contradiction;
    [|reflexivity].
  destruct Ha as (Hk & _ & _). unfold is_instance. rewrite Hk.
  destruct (shape_kind s); simpl; apply IH.
Qed.

Lemma split_excluded_ext insts m e :
  split_excluded heap' insts m e = split_excluded heap insts m e.
Proof.
  revert e. induction insts as [|a rest IH]; intros e; simpl; [reflexivity|].
  pose proof (shape_static_lookup _ _ _ (Hext a)) as Ha.
  destruct (heap' !! a) as [s'|], (heap !! a) as [s|]; simpl; try contradiction;
    [|reflexivity].
  destruct Ha as (Hk & _ & _). unfold GetBaseShape. rewrite Hk.
  destruct (shape_kind s); simpl; [reflexivity|].
  destruct (StdSet.find base_shape m); simpl; apply IH.
Qed.

Lemma SplitMeshesAndInstances_ext shape_iter :
  SplitMeshesAndInstances heap' shape_iter = SplitMeshesAndInstances heap shape_iter.
Proof.
  unfold SplitMeshesAndInstances. rewrite split_shapes_ext.
  destruct (split_shapes heap shape_iter StdSet.empty StdSet.empty) as [[m i]|];
    simpl; [|reflexivity].
  rewrite split_excluded_ext. reflexivity.
Qed.
End split_ext.

(** ** What the passes leave alone in the scene graph *)

(** The scenes, the API and everything but the dirty bits of the shapes. *)
Lemma graph_refl s :
  st_scenes s = st_scenes s /\ m_api s = m_api s /\
  forall x, shape_static (st_shapes s) x = shape_static (st_shapes s) x.
Proof. auto. Qed.

Section shapes_graph.
Let Rg (s s' : State) : Prop :=
  st_scenes s' = st_scenes s /\ m_api s' = m_api s /\
  forall x, shape_static (st_shapes s') x = shape_static (st_shapes s) x.

Let Rg_refl : forall s, Rg s s := graph_refl.

Let Rg_trans : forall s1 s2 s3, Rg s1 s2 -> Rg s2 s3 -> Rg s1 s3.
Proof.
  intros s1 s2 s3 (H1 & H2 & H3) (H4 & H5 & H6).
  split; [congruence|]. split; [congruence|].
  intros x. rewrite H6. apply H3.
Qed.

Lemma Shape_SetDirty_graph a : preserves Rg (Shape_SetDirty a false).
Proof.
  intros s u s' H. apply Shape_SetDirty_Ok in H. destruct H as (sh & Hsh & ->).
  repeat split. intros x. simpl. apply shape_static_clean. exact Hsh.
Qed.

Lemma split_scene_graph shape_iter : preserves Rg (split_scene shape_iter).
Proof.
  intros s p s' H. apply split_scene_Ok in H. destruct H as [_ ->]. apply Rg_refl.
Qed.

Lemma material_or_default_graph m : preserves Rg (material_or_default m).
Proof.
  intros s a s' H. apply material_or_default_Ok in H. destruct H as [_ ->].
  apply Rg_refl.
Qed.

Ltac graph_leaf :=
  first
    [ apply Shape_SetDirty_graph
    | apply split_scene_graph
    | apply material_or_default_graph
    | apply preserves_modify; intros ?; solve [repeat split]
    | apply preserves_update_out; intros ? ? ?; solve [repeat split] ].

Lemma UpdateShapes_graph scene mat_collector tex_collector :
  preserves Rg (UpdateShapes scene mat_collector tex_collector).
Proof.
  unfold UpdateShapes, count_mesh, count_instance, CreateShapeIterator, device,
    shapes_mesh, shapes_excluded, shapes_instance, get_out.
  repeat first [ graph_leaf | frame_step Rg_refl Rg_trans ].
Qed.
End shapes_graph.

Section shapes_context.
Let Rx (s s' : State) : Prop := m_context s' = m_context s.

Let Rx_refl : forall s, Rx s s := fun s => eq_refl.

Let Rx_trans : forall s1 s2 s3, Rx s1 s2 -> Rx s2 s3 -> Rx s1 s3.
Proof. intros s1 s2 s3 H1 H2. unfold Rx in *. congruence. Qed.

Ltac context_leaf :=
  first
    [ apply preserves_modify; intros ?; reflexivity
    | apply preserves_update_out; intros ? ? ?; reflexivity ].

Lemma shapes_mesh_context scene mat_collector lp mesh :
  preserves Rx (shapes_mesh scene mat_collector lp mesh).
Proof.
  unfold shapes_mesh, material_or_default, Shape_SetDirty, get_out.
  repeat first [ context_leaf | frame_step Rx_refl Rx_trans ].
Qed.

Lemma shapes_excluded_context scene lp mesh :
  preserves Rx (shapes_excluded scene lp mesh).
Proof.
  unfold shapes_excluded, Shape_SetDirty, get_out.
  repeat first [ context_leaf | frame_step Rx_refl Rx_trans ].
Qed.

Lemma shapes_instance_context scene mat_collector lp instance :
  preserves Rx (shapes_instance scene mat_collector lp instance).
Proof.
  unfold shapes_instance, material_or_default, Shape_SetDirty, get_out.
  repeat first [ context_leaf | frame_step Rx_refl Rx_trans ].
Qed.

(** The device operations of a shapes pass. *)
Lemma UpdateShapes_ops scene mat_collector tex_collector u s s' :
  UpdateShapes scene mat_collector tex_collector s = Ok u s' ->
  exists nv nn nu ni ns nm,
    m_context s' = m_context s ++ shapes_pass_ops nv nn nu ni ns nm.
Proof.
  unfold UpdateShapes, CreateShapeIterator, device. intros H. run_inv.
  match goal with
  | H : split_scene _ _ = Ok _ _ |- _ =>
      apply split_scene_Ok in H; destruct H as [Hp ->]
  end.
  repeat match goal with
  | H : foldM count_mesh _ _ _ = Ok _ _ |- _ =>
      apply count_mesh_loop in H; destruct H as (-> & _ & _ & _)
  | H : foldM count_instance _ _ _ = Ok _ _ |- _ =>
      apply count_instance_loop in H; destruct H as (-> & _ & _ & _)
  end.
  run_inv.
  match goal with
  | Hm : foldM (shapes_mesh _ _) _ _ ?s0 = Ok ?lp1 ?s1,
    He : foldM (shapes_excluded _) _ _ ?s1 = Ok ?lp2 ?s2,
    Hi : foldM (shapes_instance _ _) _ _ ?s2 = Ok ?lp3 ?s3 |- _ =>
      apply (preserves_foldM Rx Rx_refl Rx_trans _ _ _
               (shapes_mesh_context scene mat_collector)) in Hm;
      apply (preserves_foldM Rx Rx_refl Rx_trans _ _ _
               (shapes_excluded_context scene)) in He;
      apply (preserves_foldM Rx Rx_refl Rx_trans _ _ _
               (shapes_instance_context scene mat_collector)) in Hi;
      unfold Rx in Hm, He, Hi; rewrite Hi, He, Hm
  end.
  simpl. eexists _, _, _, _, _, _. unfold shapes_pass_ops.
  rewrite <- !app_assoc. simpl. reflexivity.
Qed.
End shapes_context.

(** ** The collection phase reads only *)

Section reads.
Let Re (s s' : State) : Prop := s' = s.

Let Re_refl : forall s, Re s s := fun s => eq_refl.

Let Re_trans : forall s1 s2 s3, Re s1 s2 -> Re s2 s3 -> Re s1 s3.
Proof. intros s1 s2 s3 H1 H2. unfold Re in *. congruence. Qed.

Lemma drain_material_stack_reads fuel :
  forall material_stack mats,
    preserves Re (drain_material_stack fuel material_stack mats).
Proof.
  induction fuel as [|fuel IH]; intros [|m stack] mats; simpl;
    repeat first [ apply IH | frame_step Re_refl Re_trans ].
Qed.

Lemma Collect_shape_materials_reads fuel c iter :
  preserves Re (Collect c iter (shape_materials fuel)).
Proof.
  unfold Collect, shape_materials, material_or_default.
  repeat first [ apply drain_material_stack_reads | frame_step Re_refl Re_trans ].
Qed.

Lemma Collect_material_textures_reads c iter :
  preserves Re (Collect c iter material_textures).
Proof.
  unfold Collect, material_textures.
  repeat frame_step Re_refl Re_trans.
Qed.

Lemma Collect_light_textures_reads c iter :
  preserves Re (Collect c iter light_textures).
Proof.
  unfold Collect, light_textures.
  repeat frame_step Re_refl Re_trans.
Qed.

Lemma NeedsUpdate_reads {T} c prev (store : State -> gmap addr T) is_dirty :
  preserves Re (NeedsUpdate c prev store is_dirty).
Proof. unfold NeedsUpdate. repeat frame_step Re_refl Re_trans. Qed.

Lemma any_dirty_reads {T} (store : State -> gmap addr T) is_dirty l :
  preserves Re (any_dirty store is_dirty l).
Proof. apply preserves_any_dirty; auto. Qed.
End reads.

Lemma any_dirty_clean {T} (store : State -> gmap addr T) is_dirty l b s s' :
  (forall a x, a ∈ l -> store s !! a = Some x -> is_dirty x = false) ->
  any_dirty store is_dirty l s = Ok b s' ->
  b = false /\ s' = s.
Proof.
  revert s'. induction l as [|a l IH]; intros s' Hclean H; simpl in H.
  - inv_ok. auto.
  - apply bind_Ok in H. destruct H as (x & s1 & Hx & H).
    apply deref_Ok in Hx. destruct Hx as [Hx ->].
    rewrite (Hclean a x) in H by (auto; left).
    apply IH; [|exact H]. intros a' x' Ha'. apply Hclean. right. exact Ha'.
Qed.

(** ** The cached path of [CompileScene] *)

(** On a cached scene, [CompileScene] is the collection, which leaves the
    state alone, followed by [compile_cached]. *)
Lemma CompileScene_cached fuel scene mat_collector tex_collector s r s' out :
  m_scene_cache s !! scene = Some out ->
  CompileScene fuel scene mat_collector tex_collector s = Ok r s' ->
  compile_cached scene r.1 r.2 s = Ok tt s'.
Proof.
  intros Hout H. unfold CompileScene in H.
  unfold CreateShapeIterator, CreateLightIterator in H.
  repeat (apply bind_Ok in H; destruct H as (? & ? & ? & H)).
  repeat match goal with
  | H : (deref _ _ ≫= _) _ = Ok _ _ |- _ =>
      apply bind_Ok in H; destruct H as (? & ? & H & ?);
      apply deref_Ok in H; destruct H as [? ?]; subst
  | H : @mret M _ _ _ _ = Ok _ _ |- _ => apply ret_Ok in H; destruct H as [? ?]; subst
  | H : gets _ _ = Ok _ _ |- _ => apply gets_Ok in H; destruct H as [? ?]; subst
  | H : Collect _ _ (shape_materials _) _ = Ok _ _ |- _ =>
      apply Collect_shape_materials_reads in H; simpl in H; subst
  | H : Collect _ _ material_textures _ = Ok _ _ |- _ =>
      apply Collect_material_textures_reads in H; simpl in H; subst
  | H : Collect _ _ light_textures _ = Ok _ _ |- _ =>
      apply Collect_light_textures_reads in H; simpl in H; subst
  end.
  match goal with
  | H : match _ !! scene with _ => _ end _ = Ok ?u _ |- _ =>
      rewrite Hout in H; destruct u; exact H
  end.
Qed.

Lemma has_flag_shapes :
  has_flag Scene1Flags.kShapes Scene1Flags.kCamera = false /\
  has_flag Scene1Flags.kShapes Scene1Flags.kLights = false /\
  has_flag Scene1Flags.kShapes Scene1Flags.kShapes = true.
Proof. repeat split. Qed.

Lemma keeps_weaken scene P (Q Q' : ClwSceneData -> ClwSceneData -> Prop)
    (A A' : IntersectionApi -> IntersectionApi -> Prop) s s' :
  (forall o o', Q o o' -> Q' o o') -> (forall a a', A a a' -> A' a a') ->
  keeps scene P Q A s s' -> keeps scene P Q' A' s s'.
Proof.
  intros HQ HA (Hops & He & Ha). split; [exact Hops|]. split; [|auto].
  intros out Hout. destruct (He out Hout) as (out' & Hout' & Hq). eauto.
Qed.

Lemma keeps_handles_weaken scene s s' :
  keeps scene off_camera_lights same_camera_lights_handles eq s s' ->
  keeps scene off_camera_lights same_camera_lights any_api s s'.
Proof.
  apply keeps_weaken; [intros o o' [H _]; exact H | intros; exact I].
Qed.

Lemma intersector_loaded_keeps scene hs s s' :
  keeps scene off_camera_lights same_camera_lights_handles eq s s' ->
  intersector_loaded scene hs s -> intersector_loaded scene hs s'.
Proof.
  intros (_ & He & Ha) (out & Hout & Hi & Hat).
  destruct (He out Hout) as (out' & Hout' & _ & Hi' & Hv').
  exists out'. split; [exact Hout'|]. split; [congruence|].
  rewrite <- Ha, Hv'. exact Hat.
Qed.

Lemma intersector_loaded_reload scene hs u s s' :
  ReloadIntersector scene s = Ok u s' ->
  (exists out, m_scene_cache s !! scene = Some out /\ isect_shapes out = hs) ->
  intersector_loaded scene hs s'.
Proof.
  intros H (out & Hout & Hi).
  destruct (ReloadIntersector_run scene out s Hout) as (s1 & Hrun & Hat & _ & Hca).
  rewrite Hrun in H. inversion H; subst.
  exists out. rewrite Hca. auto.
Qed.

Lemma intersector_loaded_current scene hs c s :
  intersector_loaded scene hs s ->
  intersector_loaded scene hs (set_m_current_scene c s).
Proof. intros (out & H). exists out. exact H. Qed.

Lemma shapes_pass_ops_off nv nn nu ni ns nm :
  Forall off_camera_lights (shapes_pass_ops nv nn nu ni ns nm).
Proof. unfold shapes_pass_ops. repeat constructor; discriminate. Qed.

Ltac head_inv H :=
  let a := fresh "a" in let s := fresh "s" in let Hh := fresh "Hh" in
  apply bind_Ok in H; destruct H as (a & s & Hh & H); revert H;
  run_inv; intros H.

Lemma lights_clean_spec heap iter :
  lights_clean heap iter = true ->
  forall l li, l ∈ iter -> heap !! l = Some li -> light_dirty li = false.
Proof.
  unfold lights_clean. rewrite forallb_forall. intros H l li Hl Hli.
  apply list_elem_of_In in Hl. specialize (H l Hl). rewrite Hli in H.
  destruct (light_dirty li); [discriminate H | reflexivity].
Qed.

(** ** The textures of the scene graph *)

Section texture_bits.
Let Rt (s s' : State) : Prop := st_textures s' = st_textures s.

Let Rt_refl : forall s, Rt s s := fun s => eq_refl.

Let Rt_trans : forall s1 s2 s3, Rt s1 s2 -> Rt s2 s3 -> Rt s1 s3.
Proof. intros s1 s2 s3 H1 H2. unfold Rt in *. congruence. Qed.

Ltac texture_leaf :=
  first
    [ apply preserves_modify; intros ?; reflexivity
    | apply preserves_update_out; intros ? ? ?; reflexivity
    | match goal with
      | |- preserves _ (api_create _) =>
          let H := fresh in intros ? ? ? H; unfold api_create in H;
          injection H as _ <-; reflexivity
      | |- preserves _ (api_shape _) =>
          let H := fresh in intros ? ? ? H; unfold api_shape in H;
          apply defined_Ok in H; destruct H as [_ ->]; reflexivity
      | |- preserves _ (split_scene _) =>
          let H := fresh in intros ? ? ? H; apply split_scene_Ok in H;
          destruct H as [_ ->]; reflexivity
      | |- preserves _ (drain_material_stack _ _ _) =>
          let H := fresh in intros ? ? ? H; apply drain_material_stack_reads in H;
          simpl in H; subst; reflexivity
      end ].

Ltac texture_frame := repeat first [ texture_leaf | frame_step Rt_refl Rt_trans ].

Lemma CompileScene_textures fuel scene mat_collector tex_collector :
  preserves Rt (CompileScene fuel scene mat_collector tex_collector).
Proof.
  unfold CompileScene, compile_first, compile_cached, RecompileFull,
    UpdateCamera, UpdateLights, write_next_light, WriteLight,
    UpdateShapes, count_mesh, count_instance, shapes_mesh, shapes_excluded,
    shapes_instance, UpdateMaterials, write_next_material, WriteMaterial,
    UpdateTextures, write_next_texture, write_next_texture_data,
    UpdateIntersector, isect_mesh, isect_excluded, isect_instance,
    create_mesh_shape, SetTransform, SetId, DetachShape, DeleteShape,
    ReloadIntersector, DetachAll, AttachShape, Commit, update_api,
    ClearDirtyFlags, clear_material_flags, Finalize, Collect, NeedsUpdate,
    shape_materials, material_textures, light_textures, material_or_default,
    Shape_SetDirty, Material_SetDirty, Light_SetDirty, Camera_SetDirty,
    CreateShapeIterator, CreateLightIterator, GetCamera, GetDirtyFlags,
    GetNumLights, get_out, device.
  texture_frame.
Qed.
End texture_bits.

(** ** A scene without a camera *)

Lemma quiet_ret {A} (a : A) : quiet (mret a).
Proof. intros s. reflexivity. Qed.

Lemma quiet_bind {A B} (m : M A) (f : A -> M B) :
  quiet m -> (forall a, quiet (f a)) -> quiet (m ≫= f).
Proof.
  intros Hm Hf s. specialize (Hm s). unfold mbind, M_bind.
  destruct (m s) as [a s1| | |]; try exact Hm. subst s1. apply Hf.
Qed.

Lemma quiet_defined {A} (o : option A) : quiet (defined o).
Proof. intros s. destruct o; simpl; reflexivity || exact I. Qed.

Lemma quiet_gets {A} (f : State -> A) : quiet (gets f).
Proof. intros s. reflexivity. Qed.

Lemma quiet_foldM {A B} (body : B -> A -> M B) l b :
  (forall b a, quiet (body b a)) -> quiet (foldM body l b).
Proof.
  intros Hbody. revert b. induction l as [|a l IH]; intros b; simpl.
  - apply quiet_ret.
  - apply quiet_bind; [exact (Hbody b a) | exact IH].
Qed.

(** After a quiet run the rest runs in the same state. *)
Lemma quiet_then {A B} (P : Result B -> Prop) (m : M A) (f : A -> M B) s :
  quiet m -> P Fault -> P OutOfFuel -> (forall a, P (f a s)) -> P ((m ≫= f) s).
Proof.
  intros Hm Hfault Hfuel Hf. specialize (Hm s). unfold mbind, M_bind.
  destruct (m s) as [a s1| | |]; try contradiction; auto.
  subst s1. apply Hf.
Qed.

Lemma quiet_deref {T} (store : State -> gmap addr T) a : quiet (deref store a).
Proof. intros s. unfold deref. apply quiet_defined. Qed.

Ltac quiet_step :=
  first
    [ apply quiet_ret
    | apply quiet_gets
    | apply quiet_defined
    | apply quiet_deref
    | intros ?; exact I
    | apply quiet_bind; [|intros ?]
    | apply quiet_foldM; intros ? ?
    | match goal with
      | |- quiet (match ?x with _ => _ end) => destruct x
      end ].

Lemma quiet_drain_material_stack fuel :
  forall material_stack mats, quiet (drain_material_stack fuel material_stack mats).
Proof.
  induction fuel as [|fuel IH]; intros [|m stack] mats; simpl;
    repeat first [ apply IH | quiet_step ].
Qed.

Lemma quiet_Collect_shape_materials fuel c iter :
  quiet (Collect c iter (shape_materials fuel)).
Proof.
  unfold Collect, shape_materials, material_or_default.
  repeat first [ apply quiet_drain_material_stack | quiet_step ].
Qed.

Lemma quiet_Collect_material_textures c iter :
  quiet (Collect c iter material_textures).
Proof. unfold Collect, material_textures. repeat quiet_step. Qed.

Lemma quiet_Collect_light_textures c iter :
  quiet (Collect c iter light_textures).
Proof. unfold Collect, light_textures. repeat quiet_step. Qed.

Lemma deref_run {T} (store : State -> gmap addr T) a x s :
  store s !! a = Some x -> deref store a s = Ok x s.
Proof. unfold deref. intros ->. reflexivity. Qed.

Lemma update_out_run scene f out s :
  m_scene_cache s !! scene = Some out ->
  update_out scene f s =
  Ok tt (set_m_scene_cache (<[scene := f out]> (m_scene_cache s)) s).
Proof.
  intros H. unfold update_out, get_out.
  rewrite (bind_run _ _ _ _ _ (deref_run _ _ _ _ H)). reflexivity.
Qed.

Lemma bind_Fault {A B} (m : M A) (f : A -> M B) s :
  m s = Fault -> (m ≫= f) s = Fault.
Proof. unfold mbind, M_bind. intros ->. reflexivity. Qed.

(** [UpdateCamera] reads the camera through the pointer without a test. *)
Lemma UpdateCamera_no_camera scene mat_collector tex_collector s sc :
  st_scenes s !! scene = Some sc ->
  scene_camera sc = None ->
  UpdateCamera scene mat_collector tex_collector s = Fault.
Proof.
  intros Hsc Hcam. unfold UpdateCamera, GetCamera.
  erewrite bind_run.
  2:{ erewrite bind_run by (apply deref_run; exact Hsc). reflexivity. }
  rewrite Hcam. reflexivity.
Qed.

Lemma RecompileFull_no_camera scene mat_collector tex_collector s sc out :
  m_scene_cache s !! scene = Some out ->
  isect_shapes out = [] ->
  st_scenes s !! scene = Some sc ->
  scene_camera sc = None ->
  RecompileFull scene mat_collector tex_collector s = Fault.
Proof.
  intros Hout Hisect Hsc Hcam. unfold RecompileFull.
  erewrite bind_run by (apply deref_run; exact Hout).
  rewrite Hisect.
  erewrite bind_run by reflexivity.
  erewrite bind_run by (apply update_out_run; exact Hout).
  erewrite bind_run by reflexivity.
  erewrite bind_run by (apply update_out_run; apply lookup_insert_eq).
  apply bind_Fault. eapply UpdateCamera_no_camera; [exact Hsc | exact Hcam].
Qed.

(** The first compile of a scene without a camera: no error is raised. *)
Lemma compile_first_no_camera scene mat_collector tex_collector s sc :
  st_scenes s !! scene = Some sc ->
  scene_camera sc = None ->
  compile_first scene mat_collector tex_collector s = Fault.
Proof.
  intros Hsc Hcam. unfold compile_first.
  erewrite bind_run by reflexivity.
  apply bind_Fault.
  eapply RecompileFull_no_camera;
    [apply lookup_insert_eq | reflexivity | exact Hsc | exact Hcam].
Qed.

Lemma CompileScene_first_no_camera fuel scene mat_collector tex_collector s sc :
  m_scene_cache s !! scene = None ->
  st_scenes s !! scene = Some sc ->
  scene_camera sc = None ->
  stuck (CompileScene fuel scene mat_collector tex_collector s).
Proof.
  intros Hmiss Hsc Hcam. unfold CompileScene, CreateShapeIterator, CreateLightIterator.
  apply quiet_then; [repeat quiet_step | left; reflexivity | right; reflexivity |].
  intros shape_iter.
  apply quiet_then; [repeat quiet_step | left; reflexivity | right; reflexivity |].
  intros light_iter.
  apply quiet_then;
    [apply quiet_Collect_shape_materials | left; reflexivity | right; reflexivity |].
  intros mc.
  apply quiet_then;
    [apply quiet_Collect_material_textures | left; reflexivity | right; reflexivity |].
  intros tc.
  apply quiet_then;
    [apply quiet_Collect_light_textures | left; reflexivity | right; reflexivity |].
  intros tc'.
  left. unfold mbind, M_bind, gets. rewrite Hmiss.
  rewrite (compile_first_no_camera _ _ _ _ _ Hsc Hcam). reflexivity.
Qed.

(** A cached scene without a camera: the error is raised before anything
    is written. *)
Lemma compile_cached_no_camera scene mat_collector tex_collector s sc out :
  m_scene_cache s !! scene = Some out ->
  st_scenes s !! scene = Some sc ->
  scene_camera sc = None ->
  compile_cached scene mat_collector tex_collector s = Throw "No camera in the scene" s.
Proof.
  intros Hout Hsc Hcam.
  unfold compile_cached, GetDirtyFlags, GetCamera, get_out.
  erewrite bind_run by (apply deref_run; exact Hout).
  erewrite bind_run.
  2:{ erewrite bind_run by (apply deref_run; exact Hsc). reflexivity. }
  erewrite bind_run.
  2:{ erewrite bind_run by (apply deref_run; exact Hsc). reflexivity. }
  rewrite Hcam. reflexivity.
Qed.


Lemma CompileScene_cached_no_camera fuel scene mat_collector tex_collector s sc out :
  m_scene_cache s !! scene = Some out ->
  st_scenes s !! scene = Some sc ->
  scene_camera sc = None ->
  stuck (CompileScene fuel scene mat_collector tex_collector s) \/
  CompileScene fuel scene mat_collector tex_collector s =
    Throw "No camera in the scene" s.
Proof.
  intros Hout Hsc Hcam. unfold CompileScene, CreateShapeIterator, CreateLightIterator.
  set (P := fun r : Result (Collector.t * Collector.t) =>
              stuck r \/ r = Throw "No camera in the scene" s).
  assert (Hfault : P Fault) by (left; left; reflexivity).
  assert (Hfuel : P OutOfFuel) by (left; right; reflexivity).
  apply (quiet_then P); [repeat quiet_step | exact Hfault | exact Hfuel |].
  intros shape_iter.
  apply (quiet_then P); [repeat quiet_step | exact Hfault | exact Hfuel |].
  intros light_iter.
  apply (quiet_then P);
    [apply quiet_Collect_shape_materials | exact Hfault | exact Hfuel |].
  intros mc.
  apply (quiet_then P);
    [apply quiet_Collect_material_textures | exact Hfault | exact Hfuel |].
  intros tc.
  apply (quiet_then P);
    [apply quiet_Collect_light_textures | exact Hfault | exact Hfuel |].
  intros tc'.
  right. unfold mbind, M_bind, gets. rewrite Hout.
  rewrite (compile_cached_no_camera _ _ _ _ _ _ Hout Hsc Hcam). reflexivity.
Qed.

(** ** The claims on the whole compile, on the small scene *)

(** C1. The first compile of the scene 100 returns with the dirty flags of
    the scene empty and with the textures 20 and 21 collected, and the
    texture 20 is still dirty: no pass clears the dirty bit of a texture. *)
Theorem CompileScene_leaves_textures_dirty :
  exists r s',
    CompileScene 8 100%N no_items no_items demo_state = Ok r s' /\
    Collector.items r.2 = [20%N; 21%N] /\
    scene_dirty_flags <$> st_scenes s' !! 100%N = Some Scene1Flags.kNone /\
    texture_dirty <$> st_textures s' !! 20%N = Some true.
Proof.
  exists (demo_materials, demo_textures), demo_compiled.
  split; [vm_compute; reflexivity|].
  split; [reflexivity|].
  split; vm_compute; reflexivity.
Qed.

(** C3. The scene 101 has shapes and lights and no camera.  Its first
    compile raises no error: it reads the camera through the null pointer.
    Once the scene is cached, the compile raises [No camera in the scene]
    and leaves the state as it was. *)
Theorem CompileScene_no_camera :
  CompileScene 8 101%N no_items no_items demo_state = Fault /\
  CompileScene 8 101%N no_items no_items demo_cached_no_camera =
    Throw "No camera in the scene" demo_cached_no_camera.
Proof. split; vm_compute; reflexivity. Qed.

(** ** The theorems at the small scene *)

(** The intersector pass on the small scene: four handles with the ids 1 to 4. *)
Lemma UpdateIntersector_ids_witness :
  exists out',
    m_scene_cache demo_intersected !! 100%N = Some out' /\
    handle_id (m_api demo_intersected) <$> isect_shapes out' = Some <$> seqZ 1 4.
Proof.
  destruct (UpdateIntersector_ids 100%N demo_entered demo_intersected
              demo_scene demo_partition)
    as (out' & Hout & Hids & _);
    [reflexivity | reflexivity | vm_compute; reflexivity | vm_compute; reflexivity |].
  exists out'. split; [exact Hout | exact Hids].
Defined.

(** The intersector pass on the small scene: the handle of the quad, which
    is not in the scene, is not visible. *)
Lemma UpdateIntersector_visible_witness :
  exists out' hm he hi,
    m_scene_cache demo_intersected !! 100%N = Some out' /\
    isect_shapes out' = hm ++ he ++ hi /\
    visible_shapes out' = hm ++ hi /\
    (forall h, h ∈ he -> h ∉ visible_shapes out').
Proof.
  destruct (UpdateIntersector_visible 100%N demo_entered demo_intersected
              demo_scene demo_partition)
    as (out' & hm & he & hi & H1 & H2 & H3 & _ & _ & H6 & _);
    [reflexivity | reflexivity | vm_compute; reflexivity |].
  exists out', hm, he, hi. auto.
Defined.

(** The lights pass on the small scene, which has two image-based lights. *)
Lemma UpdateLights_envmapidx_witness :
  exists out' r,
    m_scene_cache demo_lit !! 100%N = Some out' /\
    last_ibl (st_lights demo_entered) (scene_lights demo_scene) r /\
    match r with
    | Some k =>
        envmapidx out' = Z.of_nat k /\
        exists rec, lights out' !! k = Some rec /\ ClwScene.l_type rec = ClwScene.kIbl
    | None => envmapidx out' = -1
    end.
Proof.
  apply (UpdateLights_envmapidx 100%N demo_materials demo_textures demo_entered
           demo_lit demo_scene);
    [reflexivity | vm_compute; discriminate | vm_compute; reflexivity].
Defined.

(** The partition of the small scene is in ascending address order. *)
Lemma partition_and_serialization_order_witness :
  StronglySorted N.lt (meshes demo_partition) /\
  StronglySorted N.lt (instances demo_partition) /\
  StronglySorted N.lt (excluded_meshes demo_partition).
Proof.
  apply (partition_and_serialization_order (st_shapes demo_state)
           (scene_shapes demo_scene) demo_partition).
  vm_compute. reflexivity.
Defined.

(** The shapes pass on the small scene: the record of the instance 3, at
    position 2, against the record of its base, the quad, at position 1. *)
Lemma UpdateShapes_instance_record_witness :
  exists out' rec brec,
    m_scene_cache demo_serialized !! 100%N = Some out' /\
    shapes out' !! 2%nat = Some rec /\
    shapes out' !! 1%nat = Some brec /\
    ClwScene.numprims rec = ClwScene.numprims brec /\
    ClwScene.startvtx rec = ClwScene.startvtx brec /\
    ClwScene.startidx rec = ClwScene.startidx brec /\
    ClwScene.transform rec = rows_of (translation 3).
Proof.
  destruct (UpdateShapes_instance_record 100%N demo_materials demo_textures
              demo_entered demo_serialized demo_scene demo_partition 0 3%N
              (mk_Shape (Instance 2%N) (translation 3) (Some 10%N) true) 2%N)
    as (out' & rec & jb & brec & sb & bd & matidx & Hout & Hrec & Hjb & Hbrec
        & _ & _ & Hn & Hv & Hi & _ & _ & _ & Ht & _);
    [reflexivity | reflexivity | reflexivity | reflexivity | reflexivity
    | vm_compute; reflexivity | vm_compute; reflexivity | vm_compute; reflexivity |].
  assert (jb = 1%nat) as ->.
  { destruct jb as [|[|jb]]; [discriminate Hjb | reflexivity | discriminate Hjb]. }
  exists out', rec, brec. auto 10.
Defined.

(** * The passes and the compile *)

(** ** Positions in a sequence *)

Lemma index_of_Some a l i :
  index_of a l = Some i <->
  l !! i = Some a /\ forall j, (j < i)%nat -> l !! j <> Some a.
Proof.
  revert i. induction l as [|b l IH]; intros i; simpl.
  - split; [discriminate|]. intros [H _]. destruct i; discriminate H.
  - destruct (N.eqb_spec a b) as [->|Hne].
    + split.
      * intros H. injection H as <-. split; [reflexivity|]. intros j Hj. lia.
      * intros [Hi Hfirst]. destruct i as [|i]; [reflexivity|].
        exfalso. apply (Hfirst O); [lia|reflexivity].
    + split.
      * destruct (index_of a l) as [k|] eqn:Hk; simpl; [|discriminate].
        intros H. injection H as <-.
        destruct (proj1 (IH k) eq_refl) as [Hk1 Hk2].
        split; [exact Hk1|]. intros [|j] Hj; simpl.
        -- intros E. injection E as ->. contradiction.
        -- apply Hk2. lia.
      * intros [Hi Hfirst]. destruct i as [|i]; simpl in Hi.
        -- injection Hi as ->. contradiction.
        -- rewrite (proj2 (IH i)); [reflexivity|].
           split; [exact Hi|]. intros j Hj. apply (Hfirst (S j)). lia.
Qed.

Lemma index_of_None a l : index_of a l = None <-> a ∉ l.
Proof.
  induction l as [|b l IH]; simpl.
  - split; [intros _ H; inversion H|reflexivity].
  - rewrite not_elem_of_cons. destruct (N.eqb_spec a b) as [->|Hne].
    + split; [discriminate|]. intros [H _]. contradiction.
    + destruct (index_of a l) as [k|]; simpl.
      * split; [discriminate|]. intros [_ H]. apply IH in H. discriminate H.
      * split; [intros _; split; [exact Hne|apply IH; reflexivity]|reflexivity].
Qed.

(** X1. When the shapes of the iterator can be partitioned, [GetShapeIdx]
    returns for every shape.  For a shape of the serialization order
    (meshes, then excluded meshes, then instances) the result is the
    position of its first occurrence in that order; for any other shape it
    is the [size_t] value of -1, that is 2^64 - 1. *)
Theorem GetShapeIdx_position heap shape_iter p shape :
  SplitMeshesAndInstances heap shape_iter = Some p ->
  exists v,
    GetShapeIdx heap shape_iter shape = Some v /\
    (((shape ∈ partition_order p) /\
      0 <= v < Z.of_nat (length (partition_order p)) /\
      partition_order p !! Z.to_nat v = Some shape /\
      forall j, (j < Z.to_nat v)%nat -> partition_order p !! j <> Some shape)
     \/ ((shape ∉ partition_order p) /\ v = 2 ^ 64 - 1)).
Proof.
  intros Hp. unfold GetShapeIdx. rewrite Hp. simpl.
  destruct (index_of shape (partition_order p)) as [i|] eqn:Hi.
  - exists (Z.of_nat i). split; [reflexivity|]. left.
    pose proof (index_of_lt _ _ _ Hi) as Hlt.
    apply index_of_Some in Hi. destruct Hi as [Hi Hfirst].
    rewrite Nat2Z.id.
    split; [eapply list_elem_of_lookup_2; exact Hi|].
    split; [lia|]. split; [exact Hi|exact Hfirst].
  - exists (2 ^ 64 - 1). split; [reflexivity|]. right.
    split; [apply index_of_None; exact Hi|reflexivity].
Qed.

Lemma GetShapeIdx_position_witness :
  exists v,
    GetShapeIdx (st_shapes demo_state) (scene_shapes demo_scene) 3%N = Some v /\
    (((3%N ∈ partition_order demo_partition) /\
      0 <= v < Z.of_nat (length (partition_order demo_partition)) /\
      partition_order demo_partition !! Z.to_nat v = Some 3%N /\
      forall j, (j < Z.to_nat v)%nat -> partition_order demo_partition !! j <> Some 3%N)
     \/ ((3%N ∉ partition_order demo_partition) /\ v = 2 ^ 64 - 1)).
Proof.
  apply (GetShapeIdx_position (st_shapes demo_state) (scene_shapes demo_scene)
           demo_partition 3%N).
  vm_compute. reflexivity.
Defined.

(** ** The partition depends on the shapes of the iterator only *)

Lemma sorted_members_eq (l1 l2 : list N) :
  StronglySorted N.lt l1 -> StronglySorted N.lt l2 ->
  (forall a, a ∈ l1 <-> a ∈ l2) -> l1 = l2.
Proof.
  intros H1. revert l2. induction H1 as [|a l1 Hs1 IH Ha]; intros l2 H2 Hm.
  - destruct l2 as [|b l2]; [reflexivity|].
    exfalso. assert (Hb : b ∈ []) by (apply Hm; left). inversion Hb.
  - destruct H2 as [|b l2 Hs2 Hb].
    + exfalso. assert (Hx : a ∈ []) by (apply Hm; left). inversion Hx.
    + rewrite Forall_forall in Ha, Hb.
      assert (a = b) as <-.
      { assert (Ha2 : a ∈ b :: l2) by (apply Hm; left).
        assert (Hb1 : b ∈ a :: l1) by (apply Hm; left).
        apply elem_of_cons in Ha2. apply elem_of_cons in Hb1.
        destruct Ha2 as [?|Ha2]; [assumption|].
        destruct Hb1 as [?|Hb1]; [congruence|].
        specialize (Ha _ Hb1). specialize (Hb _ Ha2). lia. }
      f_equal. apply IH; [exact Hs2|].
      intros x. split; intros Hx.
      * assert (Hx2 : x ∈ a :: l2) by (apply Hm; right; exact Hx).
        apply elem_of_cons in Hx2. destruct Hx2 as [->|?]; [|assumption].
        specialize (Ha _ Hx). lia.
      * assert (Hx1 : x ∈ a :: l1) by (apply Hm; right; exact Hx).
        apply elem_of_cons in Hx1. destruct Hx1 as [->|?]; [|assumption].
        specialize (Hb _ Hx). lia.
Qed.

(** The partition is defined exactly when every shape of the iterator is a
    live object. *)
Lemma split_shapes_defined heap shape_iter :
  forall m i,
    is_Some (split_shapes heap shape_iter m i) <->
    forall a, a ∈ shape_iter -> is_Some (heap !! a).
Proof.
  induction shape_iter as [|a rest IH]; intros m i; simpl.
  - split; [intros _ a Ha; inversion Ha|eauto].
  - destruct (heap !! a) as [s|] eqn:Hs; simpl.
    + destruct (negb (is_instance s)); rewrite IH; split.
      all: try (intros H x Hx; apply elem_of_cons in Hx; destruct Hx as [->|Hx];
                [rewrite Hs; eauto | apply H; exact Hx]).
      all: intros H x Hx; apply H; right; exact Hx.
    + split; [intros [? H]; discriminate H|].
      intros H. specialize (H a (list_elem_of_here _ _)). rewrite Hs in H.
      destruct H as [? H]. discriminate H.
Qed.

Lemma split_excluded_defined heap insts m :
  (forall a, a ∈ insts -> exists s, heap !! a = Some s /\ is_instance s = true) ->
  forall e, is_Some (split_excluded heap insts m e).
Proof.
  induction insts as [|a rest IH]; intros Hall e; simpl; [eauto|].
  destruct (Hall a (list_elem_of_here _ _)) as (s & Hs & Hi).
  rewrite Hs. simpl. unfold GetBaseShape, is_instance in *.
  destruct (shape_kind s); [discriminate Hi|]. simpl.
  destruct (negb (StdSet.find base_shape m)); apply IH;
    intros x Hx; apply Hall; right; exact Hx.
Qed.

Lemma SplitMeshesAndInstances_defined heap shape_iter :
  is_Some (SplitMeshesAndInstances heap shape_iter) <->
  forall a, a ∈ shape_iter -> is_Some (heap !! a).
Proof.
  rewrite <- (split_shapes_defined heap shape_iter StdSet.empty StdSet.empty).
  unfold SplitMeshesAndInstances.
  destruct (split_shapes heap shape_iter StdSet.empty StdSet.empty) as [[m i]|] eqn:H;
    simpl.
  - split; [eauto|]. intros _.
    apply split_shapes_spec in H. destruct H as (_ & Hi & _ & _).
    destruct (split_excluded_defined heap i m) with (e := StdSet.empty) as [e He].
    + intros a Ha. apply Hi in Ha. destruct Ha as [Ha|Ha]; [inversion Ha|].
      destruct Ha as (_ & s & Hs & Hinst). eauto.
    + rewrite He. simpl. eauto.
  - split; intros [? Hx]; discriminate Hx.
Qed.

(** X2. The partition depends on the set of shapes the iterator yields
    and on nothing else: two iterators that yield the same shapes, in any
    order and with any repetition, give the same meshes, instances and
    excluded meshes, or are both rejected. *)
Theorem SplitMeshesAndInstances_order_free heap shape_iter shape_iter' :
  (forall a, a ∈ shape_iter <-> a ∈ shape_iter') ->
  SplitMeshesAndInstances heap shape_iter = SplitMeshesAndInstances heap shape_iter'.
Proof.
  intros Hsame.
  destruct (SplitMeshesAndInstances heap shape_iter) as [p|] eqn:Hp;
    destruct (SplitMeshesAndInstances heap shape_iter') as [p'|] eqn:Hp'.
  - destruct (partition_wf _ _ _ Hp) as (Hwm & Hwi & Hwe).
    destruct (partition_wf _ _ _ Hp') as (Hwm' & Hwi' & Hwe').
    destruct (partition_members _ _ _ Hp) as (Hm & Hi & He).
    destruct (partition_members _ _ _ Hp') as (Hm' & Hi' & He').
    assert (Em : meshes p = meshes p').
    { apply sorted_members_eq; [exact Hwm|exact Hwm'|].
      intros a. rewrite Hm, Hm', Hsame. reflexivity. }
    assert (Ei : instances p = instances p').
    { apply sorted_members_eq; [exact Hwi|exact Hwi'|].
      intros a. rewrite Hi, Hi', Hsame. reflexivity. }
    assert (Ee : excluded_meshes p = excluded_meshes p').
    { apply sorted_members_eq; [exact Hwe|exact Hwe'|].
      intros a. rewrite He, He', Em, Ei. reflexivity. }
    destruct p, p'. simpl in *. congruence.
  - exfalso. assert (H : is_Some (SplitMeshesAndInstances heap shape_iter')).
    { apply SplitMeshesAndInstances_defined. intros a Ha. apply Hsame in Ha.
      revert a Ha. apply SplitMeshesAndInstances_defined. rewrite Hp. eauto. }
    rewrite Hp' in H. destruct H as [? H]. discriminate H.
  - exfalso. assert (H : is_Some (SplitMeshesAndInstances heap shape_iter)).
    { apply SplitMeshesAndInstances_defined. intros a Ha. apply Hsame in Ha.
      revert a Ha. apply SplitMeshesAndInstances_defined. rewrite Hp'. eauto. }
    rewrite Hp in H. destruct H as [? H]. discriminate H.
  - reflexivity.
Qed.

Lemma SplitMeshesAndInstances_order_free_witness :
  SplitMeshesAndInstances (st_shapes demo_state) [4%N; 3%N; 1%N] =
  SplitMeshesAndInstances (st_shapes demo_state) [1%N; 3%N; 1%N; 4%N].
Proof.
  apply SplitMeshesAndInstances_order_free.
  intros a. rewrite !elem_of_cons. rewrite !elem_of_nil. tauto.
Defined.

(** X3. The meshes and the instances of a partition are together at
    most as many as the shapes the iterator yields, and exactly as many
    when it yields no shape twice; and there are at most as many excluded
    meshes as instances. *)
Theorem partition_size heap shape_iter p :
  SplitMeshesAndInstances heap shape_iter = Some p ->
  (length (meshes p) + length (instances p) <= length shape_iter)%nat /\
  (NoDup shape_iter ->
   (length (meshes p) + length (instances p))%nat = length shape_iter) /\
  (length (excluded_meshes p) <= length (instances p))%nat.
Proof.
  intros Hp.
  destruct (partition_wf _ _ _ Hp) as (Hwm & Hwi & Hwe).
  destruct (partition_members _ _ _ Hp) as (Hm & Hi & He).
  assert (Hnd : NoDup (meshes p ++ instances p)).
  { apply NoDup_app. split; [apply wf_NoDup, Hwm|]. split; [|apply wf_NoDup, Hwi].
    intros x Hx Hxi. apply Hm in Hx. apply Hi in Hxi.
    destruct Hx as (_ & s1 & Hs1 & Hf), Hxi as (_ & s2 & Hs2 & Ht). congruence. }
  assert (Hsub : forall x, x ∈ meshes p ++ instances p -> x ∈ shape_iter).
  { intros x Hx. apply elem_of_app in Hx. destruct Hx as [Hx|Hx].
    - apply Hm in Hx. tauto.
    - apply Hi in Hx. tauto. }
  rewrite <- length_app.
  split; [apply submseteq_length, NoDup_submseteq; assumption|].
  split.
  - intros Hiter. apply Permutation_length. apply NoDup_Permutation; [assumption..|].
    intros x. split; [apply Hsub|]. intros Hx.
    assert (Hdef : is_Some (heap !! x)).
    { revert x Hx. apply SplitMeshesAndInstances_defined. rewrite Hp. eauto. }
    destruct Hdef as [s Hs]. apply elem_of_app.
    destruct (is_instance s) eqn:Hk.
    + right. apply Hi. eauto.
    + left. apply Hm. eauto.
  - set (base_of := fun i : addr =>
                      default 0%N (s ← heap !! i; GetBaseShape s)).
    rewrite <- (length_fmap base_of (instances p)).
    apply submseteq_length, NoDup_submseteq; [apply wf_NoDup, Hwe|].
    intros x Hx. apply He in Hx. destruct Hx as [(i & s & Hin & Hs & Hb) _].
    apply list_elem_of_fmap. exists i. split; [|exact Hin].
    unfold base_of. rewrite Hs. simpl. rewrite Hb. reflexivity.
Qed.

Lemma partition_size_witness :
  (length (meshes demo_partition) + length (instances demo_partition)
     <= length (scene_shapes demo_scene))%nat /\
  (NoDup (scene_shapes demo_scene) ->
   (length (meshes demo_partition) + length (instances demo_partition))%nat
     = length (scene_shapes demo_scene)) /\
  (length (excluded_meshes demo_partition) <= length (instances demo_partition))%nat.
Proof.
  apply (partition_size (st_shapes demo_state)). vm_compute. reflexivity.
Defined.

(** ** The handles of the intersection API *)

Lemma foldl_delete_lookup (l : list handle) :
  forall (m : gmap handle RRShape) h,
    foldl (fun m h => delete h m) m l !! h =
    if decide (h ∈ l) then None else m !! h.
Proof.
  induction l as [|a l IH]; intros m h; cbn [foldl].
  - destruct (decide (h ∈ [])) as [H|_]; [inversion H|reflexivity].
  - rewrite IH.
    destruct (decide (h ∈ l)) as [Hin|Hnin];
      destruct (decide (h ∈ a :: l)) as [Hin'|Hnin']; try reflexivity.
    + exfalso. apply Hnin'. right. exact Hin.
    + apply elem_of_cons in Hin'. destruct Hin' as [->|?]; [|contradiction].
      apply lookup_delete_eq.
    + apply lookup_delete_ne. intros ->. apply Hnin'. left.
Qed.

Lemma foldl_filter_elem (l : list handle) :
  forall (att : list handle) h,
    h ∈ foldl (fun att h => filter (fun x => x ≠ h) att) att l <->
    h ∈ att /\ (h ∉ l).
Proof.
  induction l as [|a l IH]; intros att h; cbn [foldl].
  - split; [intros H; split; [exact H|intros Hc; inversion Hc]|tauto].
  - rewrite IH, list_elem_of_filter, not_elem_of_cons. tauto.
Qed.

Lemma released_shapes l api h :
  api_shapes (released l api) !! h =
  if decide (h ∈ l) then None else api_shapes api !! h.
Proof. apply foldl_delete_lookup. Qed.

Lemma released_attached l api h :
  h ∈ api_attached (released l api) <-> h ∈ api_attached api /\ (h ∉ l).
Proof. apply foldl_filter_elem. Qed.

Lemma detach_delete_run l : forall s,
  for_each l (fun shape => DetachShape shape;; DeleteShape shape) s =
  Ok tt (set_m_api (released l (m_api s)) s).
Proof.
  unfold for_each.
  induction l as [|a l IH]; intros s.
  - destruct s as [? ? ? ? ? ? ? ? ? [? ? ? ?] ?]. reflexivity.
  - simpl. erewrite bind_run by reflexivity. rewrite IH. reflexivity.
Qed.

Lemma bind_Throw {A B} (m : M A) (f : A -> M B) s msg s1 :
  m s = Throw msg s1 -> (m ≫= f) s = Throw msg s1.
Proof. unfold mbind, M_bind. intros ->. reflexivity. Qed.

(** X4. On a cached scene without shapes [UpdateIntersector] raises
    [No shapes in the scene], and it does so after the clean-up: every
    handle of the old [isect_shapes] is detached and deleted, and
    [isect_shapes] and [visible_shapes] of the cached record are empty.
    The device context and the shapes are as they were. *)
Theorem UpdateIntersector_no_shapes scene s sc out :
  m_scene_cache s !! scene = Some out ->
  st_scenes s !! scene = Some sc ->
  scene_shapes sc = [] ->
  exists s',
    UpdateIntersector scene s = Throw "No shapes in the scene" s' /\
    m_scene_cache s' !! scene =
      Some (with_visible_shapes [] (with_isect_shapes [] out)) /\
    (forall h, h ∈ isect_shapes out ->
       api_shapes (m_api s') !! h = None /\ (h ∉ api_attached (m_api s'))) /\
    m_context s' = m_context s /\
    st_shapes s' = st_shapes s.
Proof.
  intros Hout Hsc Hempty. unfold UpdateIntersector.
  erewrite bind_run by (apply deref_run; exact Hout).
  erewrite bind_run by apply detach_delete_run.
  erewrite bind_run by (apply update_out_run; exact Hout).
  erewrite bind_run by (apply update_out_run; apply lookup_insert_eq).
  unfold CreateShapeIterator.
  erewrite bind_run.
  2:{ erewrite bind_run by (apply deref_run; exact Hsc). reflexivity. }
  rewrite Hempty. eexists. split; [reflexivity|]. simpl.
  split; [rewrite insert_insert_eq; apply lookup_insert_eq|].
  split; [|split; reflexivity].
  intros h Hh. split.
  - rewrite foldl_delete_lookup. rewrite decide_True by exact Hh. reflexivity.
  - rewrite foldl_filter_elem. tauto.
Qed.

Lemma UpdateIntersector_no_shapes_witness :
  exists s',
    UpdateIntersector 100%N demo_emptied = Throw "No shapes in the scene" s' /\
    m_scene_cache s' !! 100%N =
      Some (with_visible_shapes [] (with_isect_shapes [] demo_out)) /\
    (forall h, h ∈ isect_shapes demo_out ->
       api_shapes (m_api s') !! h = None /\ (h ∉ api_attached (m_api s'))) /\
    m_context s' = m_context demo_emptied /\
    st_shapes s' = st_shapes demo_emptied.
Proof.
  apply (UpdateIntersector_no_shapes 100%N demo_emptied
           (mk_Scene1 [] [30%N] (Some 40%N) 0) demo_out);
    vm_compute; reflexivity.
Defined.

(** The state before the handle-creating loops of [UpdateIntersector] and
    what the loops keep of the API. *)
Lemma UpdateIntersector_api scene u s s' out :
  m_scene_cache s !! scene = Some out ->
  UpdateIntersector scene s = Ok u s' ->
  api_attached (m_api s') = api_attached (released (isect_shapes out) (m_api s)) /\
  forall h, (h < api_next (m_api s))%N ->
    api_shapes (m_api s') !! h =
    api_shapes (released (isect_shapes out) (m_api s)) !! h.
Proof.
  intros Hout H. unfold UpdateIntersector in H.
  rewrite (bind_run _ _ _ _ _ (deref_run _ _ _ _ Hout)) in H.
  rewrite (bind_run _ _ _ _ _ (detach_delete_run _ _)) in H.
  erewrite bind_run in H by (apply update_out_run; exact Hout).
  erewrite bind_run in H by (apply update_out_run; apply lookup_insert_eq).
  unfold CreateShapeIterator in H.
  apply bind_Ok in H. destruct H as (iter & s0 & Hiter & H).
  apply bind_Ok in Hiter. destruct Hiter as (sc & s00 & Hsc & Hret).
  apply deref_Ok in Hsc. destruct Hsc as [Hsc ->].
  apply ret_Ok in Hret. destruct Hret as [-> ->].
  destruct (scene_shapes sc) as [|x xs]; [discriminate H|].
  apply bind_Ok in H. destruct H as (p & s1 & Hp & H).
  apply split_scene_Ok in Hp. destruct Hp as [_ ->].
  apply bind_Ok in H. destruct H as ([id1 rr1] & s1 & Hm & H).
  apply bind_Ok in H. destruct H as ([id2 rr2] & s2 & He & H).
  apply bind_Ok in H. destruct H as ([id3 rr3] & s3 & Hi & H).
  apply ret_Ok in H. destruct H as [_ ->].
  destruct (handle_loop true scene (isect_mesh scene)
              (fun id rr a st' s s' => isect_mesh_step scene id rr a st' s s')
              _ _ _ _ _ _ _ Hm (lookup_insert_eq _ _ _))
    as (o1 & Ho1 & _ & _ & _ & Hn1 & Ha1 & Hold1 & _).
  destruct (handle_loop false scene (isect_excluded scene)
              (fun id rr a st' s s' => isect_excluded_step scene id rr a st' s s')
              _ _ _ _ _ _ _ He Ho1)
    as (o2 & Ho2 & _ & _ & _ & Hn2 & Ha2 & Hold2 & _).
  destruct (handle_loop true scene (isect_instance scene)
              (fun id rr a st' s s' => isect_instance_step scene id rr a st' s s')
              _ _ _ _ _ _ _ Hi Ho2)
    as (o3 & Ho3 & _ & _ & _ & Hn3 & Ha3 & Hold3 & _).
  simpl in *. split; [congruence|].
  intros h Hh. rewrite Hold3, Hold2, Hold1 by lia. reflexivity.
Qed.

(** X7. An intersector rebuild that returns has released the previous
    intersector: every handle of the old [isect_shapes] (handles the API had
    issued) is deleted and detached; a handle issued earlier that is not
    among them is known to the API as before; and the attached handles are
    the ones attached before without the released ones: the rebuild itself
    attaches nothing. *)
Theorem UpdateIntersector_releases scene s s' out :
  m_scene_cache s !! scene = Some out ->
  UpdateIntersector scene s = Ok tt s' ->
  forallb (fun h => (h <? api_next (m_api s))%N) (isect_shapes out) = true ->
  (forall h, h ∈ isect_shapes out ->
     api_shapes (m_api s') !! h = None /\ (h ∉ api_attached (m_api s'))) /\
  (forall h, h ∉ isect_shapes out -> (h < api_next (m_api s))%N ->
     api_shapes (m_api s') !! h = api_shapes (m_api s) !! h) /\
  (forall h, h ∈ api_attached (m_api s') <->
     h ∈ api_attached (m_api s) /\ (h ∉ isect_shapes out)).
Proof.
  intros Hout Hrun Hold.
  assert (Hold' : forall h, h ∈ isect_shapes out -> (h < api_next (m_api s))%N).
  { intros h Hh. rewrite forallb_forall in Hold.
    apply N.ltb_lt, Hold, list_elem_of_In, Hh. }
  destruct (UpdateIntersector_api _ _ _ _ _ Hout Hrun) as [Hatt Hshapes].
  split; [|split].
  - intros h Hh. split.
    + rewrite Hshapes by (apply Hold'; exact Hh).
      rewrite released_shapes, decide_True by exact Hh. reflexivity.
    + rewrite Hatt, released_attached. tauto.
  - intros h Hh Hlt. rewrite Hshapes by exact Hlt.
    rewrite released_shapes, decide_False by exact Hh. reflexivity.
  - intros h. rewrite Hatt. apply released_attached.
Qed.

Lemma UpdateIntersector_releases_witness :
  (forall h, h ∈ isect_shapes demo_out ->
     api_shapes (m_api demo_reintersected) !! h = None /\
     (h ∉ api_attached (m_api demo_reintersected))) /\
  (forall h, h ∉ isect_shapes demo_out -> (h < api_next (m_api demo_compiled))%N ->
     api_shapes (m_api demo_reintersected) !! h = api_shapes (m_api demo_compiled) !! h) /\
  (forall h, h ∈ api_attached (m_api demo_reintersected) <->
     h ∈ api_attached (m_api demo_compiled) /\ (h ∉ isect_shapes demo_out)).
Proof.
  apply (UpdateIntersector_releases 100%N demo_compiled demo_reintersected demo_out);
    vm_compute; reflexivity.
Defined.

(** ** [ReloadIntersector] *)

Lemma attach_run l : forall s,
  for_each l AttachShape s =
  Ok tt (set_m_api (mk_Api (api_shapes (m_api s)) (api_next (m_api s))
                      (api_attached (m_api s) ++ l) (api_committed (m_api s))) s).
Proof.
  unfold for_each.
  induction l as [|h l IH]; intros s.
  - rewrite app_nil_r. destruct s as [? ? ? ? ? ? ? ? ? [? ? ? ?] ?]. reflexivity.
  - simpl. erewrite bind_run by reflexivity. rewrite IH. simpl.
    rewrite <- app_assoc. reflexivity.
Qed.

(** [ReloadIntersector] on a cached scene. *)
Lemma ReloadIntersector_exact scene out s :
  m_scene_cache s !! scene = Some out ->
  ReloadIntersector scene s =
  Ok tt (set_m_api (mk_Api (api_shapes (m_api s)) (api_next (m_api s))
                      (visible_shapes out) (visible_shapes out)) s).
Proof.
  intros Hout. unfold ReloadIntersector.
  erewrite bind_run by reflexivity.
  erewrite bind_run by (apply deref_run; exact Hout).
  erewrite bind_run by apply attach_run.
  reflexivity.
Qed.

(** X6. On a cached scene [ReloadIntersector] always returns.  Whatever
    was attached before, the attached shapes are afterwards the handles of
    [visible_shapes], in this order, and they are committed; the shapes the
    API knows, its next handle and the rest of the state are as they
    were. *)
Theorem ReloadIntersector_attaches scene out s :
  m_scene_cache s !! scene = Some out ->
  ReloadIntersector scene s =
  Ok tt (set_m_api (mk_Api (api_shapes (m_api s)) (api_next (m_api s))
                      (visible_shapes out) (visible_shapes out)) s).
Proof. apply ReloadIntersector_exact. Qed.

Lemma ReloadIntersector_attaches_witness :
  ReloadIntersector 100%N demo_intersected =
  Ok tt (set_m_api (mk_Api (api_shapes (m_api demo_intersected))
                      (api_next (m_api demo_intersected))
                      (visible_shapes
                         (default ClwScene_new (m_scene_cache demo_intersected !! 100%N)))
                      (visible_shapes
                         (default ClwScene_new (m_scene_cache demo_intersected !! 100%N))))
           demo_intersected).
Proof.
  apply (ReloadIntersector_attaches 100%N
           (default ClwScene_new (m_scene_cache demo_intersected !! 100%N))
           demo_intersected).
  vm_compute. reflexivity.
Defined.

(** ** The base of an instance in the intersection API *)

Lemma isect_mesh_map scene id rr mesh st' s s' :
  isect_mesh scene (id, rr) mesh s = Ok st' s' ->
  st'.2 = <[mesh := api_next (m_api s)]> rr.
Proof.
  unfold isect_mesh, SetId, api_shape, update_api, push_isect, push_visible.
  intros H. run_inv.
  match goal with
  | H : create_mesh_shape _ _ = Ok _ _ |- _ =>
      apply create_mesh_shape_Ok in H; destruct H as (sh & d & Hsh & Hd & -> & ->)
  end.
  run_inv. reflexivity.
Qed.

Lemma isect_excluded_map scene id rr mesh st' s s' :
  isect_excluded scene (id, rr) mesh s = Ok st' s' ->
  st'.2 = <[mesh := api_next (m_api s)]> rr.
Proof.
  unfold isect_excluded, SetId, api_shape, update_api, push_isect.
  intros H. run_inv.
  match goal with
  | H : create_mesh_shape _ _ = Ok _ _ |- _ =>
      apply create_mesh_shape_Ok in H; destruct H as (sh & d & Hsh & Hd & -> & ->)
  end.
  run_inv. reflexivity.
Qed.

Lemma isect_instance_geometry scene id rr instance st' s s' :
  isect_instance scene (id, rr) instance s = Ok st' s' ->
  st'.2 = rr /\
  exists sh b rsh,
    st_shapes s !! instance = Some sh /\ GetBaseShape sh = Some b /\
    api_shapes (m_api s') !! api_next (m_api s) = Some rsh /\
    rr_geometry rsh = RRInstance (rr !! b).
Proof.
  unfold isect_instance, SetId, SetTransform, api_shape, update_api, api_create,
    push_isect, push_visible.
  intros H. run_inv. split; [reflexivity|].
  eexists _, _, _. split; [reflexivity|]. split; [eassumption|].
  split; reflexivity.
Qed.

(** The association [rr_shapes] after a loop over meshes. *)
Lemma mesh_map_loop visible scene (body : IsectLoop -> addr -> M IsectLoop) :
  (forall id rr a st' s s',
      body (id, rr) a s = Ok st' s' ->
      st'.2 = <[a := api_next (m_api s)]> rr /\ handle_step visible scene a id s s') ->
  forall l id rr st' s s',
    NoDup l ->
    foldM body l (id, rr) s = Ok st' s' ->
    (forall k a, l !! k = Some a ->
       st'.2 !! a = Some (api_next (m_api s) + N.of_nat k)%N) /\
    (forall a, a ∉ l -> st'.2 !! a = rr !! a).
Proof.
  intros Hbody.
  induction l as [|a rest IH]; intros id rr st' s s' Hnd Hrun; simpl in Hrun.
  - inv_ok. split; [intros k a Hk; inversion Hk|reflexivity].
  - apply bind_Ok in Hrun. destruct Hrun as ([id1 rr1] & s1 & Hstep & Hrest).
    apply Hbody in Hstep. destruct Hstep as [Hrr Hstep]. simpl in Hrr. subst rr1.
    destruct Hstep as (_ & _ & _ & _ & _ & _ & _ & _ & Hnext & _).
    apply NoDup_cons in Hnd. destruct Hnd as [Hnotin Hnd].
    destruct (IH _ _ _ _ _ Hnd Hrest) as [Hin Hout].
    split.
    + intros [|k] b Hk; simpl in Hk.
      * injection Hk as Hab. subst b.
        etransitivity; [exact (Hout _ Hnotin)|]. rewrite N.add_0_r.
        apply lookup_insert_eq.
      * etransitivity; [exact (Hin k b Hk)|]. rewrite Hnext. f_equal. lia.
    + intros b Hb. apply not_elem_of_cons in Hb. destruct Hb as [Hne Hb].
      etransitivity; [exact (Hout _ Hb)|]. apply lookup_insert_ne. auto.
Qed.

(** The geometry of the handles a loop over instances creates. *)
Lemma instance_geometry_loop scene :
  forall l id rr st' s s' out,
    foldM (isect_instance scene) l (id, rr) s = Ok st' s' ->
    m_scene_cache s !! scene = Some out ->
    forall k a, l !! k = Some a ->
      exists sh b rsh,
        st_shapes s !! a = Some sh /\ GetBaseShape sh = Some b /\
        api_shapes (m_api s') !! (api_next (m_api s) + N.of_nat k)%N = Some rsh /\
        rr_geometry rsh = RRInstance (rr !! b).
Proof.
  induction l as [|a rest IH]; intros id rr st' s s' out Hrun Hout k b Hk;
    [inversion Hk|].
  simpl in Hrun.
  apply bind_Ok in Hrun. destruct Hrun as ([id1 rr1] & s1 & Hstep & Hrest).
  pose proof (isect_instance_geometry _ _ _ _ _ _ _ Hstep) as [Hrr Hgeo].
  simpl in Hrr. subst rr1.
  apply isect_instance_step in Hstep. destruct Hstep as [_ Hstep].
  destruct Hstep as (out0 & out1 & _ & _ & Hout1 & _ & _ & _ & Hnext & _ & _ & _
                     & Hheap & _).
  destruct (handle_loop true scene (isect_instance scene)
              (fun id rr a st' s s' => isect_instance_step scene id rr a st' s s')
              _ _ _ _ _ _ _ Hrest Hout1)
    as (_ & _ & _ & _ & _ & _ & _ & Hold & _).
  destruct k as [|k]; simpl in Hk.
  - injection Hk as <-. destruct Hgeo as (sh & b0 & rsh & Hsh & Hb & Hl & Hg).
    exists sh, b0, rsh. split; [exact Hsh|]. split; [exact Hb|].
    split; [|exact Hg]. rewrite N.add_0_r, Hold by lia. exact Hl.
  - destruct (IH _ _ _ _ _ _ Hrest Hout1 k b Hk) as (sh & b0 & rsh & Hsh & Hb & Hl & Hg).
    exists sh, b0, rsh. split; [rewrite <- Hheap; exact Hsh|]. split; [exact Hb|].
    split; [|exact Hg]. rewrite <- Hl. f_equal. rewrite Hnext. lia.
Qed.

(** X5. After an intersector rebuild the handle created for the k-th
    instance is an instance of the handle that the same rebuild created for
    its base mesh: when the base mesh is the j-th shape of the meshes
    followed by the excluded meshes, the base handle is the j-th handle
    issued by the rebuild, and the instance's handle is the one issued at
    position (number of meshes + number of excluded meshes + k). *)
Theorem UpdateIntersector_instance_base scene s s' sc p k inst si base jb :
  st_scenes s !! scene = Some sc ->
  SplitMeshesAndInstances (st_shapes s) (scene_shapes sc) = Some p ->
  UpdateIntersector scene s = Ok tt s' ->
  instances p !! k = Some inst ->
  st_shapes s !! inst = Some si ->
  GetBaseShape si = Some base ->
  (meshes p ++ excluded_meshes p) !! jb = Some base ->
  exists rsh,
    api_shapes (m_api s') !!
      (api_next (m_api s)
       + N.of_nat (length (meshes p) + length (excluded_meshes p) + k))%N = Some rsh /\
    rr_geometry rsh = RRInstance (Some (api_next (m_api s) + N.of_nat jb)%N).
Proof.
  intros Hsc Hp H Hk Hsi Hbase Hjb.
  pose proof (partition_geometry_NoDup _ _ _ Hp) as Hnd.
  apply NoDup_app in Hnd. destruct Hnd as (Hndm & Hdisj & Hnde).
  unfold UpdateIntersector in H.
  apply bind_Ok in H. destruct H as (out & s0 & Hout & H).
  apply get_out_Ok in Hout. destruct Hout as [Hout ->].
  rewrite (bind_run _ _ _ _ _ (detach_delete_run _ _)) in H.
  erewrite bind_run in H by (apply update_out_run; exact Hout).
  erewrite bind_run in H by (apply update_out_run; apply lookup_insert_eq).
  unfold CreateShapeIterator in H.
  erewrite bind_run in H.
  2:{ erewrite bind_run by (apply deref_run; exact Hsc). reflexivity. }
  destruct (scene_shapes sc) as [|x xs] eqn:Hxs; [discriminate H|].
  erewrite bind_run in H.
  2:{ unfold split_scene. simpl. rewrite Hp. reflexivity. }
  apply bind_Ok in H. destruct H as ([id1 rr1] & s1 & Hm & H).
  apply bind_Ok in H. destruct H as ([id2 rr2] & s2 & He & H).
  apply bind_Ok in H. destruct H as ([id3 rr3] & s3 & Hi & H).
  apply ret_Ok in H. destruct H as [_ ->].
  destruct (handle_loop true scene (isect_mesh scene)
              (fun id rr a st' s s' => isect_mesh_step scene id rr a st' s s')
              _ _ _ _ _ _ _ Hm (lookup_insert_eq _ _ _))
    as (o1 & Ho1 & _ & _ & _ & Hn1 & _ & _ & _ & Hh1 & _).
  destruct (handle_loop false scene (isect_excluded scene)
              (fun id rr a st' s s' => isect_excluded_step scene id rr a st' s s')
              _ _ _ _ _ _ _ He Ho1)
    as (o2 & Ho2 & _ & _ & _ & Hn2 & _ & _ & _ & Hh2 & _).
  destruct (mesh_map_loop true scene (isect_mesh scene)
              (fun id rr a st' s s' H =>
                 conj (isect_mesh_map scene id rr a st' s s' H)
                      (proj2 (isect_mesh_step scene id rr a st' s s' H)))
              _ _ _ _ _ _ Hndm Hm) as [Hmap1 _].
  destruct (mesh_map_loop false scene (isect_excluded scene)
              (fun id rr a st' s s' H =>
                 conj (isect_excluded_map scene id rr a st' s s' H)
                      (proj2 (isect_excluded_step scene id rr a st' s s' H)))
              _ _ _ _ _ _ Hnde He) as [Hmap2 Hkeep2].
  destruct (instance_geometry_loop scene _ _ _ _ _ _ _ Hi Ho2 k inst Hk)
    as (sh & b & rsh & Hsh & Hb & Hl & Hg).
  simpl in *.
  rewrite Hh2, Hh1 in Hsh. simpl in Hsh. rewrite Hsi in Hsh. injection Hsh as <-.
  rewrite Hbase in Hb. injection Hb as <-.
  exists rsh. split.
  - rewrite <- Hl. f_equal. rewrite Hn2, Hn1. simpl. lia.
  - rewrite Hg. f_equal.
    destruct (decide (jb < length (meshes p))%nat) as [Hlt|Hge].
    + rewrite lookup_app_l in Hjb by exact Hlt.
      etransitivity; [apply Hkeep2|].
      * intros Hin. eapply Hdisj; [|exact Hin].
        eapply list_elem_of_lookup_2. exact Hjb.
      * etransitivity; [exact (Hmap1 _ _ Hjb)|]. reflexivity.
    + rewrite lookup_app_r in Hjb by lia.
      etransitivity; [exact (Hmap2 _ _ Hjb)|]. rewrite Hn1. simpl. f_equal. lia.
Qed.

Lemma UpdateIntersector_instance_base_witness :
  exists rsh,
    api_shapes (m_api demo_intersected) !!
      (api_next (m_api demo_entered)
       + N.of_nat (length (meshes demo_partition)
                   + length (excluded_meshes demo_partition) + 0))%N = Some rsh /\
    rr_geometry rsh = RRInstance (Some (api_next (m_api demo_entered) + N.of_nat 1)%N).
Proof.
  apply (UpdateIntersector_instance_base 100%N demo_entered demo_intersected
           demo_scene demo_partition 0 3%N
           (mk_Shape (Instance 2%N) (translation 3) (Some 10%N) true) 2%N 1);
    vm_compute; reflexivity.
Defined.

(** ** The lights pass *)

Lemma State_ext (s1 s2 : State) :
  st_shapes s1 = st_shapes s2 -> st_materials s1 = st_materials s2 ->
  st_textures s1 = st_textures s2 -> st_lights s1 = st_lights s2 ->
  st_cameras s1 = st_cameras s2 -> st_scenes s1 = st_scenes s2 ->
  m_default_material s1 = m_default_material s2 ->
  m_scene_cache s1 = m_scene_cache s2 ->
  m_current_scene s1 = m_current_scene s2 ->
  m_api s1 = m_api s2 -> m_context s1 = m_context s2 ->
  s1 = s2.
Proof. destruct s1, s2. simpl. intros. subst. reflexivity. Qed.

Lemma cleaned_by_cons {A} (clean : A -> A) heap a iter :
  cleaned_by clean heap (a :: iter) =
  cleaned_by clean (match heap !! a with
                    | Some x => <[a := clean x]> heap
                    | None => heap
                    end) iter.
Proof. reflexivity. Qed.

Lemma cleaned_by_lookup {A} (clean : A -> A) iter :
  (forall x, clean (clean x) = clean x) ->
  forall heap a,
  cleaned_by clean heap iter !! a =
  if decide (a ∈ iter) then clean <$> heap !! a else heap !! a.
Proof.
  intros Hidem. unfold cleaned_by.
  induction iter as [|b iter IH]; intros heap a; cbn [foldl].
  - destruct (decide (a ∈ [])) as [H|_]; [inversion H|reflexivity].
  - rewrite IH.
    assert (Hstep : forall x,
      (match heap !! b with
       | Some l => <[b := clean l]> heap
       | None => heap
       end) !! x =
      if decide (x = b) then clean <$> heap !! b else heap !! x).
    { intros x. destruct (decide (x = b)) as [->|Hne].
      - destruct (heap !! b) as [l|] eqn:Hb; simpl.
        + apply lookup_insert_eq.
        + exact Hb.
      - destruct (heap !! b) as [l|]; [apply lookup_insert_ne; auto|reflexivity]. }
    rewrite Hstep.
    destruct (decide (a ∈ iter)) as [Hin|Hnin];
      destruct (decide (a ∈ b :: iter)) as [Hin'|Hnin'].
    + destruct (decide (a = b)) as [->|Hne]; [|reflexivity].
      destruct (heap !! b); simpl; [rewrite Hidem|]; reflexivity.
    + exfalso. apply Hnin'. right. exact Hin.
    + apply elem_of_cons in Hin'. destruct Hin' as [->|?]; [|contradiction].
      rewrite decide_True by reflexivity. reflexivity.
    + rewrite decide_False; [reflexivity|]. intros ->. apply Hnin'. left.
Qed.

Lemma cleaned_lookup iter heap a :
  cleaned heap iter !! a =
  if decide (a ∈ iter) then clean_light <$> heap !! a else heap !! a.
Proof. apply cleaned_by_lookup. intros x. reflexivity. Qed.

Lemma light_static_clean heap light l a :
  heap !! light = Some l ->
  light_static (<[light := clean_light l]> heap) a = light_static heap a.
Proof.
  intros Hl. unfold light_static. destruct (decide (light = a)) as [->|Hne].
  - rewrite lookup_insert_eq, Hl. reflexivity.
  - rewrite lookup_insert_ne by exact Hne. reflexivity.
Qed.

(** [WriteLight] reads the scene, the shapes and the light, and of the
    light nothing but its kind, position, direction and radiance. *)
Lemma WriteLight_static scene light tex_collector data r s1 s2 :
  st_scenes s2 = st_scenes s1 ->
  st_shapes s2 = st_shapes s1 ->
  light_static (st_lights s2) light = light_static (st_lights s1) light ->
  WriteLight scene light tex_collector data s1 = Ok r s1 ->
  WriteLight scene light tex_collector data s2 = Ok r s2.
Proof.
  intros Esc Esh Est H. unfold WriteLight, GetLightType in *.
  apply bind_Ok in H. destruct H as (l1 & s0 & Hl1 & H).
  apply deref_Ok in Hl1. destruct Hl1 as [E1 ->].
  unfold light_static in Est. rewrite E1 in Est.
  destruct (st_lights s2 !! light) as [l2|] eqn:E2; [|discriminate Est].
  simpl in Est. injection Est as Hk Hp Hd Hr.
  erewrite bind_run by (apply deref_run; exact E2).
  cbv zeta in *. rewrite Hk, Hp, Hd, Hr.
  destruct (light_kind l1) as [| |cone|tex mult|shape prim].
  - apply ret_Ok in H. destruct H as [-> _]. reflexivity.
  - apply ret_Ok in H. destruct H as [-> _]. reflexivity.
  - apply ret_Ok in H. destruct H as [-> _]. reflexivity.
  - apply bind_Ok in H. destruct H as (idx & s0 & Hidx & H).
    apply defined_Ok in Hidx. destruct Hidx as [Hidx ->].
    apply ret_Ok in H. destruct H as [-> _].
    rewrite Hidx. reflexivity.
  - apply bind_Ok in H. destruct H as (iter & s0 & Hiter & H).
    unfold CreateShapeIterator in *.
    apply bind_Ok in Hiter. destruct Hiter as (sc & s00 & Hsc & Hret).
    apply deref_Ok in Hsc. destruct Hsc as [Hsc ->].
    apply ret_Ok in Hret. destruct Hret as [-> ->].
    apply bind_Ok in H. destruct H as (heap & s0 & Hheap & H).
    apply gets_Ok in Hheap. destruct Hheap as [-> ->].
    apply bind_Ok in H. destruct H as (idx & s0 & Hidx & H).
    apply defined_Ok in Hidx. destruct Hidx as [Hidx ->].
    apply ret_Ok in H. destruct H as [-> _].
    erewrite bind_run.
    2:{ erewrite bind_run by (apply deref_run; rewrite Esc; exact Hsc). reflexivity. }
    erewrite bind_run by reflexivity.
    rewrite Esh, Hidx. reflexivity.
Qed.

(** One turn of the serialization loop. *)
Lemma write_next_light_state scene tex_collector n light n' s s' :
  write_next_light scene tex_collector n light s = Ok n' s' ->
  n' = S n /\
  exists l out data rec,
    st_lights s !! light = Some l /\
    m_scene_cache s !! scene = Some out /\
    lights out !! n = Some data /\
    WriteLight scene light tex_collector data s = Ok rec s /\
    s' = set_st_lights (<[light := clean_light l]> (st_lights s))
           (set_m_scene_cache
              (<[scene := with_envmapidx
                            (if is_ibl l then static_cast_int (Z.of_nat n)
                             else envmapidx out)
                            (with_lights (<[n := rec]> (lights out)) out)]>
                 (m_scene_cache s)) s).
Proof.
  unfold write_next_light. intros H.
  apply bind_Ok in H. destruct H as (out & s0 & Hout & H).
  apply get_out_Ok in Hout. destruct Hout as [Hout ->].
  apply bind_Ok in H. destruct H as (data & s0 & Hdata & H).
  apply defined_Ok in Hdata. destruct Hdata as [Hdata ->].
  apply bind_Ok in H. destruct H as (rec & s0 & Hrec & H).
  pose proof (WriteLight_Ok _ _ _ _ _ _ _ Hrec) as [-> _].
  erewrite bind_run in H by (apply update_out_run; exact Hout).
  apply bind_Ok in H. destruct H as (l & s0 & Hl & H).
  apply deref_Ok in Hl. destruct Hl as [Hl ->]. simpl in Hl.
  apply bind_Ok in H. destruct H as (u & s1 & Hibl & H).
  unfold Light_SetDirty in H.
  apply bind_Ok in H. destruct H as (u2 & s2 & Hd & H).
  apply ret_Ok in H. destruct H as [-> ->]. split; [reflexivity|].
  apply bind_Ok in Hd. destruct Hd as (l' & s3 & Hl' & Hd).
  apply deref_Ok in Hl'. destruct Hl' as [Hl' ->].
  apply modify_Ok in Hd. subst s2.
  exists l, out, data, rec.
  split; [exact Hl|]. split; [exact Hout|]. split; [exact Hdata|].
  split; [exact Hrec|].
  destruct (is_ibl l).
  - erewrite update_out_run in Hibl by apply lookup_insert_eq.
    injection Hibl as Hs1. subst s1. simpl in *. rewrite Hl in Hl'.
    injection Hl' as <-. rewrite insert_insert_eq.
    replace (Z.of_nat (S n) - 1) with (Z.of_nat n) by lia. reflexivity.
  - apply ret_Ok in Hibl. destruct Hibl as [_ ->]. simpl in *.
    rewrite Hl in Hl'. injection Hl' as <-.
    destruct out. reflexivity.
Qed.

(** The serialization loop of [UpdateLights] started at slot [n]: the final
    state, and the record of every slot it writes. *)
Lemma lights_written_loop scene tex_collector :
  forall iter n s n' s' out,
    foldM (write_next_light scene tex_collector) iter n s = Ok n' s' ->
    m_scene_cache s !! scene = Some out ->
    n' = (n + length iter)%nat /\
    exists ls e,
      s' = set_st_lights (cleaned (st_lights s) iter)
             (set_m_scene_cache
                (<[scene := with_envmapidx e (with_lights ls out)]> (m_scene_cache s)) s) /\
      length ls = length (lights out) /\
      (forall j, (j < n)%nat -> ls !! j = lights out !! j) /\
      (forall k a, iter !! k = Some a ->
         exists data rec,
           lights out !! (n + k)%nat = Some data /\
           ls !! (n + k)%nat = Some rec /\
           WriteLight scene a tex_collector data s = Ok rec s).
Proof.
  induction iter as [|light rest IH]; intros n s n' s' out Hrun Hout; simpl in Hrun.
  - apply ret_Ok in Hrun. destruct Hrun as [-> ->]. split; [simpl; lia|].
    exists (lights out), (envmapidx out). split.
    + replace (with_envmapidx (envmapidx out) (with_lights (lights out) out))
        with out by (destruct out; reflexivity).
      rewrite insert_id by exact Hout.
      destruct s. reflexivity.
    + split; [reflexivity|]. split; [reflexivity|]. intros k a Hk. inversion Hk.
  - apply bind_Ok in Hrun. destruct Hrun as (n1 & s1 & Hstep & Hrest).
    apply write_next_light_state in Hstep.
    destruct Hstep as (-> & l & out0 & data & rec & Hl & Hout0 & Hdata & Hrec & ->).
    rewrite Hout in Hout0. injection Hout0 as <-.
    pose proof (lookup_lt_Some _ _ _ Hdata) as Hlt.
    edestruct IH as (Hn' & ls & e & Hs' & Hlen & Hbefore & Hrecs);
      [exact Hrest|apply lookup_insert_eq|].
    split; [simpl; lia|].
    exists ls, e. simpl in *. split.
    { rewrite Hs'. unfold cleaned. rewrite (cleaned_by_cons _ _ light), Hl.
      rewrite insert_insert_eq. reflexivity. }
    split; [rewrite Hlen; apply length_insert|].
    split.
    { intros j Hj. rewrite Hbefore by lia. apply list_lookup_insert_ne. lia. }
    intros [|k] a Hk; simpl in Hk.
    + injection Hk as <-. exists data, rec. rewrite Nat.add_0_r.
      split; [exact Hdata|]. split; [|exact Hrec].
      rewrite Hbefore by lia. apply list_lookup_insert_eq. exact Hlt.
    + destruct (Hrecs k a Hk) as (data' & rec' & Hd' & Hr' & Hw').
      exists data', rec'.
      replace (n + S k)%nat with (S n + k)%nat by lia.
      split; [rewrite list_lookup_insert_ne in Hd' by lia; exact Hd'|].
      split; [exact Hr'|].
      eapply WriteLight_static in Hw'; [exact Hw'|reflexivity|reflexivity|].
      simpl. symmetry. apply light_static_clean. exact Hl.
Qed.

(** The state [UpdateLights] ends in. *)
Lemma UpdateLights_state scene mat_collector tex_collector u s s' sc :
  st_scenes s !! scene = Some sc ->
  UpdateLights scene mat_collector tex_collector s = Ok u s' ->
  exists out ls e,
    m_scene_cache s !! scene = Some out /\
    s' = set_st_lights (cleaned (st_lights s) (scene_lights sc))
           (set_m_context
              (m_context s ++
               (if decide (length (lights out) < length (scene_lights sc))%nat
                then [CreateBuffer BufLights (length (scene_lights sc))] else []) ++
               [MapBuffer BufLights; UnmapBuffer BufLights])
              (set_m_scene_cache
                 (<[scene := with_num_lights
                               (static_cast_int (Z.of_nat (length (scene_lights sc))))
                               (with_envmapidx e (with_lights ls out))]>
                    (m_scene_cache s)) s)) /\
    length ls = (length (lights out) `max` length (scene_lights sc))%nat /\
    (forall k a, scene_lights sc !! k = Some a ->
       exists data rec,
         ls !! k = Some rec /\
         WriteLight scene a tex_collector data s = Ok rec s).
Proof.
  intros Hsc H. unfold UpdateLights, GetNumLights, CreateLightIterator in H.
  erewrite bind_run in H.
  2:{ erewrite bind_run by (apply deref_run; exact Hsc). reflexivity. }
  apply bind_Ok in H. destruct H as (out & s0 & Hout & H).
  apply get_out_Ok in Hout. destruct Hout as [Hout ->].
  exists out.
  set (n := length (scene_lights sc)) in *.
  set (out0 := if decide (length (lights out) < n)%nat
               then with_lights (fresh_buffer n) out else out).
  set (ops := if decide (length (lights out) < n)%nat
              then [CreateBuffer BufLights n] else []).
  assert (Hlen0 : length (lights out0) = (length (lights out) `max` n)%nat).
  { subst out0. destruct (decide (length (lights out) < n)%nat); simpl.
    - rewrite fresh_buffer_length. lia.
    - lia. }
  assert (H0 : exists s0,
             (if decide (length (lights out) < n)%nat
              then device (CreateBuffer BufLights n);;
                   update_out scene (with_lights (fresh_buffer n))
              else mret ()) s = Ok tt s0 /\
             s0 = set_m_context (m_context s ++ ops)
                    (set_m_scene_cache (<[scene := out0]> (m_scene_cache s)) s)).
  { subst out0 ops. destruct (decide (length (lights out) < n)%nat).
    - eexists. split; [|reflexivity].
      erewrite bind_run by reflexivity.
      erewrite update_out_run by exact Hout. reflexivity.
    - eexists. split; [|reflexivity]. rewrite app_nil_r.
      rewrite insert_id by exact Hout. destruct s. reflexivity. }
  destruct H0 as (s0 & Hrun0 & Hs0).
  rewrite (bind_run _ _ _ _ _ Hrun0) in H. clear Hrun0.
  erewrite bind_run in H by reflexivity.
  erewrite bind_run in H.
  2:{ erewrite bind_run; [reflexivity|].
      apply deref_run. subst s0. exact Hsc. }
  erewrite bind_run in H.
  2:{ apply update_out_run. subst s0. apply lookup_insert_eq. }
  apply bind_Ok in H. destruct H as (nw & s1 & Hloop & H).
  apply lights_written_loop with (out := with_envmapidx (-1) out0) in Hloop;
    [|subst s0; apply lookup_insert_eq].
  destruct Hloop as (-> & ls & e & -> & Hlen & _ & Hrecs).
  erewrite bind_run in H by reflexivity.
  erewrite update_out_run in H by apply lookup_insert_eq.
  injection H as _ <-.
  exists ls, e. split; [exact Hout|]. split.
  { subst s0. clear Hrecs. apply State_ext; simpl; try reflexivity.
    - rewrite !insert_insert_eq. f_equal.
      subst out0. destruct (decide (length (lights out) < n)%nat); reflexivity.
    - rewrite <- !app_assoc. reflexivity. }
  split; [rewrite Hlen; exact Hlen0|].
  intros k a Hk. destruct (Hrecs k a Hk) as (data & rec & _ & Hr & Hw).
  exists data, rec. split; [exact Hr|].
  subst s0.
  eapply WriteLight_static in Hw; [exact Hw| | |]; reflexivity.
Qed.

(** X8. A lights rebuild that returns clears the dirty bit of the lights
    of the scene and changes nothing else of the scene graph: the other
    lights, the shapes, the materials, the textures, the cameras, the scenes
    and the intersection API are as they were.  Of the cached record only
    [lights], [envmapidx] and [num_lights] change; [num_lights] is the
    number of lights; the lights buffer is created anew only when it is too
    small and never shrinks; the device operations of the call are this
    creation, if any, one map and one unmap of the lights buffer. *)
Theorem UpdateLights_cleans scene mat_collector tex_collector s s' sc :
  st_scenes s !! scene = Some sc ->
  UpdateLights scene mat_collector tex_collector s = Ok tt s' ->
  (forall a, st_lights s' !! a =
             if decide (a ∈ scene_lights sc)
             then clean_light <$> st_lights s !! a
             else st_lights s !! a) /\
  st_shapes s' = st_shapes s /\ st_materials s' = st_materials s /\
  st_textures s' = st_textures s /\ st_cameras s' = st_cameras s /\
  st_scenes s' = st_scenes s /\ m_api s' = m_api s /\
  exists out out',
    m_scene_cache s !! scene = Some out /\
    m_scene_cache s' !! scene = Some out' /\
    num_lights out' = static_cast_int (Z.of_nat (length (scene_lights sc))) /\
    length (lights out') = (length (lights out) `max` length (scene_lights sc))%nat /\
    with_lights (lights out)
      (with_envmapidx (envmapidx out) (with_num_lights (num_lights out) out')) = out /\
    m_context s' =
      m_context s ++
      (if decide (length (lights out) < length (scene_lights sc))%nat
       then [CreateBuffer BufLights (length (scene_lights sc))] else []) ++
      [MapBuffer BufLights; UnmapBuffer BufLights].
Proof.
  intros Hsc H.
  destruct (UpdateLights_state _ _ _ _ _ _ _ Hsc H)
    as (out & ls & e & Hout & -> & Hlen & _).
  split; [intros a; apply cleaned_lookup|].
  do 6 (split; [reflexivity|]).
  exists out. eexists. split; [exact Hout|].
  split; [apply lookup_insert_eq|]. simpl.
  split; [reflexivity|]. split; [exact Hlen|].
  split; [destruct out; reflexivity|reflexivity].
Qed.

Lemma UpdateLights_cleans_witness :
  (forall a, st_lights demo_lit !! a =
             if decide (a ∈ scene_lights demo_scene)
             then clean_light <$> st_lights demo_entered !! a
             else st_lights demo_entered !! a) /\
  st_shapes demo_lit = st_shapes demo_entered /\
  st_materials demo_lit = st_materials demo_entered /\
  st_textures demo_lit = st_textures demo_entered /\
  st_cameras demo_lit = st_cameras demo_entered /\
  st_scenes demo_lit = st_scenes demo_entered /\
  m_api demo_lit = m_api demo_entered /\
  exists out out',
    m_scene_cache demo_entered !! 100%N = Some out /\
    m_scene_cache demo_lit !! 100%N = Some out' /\
    num_lights out' = static_cast_int (Z.of_nat (length (scene_lights demo_scene))) /\
    length (lights out') =
      (length (lights out) `max` length (scene_lights demo_scene))%nat /\
    with_lights (lights out)
      (with_envmapidx (envmapidx out) (with_num_lights (num_lights out) out')) = out /\
    m_context demo_lit =
      m_context demo_entered ++
      (if decide (length (lights out) < length (scene_lights demo_scene))%nat
       then [CreateBuffer BufLights (length (scene_lights demo_scene))] else []) ++
      [MapBuffer BufLights; UnmapBuffer BufLights].
Proof.
  apply (UpdateLights_cleans 100%N demo_materials demo_textures demo_entered demo_lit
           demo_scene); vm_compute; reflexivity.
Defined.

(** Every slot of the lights buffer that the pass writes. *)
Lemma UpdateLights_slots scene mat_collector tex_collector s s' sc :
  st_scenes s !! scene = Some sc ->
  UpdateLights scene mat_collector tex_collector s = Ok tt s' ->
  exists out',
    m_scene_cache s' !! scene = Some out' /\
    forall k a, scene_lights sc !! k = Some a ->
      exists data rec,
        lights out' !! k = Some rec /\
        WriteLight scene a tex_collector data s = Ok rec s.
Proof.
  intros Hsc H.
  destruct (UpdateLights_state _ _ _ _ _ _ _ Hsc H)
    as (out & ls & e & Hout & -> & _ & Hrecs).
  eexists. split; [apply lookup_insert_eq|]. exact Hrecs.
Qed.

(** X9. After a lights rebuild the k-th record of the lights buffer is
    the record [WriteLight] returns for the k-th light of the scene, run on
    the state before the rebuild over some previous content of the slot;
    and this run of [WriteLight] leaves the state as it is. *)
Theorem UpdateLights_records scene mat_collector tex_collector s s' sc :
  st_scenes s !! scene = Some sc ->
  UpdateLights scene mat_collector tex_collector s = Ok tt s' ->
  exists out',
    m_scene_cache s' !! scene = Some out' /\
    forall k a, scene_lights sc !! k = Some a ->
      exists data rec,
        lights out' !! k = Some rec /\
        WriteLight scene a tex_collector data s = Ok rec s.
Proof. apply UpdateLights_slots. Qed.

Lemma UpdateLights_records_witness :
  exists out',
    m_scene_cache demo_lit !! 100%N = Some out' /\
    forall k a, scene_lights demo_scene !! k = Some a ->
      exists data rec,
        lights out' !! k = Some rec /\
        WriteLight 100%N a demo_textures data demo_entered = Ok rec demo_entered.
Proof.
  apply (UpdateLights_records 100%N demo_materials demo_textures demo_entered demo_lit
           demo_scene); vm_compute; reflexivity.
Defined.

Lemma static_cast_int_minus_one : static_cast_int (2 ^ 64 - 1) = -1.
Proof. reflexivity. Qed.

(** X10. For an area light, the record written by a lights rebuild has
    the type [kArea], the primitive index of the light, and as [shapeidx]
    the position of the first occurrence of the light's shape in the
    serialization order (when it fits an [int]); for a shape that is not in
    the serialization order [shapeidx] is -1, the [size_t] result of
    [GetShapeIdx] narrowed to [int]. *)
Theorem UpdateLights_area_light
    scene mat_collector tex_collector s s' sc p k a l shape prim_idx :
  st_scenes s !! scene = Some sc ->
  SplitMeshesAndInstances (st_shapes s) (scene_shapes sc) = Some p ->
  scene_lights sc !! k = Some a ->
  st_lights s !! a = Some l ->
  light_kind l = AreaLight shape prim_idx ->
  UpdateLights scene mat_collector tex_collector s = Ok tt s' ->
  exists out' rec,
    m_scene_cache s' !! scene = Some out' /\
    lights out' !! k = Some rec /\
    ClwScene.l_type rec = ClwScene.kArea /\
    ClwScene.l_primidx rec = static_cast_int (Z.of_nat prim_idx) /\
    (forall j, partition_order p !! j = Some shape ->
               (forall i, (i < j)%nat -> partition_order p !! i <> Some shape) ->
               Z.of_nat j < 2 ^ 31 ->
               ClwScene.l_shapeidx rec = Z.of_nat j) /\
    ((shape ∉ partition_order p) -> ClwScene.l_shapeidx rec = -1).
Proof.
  intros Hsc Hp Hk Hl Hkind H.
  destruct (UpdateLights_slots _ _ _ _ _ _ Hsc H) as (out' & Hout' & Hrecs).
  destruct (Hrecs k a Hk) as (data & rec & Hrec & Hw).
  exists out', rec. split; [exact Hout'|]. split; [exact Hrec|].
  unfold WriteLight, GetLightType in Hw.
  rewrite (bind_run _ _ _ _ _ (deref_run _ _ _ _ Hl)) in Hw.
  cbv zeta in Hw. rewrite Hkind in Hw.
  unfold CreateShapeIterator in Hw.
  erewrite bind_run in Hw.
  2:{ erewrite bind_run by (apply deref_run; exact Hsc). reflexivity. }
  erewrite bind_run in Hw by reflexivity.
  unfold GetShapeIdx in Hw. rewrite Hp in Hw. simpl in Hw.
  injection Hw as <-. simpl.
  split; [reflexivity|]. split; [reflexivity|]. split.
  - intros j Hj Hfirst Hfit.
    rewrite (proj2 (index_of_Some _ _ _) (conj Hj Hfirst)).
    apply static_cast_int_small. lia.
  - intros Hnot. rewrite (proj2 (index_of_None _ _) Hnot). reflexivity.
Qed.

Lemma UpdateLights_area_light_witness :
  exists out' rec,
    m_scene_cache demo_area_lit !! 100%N = Some out' /\
    lights out' !! 1%nat = Some rec /\
    ClwScene.l_type rec = ClwScene.kArea /\
    ClwScene.l_primidx rec = static_cast_int (Z.of_nat 1) /\
    (forall j, partition_order demo_partition !! j = Some 3%N ->
               (forall i, (i < j)%nat -> partition_order demo_partition !! i <> Some 3%N) ->
               Z.of_nat j < 2 ^ 31 ->
               ClwScene.l_shapeidx rec = Z.of_nat j) /\
    ((3%N ∉ partition_order demo_partition) -> ClwScene.l_shapeidx rec = -1).
Proof.
  apply (UpdateLights_area_light 100%N demo_materials demo_textures demo_area
           demo_area_lit demo_area_scene demo_partition 1 34%N
           (demo_light (AreaLight 3%N 1)) 3%N 1);
    vm_compute; reflexivity.
Defined.

(** X11. On a cached scene without lights [UpdateLights] returns: it
    creates no buffer and writes no record, maps and unmaps the lights
    buffer, and sets [num_lights] to 0 and [envmapidx] to -1; the rest of
    the state is as it was. *)
Theorem UpdateLights_no_lights scene mat_collector tex_collector s sc out :
  st_scenes s !! scene = Some sc ->
  scene_lights sc = [] ->
  m_scene_cache s !! scene = Some out ->
  UpdateLights scene mat_collector tex_collector s =
  Ok tt (set_m_context (m_context s ++ [MapBuffer BufLights; UnmapBuffer BufLights])
           (set_m_scene_cache
              (<[scene := with_num_lights 0 (with_envmapidx (-1) out)]>
                 (m_scene_cache s)) s)).
Proof.
  intros Hsc Hnone Hout. unfold UpdateLights, GetNumLights, CreateLightIterator.
  erewrite bind_run.
  2:{ erewrite bind_run by (apply deref_run; exact Hsc). reflexivity. }
  erewrite bind_run by (apply deref_run; exact Hout).
  rewrite Hnone. simpl length.
  rewrite decide_False by lia.
  erewrite bind_run by reflexivity.
  erewrite bind_run by reflexivity.
  erewrite bind_run.
  2:{ erewrite bind_run by (apply deref_run; exact Hsc). reflexivity. }
  erewrite bind_run by (apply update_out_run; exact Hout).
  rewrite Hnone. simpl foldM.
  erewrite bind_run by reflexivity.
  erewrite bind_run by reflexivity.
  erewrite update_out_run by apply lookup_insert_eq.
  unfold set_m_context, set_m_scene_cache. simpl.
  rewrite insert_insert_eq, <- app_assoc. reflexivity.
Qed.

Lemma UpdateLights_no_lights_witness :
  UpdateLights 100%N demo_materials demo_textures demo_dark =
  Ok tt (set_m_context (m_context demo_dark ++ [MapBuffer BufLights; UnmapBuffer BufLights])
           (set_m_scene_cache
              (<[100%N := with_num_lights 0 (with_envmapidx (-1) ClwScene_new)]>
                 (m_scene_cache demo_dark)) demo_dark)).
Proof.
  apply (UpdateLights_no_lights 100%N demo_materials demo_textures demo_dark
           demo_dark_scene ClwScene_new); vm_compute; reflexivity.
Defined.

(** X12. For a scene with a camera whose cached record has a camera
    buffer of at least one slot, [UpdateCamera] returns: slot 0 of the
    buffer holds the record of the camera, [camera_type] is [kPhysical] when
    the aperture is positive and [kDefault] otherwise, the dirty bit of the
    camera is cleared, the camera buffer is mapped and unmapped once, and
    nothing else changes. *)
Theorem UpdateCamera_writes scene mat_collector tex_collector s sc a cam out :
  st_scenes s !! scene = Some sc ->
  scene_camera sc = Some a ->
  st_cameras s !! a = Some cam ->
  m_scene_cache s !! scene = Some out ->
  (0 < length (camera out))%nat ->
  UpdateCamera scene mat_collector tex_collector s =
  Ok tt (set_st_cameras (<[a := clean_camera cam]> (st_cameras s))
           (set_m_context
              (m_context s ++ [MapBuffer BufCamera; UnmapBuffer BufCamera])
              (set_m_scene_cache
                 (<[scene := with_camera (<[0%nat := camera_record cam]> (camera out))
                               (with_camera_type
                                  (if f32_gt_zero (GetAperture cam)
                                   then ClwScene.kPhysical else ClwScene.kDefault)
                                  out)]> (m_scene_cache s)) s))).
Proof.
  intros Hsc Hcam Ha Hout Hlen. unfold UpdateCamera, GetCamera.
  erewrite bind_run.
  2:{ erewrite bind_run by (apply deref_run; exact Hsc). reflexivity. }
  rewrite Hcam.
  erewrite bind_run by reflexivity.
  erewrite bind_run by (apply deref_run; exact Ha).
  erewrite bind_run by (apply update_out_run; exact Hout).
  erewrite bind_run by reflexivity.
  erewrite bind_run by (apply deref_run; apply lookup_insert_eq).
  unfold store_at. simpl length. rewrite decide_True by exact Hlen.
  erewrite bind_run by reflexivity.
  erewrite bind_run by (apply update_out_run; apply lookup_insert_eq).
  erewrite bind_run by reflexivity.
  unfold Camera_SetDirty.
  erewrite bind_run by (apply deref_run; exact Ha).
  unfold modify, set_st_cameras, set_m_context, set_m_scene_cache. simpl.
  rewrite !insert_insert_eq, <- app_assoc. reflexivity.
Qed.

Lemma UpdateCamera_writes_witness :
  UpdateCamera 100%N demo_materials demo_textures demo_compiled =
  Ok tt (set_st_cameras
           (<[40%N := clean_camera demo_compiled_camera]> (st_cameras demo_compiled))
           (set_m_context
              (m_context demo_compiled ++ [MapBuffer BufCamera; UnmapBuffer BufCamera])
              (set_m_scene_cache
                 (<[100%N := with_camera
                               (<[0%nat := camera_record demo_compiled_camera]>
                                  (camera demo_out))
                               (with_camera_type
                                  (if f32_gt_zero (GetAperture demo_compiled_camera)
                                   then ClwScene.kPhysical else ClwScene.kDefault)
                                  demo_out)]> (m_scene_cache demo_compiled))
                 demo_compiled))).
Proof.
  apply (UpdateCamera_writes 100%N demo_materials demo_textures demo_compiled
           (default demo_scene (st_scenes demo_compiled !! 100%N)) 40%N
           demo_compiled_camera demo_out);
    vm_compute; reflexivity.
Defined.

(** ** The shapes pass, buffer by buffer *)

(** One turn of each loop of [UpdateShapes], as the pure steps it is made
    of. *)
Lemma shapes_mesh_exact scene mat_collector lp mesh lp' s s' :
  shapes_mesh scene mat_collector lp mesh s = Ok lp' s' ->
  exists sh d out matidx lp1 out1 out',
    st_shapes s !! mesh = Some sh /\ as_mesh sh = Some d /\
    m_scene_cache s !! scene = Some out /\
    Collector.GetItemIndex mat_collector
      (default (m_default_material s) (shape_material sh)) = Some matidx /\
    serialize_mesh mesh d (shape_transform sh) lp out = Some (lp1, out1) /\
    fill_matids (GetNumIndices d / 3) (index_to_int matidx) lp1 out1 = Some (lp', out') /\
    s' = set_st_shapes (<[mesh := clean_shape sh]> (st_shapes s))
           (set_m_scene_cache (<[scene := out']> (m_scene_cache s)) s).
Proof.
  unfold shapes_mesh. intros H.
  apply bind_Ok in H. destruct H as (sh & s0 & Hsh & H).
  apply deref_Ok in Hsh. destruct Hsh as [Hsh ->].
  apply bind_Ok in H. destruct H as (d & s0 & Hd & H).
  apply defined_Ok in Hd. destruct Hd as [Hd ->].
  apply bind_Ok in H. destruct H as (out & s0 & Hout & H).
  apply get_out_Ok in Hout. destruct Hout as [Hout ->].
  apply bind_Ok in H. destruct H as ([lp1 out1] & s0 & Hser & H).
  apply defined_Ok in Hser. destruct Hser as [Hser ->].
  apply bind_Ok in H. destruct H as (material & s0 & Hmat & H).
  apply material_or_default_Ok in Hmat. destruct Hmat as [-> ->].
  apply bind_Ok in H. destruct H as (matidx & s0 & Hidx & H).
  apply defined_Ok in Hidx. destruct Hidx as [Hidx ->].
  apply bind_Ok in H. destruct H as ([lp2 out2] & s0 & Hfill & H).
  apply defined_Ok in Hfill. destruct Hfill as [Hfill ->].
  erewrite bind_run in H by (apply update_out_run; exact Hout).
  apply bind_Ok in H. destruct H as (u & s1 & Hdirty & H).
  apply ret_Ok in H. destruct H as [-> ->].
  apply Shape_SetDirty_Ok in Hdirty. destruct Hdirty as (sh' & Hsh' & ->).
  simpl in Hsh'. rewrite Hsh in Hsh'. injection Hsh' as <-.
  exists sh, d, out, matidx, lp1, out1, out2. auto 10.
Qed.

Lemma shapes_excluded_exact scene lp mesh lp' s s' :
  shapes_excluded scene lp mesh s = Ok lp' s' ->
  exists sh d out lp1 out1 out',
    st_shapes s !! mesh = Some sh /\ as_mesh sh = Some d /\
    m_scene_cache s !! scene = Some out /\
    serialize_mesh mesh d (shape_transform sh) lp out = Some (lp1, out1) /\
    fill_matids (GetNumIndices d / 3) (-1) lp1 out1 = Some (lp', out') /\
    s' = set_st_shapes (<[mesh := clean_shape sh]> (st_shapes s))
           (set_m_scene_cache (<[scene := out']> (m_scene_cache s)) s).
Proof.
  unfold shapes_excluded. intros H.
  apply bind_Ok in H. destruct H as (sh & s0 & Hsh & H).
  apply deref_Ok in Hsh. destruct Hsh as [Hsh ->].
  apply bind_Ok in H. destruct H as (d & s0 & Hd & H).
  apply defined_Ok in Hd. destruct Hd as [Hd ->].
  apply bind_Ok in H. destruct H as (out & s0 & Hout & H).
  apply get_out_Ok in Hout. destruct Hout as [Hout ->].
  apply bind_Ok in H. destruct H as ([lp1 out1] & s0 & Hser & H).
  apply defined_Ok in Hser. destruct Hser as [Hser ->].
  apply bind_Ok in H. destruct H as ([lp2 out2] & s0 & Hfill & H).
  apply defined_Ok in Hfill. destruct Hfill as [Hfill ->].
  erewrite bind_run in H by (apply update_out_run; exact Hout).
  apply bind_Ok in H. destruct H as (u & s1 & Hdirty & H).
  apply ret_Ok in H. destruct H as [-> ->].
  apply Shape_SetDirty_Ok in Hdirty. destruct Hdirty as (sh' & Hsh' & ->).
  simpl in Hsh'. rewrite Hsh in Hsh'. injection Hsh' as <-.
  exists sh, d, out, lp1, out1, out2. auto 10.
Qed.

Lemma shapes_instance_exact scene mat_collector lp instance lp' s s' :
  shapes_instance scene mat_collector lp instance s = Ok lp' s' ->
  exists sh base b bd out matidx lp1 out1 out',
    st_shapes s !! instance = Some sh /\ GetBaseShape sh = Some base /\
    st_shapes s !! base = Some b /\ as_mesh b = Some bd /\
    m_scene_cache s !! scene = Some out /\
    Collector.GetItemIndex mat_collector
      (default (m_default_material s) (shape_material sh)) = Some matidx /\
    serialize_instance
      (instance_record (shape_data_at base lp).1 (shape_transform sh)
         (shape_data_at base lp).2)
      (shape_data_at base lp).2 out = Some (lp1, out1) /\
    fill_matids (GetNumIndices bd / 3) (index_to_int matidx) lp1 out1 = Some (lp', out') /\
    s' = set_st_shapes (<[instance := clean_shape sh]> (st_shapes s))
           (set_m_scene_cache (<[scene := out']> (m_scene_cache s)) s).
Proof.
  unfold shapes_instance. intros H.
  apply bind_Ok in H. destruct H as (sh & s0 & Hsh & H).
  apply deref_Ok in Hsh. destruct Hsh as [Hsh ->].
  apply bind_Ok in H. destruct H as (base & s0 & Hbase & H).
  apply defined_Ok in Hbase. destruct Hbase as [Hbase ->].
  apply bind_Ok in H. destruct H as (b & s0 & Hb & H).
  apply deref_Ok in Hb. destruct Hb as [Hb ->].
  apply bind_Ok in H. destruct H as (bd & s0 & Hbd & H).
  apply defined_Ok in Hbd. destruct Hbd as [Hbd ->].
  destruct (shape_data_at base lp) as [shape lp0] eqn:Hsd. simpl.
  apply bind_Ok in H. destruct H as (out & s0 & Hout & H).
  apply get_out_Ok in Hout. destruct Hout as [Hout ->].
  apply bind_Ok in H. destruct H as ([lp1 out1] & s0 & Hser & H).
  apply defined_Ok in Hser. destruct Hser as [Hser ->].
  apply bind_Ok in H. destruct H as (material & s0 & Hmat & H).
  apply material_or_default_Ok in Hmat. destruct Hmat as [-> ->].
  apply bind_Ok in H. destruct H as (matidx & s0 & Hidx & H).
  apply defined_Ok in Hidx. destruct Hidx as [Hidx ->].
  apply bind_Ok in H. destruct H as ([lp2 out2] & s0 & Hfill & H).
  apply defined_Ok in Hfill. destruct Hfill as [Hfill ->].
  erewrite bind_run in H by (apply update_out_run; exact Hout).
  apply bind_Ok in H. destruct H as (u & s1 & Hdirty & H).
  apply ret_Ok in H. destruct H as [-> ->].
  apply Shape_SetDirty_Ok in Hdirty. destruct Hdirty as (sh' & Hsh' & ->).
  simpl in Hsh'. rewrite Hsh in Hsh'. injection Hsh' as <-.
  exists sh, base, b, bd, out, matidx, lp1, out1, out2.
  repeat (split; [assumption|]).
  split; [rewrite Hsd; exact Hser|]. split; [exact Hfill|reflexivity].
Qed.

Lemma static_eq_refl s : static_eq s s.
Proof. split; reflexivity. Qed.

Lemma static_eq_trans s1 s2 s3 : static_eq s1 s2 -> static_eq s2 s3 -> static_eq s1 s3.
Proof.
  intros [H1 H2] [H3 H4]. split; [|congruence].
  intros x. rewrite H3. apply H1.
Qed.

Lemma static_eq_clean scene a sh out s :
  st_shapes s !! a = Some sh ->
  static_eq s (set_st_shapes (<[a := clean_shape sh]> (st_shapes s))
                 (set_m_scene_cache (<[scene := out]> (m_scene_cache s)) s)).
Proof.
  intros Hsh. split; [|reflexivity]. intros x. simpl.
  apply shape_static_clean. exact Hsh.
Qed.

Lemma copy_to_append {A} (w r src buf' : list A) :
  copy_to (length w) src (w ++ r) = Some buf' ->
  buf' = (w ++ src) ++ drop (length src) r /\ (length src <= length r)%nat.
Proof.
  intros H. apply copy_to_Some in H. destruct H as [Hle ->].
  rewrite length_app in Hle. split; [|lia].
  rewrite take_app_length, drop_app_add'  by reflexivity.
  rewrite <- app_assoc. reflexivity.
Qed.

Lemma mapM_ext_in {A B} (f g : A -> option B) l :
  (forall a, f a = g a) -> mapM f l = mapM g l.
Proof.
  intros E. induction l as [|a l IH]; simpl; [reflexivity|].
  rewrite E, IH. reflexivity.
Qed.

(** A loop of the shapes pass, seen from one buffer: every turn appends
    one chunk at the counter of the buffer. *)
Section pool_loop.
Context {A : Type}.
Variable scene : addr.
Variable buf : ClwSceneData -> list A.
Variable ctr : ShapesLoop -> nat.
Variable chunk : State -> addr -> option (list A).
Variable body : ShapesLoop -> addr -> M ShapesLoop.
Hypothesis chunk_ext : forall s s' a, static_eq s s' -> chunk s' a = chunk s a.
Hypothesis body_step : forall lp a lp' s s',
  body lp a s = Ok lp' s' ->
  exists out out' x,
    m_scene_cache s !! scene = Some out /\
    m_scene_cache s' !! scene = Some out' /\
    chunk s a = Some x /\
    copy_to (ctr lp) x (buf out) = Some (buf out') /\
    ctr lp' = (ctr lp + length x)%nat /\
    static_eq s s'.

Lemma pool_loop :
  forall l lp s lp' s' out w r,
    foldM body l lp s = Ok lp' s' ->
    m_scene_cache s !! scene = Some out ->
    buf out = w ++ r ->
    ctr lp = length w ->
    exists out' xs,
      m_scene_cache s' !! scene = Some out' /\
      mapM (chunk s) l = Some xs /\
      buf out' = (w ++ concat xs) ++ drop (length (concat xs)) r /\
      ctr lp' = (length w + length (concat xs))%nat /\
      static_eq s s'.
Proof.
  induction l as [|a rest IH]; intros lp s lp' s' out w r Hrun Hout Hbuf Hctr;
    simpl in Hrun.
  - apply ret_Ok in Hrun. destruct Hrun as [-> ->].
    exists out, []. simpl. rewrite app_nil_r, Nat.add_0_r.
    split; [exact Hout|]. split; [reflexivity|]. split; [exact Hbuf|].
    split; [exact Hctr|apply static_eq_refl].
  - apply bind_Ok in Hrun. destruct Hrun as (lp1 & s1 & Hstep & Hrest).
    apply body_step in Hstep.
    destruct Hstep as (out0 & out1 & x & Hout0 & Hout1 & Hx & Hcopy & Hctr1 & Hst).
    rewrite Hout in Hout0. injection Hout0 as <-.
    rewrite Hbuf, Hctr in Hcopy. apply copy_to_append in Hcopy.
    destruct Hcopy as [Hbuf1 Hle].
    destruct (IH _ _ _ _ _ (w ++ x) (drop (length x) r) Hrest Hout1 Hbuf1)
      as (out' & xs & Hout' & Hxs & Hbuf' & Hctr' & Hst').
    { rewrite Hctr1, Hctr, length_app. reflexivity. }
    exists out', (x :: xs). split; [exact Hout'|].
    split.
    { simpl. rewrite Hx. simpl.
      rewrite (mapM_ext_in (chunk s) (chunk s1)) by (intros b; symmetry; apply chunk_ext, Hst).
      rewrite Hxs. reflexivity. }
    split.
    { rewrite Hbuf'. simpl. rewrite length_app, drop_drop, <- !app_assoc. reflexivity. }
    split.
    { rewrite Hctr'. simpl. rewrite !length_app. lia. }
    eapply static_eq_trans; eassumption.
Qed.
End pool_loop.

(** The pure steps, buffer by buffer. *)
Lemma serialize_mesh_pools mesh d t lp out lp1 out1 :
  serialize_mesh mesh d t lp out = Some (lp1, out1) ->
  copy_to (num_vertices_written lp) (GetVertices d) (vertices out) = Some (vertices out1) /\
  copy_to (num_normals_written lp) (GetNormals d) (normals out) = Some (normals out1) /\
  copy_to (num_uvs_written lp) (GetUVs d) (uvs out) = Some (uvs out1) /\
  copy_to (num_indices_written lp) (int_indices d) (indices out) = Some (indices out1) /\
  store_at (num_shapes_written lp) (mesh_record d t lp) (shapes out) = Some (shapes out1) /\
  materialids out1 = materialids out /\
  lp1 = mk_ShapesLoop
          (num_vertices_written lp + GetNumVertices d)
          (num_normals_written lp + GetNumNormals d)
          (num_uvs_written lp + GetNumUVs d)
          (num_indices_written lp + GetNumIndices d)
          (num_matids_written lp)
          (S (num_shapes_written lp))
          (<[mesh := mesh_record d t lp]> (shape_data lp)).
Proof.
  unfold serialize_mesh. intros H.
  destruct (copy_to (num_vertices_written lp) (GetVertices d) (vertices out))
    as [v'|] eqn:Hv; simpl in H; [|discriminate].
  destruct (copy_to (num_normals_written lp) (GetNormals d) (normals out))
    as [n'|] eqn:Hn; simpl in H; [|discriminate].
  destruct (copy_to (num_uvs_written lp) (GetUVs d) (uvs out))
    as [u'|] eqn:Hu; simpl in H; [|discriminate].
  destruct (copy_to (num_indices_written lp) (int_indices d) (indices out))
    as [i'|] eqn:Hi; simpl in H; [|discriminate].
  destruct (store_at (num_shapes_written lp) (mesh_record d t lp) (shapes out))
    as [s'|] eqn:Hs; simpl in H; [|discriminate].
  injection H as <- <-. simpl. auto 10.
Qed.

Lemma fill_matids_pools n v lp1 out1 lp' out' :
  fill_matids n v lp1 out1 = Some (lp', out') ->
  fill_to (num_matids_written lp1) n v (materialids out1) = Some (materialids out') /\
  vertices out' = vertices out1 /\ normals out' = normals out1 /\
  uvs out' = uvs out1 /\ indices out' = indices out1 /\ shapes out' = shapes out1 /\
  lp' = mk_ShapesLoop
          (num_vertices_written lp1) (num_normals_written lp1) (num_uvs_written lp1)
          (num_indices_written lp1) (num_matids_written lp1 + n)
          (num_shapes_written lp1) (shape_data lp1).
Proof.
  unfold fill_matids. intros H.
  destruct (fill_to (num_matids_written lp1) n v (materialids out1)) as [m'|] eqn:Hm;
    simpl in H; [|discriminate].
  injection H as <- <-. simpl. auto 10.
Qed.

Lemma chunk_of_ext {A} (g : MeshData -> list A) s s' a :
  static_eq s s' -> chunk_of g s' a = chunk_of g s a.
Proof.
  intros [H _]. unfold chunk_of. rewrite (mesh_at_ext _ _ H). reflexivity.
Qed.

Lemma material_ids_of_ext mat_collector s s' a :
  static_eq s s' -> material_ids_of mat_collector s' a = material_ids_of mat_collector s a.
Proof.
  intros [H Hd]. unfold material_ids_of.
  rewrite H, Hd, (prims_of_ext _ _ H). reflexivity.
Qed.

Ltac mesh_step_inv H :=
  first
    [ apply shapes_mesh_exact in H;
      destruct H as (? & ? & ? & ? & ? & ? & ? & ? & ? & ? & ? & ? & ? & ->)
    | apply shapes_excluded_exact in H;
      destruct H as (? & ? & ? & ? & ? & ? & ? & ? & ? & ? & ? & ->) ];
  match goal with
  | Hser : serialize_mesh _ _ _ _ _ = Some _ |- _ =>
      apply serialize_mesh_pools in Hser;
      destruct Hser as (? & ? & ? & ? & ? & ? & ->)
  end;
  match goal with
  | Hfill : fill_matids _ _ _ _ = Some _ |- _ =>
      apply fill_matids_pools in Hfill;
      destruct Hfill as (? & ? & ? & ? & ? & ? & ->)
  end;
  simpl in *;
  match goal with
  | Hsh : st_shapes _ !! ?a = Some ?sh, Hd : as_mesh ?sh = Some ?d |- _ =>
      pose proof (mesh_at_mesh _ _ _ _ Hsh Hd);
      pose proof (shape_static_mesh _ _ _ _ Hsh Hd);
      pose proof (prims_of_mesh _ _ _ _ Hsh Hd)
  end;
  match goal with
  | Hout : m_scene_cache _ !! _ = Some ?out |- _ => exists out
  end;
  eexists; eexists;
  (split; [eassumption|]); (split; [apply lookup_insert_eq|]).

Lemma int_indices_length d : length (int_indices d) = GetNumIndices d.
Proof. unfold int_indices. apply length_fmap. Qed.

Section mesh_steps.
Variable scene : addr.
Variable mat_collector : Collector.t.

Ltac geometry_pool :=
  split; [unfold chunk_of;
          match goal with Hm : mesh_at _ _ = Some _ |- _ => rewrite Hm end;
          reflexivity|];
  split; [congruence|];
  split; [first [reflexivity|simpl; rewrite int_indices_length; reflexivity]|];
  apply static_eq_clean; assumption.

Lemma shapes_mesh_vertices lp a lp' s s' :
  shapes_mesh scene mat_collector lp a s = Ok lp' s' ->
  exists out out' x,
    m_scene_cache s !! scene = Some out /\
    m_scene_cache s' !! scene = Some out' /\
    chunk_of GetVertices s a = Some x /\
    copy_to (num_vertices_written lp) x (vertices out) = Some (vertices out') /\
    num_vertices_written lp' = (num_vertices_written lp + length x)%nat /\
    static_eq s s'.
Proof. intros H. mesh_step_inv H. geometry_pool. Qed.

Lemma shapes_mesh_normals lp a lp' s s' :
  shapes_mesh scene mat_collector lp a s = Ok lp' s' ->
  exists out out' x,
    m_scene_cache s !! scene = Some out /\
    m_scene_cache s' !! scene = Some out' /\
    chunk_of GetNormals s a = Some x /\
    copy_to (num_normals_written lp) x (normals out) = Some (normals out') /\
    num_normals_written lp' = (num_normals_written lp + length x)%nat /\
    static_eq s s'.
Proof. intros H. mesh_step_inv H. geometry_pool. Qed.

Lemma shapes_mesh_uvs lp a lp' s s' :
  shapes_mesh scene mat_collector lp a s = Ok lp' s' ->
  exists out out' x,
    m_scene_cache s !! scene = Some out /\
    m_scene_cache s' !! scene = Some out' /\
    chunk_of GetUVs s a = Some x /\
    copy_to (num_uvs_written lp) x (uvs out) = Some (uvs out') /\
    num_uvs_written lp' = (num_uvs_written lp + length x)%nat /\
    static_eq s s'.
Proof. intros H. mesh_step_inv H. geometry_pool. Qed.

Lemma shapes_mesh_indices lp a lp' s s' :
  shapes_mesh scene mat_collector lp a s = Ok lp' s' ->
  exists out out' x,
    m_scene_cache s !! scene = Some out /\
    m_scene_cache s' !! scene = Some out' /\
    chunk_of int_indices s a = Some x /\
    copy_to (num_indices_written lp) x (indices out) = Some (indices out') /\
    num_indices_written lp' = (num_indices_written lp + length x)%nat /\
    static_eq s s'.
Proof. intros H. mesh_step_inv H. geometry_pool. Qed.

Lemma shapes_mesh_matids lp a lp' s s' :
  shapes_mesh scene mat_collector lp a s = Ok lp' s' ->
  exists out out' x,
    m_scene_cache s !! scene = Some out /\
    m_scene_cache s' !! scene = Some out' /\
    material_ids_of mat_collector s a = Some x /\
    copy_to (num_matids_written lp) x (materialids out) = Some (materialids out') /\
    num_matids_written lp' = (num_matids_written lp + length x)%nat /\
    static_eq s s'.
Proof.
  intros H. mesh_step_inv H.
  split.
  { unfold material_ids_of.
    match goal with Hs : shape_static _ _ = Some _ |- _ => rewrite Hs end. simpl.
    match goal with Hi : Collector.GetItemIndex _ _ = Some _ |- _ => rewrite Hi end.
    simpl.
    match goal with Hp : prims_of _ _ = _ |- _ => rewrite Hp end. reflexivity. }
  split; [unfold fill_to in *; congruence|].
  split; [rewrite length_replicate; reflexivity|].
  apply static_eq_clean. assumption.
Qed.

Lemma shapes_excluded_vertices lp a lp' s s' :
  shapes_excluded scene lp a s = Ok lp' s' ->
  exists out out' x,
    m_scene_cache s !! scene = Some out /\
    m_scene_cache s' !! scene = Some out' /\
    chunk_of GetVertices s a = Some x /\
    copy_to (num_vertices_written lp) x (vertices out) = Some (vertices out') /\
    num_vertices_written lp' = (num_vertices_written lp + length x)%nat /\
    static_eq s s'.
Proof. intros H. mesh_step_inv H. geometry_pool. Qed.

Lemma shapes_excluded_normals lp a lp' s s' :
  shapes_excluded scene lp a s = Ok lp' s' ->
  exists out out' x,
    m_scene_cache s !! scene = Some out /\
    m_scene_cache s' !! scene = Some out' /\
    chunk_of GetNormals s a = Some x /\
    copy_to (num_normals_written lp) x (normals out) = Some (normals out') /\
    num_normals_written lp' = (num_normals_written lp + length x)%nat /\
    static_eq s s'.
Proof. intros H. mesh_step_inv H. geometry_pool. Qed.

Lemma shapes_excluded_uvs lp a lp' s s' :
  shapes_excluded scene lp a s = Ok lp' s' ->
  exists out out' x,
    m_scene_cache s !! scene = Some out /\
    m_scene_cache s' !! scene = Some out' /\
    chunk_of GetUVs s a = Some x /\
    copy_to (num_uvs_written lp) x (uvs out) = Some (uvs out') /\
    num_uvs_written lp' = (num_uvs_written lp + length x)%nat /\
    static_eq s s'.
Proof. intros H. mesh_step_inv H. geometry_pool. Qed.

Lemma shapes_excluded_indices lp a lp' s s' :
  shapes_excluded scene lp a s = Ok lp' s' ->
  exists out out' x,
    m_scene_cache s !! scene = Some out /\
    m_scene_cache s' !! scene = Some out' /\
    chunk_of int_indices s a = Some x /\
    copy_to (num_indices_written lp) x (indices out) = Some (indices out') /\
    num_indices_written lp' = (num_indices_written lp + length x)%nat /\
    static_eq s s'.
Proof. intros H. mesh_step_inv H. geometry_pool. Qed.

Lemma shapes_excluded_matids lp a lp' s s' :
  shapes_excluded scene lp a s = Ok lp' s' ->
  exists out out' x,
    m_scene_cache s !! scene = Some out /\
    m_scene_cache s' !! scene = Some out' /\
    excluded_ids_of s a = Some x /\
    copy_to (num_matids_written lp) x (materialids out) = Some (materialids out') /\
    num_matids_written lp' = (num_matids_written lp + length x)%nat /\
    static_eq s s'.
Proof.
  intros H. mesh_step_inv H.
  split; [unfold excluded_ids_of, chunk_of;
          match goal with Hm : mesh_at _ _ = Some _ |- _ => rewrite Hm end;
          reflexivity|].
  split; [unfold fill_to in *; congruence|].
  split; [rewrite length_replicate; reflexivity|].
  apply static_eq_clean. assumption.
Qed.
End mesh_steps.

Section instance_steps.
Variable scene : addr.
Variable mat_collector : Collector.t.

Lemma shapes_instance_pools lp a lp' s s' :
  shapes_instance scene mat_collector lp a s = Ok lp' s' ->
  exists out out' x rec,
    m_scene_cache s !! scene = Some out /\
    m_scene_cache s' !! scene = Some out' /\
    material_ids_of mat_collector s a = Some x /\
    copy_to (num_matids_written lp) x (materialids out) = Some (materialids out') /\
    num_matids_written lp' = (num_matids_written lp + length x)%nat /\
    vertices out' = vertices out /\ normals out' = normals out /\
    uvs out' = uvs out /\ indices out' = indices out /\
    store_at (num_shapes_written lp) rec (shapes out) = Some (shapes out') /\
    num_shapes_written lp' = S (num_shapes_written lp) /\
    s' = set_st_shapes (<[a := clean_shape (default (mk_Shape (Instance a) (mk_matrix 0 0 0 0 0 0 0 0 0 0 0 0 0 0 0 0) None false) (st_shapes s !! a))]> (st_shapes s))
           (set_m_scene_cache (<[scene := out']> (m_scene_cache s)) s) /\
    is_Some (st_shapes s !! a) /\
    static_eq s s'.
Proof.
  intros H. apply shapes_instance_exact in H.
  destruct H as (sh & base & b & bd & out & matidx & lp1 & out1 & out' & Hsh & Hbase
                 & Hb & Hbd & Hout & Hidx & Hser & Hfill & ->).
  destruct (shape_data_at_spec base lp) as (_ & Hns & Hnm & _).
  unfold serialize_instance in Hser.
  destruct (store_at (num_shapes_written (shape_data_at base lp).2) _ (shapes out))
    as [shapes'|] eqn:Hstore; simpl in Hser; [|discriminate Hser].
  injection Hser as <- <-.
  apply fill_matids_pools in Hfill.
  destruct Hfill as (Hf & Hv' & Hn' & Hu' & Hi' & Hs' & ->). simpl in *.
  exists out, out'. eexists. eexists.
  split; [exact Hout|]. split; [apply lookup_insert_eq|].
  split.
  { unfold material_ids_of. rewrite (shape_static_instance _ _ _ _ Hsh Hbase). simpl.
    rewrite Hidx. simpl.
    rewrite (prims_of_instance _ _ _ _ _ _ Hsh Hbase Hb Hbd). reflexivity. }
  split; [unfold fill_to in Hf; rewrite <- Hnm; exact Hf|].
  split; [rewrite length_replicate, Hnm; reflexivity|].
  do 4 (split; [assumption|]).
  split; [rewrite Hs', <- Hns; exact Hstore|].
  split; [rewrite Hns; reflexivity|].
  split; [rewrite Hsh; reflexivity|].
  split; [rewrite Hsh; eauto|].
  apply static_eq_clean. exact Hsh.
Qed.

Lemma shapes_instance_matids lp a lp' s s' :
  shapes_instance scene mat_collector lp a s = Ok lp' s' ->
  exists out out' x,
    m_scene_cache s !! scene = Some out /\
    m_scene_cache s' !! scene = Some out' /\
    material_ids_of mat_collector s a = Some x /\
    copy_to (num_matids_written lp) x (materialids out) = Some (materialids out') /\
    num_matids_written lp' = (num_matids_written lp + length x)%nat /\
    static_eq s s'.
Proof.
  intros H. apply shapes_instance_pools in H.
  destruct H as (out & out' & x & rec & H1 & H2 & H3 & H4 & H5 & _ & _ & _ & _ & _ & _
                 & _ & _ & H6).
  exists out, out', x. auto 10.
Qed.

(** The instances add nothing to the geometry buffers. *)
Lemma instance_geometry_frame :
  forall l lp s lp' s' out,
    foldM (shapes_instance scene mat_collector) l lp s = Ok lp' s' ->
    m_scene_cache s !! scene = Some out ->
    exists out',
      m_scene_cache s' !! scene = Some out' /\
      vertices out' = vertices out /\ normals out' = normals out /\
      uvs out' = uvs out /\ indices out' = indices out.
Proof.
  induction l as [|a rest IH]; intros lp s lp' s' out Hrun Hout; simpl in Hrun.
  - apply ret_Ok in Hrun. destruct Hrun as [-> ->]. exists out. auto.
  - apply bind_Ok in Hrun. destruct Hrun as (lp1 & s1 & Hstep & Hrest).
    apply shapes_instance_pools in Hstep.
    destruct Hstep as (out0 & out1 & x & rec & Hout0 & Hout1 & _ & _ & _ & Hv & Hn & Hu
                       & Hi & _).
    rewrite Hout in Hout0. injection Hout0 as <-.
    destruct (IH _ _ _ _ _ Hrest Hout1) as (out' & Hout' & Hv' & Hn' & Hu' & Hi').
    exists out'. split; [exact Hout'|]. repeat split; congruence.
Qed.
End instance_steps.

Lemma mapM_app_Some {A B} (f : A -> option B) l1 l2 xs1 xs2 :
  mapM f l1 = Some xs1 -> mapM f l2 = Some xs2 -> mapM f (l1 ++ l2) = Some (xs1 ++ xs2).
Proof.
  revert xs1. induction l1 as [|a l1 IH]; intros xs1 H1 H2; simpl in *.
  - injection H1 as <-. exact H2.
  - destruct (f a) as [x|]; simpl in *; [|discriminate H1].
    destruct (mapM f l1) as [xs|]; simpl in *; [|discriminate H1].
    injection H1 as <-. rewrite (IH xs eq_refl H2). reflexivity.
Qed.

Lemma mapM_chunk_of {A} (g : MeshData -> list A) s l :
  mapM (chunk_of g s) l = fmap g <$> mapM (mesh_at (st_shapes s)) l.
Proof.
  induction l as [|a l IH]; [reflexivity|].
  cbn [mapM]. rewrite IH. unfold chunk_of.
  destruct (mesh_at (st_shapes s) a) as [d|]; simpl; [|reflexivity].
  destruct (mapM (mesh_at (st_shapes s)) l); reflexivity.
Qed.

Lemma canonical_state s :
  s = set_m_context (m_context s) (set_m_scene_cache (m_scene_cache s) s).
Proof. destruct s. reflexivity. Qed.

Lemma device_canonical o ops cache s :
  device o (set_m_context ops (set_m_scene_cache cache s)) =
  Ok tt (set_m_context (ops ++ [o]) (set_m_scene_cache cache s)).
Proof. reflexivity. Qed.

Lemma update_out_canonical scene f out ops cache s :
  cache !! scene = Some out ->
  update_out scene f (set_m_context ops (set_m_scene_cache cache s)) =
  Ok tt (set_m_context ops (set_m_scene_cache (<[scene := f out]> cache) s)).
Proof. intros H. rewrite (update_out_run _ _ out) by exact H. reflexivity. Qed.

Ltac step_device H :=
  let u := fresh "u" in let sx := fresh "sx" in let Hd := fresh "Hd" in
  apply bind_Ok in H; destruct H as (u & sx & Hd & H);
  apply modify_Ok in Hd; subst sx.

Ltac step_out H :=
  let u := fresh "u" in let sx := fresh "sx" in let Hd := fresh "Hd" in
  let o := fresh "o" in let Ho := fresh "Ho" in
  apply bind_Ok in H; destruct H as (u & sx & Hd & H);
  apply update_out_Ok in Hd; destruct Hd as (o & Ho & ->).

(** The three loops of [UpdateShapes], and the states between them. *)
Lemma UpdateShapes_loops scene mat_collector tex_collector u s s' :
  UpdateShapes scene mat_collector tex_collector s = Ok u s' ->
  exists sc p out sz0 sz1 sz lp1 s1 lp2 s2 lp3 s3,
    st_scenes s !! scene = Some sc /\
    SplitMeshesAndInstances (st_shapes s) (scene_shapes sc) = Some p /\
    m_scene_cache s !! scene = Some out /\
    foldM count_mesh (meshes p) (mk_ShapeSizes O O O O O) s = Ok sz0 s /\
    foldM count_mesh (excluded_meshes p) sz0 s = Ok sz1 s /\
    foldM count_instance (instances p) sz1 s = Ok sz s /\
    foldM (shapes_mesh scene mat_collector) (meshes p) shapes_loop_start
      (set_m_context
         (m_context s ++
          take 12 (shapes_pass_ops (num_vertices sz) (num_normals sz) (num_uvs sz)
                     (num_indices sz) (length (partition_order p))
                     (num_material_ids sz)))
         (set_m_scene_cache
            (<[scene := shapes_buffers sz (length (partition_order p)) out]>
               (m_scene_cache s)) s))
      = Ok lp1 s1 /\
    foldM (shapes_excluded scene) (excluded_meshes p) lp1 s1 = Ok lp2 s2 /\
    foldM (shapes_instance scene mat_collector) (instances p) lp2 s2 = Ok lp3 s3 /\
    s' = set_m_context
           (m_context s3 ++
            drop 12 (shapes_pass_ops (num_vertices sz) (num_normals sz) (num_uvs sz)
                       (num_indices sz) (length (partition_order p))
                       (num_material_ids sz))) s3.
Proof.
  unfold UpdateShapes, CreateShapeIterator, device. intros H.
  apply bind_Ok in H. destruct H as (shape_iter & sa & Hit & H).
  apply bind_Ok in Hit. destruct Hit as (sc & sa' & Hsc & Hret).
  apply deref_Ok in Hsc. destruct Hsc as [Hsc ->].
  apply ret_Ok in Hret. destruct Hret as [-> ->].
  apply bind_Ok in H. destruct H as (p & sb & Hp & H).
  apply split_scene_Ok in Hp. destruct Hp as [Hp ->].
  apply bind_Ok in H. destruct H as (sz0 & sc0 & Hc0 & H).
  pose proof (count_mesh_loop _ _ _ _ _ Hc0) as (-> & _).
  apply bind_Ok in H. destruct H as (sz1 & sc1 & Hc1 & H).
  pose proof (count_mesh_loop _ _ _ _ _ Hc1) as (-> & _).
  apply bind_Ok in H. destruct H as (sz & sc2 & Hc2 & H).
  pose proof (count_instance_loop _ _ _ _ _ Hc2) as (-> & _).
  assert (Hout : exists out, m_scene_cache s !! scene = Some out).
  { step_device H. step_out H. simpl in Ho. eauto. }
  destruct Hout as [out Hout].
  rewrite (canonical_state s) in H.
  repeat first
    [ erewrite bind_run in H by apply device_canonical
    | erewrite bind_run in H
        by (apply update_out_canonical; first [exact Hout|apply lookup_insert_eq]) ].
  apply bind_Ok in H. destruct H as (lp1 & s1 & Hm & H).
  apply bind_Ok in H. destruct H as (lp2 & s2 & He & H).
  apply bind_Ok in H. destruct H as (lp3 & s3 & Hi & H).
  do 5 step_device H. apply modify_Ok in H.
  exists sc, p, out, sz0, sz1, sz, lp1, s1, lp2, s2, lp3, s3.
  do 6 (split; [assumption|]).
  split.
  { rewrite <- Hm. f_equal. unfold StdSet.size.
    rewrite !insert_insert_eq, partition_order_length, <- !app_assoc. reflexivity. }
  split; [exact He|]. split; [exact Hi|].
  rewrite H. apply State_ext; simpl; try reflexivity.
  rewrite <- !app_assoc. reflexivity.
Qed.

Lemma count_mesh_data :
  forall l sz s sz' s',
    foldM count_mesh l sz s = Ok sz' s' ->
    exists ds,
      mapM (mesh_at (st_shapes s)) l = Some ds /\
      num_vertices sz' = (num_vertices sz + length (concat (GetVertices <$> ds)))%nat /\
      num_normals sz' = (num_normals sz + length (concat (GetNormals <$> ds)))%nat /\
      num_uvs sz' = (num_uvs sz + length (concat (GetUVs <$> ds)))%nat /\
      num_indices sz' = (num_indices sz + length (concat (int_indices <$> ds)))%nat.
Proof.
  induction l as [|a rest IH]; intros sz s sz' s' Hrun; simpl in Hrun.
  - apply ret_Ok in Hrun. destruct Hrun as [-> ->]. exists []. simpl.
    rewrite !Nat.add_0_r. auto.
  - apply bind_Ok in Hrun. destruct Hrun as (sz1 & s1 & Hstep & Hrest).
    unfold count_mesh in Hstep.
    apply bind_Ok in Hstep. destruct Hstep as (sh & sa & Hsh & Hstep).
    apply deref_Ok in Hsh. destruct Hsh as [Hsh ->].
    apply bind_Ok in Hstep. destruct Hstep as (d & sa & Hd & Hstep).
    apply defined_Ok in Hd. destruct Hd as [Hd ->].
    apply ret_Ok in Hstep. destruct Hstep as [-> ->].
    apply IH in Hrest. destruct Hrest as (ds & Hds & Hv & Hn & Hu & Hi).
    exists (d :: ds). cbn [mapM].
    rewrite (mesh_at_mesh _ _ _ _ Hsh Hd), Hds.
    split; [reflexivity|].
    rewrite !fmap_cons. cbn [concat].
    rewrite !length_app, Hv, Hn, Hu, Hi, int_indices_length.
    unfold GetNumVertices, GetNumNormals, GetNumUVs, GetNumIndices. simpl.
    repeat split; lia.
Qed.

Lemma count_instance_geometry :
  forall l sz s sz' s',
    foldM count_instance l sz s = Ok sz' s' ->
    num_vertices sz' = num_vertices sz /\ num_normals sz' = num_normals sz /\
    num_uvs sz' = num_uvs sz /\ num_indices sz' = num_indices sz.
Proof.
  induction l as [|a rest IH]; intros sz s sz' s' Hrun; simpl in Hrun.
  - apply ret_Ok in Hrun. destruct Hrun as [-> ->]. auto.
  - apply bind_Ok in Hrun. destruct Hrun as (sz1 & s1 & Hstep & Hrest).
    apply IH in Hrest. destruct Hrest as (Hv & Hn & Hu & Hi).
    unfold count_instance in Hstep. run_inv. simpl in *. auto.
Qed.

(** One geometry buffer over the two mesh loops. *)
Section geometry_pool.
Context {A : Type}.
Variable scene : addr.
Variable mat_collector : Collector.t.
Variable buf : ClwSceneData -> list A.
Variable ctr : ShapesLoop -> nat.
Variable g : MeshData -> list A.
Hypothesis ctr_start : ctr shapes_loop_start = O.
Hypothesis mesh_step : forall lp a lp' s s',
  shapes_mesh scene mat_collector lp a s = Ok lp' s' ->
  exists out out' x,
    m_scene_cache s !! scene = Some out /\
    m_scene_cache s' !! scene = Some out' /\
    chunk_of g s a = Some x /\
    copy_to (ctr lp) x (buf out) = Some (buf out') /\
    ctr lp' = (ctr lp + length x)%nat /\
    static_eq s s'.
Hypothesis excluded_step : forall lp a lp' s s',
  shapes_excluded scene lp a s = Ok lp' s' ->
  exists out out' x,
    m_scene_cache s !! scene = Some out /\
    m_scene_cache s' !! scene = Some out' /\
    chunk_of g s a = Some x /\
    copy_to (ctr lp) x (buf out) = Some (buf out') /\
    ctr lp' = (ctr lp + length x)%nat /\
    static_eq s s'.

Lemma geometry_pool_total ms es s0 lp1 s1 lp2 s2 out0 ds :
  foldM (shapes_mesh scene mat_collector) ms shapes_loop_start s0 = Ok lp1 s1 ->
  foldM (shapes_excluded scene) es lp1 s1 = Ok lp2 s2 ->
  m_scene_cache s0 !! scene = Some out0 ->
  mapM (mesh_at (st_shapes s0)) (ms ++ es) = Some ds ->
  length (buf out0) = length (concat (g <$> ds)) ->
  exists out2, m_scene_cache s2 !! scene = Some out2 /\ buf out2 = concat (g <$> ds).
Proof.
  intros Hm He Hout0 Hds Hlen.
  destruct (pool_loop scene buf ctr (chunk_of g) _ (chunk_of_ext g) mesh_step
              _ _ _ _ _ _ [] (buf out0) Hm Hout0 eq_refl ctr_start)
    as (out1 & xs1 & Hout1 & Hxs1 & Hbuf1 & Hctr1 & Hst1).
  destruct (pool_loop scene buf ctr (chunk_of g) _ (chunk_of_ext g) excluded_step
              _ _ _ _ _ _ _ _ He Hout1 Hbuf1 Hctr1)
    as (out2 & xs2 & Hout2 & Hxs2 & Hbuf2 & _ & _).
  rewrite (mapM_ext_in _ (chunk_of g s0)) in Hxs2
    by (intros b; apply chunk_of_ext, Hst1).
  pose proof (mapM_app_Some _ _ _ _ _ Hxs1 Hxs2) as Hall.
  rewrite mapM_chunk_of, Hds in Hall. simpl in Hall. injection Hall as Hall.
  exists out2. split; [exact Hout2|].
  rewrite Hbuf2. simpl. rewrite <- concat_app, <- Hall.
  rewrite drop_drop, drop_ge; [apply app_nil_r|].
  rewrite Hlen, Hall, concat_app, length_app. simpl. lia.
Qed.
End geometry_pool.

Lemma material_ids_of_length mat_collector s l :
  forall xs, mapM (material_ids_of mat_collector s) l = Some xs ->
  length (concat xs) = sum_list (prims_of (st_shapes s) <$> l).
Proof.
  induction l as [|a l IH]; intros xs H; cbn [mapM] in H.
  - injection H as <-. reflexivity.
  - destruct (material_ids_of mat_collector s a) as [x|] eqn:Hx; simpl in H;
      [|discriminate H].
    destruct (mapM (material_ids_of mat_collector s) l) as [xs0|]; simpl in H;
      [|discriminate H].
    injection H as <-. simpl. rewrite length_app, (IH xs0 eq_refl). f_equal.
    unfold material_ids_of in Hx.
    destruct (shape_static (st_shapes s) a) as [[[k t] m]|]; simpl in Hx;
      [|discriminate Hx].
    destruct (Collector.GetItemIndex mat_collector (default (m_default_material s) m));
      simpl in Hx; [|discriminate Hx].
    injection Hx as <-. apply length_replicate.
Qed.

Lemma excluded_ids_of_length s l :
  forall xs, mapM (excluded_ids_of s) l = Some xs ->
  length (concat xs) = sum_list (prims_of (st_shapes s) <$> l).
Proof.
  induction l as [|a l IH]; intros xs H; cbn [mapM] in H.
  - injection H as <-. reflexivity.
  - destruct (excluded_ids_of s a) as [x|] eqn:Hx; simpl in H; [|discriminate H].
    destruct (mapM (excluded_ids_of s) l) as [xs0|]; simpl in H; [|discriminate H].
    injection H as <-. simpl. rewrite length_app, (IH xs0 eq_refl). f_equal.
    unfold excluded_ids_of, chunk_of in Hx.
    destruct (mesh_at (st_shapes s) a) as [d|] eqn:Hd; simpl in Hx; [|discriminate Hx].
    injection Hx as <-. rewrite length_replicate.
    unfold prims_of, geometry_at. unfold mesh_at in Hd.
    destruct (shape_static (st_shapes s) a) as [[[[d0|b] t] m]|]; try discriminate Hd.
    injection Hd as ->. reflexivity.
Qed.

(** The material ids over the three loops. *)
Lemma material_ids_total scene mat_collector ms es is_ s0 lp1 s1 lp2 s2 lp3 s3 out0 :
  foldM (shapes_mesh scene mat_collector) ms shapes_loop_start s0 = Ok lp1 s1 ->
  foldM (shapes_excluded scene) es lp1 s1 = Ok lp2 s2 ->
  foldM (shapes_instance scene mat_collector) is_ lp2 s2 = Ok lp3 s3 ->
  m_scene_cache s0 !! scene = Some out0 ->
  length (materialids out0) = sum_list (prims_of (st_shapes s0) <$> (ms ++ es ++ is_)) ->
  exists out3 xm xe xi,
    m_scene_cache s3 !! scene = Some out3 /\
    mapM (material_ids_of mat_collector s0) ms = Some xm /\
    mapM (excluded_ids_of s0) es = Some xe /\
    mapM (material_ids_of mat_collector s0) is_ = Some xi /\
    materialids out3 = concat xm ++ concat xe ++ concat xi.
Proof.
  intros Hm He Hi Hout0 Hlen.
  destruct (pool_loop scene materialids num_matids_written
              (material_ids_of mat_collector) _ (material_ids_of_ext mat_collector)
              (shapes_mesh_matids scene mat_collector)
              _ _ _ _ _ _ [] (materialids out0) Hm Hout0 eq_refl eq_refl)
    as (out1 & xm & Hout1 & Hxm & Hbuf1 & Hctr1 & Hst1).
  destruct (pool_loop scene materialids num_matids_written
              excluded_ids_of _ (chunk_of_ext _)
              (shapes_excluded_matids scene)
              _ _ _ _ _ _ _ _ He Hout1 Hbuf1 Hctr1)
    as (out2 & xe & Hout2 & Hxe & Hbuf2 & Hctr2 & Hst2).
  rewrite <- length_app in Hctr2.
  destruct (pool_loop scene materialids num_matids_written
              (material_ids_of mat_collector) _ (material_ids_of_ext mat_collector)
              (shapes_instance_matids scene mat_collector)
              _ _ _ _ _ _ _ _ Hi Hout2 Hbuf2 Hctr2)
    as (out3 & xi & Hout3 & Hxi & Hbuf3 & _ & _).
  pose proof (static_eq_trans _ _ _ Hst1 Hst2) as Hst12.
  rewrite (mapM_ext_in _ (excluded_ids_of s0)) in Hxe
    by (intros b; apply chunk_of_ext, Hst1).
  rewrite (mapM_ext_in _ (material_ids_of mat_collector s0)) in Hxi
    by (intros b; apply material_ids_of_ext, Hst12).
  exists out3, xm, xe, xi. split; [exact Hout3|].
  do 3 (split; [assumption|]).
  rewrite Hbuf3. simpl. rewrite !drop_drop, drop_ge.
  - rewrite app_nil_r, <- app_assoc. reflexivity.
  - rewrite Hlen, !fmap_app, !sum_list_with_app.
    rewrite <- (material_ids_of_length _ _ _ _ Hxm), <- (excluded_ids_of_length _ _ _ Hxe),
      <- (material_ids_of_length _ _ _ _ Hxi). lia.
Qed.

Lemma shapes_mesh_record scene mat_collector lp a lp' s s' :
  shapes_mesh scene mat_collector lp a s = Ok lp' s' -> record_step scene a lp lp' s s'.
Proof.
  intros H. apply shapes_mesh_exact in H.
  destruct H as (sh & d & out & matidx & lp1 & out1 & out' & Hsh & Hd & Hout & _
                 & Hser & Hfill & ->).
  apply serialize_mesh_pools in Hser. destruct Hser as (_ & _ & _ & _ & Hst & _ & ->).
  apply fill_matids_pools in Hfill. destruct Hfill as (_ & _ & _ & _ & _ & Hs' & ->).
  exists out, out', d, (shape_transform sh), (shape_material sh). simpl.
  split; [exact Hout|]. split; [apply lookup_insert_eq|].
  split; [apply shape_static_mesh; assumption|].
  split; [rewrite Hs'; exact Hst|].
  do 4 (split; [reflexivity|]).
  apply static_eq_clean. exact Hsh.
Qed.

Lemma shapes_excluded_record scene lp a lp' s s' :
  shapes_excluded scene lp a s = Ok lp' s' -> record_step scene a lp lp' s s'.
Proof.
  intros H. apply shapes_excluded_exact in H.
  destruct H as (sh & d & out & lp1 & out1 & out' & Hsh & Hd & Hout
                 & Hser & Hfill & ->).
  apply serialize_mesh_pools in Hser. destruct Hser as (_ & _ & _ & _ & Hst & _ & ->).
  apply fill_matids_pools in Hfill. destruct Hfill as (_ & _ & _ & _ & _ & Hs' & ->).
  exists out, out', d, (shape_transform sh), (shape_material sh). simpl.
  split; [exact Hout|]. split; [apply lookup_insert_eq|].
  split; [apply shape_static_mesh; assumption|].
  split; [rewrite Hs'; exact Hst|].
  do 4 (split; [reflexivity|]).
  apply static_eq_clean. exact Hsh.
Qed.

Lemma mesh_record_offsets d t lp :
  mesh_record d t lp =
  mesh_record_at d t (num_vertices_written lp) (num_indices_written lp)
    (num_matids_written lp).
Proof. reflexivity. Qed.

(** A mesh loop of the shapes pass, seen from the records. *)
Lemma record_loop scene (body : ShapesLoop -> addr -> M ShapesLoop) :
  (forall lp a lp' s s', body lp a s = Ok lp' s' -> record_step scene a lp lp' s s') ->
  forall l lp s lp' s' out,
    foldM body l lp s = Ok lp' s' ->
    m_scene_cache s !! scene = Some out ->
    exists out' ds,
      m_scene_cache s' !! scene = Some out' /\
      mapM (mesh_at (st_shapes s)) l = Some ds /\
      num_shapes_written lp' = (num_shapes_written lp + length l)%nat /\
      num_vertices_written lp' =
        (num_vertices_written lp + length (concat (GetVertices <$> ds)))%nat /\
      num_indices_written lp' =
        (num_indices_written lp + length (concat (int_indices <$> ds)))%nat /\
      num_matids_written lp' =
        (num_matids_written lp + sum_list (triangles_of <$> ds))%nat /\
      (forall j, (j < num_shapes_written lp)%nat -> shapes out' !! j = shapes out !! j) /\
      static_eq s s' /\
      (forall k a, l !! k = Some a ->
         exists d t m,
           shape_static (st_shapes s) a = Some (Mesh d, t, m) /\
           ds !! k = Some d /\
           shapes out' !! (num_shapes_written lp + k)%nat =
             Some (mesh_record_at d t
                     (num_vertices_written lp
                      + length (concat (GetVertices <$> take k ds)))
                     (num_indices_written lp
                      + length (concat (int_indices <$> take k ds)))
                     (num_matids_written lp + sum_list (triangles_of <$> take k ds)))).
Proof.
  intros Hbody.
  induction l as [|a rest IH]; intros lp s lp' s' out Hrun Hout; simpl in Hrun.
  - apply ret_Ok in Hrun. destruct Hrun as [-> ->]. exists out, []. simpl.
    rewrite !Nat.add_0_r. split; [exact Hout|]. do 5 (split; [reflexivity|]).
    split; [auto|]. split; [apply static_eq_refl|].
    intros k a Hk. inversion Hk.
  - apply bind_Ok in Hrun. destruct Hrun as (lp1 & s1 & Hstep & Hrest).
    apply Hbody in Hstep.
    destruct Hstep as (out0 & out1 & d & t & m & Hout0 & Hout1 & Hst & Hstore & Hv & Hi
                       & Hm & Hn & Heq).
    rewrite Hout in Hout0. injection Hout0 as <-.
    apply store_at_Some in Hstore. destruct Hstore as [Hlt Hshapes].
    destruct (IH _ _ _ _ _ Hrest Hout1)
      as (out' & ds & Hout' & Hds & Hn' & Hv' & Hi' & Hm' & Hfr & Heq' & Hrec).
    assert (Hmesh : mesh_at (st_shapes s) a = Some d)
      by (unfold mesh_at; rewrite Hst; reflexivity).
    exists out', (d :: ds). split; [exact Hout'|].
    split.
    { cbn [mapM]. rewrite Hmesh. simpl.
      rewrite (mapM_ext_in _ (mesh_at (st_shapes s1)))
        by (intros b; symmetry; apply mesh_at_ext, Heq).
      rewrite Hds. reflexivity. }
    split; [rewrite Hn', Hn; simpl; lia|].
    split.
    { rewrite Hv', Hv, fmap_cons. cbn [concat]. rewrite length_app.
      unfold GetNumVertices. lia. }
    split.
    { rewrite Hi', Hi, fmap_cons. cbn [concat].
      rewrite length_app, int_indices_length. lia. }
    split; [rewrite Hm', Hm, fmap_cons; simpl; lia|].
    split.
    { intros j Hj. rewrite Hfr by lia. rewrite Hshapes.
      apply list_lookup_insert_ne. lia. }
    split; [eapply static_eq_trans; eassumption|].
    intros [|k] b Hk; simpl in Hk.
    + injection Hk as <-. exists d, t, m. split; [exact Hst|]. split; [reflexivity|].
      rewrite Nat.add_0_r, Hfr by lia. rewrite Hshapes, list_lookup_insert_eq by exact Hlt.
      simpl. rewrite !Nat.add_0_r. reflexivity.
    + destruct (Hrec k b Hk) as (d' & t' & m' & Hst' & Hdk & Hr).
      exists d', t', m'. split; [destruct Heq as [E _]; rewrite <- E; exact Hst'|].
      split; [exact Hdk|].
      replace (num_shapes_written lp + S k)%nat
        with (num_shapes_written lp1 + k)%nat by lia.
      rewrite Hr. f_equal. rewrite Hv, Hi, Hm, firstn_cons, !fmap_cons.
      cbn [concat]. rewrite !length_app, int_indices_length. simpl.
      unfold GetNumVertices.
      f_equal; lia.
Qed.

Lemma concat_segment {A} (l : list (list A)) j x rest :
  l !! j = Some x ->
  take (length x) (drop (length (concat (take j l))) (concat l ++ rest)) = x.
Proof.
  intros H.
  assert (E : concat l = concat (take j l) ++ x ++ concat (drop (S j) l)).
  { rewrite <- (take_drop_middle l j x H) at 1. rewrite concat_app. reflexivity. }
  rewrite E, <- !app_assoc, drop_app_length, take_app_length. reflexivity.
Qed.

Lemma mapM_lookup {A B} (f : A -> option B) l ys k a :
  mapM f l = Some ys -> l !! k = Some a -> exists y, ys !! k = Some y /\ f a = Some y.
Proof.
  intros H Hk. apply mapM_Some_1 in H.
  destruct (Forall2_lookup_l _ _ _ _ _ H Hk) as (y & Hy & Hf). eauto.
Qed.

(** What a shapes pass leaves in the buffers of the compiled record. *)
Lemma UpdateShapes_buffers scene mat_collector tex_collector u s s' sc p :
  UpdateShapes scene mat_collector tex_collector s = Ok u s' ->
  st_scenes s !! scene = Some sc ->
  SplitMeshesAndInstances (st_shapes s) (scene_shapes sc) = Some p ->
  exists out' dm de xm xe xi,
    let ds := dm ++ de in
    m_scene_cache s' !! scene = Some out' /\
    mapM (mesh_at (st_shapes s)) (meshes p) = Some dm /\
    mapM (mesh_at (st_shapes s)) (excluded_meshes p) = Some de /\
    vertices out' = concat (GetVertices <$> ds) /\
    normals out' = concat (GetNormals <$> ds) /\
    uvs out' = concat (GetUVs <$> ds) /\
    indices out' = concat (int_indices <$> ds) /\
    mapM (material_ids_of mat_collector s) (meshes p) = Some xm /\
    mapM (excluded_ids_of s) (excluded_meshes p) = Some xe /\
    mapM (material_ids_of mat_collector s) (instances p) = Some xi /\
    materialids out' = concat xm ++ concat xe ++ concat xi /\
    (forall k a, (meshes p ++ excluded_meshes p) !! k = Some a ->
       exists d t m,
         shape_static (st_shapes s) a = Some (Mesh d, t, m) /\
         ds !! k = Some d /\
         shapes out' !! k =
           Some (mesh_record_at d t
                   (length (concat (GetVertices <$> take k ds)))
                   (length (concat (int_indices <$> take k ds)))
                   (sum_list (triangles_of <$> take k ds)))).
Proof.
  intros H Hsc Hp. apply UpdateShapes_loops in H.
  destruct H as (sc' & p' & out & sz0 & sz1 & sz & lp1 & s1 & lp2 & s2 & lp3 & s3
                 & Hsc' & Hp' & Hout & Hc0 & Hc1 & Hc2 & Hm & He & Hi & ->).
  rewrite Hsc in Hsc'. injection Hsc' as <-.
  rewrite Hp in Hp'. injection Hp' as <-.
  pose proof (count_mesh_loop _ _ _ _ _ Hc0) as (_ & _ & _ & Hk0).
  pose proof (count_mesh_loop _ _ _ _ _ Hc1) as (_ & _ & _ & Hk1).
  pose proof (count_instance_loop _ _ _ _ _ Hc2) as (_ & _ & _ & Hk2).
  apply count_mesh_data in Hc0. destruct Hc0 as (dm & Hdm & Hv0 & Hn0 & Hu0 & Hi0).
  apply count_mesh_data in Hc1. destruct Hc1 as (de & Hde & Hv1 & Hn1 & Hu1 & Hi1).
  apply count_instance_geometry in Hc2. destruct Hc2 as (Hv2 & Hn2 & Hu2 & Hi2).
  pose proof (mapM_app_Some _ _ _ _ _ Hdm Hde) as Hds.
  simpl in Hv0, Hn0, Hu0, Hi0, Hk0.
  match type of Hm with
  | foldM _ _ _ ?s0 = _ => set (sA := s0) in *
  end.
  assert (HoutA : m_scene_cache sA !! scene
                  = Some (shapes_buffers sz (length (partition_order p)) out))
    by (subst sA; apply lookup_insert_eq).
  assert (HdsA : mapM (mesh_at (st_shapes sA)) (meshes p ++ excluded_meshes p)
                 = Some (dm ++ de)) by exact Hds.
  destruct (geometry_pool_total scene mat_collector vertices num_vertices_written
              GetVertices eq_refl (shapes_mesh_vertices scene mat_collector)
              (shapes_excluded_vertices scene)
              _ _ _ _ _ _ _ _ _ Hm He HoutA HdsA) as (o2 & Ho2 & Hvert).
  { simpl. rewrite fresh_buffer_length, Hv2, Hv1, Hv0, fmap_app, concat_app, length_app.
    reflexivity. }
  destruct (geometry_pool_total scene mat_collector normals num_normals_written
              GetNormals eq_refl (shapes_mesh_normals scene mat_collector)
              (shapes_excluded_normals scene)
              _ _ _ _ _ _ _ _ _ Hm He HoutA HdsA) as (o2' & Ho2' & Hnorm).
  { simpl. rewrite fresh_buffer_length, Hn2, Hn1, Hn0, fmap_app, concat_app, length_app.
    reflexivity. }
  rewrite Ho2 in Ho2'. injection Ho2' as <-.
  destruct (geometry_pool_total scene mat_collector uvs num_uvs_written
              GetUVs eq_refl (shapes_mesh_uvs scene mat_collector)
              (shapes_excluded_uvs scene)
              _ _ _ _ _ _ _ _ _ Hm He HoutA HdsA) as (o2' & Ho2' & Huv).
  { simpl. rewrite fresh_buffer_length, Hu2, Hu1, Hu0, fmap_app, concat_app, length_app.
    reflexivity. }
  rewrite Ho2 in Ho2'. injection Ho2' as <-.
  destruct (geometry_pool_total scene mat_collector indices num_indices_written
              int_indices eq_refl (shapes_mesh_indices scene mat_collector)
              (shapes_excluded_indices scene)
              _ _ _ _ _ _ _ _ _ Hm He HoutA HdsA) as (o2' & Ho2' & Hidx).
  { simpl. rewrite fresh_buffer_length, Hi2, Hi1, Hi0, fmap_app, concat_app, length_app.
    reflexivity. }
  rewrite Ho2 in Ho2'. injection Ho2' as <-.
  destruct (instance_geometry_frame scene mat_collector _ _ _ _ _ _ Hi Ho2)
    as (o3 & Ho3 & Ev & En & Eu & Ei).
  destruct (material_ids_total scene mat_collector _ _ _ _ _ _ _ _ _ _ _
              Hm He Hi HoutA) as (o3' & xm & xe & xi & Ho3' & Hxm & Hxe & Hxi & Hids).
  { simpl. rewrite fresh_buffer_length, Hk2, Hk1, Hk0, !fmap_app, !sum_list_with_app.
    subst sA. simpl. lia. }
  rewrite Ho3 in Ho3'. injection Ho3' as <-.
  destruct (record_loop scene _ (shapes_mesh_record scene mat_collector)
              _ _ _ _ _ _ Hm HoutA)
    as (r1 & dm' & Hr1 & Hdm' & Hnsw1 & Hnvw1 & Hniw1 & Hnmw1 & _ & Hst1 & Hrec1).
  assert (dm' = dm) as ->.
  { assert (E : Some dm' = Some dm) by (rewrite <- Hdm'; exact Hdm).
    injection E; auto. }
  destruct (record_loop scene _ (shapes_excluded_record scene)
              _ _ _ _ _ _ He Hr1)
    as (r2 & de' & Hr2 & Hde' & Hnsw2 & _ & _ & _ & Hfr2 & Hst2 & Hrec2).
  rewrite (mapM_ext_in _ (mesh_at (st_shapes sA)))
    in Hde' by (intros b; apply mesh_at_ext, Hst1).
  assert (de' = de) as ->.
  { assert (E : Some de' = Some de) by (rewrite <- Hde'; exact Hde).
    injection E; auto. }
  rewrite Hr2 in Ho2. injection Ho2 as <-.
  destruct (instance_loop scene mat_collector _ _ _ _ _ _ Hi Hr2)
    as (o3' & Ho3' & _ & _ & _ & _ & _ & _ & Hfr3 & _).
  rewrite Ho3 in Ho3'. injection Ho3' as <-.
  simpl in Hnsw1, Hnvw1, Hniw1, Hnmw1, Hrec1.
  pose proof (Forall2_length _ _ _ (mapM_Some_1 _ _ _ Hdm)) as Hlm.
  exists o3, dm, de, xm, xe, xi. cbv zeta. split; [exact Ho3|].
  split; [exact Hdm|]. split; [exact Hde|].
  rewrite Ev, En, Eu, Ei. do 4 (split; [assumption|]).
  do 4 (split; [assumption|]).
  intros k a Hk.
  destruct (decide (k < length (meshes p))%nat) as [Hlt|Hge].
  - rewrite lookup_app_l in Hk by exact Hlt.
    destruct (Hrec1 k a Hk) as (d & t & m & Hs & Hd & Hr).
    exists d, t, m. split; [exact Hs|].
    split; [rewrite lookup_app_l by lia; exact Hd|].
    rewrite Hfr3, Hfr2 by lia. rewrite Hr.
    rewrite take_app_le by lia. reflexivity.
  - rewrite lookup_app_r in Hk by lia.
    destruct (Hrec2 _ a Hk) as (d & t & m & Hs & Hd & Hr).
    exists d, t, m.
    split; [destruct Hst1 as [E _]; rewrite <- E; exact Hs|].
    split; [rewrite lookup_app_r by lia; rewrite <- Hlm; exact Hd|].
    rewrite Hfr3 by (apply lookup_lt_Some in Hk; lia).
    replace k with (num_shapes_written lp1 + (k - length (meshes p)))%nat at 1 by lia.
    rewrite Hr, Hnvw1, Hniw1, Hnmw1. f_equal.
    replace k with (length dm + (k - length (meshes p)))%nat at 4 5 6 by lia.
    rewrite take_app_add, !fmap_app, !concat_app, !length_app, sum_list_with_app.
    reflexivity.
Qed.

Lemma Forall2_mapM {A B C} (f : A -> option B) (g : A -> option C)
    (R : B -> C -> Prop) l :
  (forall a x d, f a = Some x -> g a = Some d -> R x d) ->
  forall xs ds, mapM f l = Some xs -> mapM g l = Some ds -> Forall2 R xs ds.
Proof.
  intros HR. induction l as [|a l IH]; intros xs ds Hx Hd; cbn [mapM] in Hx, Hd.
  - injection Hx as <-. injection Hd as <-. constructor.
  - destruct (f a) as [x|] eqn:Hfa; simpl in Hx; [|discriminate Hx].
    destruct (mapM f l) as [xs0|]; simpl in Hx; [|discriminate Hx].
    destruct (g a) as [d|] eqn:Hga; simpl in Hd; [|discriminate Hd].
    destruct (mapM g l) as [ds0|]; simpl in Hd; [|discriminate Hd].
    injection Hx as <-. injection Hd as <-. constructor; eauto.
Qed.

Lemma concat_take_length {A} (xs : list (list A)) (ds : list MeshData) :
  Forall2 (fun x d => length x = triangles_of d) xs ds ->
  forall k, length (concat (take k xs)) = sum_list (triangles_of <$> take k ds).
Proof.
  induction 1 as [|x d xs ds Hxd _ IH]; intros [|k]; simpl; try reflexivity.
  rewrite length_app, IH, Hxd. reflexivity.
Qed.

Lemma material_ids_of_mesh mat_collector s a x d t m :
  material_ids_of mat_collector s a = Some x ->
  shape_static (st_shapes s) a = Some (Mesh d, t, m) ->
  exists idx,
    Collector.GetItemIndex mat_collector (default (m_default_material s) m) = Some idx /\
    x = replicate (triangles_of d) (index_to_int idx).
Proof.
  unfold material_ids_of. intros Hx Hs. rewrite Hs in Hx. simpl in Hx.
  destruct (Collector.GetItemIndex mat_collector (default (m_default_material s) m))
    as [idx|]; simpl in Hx; [|discriminate Hx].
  injection Hx as <-. exists idx. split; [reflexivity|].
  unfold prims_of, geometry_at. rewrite Hs. reflexivity.
Qed.

Lemma excluded_ids_of_mesh s a x d :
  excluded_ids_of s a = Some x -> mesh_at (st_shapes s) a = Some d ->
  x = replicate (triangles_of d) (-1).
Proof.
  unfold excluded_ids_of, chunk_of. intros Hx Hd. rewrite Hd in Hx.
  injection Hx as <-. reflexivity.
Qed.

Lemma mesh_at_static heap a d t m :
  shape_static heap a = Some (Mesh d, t, m) -> mesh_at heap a = Some d.
Proof. unfold mesh_at. intros ->. reflexivity. Qed.

Lemma mesh_at_static_inv heap a d :
  mesh_at heap a = Some d -> exists t m, shape_static heap a = Some (Mesh d, t, m).
Proof.
  unfold mesh_at. destruct (shape_static heap a) as [[[[d0|b] t] m]|]; try discriminate.
  intros H. injection H as ->. eauto.
Qed.

(** X13. After a shapes pass the vertex, normal, uv and index buffers of
    the cached record are the concatenation of the data of the meshes
    followed by the data of the excluded meshes, each in partition order,
    the indices of a mesh being its unsigned 32-bit indices converted to
    [int]; the instances add nothing to these four buffers. *)
Theorem UpdateShapes_geometry scene mat_collector tex_collector s s' sc p :
  UpdateShapes scene mat_collector tex_collector s = Ok tt s' ->
  st_scenes s !! scene = Some sc ->
  SplitMeshesAndInstances (st_shapes s) (scene_shapes sc) = Some p ->
  exists out' ds,
    m_scene_cache s' !! scene = Some out' /\
    mapM (mesh_at (st_shapes s)) (meshes p ++ excluded_meshes p) = Some ds /\
    vertices out' = concat (GetVertices <$> ds) /\
    normals out' = concat (GetNormals <$> ds) /\
    uvs out' = concat (GetUVs <$> ds) /\
    indices out' = concat (int_indices <$> ds).
Proof.
  intros H Hsc Hp.
  destruct (UpdateShapes_buffers _ _ _ _ _ _ _ _ H Hsc Hp)
    as (out' & dm & de & xm & xe & xi & Hout & Hdm & Hde & Hv & Hn & Hu & Hi & _).
  exists out', (dm ++ de). split; [exact Hout|].
  split; [apply mapM_app_Some; assumption|]. auto.
Qed.

Lemma UpdateShapes_geometry_witness :
  exists out' ds,
    m_scene_cache demo_serialized !! 100%N = Some out' /\
    mapM (mesh_at (st_shapes demo_entered))
      (meshes demo_partition ++ excluded_meshes demo_partition) = Some ds /\
    vertices out' = concat (GetVertices <$> ds) /\
    normals out' = concat (GetNormals <$> ds) /\
    uvs out' = concat (GetUVs <$> ds) /\
    indices out' = concat (int_indices <$> ds).
Proof.
  apply (UpdateShapes_geometry 100%N demo_materials demo_textures demo_entered
           demo_serialized demo_scene demo_partition);
    vm_compute; reflexivity.
Defined.

(** X14. After a shapes pass, the record at position k of the shapes
    buffer, k being the position of a mesh among the meshes followed by
    the excluded meshes, is the record of this mesh with three start
    offsets, and the buffers hold the mesh at these offsets: its vertices in
    the vertex buffer, its indices converted to [int] in the index buffer,
    and one material id per triangle in the material-id buffer.  The id is
    the index of the mesh's material (the default material when it has
    none) in the material collector for a mesh, and -1 for an excluded
    mesh. *)
Theorem UpdateShapes_mesh_record scene mat_collector tex_collector s s' sc p k a :
  UpdateShapes scene mat_collector tex_collector s = Ok tt s' ->
  st_scenes s !! scene = Some sc ->
  SplitMeshesAndInstances (st_shapes s) (scene_shapes sc) = Some p ->
  (meshes p ++ excluded_meshes p) !! k = Some a ->
  exists out' d t m (ov oi om : nat) v,
    m_scene_cache s' !! scene = Some out' /\
    shape_static (st_shapes s) a = Some (Mesh d, t, m) /\
    shapes out' !! k = Some (mesh_record_at d t ov oi om) /\
    take (GetNumVertices d) (drop ov (vertices out')) = GetVertices d /\
    take (GetNumIndices d) (drop oi (indices out')) = int_indices d /\
    take (triangles_of d) (drop om (materialids out')) = replicate (triangles_of d) v /\
    (if decide (k < length (meshes p))%nat
     then exists idx,
            Collector.GetItemIndex mat_collector (default (m_default_material s) m)
              = Some idx /\
            v = index_to_int idx
     else v = -1).
Proof.
  intros H Hsc Hp Hk.
  destruct (UpdateShapes_buffers _ _ _ _ _ _ _ _ H Hsc Hp)
    as (out' & dm & de & xm & xe & xi & Hout & Hdm & Hde & Hv & _ & _ & Hi
        & Hxm & Hxe & _ & Hids & Hrec).
  cbv zeta in Hrec.
  destruct (Hrec k a Hk) as (d & t & m & Hs & Hd & Hr).
  assert (Hfm : Forall2 (fun x d => length x = triangles_of d) xm dm).
  { refine (Forall2_mapM _ _ _ _ _ _ _ Hxm Hdm). intros b x d0 Hx Hd0.
    apply mesh_at_static_inv in Hd0. destruct Hd0 as (t0 & m0 & Hs0).
    destruct (material_ids_of_mesh _ _ _ _ _ _ _ Hx Hs0) as (idx & _ & ->).
    apply length_replicate. }
  assert (Hfe : Forall2 (fun x d => length x = triangles_of d) xe de).
  { refine (Forall2_mapM _ _ _ _ _ _ _ Hxe Hde). intros b x d0 Hx Hd0.
    rewrite (excluded_ids_of_mesh _ _ _ _ Hx Hd0). apply length_replicate. }
  pose proof (Forall2_app Hfm Hfe) as Hfa.
  pose proof (Forall2_length _ _ _ (mapM_Some_1 _ _ _ Hdm)) as Hlm.
  pose proof (Forall2_length _ _ _ Hfm) as Hlx.
  assert (Hx : exists v,
             (xm ++ xe) !! k = Some (replicate (triangles_of d) v) /\
             (if decide (k < length (meshes p))%nat
              then exists idx,
                     Collector.GetItemIndex mat_collector
                       (default (m_default_material s) m) = Some idx /\
                     v = index_to_int idx
              else v = -1)).
  { destruct (decide (k < length (meshes p))%nat) as [Hlt|Hge].
    - rewrite lookup_app_l in Hk by exact Hlt.
      destruct (mapM_lookup _ _ _ _ _ Hxm Hk) as (x & Hxk & Hfx).
      destruct (material_ids_of_mesh _ _ _ _ _ _ _ Hfx Hs) as (idx & Hidx & ->).
      exists (index_to_int idx). rewrite lookup_app_l by (apply lookup_lt_Some in Hxk; lia).
      split; [exact Hxk|]. eauto.
    - rewrite lookup_app_r in Hk by lia.
      destruct (mapM_lookup _ _ _ _ _ Hxe Hk) as (x & Hxk & Hfx).
      rewrite (excluded_ids_of_mesh _ _ _ _ Hfx (mesh_at_static _ _ _ _ _ Hs)) in Hxk.
      exists (-1). rewrite lookup_app_r by lia. rewrite Hlx, <- Hlm.
      split; [exact Hxk|reflexivity]. }
  destruct Hx as (v & Hxk & Hv').
  exists out', d, t, m,
    (length (concat (GetVertices <$> take k (dm ++ de)))),
    (length (concat (int_indices <$> take k (dm ++ de)))),
    (sum_list (triangles_of <$> take k (dm ++ de))), v.
  split; [exact Hout|]. split; [exact Hs|]. split; [exact Hr|].
  split.
  { rewrite Hv, fmap_take, <- (app_nil_r (concat (GetVertices <$> (dm ++ de)))).
    apply (concat_segment (GetVertices <$> (dm ++ de)) k (GetVertices d) []).
    rewrite list_lookup_fmap, Hd. reflexivity. }
  split.
  { rewrite Hi, fmap_take, <- (app_nil_r (concat (int_indices <$> (dm ++ de)))).
    rewrite <- (int_indices_length d).
    apply (concat_segment (int_indices <$> (dm ++ de)) k (int_indices d) []).
    rewrite list_lookup_fmap, Hd. reflexivity. }
  split; [|exact Hv'].
  rewrite Hids, app_assoc, <- concat_app, <- (concat_take_length _ _ Hfa k).
  rewrite <- (length_replicate (triangles_of d) v) at 1.
  apply concat_segment. exact Hxk.
Qed.

Lemma UpdateShapes_mesh_record_witness :
  exists out' d t m (ov oi om : nat) v,
    m_scene_cache demo_serialized !! 100%N = Some out' /\
    shape_static (st_shapes demo_entered) 2%N = Some (Mesh d, t, m) /\
    shapes out' !! 1%nat = Some (mesh_record_at d t ov oi om) /\
    take (GetNumVertices d) (drop ov (vertices out')) = GetVertices d /\
    take (GetNumIndices d) (drop oi (indices out')) = int_indices d /\
    take (triangles_of d) (drop om (materialids out')) = replicate (triangles_of d) v /\
    (if decide (1 < length (meshes demo_partition))%nat
     then exists idx,
            Collector.GetItemIndex demo_materials
              (default (m_default_material demo_entered) m) = Some idx /\
            v = index_to_int idx
     else v = -1).
Proof.
  apply (UpdateShapes_mesh_record 100%N demo_materials demo_textures demo_entered
           demo_serialized demo_scene demo_partition 1%nat 2%N);
    vm_compute; reflexivity.
Defined.

(** X15. After a shapes pass the material-id buffer is the concatenation
    of the per-triangle ids of the meshes, then the ids (-1) of the excluded
    meshes, then the per-triangle ids of the instances, each instance
    having as many ids as its base mesh has triangles and the index of its
    own material. *)
Theorem UpdateShapes_material_ids scene mat_collector tex_collector s s' sc p :
  UpdateShapes scene mat_collector tex_collector s = Ok tt s' ->
  st_scenes s !! scene = Some sc ->
  SplitMeshesAndInstances (st_shapes s) (scene_shapes sc) = Some p ->
  exists out' xm xe xi,
    m_scene_cache s' !! scene = Some out' /\
    mapM (material_ids_of mat_collector s) (meshes p) = Some xm /\
    mapM (excluded_ids_of s) (excluded_meshes p) = Some xe /\
    mapM (material_ids_of mat_collector s) (instances p) = Some xi /\
    materialids out' = concat xm ++ concat xe ++ concat xi.
Proof.
  intros H Hsc Hp.
  destruct (UpdateShapes_buffers _ _ _ _ _ _ _ _ H Hsc Hp)
    as (out' & dm & de & xm & xe & xi & Hout & _ & _ & _ & _ & _ & _
        & Hxm & Hxe & Hxi & Hids & _).
  exists out', xm, xe, xi. auto.
Qed.

Lemma UpdateShapes_material_ids_witness :
  exists out' xm xe xi,
    m_scene_cache demo_serialized !! 100%N = Some out' /\
    mapM (material_ids_of demo_materials demo_entered) (meshes demo_partition)
      = Some xm /\
    mapM (excluded_ids_of demo_entered) (excluded_meshes demo_partition) = Some xe /\
    mapM (material_ids_of demo_materials demo_entered) (instances demo_partition)
      = Some xi /\
    materialids out' = concat xm ++ concat xe ++ concat xi.
Proof.
  apply (UpdateShapes_material_ids 100%N demo_materials demo_textures demo_entered
           demo_serialized demo_scene demo_partition);
    vm_compute; reflexivity.
Defined.

(** ** The dirty bits of the shapes *)

Lemma cleaned_by_app {A} (clean : A -> A) heap l1 l2 :
  cleaned_by clean heap (l1 ++ l2) = cleaned_by clean (cleaned_by clean heap l1) l2.
Proof. unfold cleaned_by. apply foldl_app. Qed.

Lemma shapes_clean_loop scene (body : ShapesLoop -> addr -> M ShapesLoop) :
  (forall lp a lp' s s', body lp a s = Ok lp' s' ->
     exists sh out',
       st_shapes s !! a = Some sh /\
       s' = set_st_shapes (<[a := clean_shape sh]> (st_shapes s))
              (set_m_scene_cache (<[scene := out']> (m_scene_cache s)) s)) ->
  forall l lp s lp' s',
    foldM body l lp s = Ok lp' s' ->
    exists cache',
      s' = set_st_shapes (cleaned_shapes (st_shapes s) l) (set_m_scene_cache cache' s) /\
      (forall x, x <> scene -> cache' !! x = m_scene_cache s !! x).
Proof.
  intros Hbody.
  induction l as [|a rest IH]; intros lp s lp' s' Hrun; simpl in Hrun.
  - apply ret_Ok in Hrun. destruct Hrun as [-> ->]. exists (m_scene_cache s).
    split; [destruct s; reflexivity|auto].
  - apply bind_Ok in Hrun. destruct Hrun as (lp1 & s1 & Hstep & Hrest).
    apply Hbody in Hstep. destruct Hstep as (sh & out' & Hsh & ->).
    apply IH in Hrest. destruct Hrest as (cache' & -> & Hfr).
    exists cache'. split.
    + unfold cleaned_shapes. rewrite (cleaned_by_cons _ _ a), Hsh. reflexivity.
    + intros x Hx. rewrite Hfr by exact Hx. simpl. apply lookup_insert_ne. auto.
Qed.

Lemma shapes_mesh_cleans scene mat_collector lp a lp' s s' :
  shapes_mesh scene mat_collector lp a s = Ok lp' s' ->
  exists sh out',
    st_shapes s !! a = Some sh /\
    s' = set_st_shapes (<[a := clean_shape sh]> (st_shapes s))
           (set_m_scene_cache (<[scene := out']> (m_scene_cache s)) s).
Proof.
  intros H. apply shapes_mesh_exact in H.
  destruct H as (sh & d & out & matidx & lp1 & out1 & out' & Hsh & _ & _ & _ & _ & _ & ->).
  eauto.
Qed.

Lemma shapes_excluded_cleans scene lp a lp' s s' :
  shapes_excluded scene lp a s = Ok lp' s' ->
  exists sh out',
    st_shapes s !! a = Some sh /\
    s' = set_st_shapes (<[a := clean_shape sh]> (st_shapes s))
           (set_m_scene_cache (<[scene := out']> (m_scene_cache s)) s).
Proof.
  intros H. apply shapes_excluded_exact in H.
  destruct H as (sh & d & out & lp1 & out1 & out' & Hsh & _ & _ & _ & _ & ->).
  eauto.
Qed.

Lemma shapes_instance_cleans scene mat_collector lp a lp' s s' :
  shapes_instance scene mat_collector lp a s = Ok lp' s' ->
  exists sh out',
    st_shapes s !! a = Some sh /\
    s' = set_st_shapes (<[a := clean_shape sh]> (st_shapes s))
           (set_m_scene_cache (<[scene := out']> (m_scene_cache s)) s).
Proof.
  intros H. apply shapes_instance_exact in H.
  destruct H as (sh & base & b & bd & out & matidx & lp1 & out1 & out' & Hsh & _ & _ & _
                 & _ & _ & _ & _ & ->).
  eauto.
Qed.

(** X16. A shapes pass that returns clears the dirty bit of every shape
    of the serialization order, the excluded base meshes that are not shapes
    of the scene included, and of no other shape; the shapes are otherwise
    as they were, and so are the materials, the textures, the lights, the
    cameras, the scenes, the default material, the current scene, the
    intersection API and the cached records of the other scenes. *)
Theorem UpdateShapes_cleans scene mat_collector tex_collector s s' sc p :
  UpdateShapes scene mat_collector tex_collector s = Ok tt s' ->
  st_scenes s !! scene = Some sc ->
  SplitMeshesAndInstances (st_shapes s) (scene_shapes sc) = Some p ->
  (forall a, st_shapes s' !! a =
             if decide (a ∈ partition_order p)
             then clean_shape <$> st_shapes s !! a
             else st_shapes s !! a) /\
  st_materials s' = st_materials s /\ st_textures s' = st_textures s /\
  st_lights s' = st_lights s /\ st_cameras s' = st_cameras s /\
  st_scenes s' = st_scenes s /\ m_default_material s' = m_default_material s /\
  m_current_scene s' = m_current_scene s /\ m_api s' = m_api s /\
  (forall x, x <> scene -> m_scene_cache s' !! x = m_scene_cache s !! x).
Proof.
  intros H Hsc Hp. apply UpdateShapes_loops in H.
  destruct H as (sc' & p' & out & sz0 & sz1 & sz & lp1 & s1 & lp2 & s2 & lp3 & s3
                 & Hsc' & Hp' & Hout & _ & _ & _ & Hm & He & Hi & ->).
  rewrite Hsc in Hsc'. injection Hsc' as <-.
  rewrite Hp in Hp'. injection Hp' as <-.
  apply (shapes_clean_loop scene _ (shapes_mesh_cleans scene mat_collector)) in Hm.
  destruct Hm as (c1 & -> & Hf1).
  apply (shapes_clean_loop scene _ (shapes_excluded_cleans scene)) in He.
  destruct He as (c2 & -> & Hf2).
  apply (shapes_clean_loop scene _ (shapes_instance_cleans scene mat_collector)) in Hi.
  destruct Hi as (c3 & -> & Hf3).
  simpl in *. split.
  { intros a. unfold cleaned_shapes, partition_order.
    rewrite <- !cleaned_by_app. apply cleaned_by_lookup. intros x. reflexivity. }
  do 8 (split; [reflexivity|]).
  intros x Hx. rewrite Hf3, Hf2, Hf1 by exact Hx. apply lookup_insert_ne. auto.
Qed.

Lemma UpdateShapes_cleans_witness :
  (forall a, st_shapes demo_serialized !! a =
             if decide (a ∈ partition_order demo_partition)
             then clean_shape <$> st_shapes demo_entered !! a
             else st_shapes demo_entered !! a) /\
  st_materials demo_serialized = st_materials demo_entered /\
  st_textures demo_serialized = st_textures demo_entered /\
  st_lights demo_serialized = st_lights demo_entered /\
  st_cameras demo_serialized = st_cameras demo_entered /\
  st_scenes demo_serialized = st_scenes demo_entered /\
  m_default_material demo_serialized = m_default_material demo_entered /\
  m_current_scene demo_serialized = m_current_scene demo_entered /\
  m_api demo_serialized = m_api demo_entered /\
  (forall x, x <> 100%N ->
     m_scene_cache demo_serialized !! x = m_scene_cache demo_entered !! x).
Proof.
  apply (UpdateShapes_cleans 100%N demo_materials demo_textures demo_entered
           demo_serialized demo_scene demo_partition);
    vm_compute; reflexivity.
Defined.

(** ** The textures pass *)

Lemma get_out_canonical scene out ops cache s :
  cache !! scene = Some out ->
  get_out scene (set_m_context ops (set_m_scene_cache cache s)) =
  Ok out (set_m_context ops (set_m_scene_cache cache s)).
Proof. intros H. unfold get_out. apply deref_run. exact H. Qed.

Lemma cache_canonical cache' ops cache s :
  set_m_scene_cache cache' (set_m_context ops (set_m_scene_cache cache s)) =
  set_m_context ops (set_m_scene_cache cache' s).
Proof. reflexivity. Qed.

Lemma write_next_texture_Ok scene n size tex st' s s' :
  write_next_texture scene (n, size) tex s = Ok st' s' ->
  exists t out data,
    st_textures s !! tex = Some t /\
    m_scene_cache s !! scene = Some out /\
    textures out !! n = Some data /\
    st' = (S n, (size + length (texture_data t))%nat) /\
    s' = set_m_scene_cache
           (<[scene := with_textures (<[n := texture_header t size]> (textures out)) out]>
              (m_scene_cache s)) s.
Proof.
  unfold write_next_texture. intros H.
  apply bind_Ok in H. destruct H as (t & s0 & Ht & H).
  apply deref_Ok in Ht. destruct Ht as [Ht ->].
  apply bind_Ok in H. destruct H as (out & s0 & Hout & H).
  apply get_out_Ok in Hout. destruct Hout as [Hout ->].
  apply bind_Ok in H. destruct H as (data & s0 & Hdata & H).
  apply defined_Ok in Hdata. destruct Hdata as [Hdata ->].
  apply bind_Ok in H. destruct H as (buf & s0 & Hbuf & H).
  apply defined_Ok in Hbuf. destruct Hbuf as [Hbuf ->].
  apply store_at_Some in Hbuf. destruct Hbuf as [_ ->].
  erewrite bind_run in H by (apply update_out_run; exact Hout).
  apply ret_Ok in H. destruct H as [-> ->].
  exists t, out, data. auto.
Qed.

Lemma texture_headers_loop scene :
  forall iter n size s st' s' out,
    foldM (write_next_texture scene) iter (n, size) s = Ok st' s' ->
    m_scene_cache s !! scene = Some out ->
    exists ts hs,
      mapM (fun a => st_textures s !! a) iter = Some ts /\
      st' = ((n + length iter)%nat,
             (size + length (concat (texture_data <$> ts)))%nat) /\
      s' = set_m_scene_cache (<[scene := with_textures hs out]> (m_scene_cache s)) s /\
      length hs = length (textures out) /\
      (forall j, (j < n)%nat -> hs !! j = textures out !! j) /\
      (forall k t, ts !! k = Some t ->
         hs !! (n + k)%nat =
         Some (texture_header t
                 (size + length (concat (texture_data <$> take k ts))))).
Proof.
  induction iter as [|tex rest IH]; intros n size s st' s' out Hrun Hout; simpl in Hrun.
  - apply ret_Ok in Hrun. destruct Hrun as [-> ->]. exists [], (textures out). simpl.
    rewrite !Nat.add_0_r. split; [reflexivity|]. split; [reflexivity|].
    split.
    { replace (with_textures (textures out) out) with out by (destruct out; reflexivity).
      rewrite insert_id by exact Hout. destruct s. reflexivity. }
    split; [reflexivity|]. split; [auto|].
    intros k t Hk. inversion Hk.
  - apply bind_Ok in Hrun. destruct Hrun as ([n1 size1] & s1 & Hstep & Hrest).
    apply write_next_texture_Ok in Hstep.
    destruct Hstep as (t & out0 & data & Ht & Hout0 & Hdata & Hst & ->).
    injection Hst as -> ->.
    rewrite Hout in Hout0. injection Hout0 as <-.
    pose proof (lookup_lt_Some _ _ _ Hdata) as Hlt.
    destruct (IH _ _ _ _ _ _ Hrest (lookup_insert_eq _ _ _))
      as (ts & hs & Hts & Hst' & Hs' & Hlen & Hbefore & Hrec).
    subst st' s'. simpl in *. rewrite length_insert in Hlen.
    exists (t :: ts), hs. rewrite Ht, Hts. simpl.
    split; [reflexivity|].
    split; [rewrite length_app; f_equal; [lia|rewrite <- Nat.add_assoc; reflexivity]|].
    split; [rewrite insert_insert_eq; reflexivity|].
    split; [exact Hlen|].
    split.
    { intros j Hj. rewrite Hbefore by lia. apply list_lookup_insert_ne. lia. }
    intros [|k] t' Hk; simpl in Hk.
    + injection Hk as <-. rewrite Nat.add_0_r, Hbefore by lia.
      rewrite list_lookup_insert_eq by exact Hlt. simpl. rewrite Nat.add_0_r. reflexivity.
    + replace (n + S k)%nat with (S (n + k))%nat by lia.
      rewrite (Hrec k t' Hk). rewrite firstn_cons, fmap_cons. cbn [concat].
      rewrite length_app, Nat.add_assoc. reflexivity.
Qed.

Lemma write_next_texture_data_Ok scene n tex n' s s' :
  write_next_texture_data scene n tex s = Ok n' s' ->
  exists t out buf,
    st_textures s !! tex = Some t /\
    m_scene_cache s !! scene = Some out /\
    copy_to n (texture_data t) (texturedata out) = Some buf /\
    n' = (n + length (texture_data t))%nat /\
    s' = set_m_scene_cache (<[scene := with_texturedata buf out]> (m_scene_cache s)) s.
Proof.
  unfold write_next_texture_data. intros H.
  apply bind_Ok in H. destruct H as (t & s0 & Ht & H).
  apply deref_Ok in Ht. destruct Ht as [Ht ->].
  apply bind_Ok in H. destruct H as (out & s0 & Hout & H).
  apply get_out_Ok in Hout. destruct Hout as [Hout ->].
  apply bind_Ok in H. destruct H as (buf & s0 & Hbuf & H).
  apply defined_Ok in Hbuf. destruct Hbuf as [Hbuf ->].
  erewrite bind_run in H by (apply update_out_run; exact Hout).
  apply ret_Ok in H. destruct H as [-> ->].
  exists t, out, buf. auto.
Qed.

Lemma texture_data_loop scene :
  forall iter n s n' s' out w r,
    foldM (write_next_texture_data scene) iter n s = Ok n' s' ->
    m_scene_cache s !! scene = Some out ->
    texturedata out = w ++ r -> n = length w ->
    exists ts,
      mapM (fun a => st_textures s !! a) iter = Some ts /\
      (length (concat (texture_data <$> ts)) <= length r)%nat /\
      s' = set_m_scene_cache
             (<[scene := with_texturedata
                           ((w ++ concat (texture_data <$> ts))
                            ++ drop (length (concat (texture_data <$> ts))) r) out]>
                (m_scene_cache s)) s.
Proof.
  induction iter as [|tex rest IH]; intros n s n' s' out w r Hrun Hout Hbuf Hn;
    simpl in Hrun.
  - apply ret_Ok in Hrun. destruct Hrun as [-> ->]. exists [].
    split; [reflexivity|]. split; [simpl; lia|].
    assert (E : (w ++ concat (texture_data <$> []))
                ++ drop (length (concat (texture_data <$> []))) r = texturedata out)
      by (simpl; rewrite app_nil_r; symmetry; exact Hbuf).
    rewrite E.
    replace (with_texturedata (texturedata out) out) with out by (destruct out; reflexivity).
    rewrite insert_id by exact Hout. destruct s. reflexivity.
  - apply bind_Ok in Hrun. destruct Hrun as (n1 & s1 & Hstep & Hrest).
    apply write_next_texture_data_Ok in Hstep.
    destruct Hstep as (t & out0 & buf & Ht & Hout0 & Hcopy & -> & ->).
    rewrite Hout in Hout0. injection Hout0 as <-.
    rewrite Hbuf, Hn in Hcopy. apply copy_to_append in Hcopy.
    destruct Hcopy as [Hbuf1 Hle].
    destruct (IH _ _ _ _ (with_texturedata buf out) (w ++ texture_data t)
                (drop (length (texture_data t)) r) Hrest (lookup_insert_eq _ _ _) Hbuf1)
      as (ts & Hts & Hle' & Hs'); [rewrite length_app; lia|].
    subst s'. simpl in *. rewrite length_drop in Hle'.
    exists (t :: ts). rewrite Ht, Hts. simpl.
    split; [reflexivity|]. split; [rewrite length_app; unfold fmap in *; lia|].
    rewrite insert_insert_eq, length_app, drop_drop, <- !app_assoc. reflexivity.
Qed.

Lemma cache_insert_canonical scene o ops cache s :
  set_m_scene_cache
    (<[scene := o]> (m_scene_cache (set_m_context ops (set_m_scene_cache cache s))))
    (set_m_context ops (set_m_scene_cache cache s)) =
  set_m_context ops (set_m_scene_cache (<[scene := o]> cache) s).
Proof. reflexivity. Qed.

(** A buffer is created anew only when the one at hand is too small. *)
Lemma grow_buffer_canonical scene (len n : nat) b (f : ClwSceneData -> ClwSceneData)
    out ops cache s :
  cache !! scene = Some out ->
  (if decide (len < n)%nat
   then device (CreateBuffer b n);; update_out scene f
   else mret tt) (set_m_context ops (set_m_scene_cache cache s)) =
  Ok tt (set_m_context (ops ++ if decide (len < n)%nat then [CreateBuffer b n] else [])
           (set_m_scene_cache
              (<[scene := if decide (len < n)%nat then f out else out]> cache) s)).
Proof.
  intros Hout. destruct (decide (len < n)%nat).
  - erewrite bind_run by apply device_canonical.
    apply update_out_canonical. exact Hout.
  - rewrite app_nil_r, insert_id by exact Hout. reflexivity.
Qed.

(** The state a textures pass over a collector that is not empty ends in. *)
Lemma UpdateTextures_state scene mat_collector tex_collector u s s' out :
  UpdateTextures scene mat_collector tex_collector s = Ok u s' ->
  Collector.GetNumItems tex_collector <> O ->
  m_scene_cache s !! scene = Some out ->
  exists ts hs,
    let n := Collector.GetNumItems tex_collector in
    let total := length (concat (texture_data <$> ts)) in
    let data0 := if decide (length (texturedata out) < total)%nat
                 then fresh_buffer total else texturedata out in
    mapM (fun a => st_textures s !! a) (Collector.items tex_collector) = Some ts /\
    s' = set_m_context
           (m_context s ++
            textures_pass_ops (length (textures out)) n (length (texturedata out)) total)
           (set_m_scene_cache
              (<[scene := with_texturedata
                            (concat (texture_data <$> ts) ++ drop total data0)
                            (with_textures hs
                               (with_texture_bundle
                                  (Some (Collector.CreateBundle tex_collector)) out))]>
                 (m_scene_cache s)) s) /\
    length hs = (length (textures out) `max` n)%nat /\
    (forall k t, ts !! k = Some t ->
       hs !! k =
       Some (texture_header t (length (concat (texture_data <$> take k ts))))).
Proof.
  intros H Hn Hout. unfold UpdateTextures in H.
  destruct (Collector.GetNumItems tex_collector) as [|n'] eqn:Hnum; [contradiction|].
  rewrite <- Hnum in *. clear Hnum n'.
  set (n := Collector.GetNumItems tex_collector) in *.
  rewrite (canonical_state s) in H.
  erewrite bind_run in H by (apply get_out_canonical; exact Hout).
  erewrite bind_run in H
    by (apply (grow_buffer_canonical scene (length (textures out)) n); exact Hout).
  erewrite bind_run in H by apply device_canonical.
  erewrite bind_run in H by (apply update_out_canonical; apply lookup_insert_eq).
  apply bind_Ok in H. destruct H as ([n1 total] & s1 & Hloop & H).
  apply texture_headers_loop
    with (out := with_texture_bundle (Some (Collector.CreateBundle tex_collector))
                   (if decide (length (textures out) < n)%nat
                    then with_textures (fresh_buffer n) out else out)) in Hloop;
    [|apply lookup_insert_eq].
  destruct Hloop as (ts & hs & Hts & Hst & -> & Hlen & _ & Hrec).
  injection Hst as -> ->. simpl in Hts.
  rewrite cache_insert_canonical in H.
  erewrite bind_run in H by apply device_canonical.
  erewrite bind_run in H by (apply get_out_canonical; apply lookup_insert_eq).
  cbn [snd] in H.
  erewrite bind_run in H
    by (apply (grow_buffer_canonical scene); apply lookup_insert_eq).
  erewrite bind_run in H by apply device_canonical.
  apply bind_Ok in H. destruct H as (nb & s2 & Hdata & H).
  match type of Hdata with
  | foldM _ _ _ (set_m_context _ (set_m_scene_cache (<[_ := ?o]> _) _)) = _ =>
      apply texture_data_loop with (out := o) (w := []) (r := texturedata o) in Hdata;
        [|apply lookup_insert_eq|reflexivity|reflexivity]
  end.
  destruct Hdata as (ts' & Hts' & Hle & ->).
  simpl in Hts'. rewrite Hts in Hts'. injection Hts' as <-.
  rewrite cache_insert_canonical in H.
  rewrite device_canonical in H. injection H as _ <-.
  exists ts, hs. cbv zeta. split; [exact Hts|].
  split.
  { clear Hle Hrec Hlen. unfold textures_pass_ops.
    destruct (decide (length (textures out) < n)%nat);
      repeat match goal with
      | |- context [texturedata (with_textures ?h ?o)] =>
          change (texturedata (with_textures h o)) with (texturedata o)
      | |- context [texturedata (with_texture_bundle ?b ?o)] =>
          change (texturedata (with_texture_bundle b o)) with (texturedata o)
      end;
      destruct (decide (length (texturedata out)
                        < length (concat (texture_data <$> ts)))%nat);
      (apply State_ext; simpl; try reflexivity;
       [rewrite !insert_insert_eq; reflexivity|rewrite <- !app_assoc; reflexivity]). }
  split.
  { rewrite Hlen. simpl.
    destruct (decide (length (textures out) < n)%nat); simpl.
    - rewrite fresh_buffer_length. lia.
    - lia. }
  intros k t Hk. exact (Hrec k t Hk).
Qed.

(** X17. A textures pass over a collector that is not empty records
    the bundle of the collector; the two texture buffers never shrink
    (each has the larger of its old length and the needed one); the k-th
    header describes the
    k-th collected texture (width, height, format) and its [dataoffset] is
    a byte offset at which the data buffer holds the payload of this
    texture. *)
Theorem UpdateTextures_layout scene mat_collector tex_collector s s' out :
  UpdateTextures scene mat_collector tex_collector s = Ok tt s' ->
  Collector.GetNumItems tex_collector <> O ->
  m_scene_cache s !! scene = Some out ->
  exists out' ts,
    m_scene_cache s' !! scene = Some out' /\
    mapM (fun a => st_textures s !! a) (Collector.items tex_collector) = Some ts /\
    texture_bundle out' = Some (Collector.CreateBundle tex_collector) /\
    length (textures out') =
      (length (textures out) `max` Collector.GetNumItems tex_collector)%nat /\
    length (texturedata out') =
      (length (texturedata out) `max` length (concat (texture_data <$> ts)))%nat /\
    (forall k t, ts !! k = Some t ->
       exists off : nat,
         textures out' !! k = Some (texture_header t off) /\
         take (length (texture_data t)) (drop off (texturedata out')) = texture_data t).
Proof.
  intros H Hn Hout.
  destruct (UpdateTextures_state _ _ _ _ _ _ _ H Hn Hout)
    as (ts & hs & Hts & -> & Hlen & Hrec).
  eexists. exists ts. split; [apply lookup_insert_eq|]. simpl.
  split; [exact Hts|]. split; [reflexivity|]. split; [exact Hlen|].
  split.
  { rewrite length_app, length_drop.
    destruct (decide (length (texturedata out)
                      < length (concat (texture_data <$> ts)))%nat).
    - rewrite fresh_buffer_length. lia.
    - lia. }
  intros k t Hk. exists (length (concat (texture_data <$> take k ts))).
  split; [exact (Hrec k t Hk)|].
  rewrite fmap_take. apply (concat_segment (texture_data <$> ts) k (texture_data t)).
  rewrite list_lookup_fmap, Hk. reflexivity.
Qed.

Lemma UpdateTextures_layout_witness :
  exists out' ts,
    m_scene_cache demo_textured !! 100%N = Some out' /\
    mapM (fun a => st_textures demo_entered !! a) (Collector.items demo_textures)
      = Some ts /\
    texture_bundle out' = Some (Collector.CreateBundle demo_textures) /\
    length (textures out') =
      (length (textures ClwScene_new) `max` Collector.GetNumItems demo_textures)%nat /\
    length (texturedata out') =
      (length (texturedata ClwScene_new)
         `max` length (concat (texture_data <$> ts)))%nat /\
    (forall k t, ts !! k = Some t ->
       exists off : nat,
         textures out' !! k = Some (texture_header t off) /\
         take (length (texture_data t)) (drop off (texturedata out')) = texture_data t).
Proof.
  apply (UpdateTextures_layout 100%N demo_materials demo_textures demo_entered
           demo_textured ClwScene_new).
  - vm_compute. reflexivity.
  - vm_compute. lia.
  - vm_compute. reflexivity.
Defined.

(** [UpdateTextures] over an empty collector. *)
Lemma UpdateTextures_empty_run scene mat_collector tex_collector s out :
  Collector.GetNumItems tex_collector = O ->
  m_scene_cache s !! scene = Some out ->
  UpdateTextures scene mat_collector tex_collector s =
  Ok tt (set_m_context
           (m_context s ++ [CreateBuffer BufTextures 1; CreateBuffer BufTextureData 1])
           (set_m_scene_cache
              (<[scene := with_texturedata (fresh_buffer 1)
                            (with_textures (fresh_buffer 1) out)]>
                 (m_scene_cache s)) s)).
Proof.
  intros Hn Hout. unfold UpdateTextures. rewrite Hn.
  rewrite (canonical_state s) at 1.
  erewrite bind_run by apply device_canonical.
  erewrite bind_run by (apply update_out_canonical; exact Hout).
  erewrite bind_run by apply device_canonical.
  erewrite update_out_canonical by apply lookup_insert_eq.
  f_equal. apply State_ext; simpl; try reflexivity.
  - rewrite insert_insert_eq. reflexivity.
  - rewrite <- app_assoc. reflexivity.
Qed.

(** X18. With an empty texture collector [UpdateTextures] returns on a
    cached scene: it replaces the two texture buffers by placeholder buffers
    of one element each, created on the device, maps nothing, and leaves
    the recorded texture bundle and the rest of the state as they were. *)
Theorem UpdateTextures_no_textures scene mat_collector tex_collector s out :
  Collector.GetNumItems tex_collector = O ->
  m_scene_cache s !! scene = Some out ->
  UpdateTextures scene mat_collector tex_collector s =
  Ok tt (set_m_context
           (m_context s ++ [CreateBuffer BufTextures 1; CreateBuffer BufTextureData 1])
           (set_m_scene_cache
              (<[scene := with_texturedata (fresh_buffer 1)
                            (with_textures (fresh_buffer 1) out)]>
                 (m_scene_cache s)) s)).
Proof. apply UpdateTextures_empty_run. Qed.

Lemma UpdateTextures_no_textures_witness :
  UpdateTextures 100%N demo_materials no_items demo_entered =
  Ok tt (set_m_context
           (m_context demo_entered
            ++ [CreateBuffer BufTextures 1; CreateBuffer BufTextureData 1])
           (set_m_scene_cache
              (<[100%N := with_texturedata (fresh_buffer 1)
                            (with_textures (fresh_buffer 1) ClwScene_new)]>
                 (m_scene_cache demo_entered)) demo_entered)).
Proof.
  apply (UpdateTextures_no_textures 100%N demo_materials no_items demo_entered
           ClwScene_new); vm_compute; reflexivity.
Defined.

(** X19. A textures pass that returns changes nothing of the scene
    graph, the textures and their dirty bits included, nor the API, the
    current scene or the cached records of other scenes; of the cached
    record of the scene only [textures], [texturedata] and [texture_bundle]
    change. *)
Theorem UpdateTextures_frame scene mat_collector tex_collector s s' out :
  UpdateTextures scene mat_collector tex_collector s = Ok tt s' ->
  m_scene_cache s !! scene = Some out ->
  st_shapes s' = st_shapes s /\ st_materials s' = st_materials s /\
  st_textures s' = st_textures s /\ st_lights s' = st_lights s /\
  st_cameras s' = st_cameras s /\ st_scenes s' = st_scenes s /\
  m_default_material s' = m_default_material s /\
  m_current_scene s' = m_current_scene s /\ m_api s' = m_api s /\
  (forall x, x <> scene -> m_scene_cache s' !! x = m_scene_cache s !! x) /\
  exists out',
    m_scene_cache s' !! scene = Some out' /\
    with_texture_bundle (texture_bundle out)
      (with_texturedata (texturedata out) (with_textures (textures out) out')) = out.
Proof.
  intros H Hout.
  destruct (decide (Collector.GetNumItems tex_collector = O)) as [Hn|Hn].
  - rewrite (UpdateTextures_empty_run _ _ _ _ _ Hn Hout) in H. injection H as <-.
    simpl. do 9 (split; [reflexivity|]).
    split; [intros x Hx; apply lookup_insert_ne; auto|].
    eexists. split; [apply lookup_insert_eq|]. destruct out; reflexivity.
  - destruct (UpdateTextures_state _ _ _ _ _ _ _ H Hn Hout)
      as (ts & hs & _ & -> & _ & _).
    simpl. do 9 (split; [reflexivity|]).
    split; [intros x Hx; apply lookup_insert_ne; auto|].
    eexists. split; [apply lookup_insert_eq|]. destruct out; reflexivity.
Qed.

Lemma UpdateTextures_frame_witness :
  st_shapes demo_textured = st_shapes demo_entered /\
  st_materials demo_textured = st_materials demo_entered /\
  st_textures demo_textured = st_textures demo_entered /\
  st_lights demo_textured = st_lights demo_entered /\
  st_cameras demo_textured = st_cameras demo_entered /\
  st_scenes demo_textured = st_scenes demo_entered /\
  m_default_material demo_textured = m_default_material demo_entered /\
  m_current_scene demo_textured = m_current_scene demo_entered /\
  m_api demo_textured = m_api demo_entered /\
  (forall x, x <> 100%N ->
     m_scene_cache demo_textured !! x = m_scene_cache demo_entered !! x) /\
  exists out',
    m_scene_cache demo_textured !! 100%N = Some out' /\
    with_texture_bundle (texture_bundle ClwScene_new)
      (with_texturedata (texturedata ClwScene_new)
         (with_textures (textures ClwScene_new) out')) = ClwScene_new.
Proof.
  apply (UpdateTextures_frame 100%N demo_materials demo_textures demo_entered
           demo_textured ClwScene_new); vm_compute; reflexivity.
Defined.

(** ** The materials pass *)

Lemma write_next_material_Ok scene mat_collector tex_collector n a n' s s' :
  write_next_material scene mat_collector tex_collector n a s = Ok n' s' ->
  exists out data m rec,
    m_scene_cache s !! scene = Some out /\
    materials out !! n = Some data /\
    st_materials s !! a = Some m /\
    write_material_record m mat_collector tex_collector data = Some rec /\
    n' = S n /\
    s' = set_st_materials (<[a := clean_material m]> (st_materials s))
           (set_m_scene_cache
              (<[scene := with_materials (<[n := rec]> (materials out)) out]>
                 (m_scene_cache s)) s).
Proof.
  unfold write_next_material. intros H.
  apply bind_Ok in H. destruct H as (out & s0 & Hout & H).
  apply get_out_Ok in Hout. destruct Hout as [Hout ->].
  apply bind_Ok in H. destruct H as (data & s0 & Hdata & H).
  apply defined_Ok in Hdata. destruct Hdata as [Hdata ->].
  apply bind_Ok in H. destruct H as (rec & s1 & Hw & H).
  apply WriteMaterial_Ok in Hw. destruct Hw as (m & Hm & Hrec & ->).
  erewrite bind_run in H by (apply update_out_run; exact Hout).
  apply ret_Ok in H. destruct H as [-> ->].
  exists out, data, m, rec. auto 10.
Qed.

Lemma materials_written_loop scene mat_collector tex_collector :
  forall iter n s n' s' out,
    foldM (write_next_material scene mat_collector tex_collector) iter n s = Ok n' s' ->
    m_scene_cache s !! scene = Some out ->
    exists ms,
      s' = set_st_materials (cleaned_materials (st_materials s) iter)
             (set_m_scene_cache
                (<[scene := with_materials ms out]> (m_scene_cache s)) s) /\
      length ms = length (materials out) /\
      (forall j, (j < n)%nat -> ms !! j = materials out !! j) /\
      (forall k a, iter !! k = Some a ->
         exists m data rec,
           st_materials s !! a = Some m /\
           materials out !! (n + k)%nat = Some data /\
           write_material_record m mat_collector tex_collector data = Some rec /\
           ms !! (n + k)%nat = Some rec).
Proof.
  induction iter as [|a rest IH]; intros n s n' s' out Hrun Hout; simpl in Hrun.
  - apply ret_Ok in Hrun. destruct Hrun as [-> ->]. exists (materials out).
    split.
    { replace (with_materials (materials out) out) with out by (destruct out; reflexivity).
      rewrite insert_id by exact Hout. destruct s. reflexivity. }
    split; [reflexivity|]. split; [auto|]. intros k a Hk. inversion Hk.
  - apply bind_Ok in Hrun. destruct Hrun as (n1 & s1 & Hstep & Hrest).
    apply write_next_material_Ok in Hstep.
    destruct Hstep as (out0 & data & m & rec & Hout0 & Hdata & Hm & Hrec & -> & ->).
    rewrite Hout in Hout0. injection Hout0 as <-.
    pose proof (lookup_lt_Some _ _ _ Hdata) as Hlt.
    destruct (IH _ _ _ _ _ Hrest (lookup_insert_eq _ _ _))
      as (ms & Hs' & Hlen & Hbefore & Hrecs).
    subst s'. simpl in *. rewrite length_insert in Hlen.
    exists ms. split.
    { unfold cleaned_materials. rewrite (cleaned_by_cons _ _ a), Hm.
      rewrite insert_insert_eq. reflexivity. }
    split; [exact Hlen|].
    split.
    { intros j Hj. rewrite Hbefore by lia. apply list_lookup_insert_ne. lia. }
    intros [|k] b Hk; simpl in Hk.
    + injection Hk as <-. exists m, data, rec. rewrite Nat.add_0_r.
      split; [exact Hm|]. split; [exact Hdata|]. split; [exact Hrec|].
      rewrite Hbefore by lia. apply list_lookup_insert_eq. exact Hlt.
    + destruct (Hrecs k b Hk) as (m' & data' & rec' & Hm' & Hd' & Hr' & Hms).
      replace (n + S k)%nat with (S (n + k))%nat by lia.
      rewrite list_lookup_insert_ne in Hd' by lia.
      destruct (decide (a = b)) as [->|Hne].
      * rewrite lookup_insert_eq in Hm'. injection Hm' as <-.
        exists m, data', rec'. auto.
      * rewrite lookup_insert_ne in Hm' by exact Hne.
        exists m', data', rec'. auto.
Qed.

(** The state a materials pass ends in. *)
Lemma UpdateMaterials_state scene mat_collector tex_collector u s s' out :
  UpdateMaterials scene mat_collector tex_collector s = Ok u s' ->
  m_scene_cache s !! scene = Some out ->
  exists ms,
    let n := Collector.GetNumItems mat_collector in
    let before := if decide (length (materials out) < n)%nat
                  then fresh_buffer n else materials out in
    s' = set_m_context
           (m_context s ++
            (if decide (length (materials out) < n)%nat
             then [CreateBuffer BufMaterials n] else []) ++
            [MapBuffer BufMaterials; UnmapBuffer BufMaterials])
           (set_st_materials
              (cleaned_materials (st_materials s) (Collector.items mat_collector))
              (set_m_scene_cache
                 (<[scene := with_materials ms
                               (with_material_bundle
                                  (Some (Collector.CreateBundle mat_collector)) out)]>
                    (m_scene_cache s)) s)) /\
    length ms = (length (materials out) `max` n)%nat /\
    (forall k a, Collector.items mat_collector !! k = Some a ->
       exists m data rec,
         st_materials s !! a = Some m /\
         before !! k = Some data /\
         write_material_record m mat_collector tex_collector data = Some rec /\
         ms !! k = Some rec).
Proof.
  intros H Hout. unfold UpdateMaterials in H.
  set (n := Collector.GetNumItems mat_collector) in *.
  rewrite (canonical_state s) in H.
  erewrite bind_run in H by (apply get_out_canonical; exact Hout).
  erewrite bind_run in H
    by (apply (grow_buffer_canonical scene (length (materials out)) n); exact Hout).
  erewrite bind_run in H by apply device_canonical.
  erewrite bind_run in H by (apply update_out_canonical; apply lookup_insert_eq).
  apply bind_Ok in H. destruct H as (n1 & s1 & Hloop & H).
  apply materials_written_loop
    with (out := with_material_bundle (Some (Collector.CreateBundle mat_collector))
                   (if decide (length (materials out) < n)%nat
                    then with_materials (fresh_buffer n) out else out)) in Hloop;
    [|apply lookup_insert_eq].
  destruct Hloop as (ms & -> & Hlen & _ & Hrecs).
  apply modify_Ok in H. subst s'.
  exists ms. cbv zeta. split.
  { clear Hrecs Hlen.
    destruct (decide (length (materials out) < n)%nat);
      (apply State_ext; simpl; try reflexivity;
       [rewrite !insert_insert_eq; reflexivity|rewrite <- !app_assoc; reflexivity]). }
  split.
  { rewrite Hlen. simpl.
    destruct (decide (length (materials out) < n)%nat); simpl.
    - rewrite fresh_buffer_length. lia.
    - lia. }
  intros k a Hk. destruct (Hrecs k a Hk) as (m & data & rec & Hm & Hd & Hr & Hms).
  exists m, data, rec. split; [exact Hm|]. split; [|auto].
  simpl in Hd. destruct (decide (length (materials out) < n)%nat); exact Hd.
Qed.

(** X20. A materials pass that returns records the bundle of the
    material collector, never shrinks the materials buffer, and leaves at
    slot k the record the material writer computes for the k-th collected
    material, starting from the previous content of the slot, or from the
    content of a new buffer when the buffer was too small and has been
    created anew. *)
Theorem UpdateMaterials_records scene mat_collector tex_collector s s' out :
  UpdateMaterials scene mat_collector tex_collector s = Ok tt s' ->
  m_scene_cache s !! scene = Some out ->
  exists out',
    m_scene_cache s' !! scene = Some out' /\
    material_bundle out' = Some (Collector.CreateBundle mat_collector) /\
    length (materials out') =
      (length (materials out) `max` Collector.GetNumItems mat_collector)%nat /\
    (forall k a, Collector.items mat_collector !! k = Some a ->
       exists m data rec,
         st_materials s !! a = Some m /\
         (if decide (length (materials out) < Collector.GetNumItems mat_collector)%nat
          then data = filler else materials out !! k = Some data) /\
         write_material_record m mat_collector tex_collector data = Some rec /\
         materials out' !! k = Some rec).
Proof.
  intros H Hout.
  destruct (UpdateMaterials_state _ _ _ _ _ _ _ H Hout) as (ms & -> & Hlen & Hrecs).
  eexists. split; [apply lookup_insert_eq|]. simpl.
  split; [reflexivity|]. split; [exact Hlen|].
  intros k a Hk. destruct (Hrecs k a Hk) as (m & data & rec & Hm & Hd & Hr & Hms).
  exists m, data, rec. split; [exact Hm|]. split; [|auto].
  destruct (decide (length (materials out) < Collector.GetNumItems mat_collector)%nat);
    [|exact Hd].
  apply lookup_replicate in Hd. destruct Hd as [-> _]. reflexivity.
Qed.

Lemma UpdateMaterials_records_witness :
  exists out',
    m_scene_cache demo_shaded !! 100%N = Some out' /\
    material_bundle out' = Some (Collector.CreateBundle demo_materials) /\
    length (materials out') =
      (length (materials ClwScene_new) `max` Collector.GetNumItems demo_materials)%nat /\
    (forall k a, Collector.items demo_materials !! k = Some a ->
       exists m data rec,
         st_materials demo_entered !! a = Some m /\
         (if decide (length (materials ClwScene_new)
                     < Collector.GetNumItems demo_materials)%nat
          then data = filler else materials ClwScene_new !! k = Some data) /\
         write_material_record m demo_materials demo_textures data = Some rec /\
         materials out' !! k = Some rec).
Proof.
  apply (UpdateMaterials_records 100%N demo_materials demo_textures demo_entered
           demo_shaded ClwScene_new); vm_compute; reflexivity.
Defined.

(** X21. A materials pass that returns clears the dirty bit of the
    collected materials and of no other material; shapes, textures, lights,
    cameras, scenes, the default material, the current scene, the API and
    the cached records of other scenes are as they were; of the cached
    record only [materials] and [material_bundle] change; and the device
    operations of the call are the creation of the buffer when it was too
    small, one map and one unmap. *)
Theorem UpdateMaterials_cleans scene mat_collector tex_collector s s' out :
  UpdateMaterials scene mat_collector tex_collector s = Ok tt s' ->
  m_scene_cache s !! scene = Some out ->
  (forall a, st_materials s' !! a =
             if decide (a ∈ Collector.items mat_collector)
             then clean_material <$> st_materials s !! a
             else st_materials s !! a) /\
  st_shapes s' = st_shapes s /\ st_textures s' = st_textures s /\
  st_lights s' = st_lights s /\ st_cameras s' = st_cameras s /\
  st_scenes s' = st_scenes s /\ m_default_material s' = m_default_material s /\
  m_current_scene s' = m_current_scene s /\ m_api s' = m_api s /\
  (forall x, x <> scene -> m_scene_cache s' !! x = m_scene_cache s !! x) /\
  (exists out',
     m_scene_cache s' !! scene = Some out' /\
     with_material_bundle (material_bundle out) (with_materials (materials out) out')
       = out) /\
  m_context s' =
    m_context s ++
    (if decide (length (materials out) < Collector.GetNumItems mat_collector)%nat
     then [CreateBuffer BufMaterials (Collector.GetNumItems mat_collector)] else []) ++
    [MapBuffer BufMaterials; UnmapBuffer BufMaterials].
Proof.
  intros H Hout.
  destruct (UpdateMaterials_state _ _ _ _ _ _ _ H Hout) as (ms & -> & _ & _).
  simpl. split.
  { intros a. apply cleaned_by_lookup. intros x. reflexivity. }
  do 8 (split; [reflexivity|]).
  split; [intros x Hx; apply lookup_insert_ne; auto|].
  split; [|reflexivity].
  eexists. split; [apply lookup_insert_eq|]. destruct out; reflexivity.
Qed.

Lemma UpdateMaterials_cleans_witness :
  (forall a, st_materials demo_shaded !! a =
             if decide (a ∈ Collector.items demo_materials)
             then clean_material <$> st_materials demo_entered !! a
             else st_materials demo_entered !! a) /\
  st_shapes demo_shaded = st_shapes demo_entered /\
  st_textures demo_shaded = st_textures demo_entered /\
  st_lights demo_shaded = st_lights demo_entered /\
  st_cameras demo_shaded = st_cameras demo_entered /\
  st_scenes demo_shaded = st_scenes demo_entered /\
  m_default_material demo_shaded = m_default_material demo_entered /\
  m_current_scene demo_shaded = m_current_scene demo_entered /\
  m_api demo_shaded = m_api demo_entered /\
  (forall x, x <> 100%N ->
     m_scene_cache demo_shaded !! x = m_scene_cache demo_entered !! x) /\
  (exists out',
     m_scene_cache demo_shaded !! 100%N = Some out' /\
     with_material_bundle (material_bundle ClwScene_new)
       (with_materials (materials ClwScene_new) out') = ClwScene_new) /\
  m_context demo_shaded =
    m_context demo_entered ++
    (if decide (length (materials ClwScene_new)
                < Collector.GetNumItems demo_materials)%nat
     then [CreateBuffer BufMaterials (Collector.GetNumItems demo_materials)] else []) ++
    [MapBuffer BufMaterials; UnmapBuffer BufMaterials].
Proof.
  apply (UpdateMaterials_cleans 100%N demo_materials demo_textures demo_entered
           demo_shaded ClwScene_new); vm_compute; reflexivity.
Defined.

(** ** A pass clears dirty bits and sets none *)

Lemma cleaner_refl {A} (clean : A -> A) h : cleaner clean h h.
Proof. intros a. left. reflexivity. Qed.

Lemma cleaner_trans {A} (clean : A -> A) h1 h2 h3 :
  (forall x, clean (clean x) = clean x) ->
  cleaner clean h1 h2 -> cleaner clean h2 h3 -> cleaner clean h1 h3.
Proof.
  intros Hidem H12 H23 a. destruct (H12 a) as [E1|E1], (H23 a) as [E2|E2];
    rewrite E2, E1; auto.
  right. destruct (h1 !! a); simpl; [rewrite Hidem|]; reflexivity.
Qed.

Lemma cleaner_insert {A} (clean : A -> A) h a x :
  h !! a = Some x -> cleaner clean h (<[a := clean x]> h).
Proof.
  intros Hx b. destruct (decide (a = b)) as [<-|Hne].
  - right. rewrite lookup_insert_eq, Hx. reflexivity.
  - left. apply lookup_insert_ne. exact Hne.
Qed.

Lemma cleaner_cleaned {A} (clean : A -> A) h iter :
  (forall x, clean (clean x) = clean x) -> cleaner clean h (cleaned_by clean h iter).
Proof.
  intros Hidem a. rewrite (cleaned_by_lookup clean iter Hidem).
  destruct (decide (a ∈ iter)); auto.
Qed.

Lemma only_cleans_refl s : only_cleans s s.
Proof. repeat split; apply cleaner_refl. Qed.

Lemma only_cleans_trans s1 s2 s3 :
  only_cleans s1 s2 -> only_cleans s2 s3 -> only_cleans s1 s3.
Proof.
  intros (A1 & B1 & C1 & D1 & E1 & F1 & G1) (A2 & B2 & C2 & D2 & E2 & F2 & G2).
  split; [eapply cleaner_trans; [|eassumption..]; intros x; reflexivity|].
  split; [eapply cleaner_trans; [|eassumption..]; intros x; reflexivity|].
  split; [eapply cleaner_trans; [|eassumption..]; intros x; reflexivity|].
  split; [eapply cleaner_trans; [|eassumption..]; intros x; reflexivity|].
  split; [congruence|]. split; congruence.
Qed.

Lemma only_cleans_stores s s' :
  st_shapes s' = st_shapes s -> st_materials s' = st_materials s ->
  st_lights s' = st_lights s -> st_cameras s' = st_cameras s ->
  st_textures s' = st_textures s -> st_scenes s' = st_scenes s ->
  m_default_material s' = m_default_material s ->
  only_cleans s s'.
Proof.
  intros H1 H2 H3 H4 H5 H6 H7. unfold only_cleans. rewrite H1, H2, H3, H4.
  repeat split; try assumption; apply cleaner_refl.
Qed.

Lemma Shape_SetDirty_cleans a : preserves only_cleans (Shape_SetDirty a false).
Proof.
  intros s u s' H. apply Shape_SetDirty_Ok in H. destruct H as (sh & Hsh & ->).
  split; [apply cleaner_insert; exact Hsh|].
  repeat split; apply cleaner_refl.
Qed.

Lemma Material_SetDirty_cleans a : preserves only_cleans (Material_SetDirty a false).
Proof.
  intros s u s' H. unfold Material_SetDirty in H.
  apply bind_Ok in H. destruct H as (m & s0 & Hm & H).
  apply deref_Ok in Hm. destruct Hm as [Hm ->].
  apply modify_Ok in H. subst s'.
  split; [apply cleaner_refl|].
  split; [exact (cleaner_insert clean_material _ _ _ Hm)|].
  repeat split; apply cleaner_refl.
Qed.

Lemma Light_SetDirty_cleans a : preserves only_cleans (Light_SetDirty a false).
Proof.
  intros s u s' H. unfold Light_SetDirty in H.
  apply bind_Ok in H. destruct H as (l & s0 & Hl & H).
  apply deref_Ok in Hl. destruct Hl as [Hl ->].
  apply modify_Ok in H. subst s'.
  split; [apply cleaner_refl|]. split; [apply cleaner_refl|].
  split; [exact (cleaner_insert clean_light _ _ _ Hl)|].
  repeat split; apply cleaner_refl.
Qed.

Lemma Camera_SetDirty_cleans a : preserves only_cleans (Camera_SetDirty a false).
Proof.
  intros s u s' H. unfold Camera_SetDirty in H.
  apply bind_Ok in H. destruct H as (c & s0 & Hc & H).
  apply deref_Ok in Hc. destruct Hc as [Hc ->].
  apply modify_Ok in H. subst s'.
  split; [apply cleaner_refl|]. split; [apply cleaner_refl|].
  split; [apply cleaner_refl|].
  split; [exact (cleaner_insert clean_camera _ _ _ Hc)|].
  repeat split.
Qed.

Lemma split_scene_cleans shape_iter : preserves only_cleans (split_scene shape_iter).
Proof.
  intros s p s' H. apply split_scene_Ok in H. destruct H as [_ ->].
  apply only_cleans_refl.
Qed.

Lemma api_create_cleans g : preserves only_cleans (api_create g).
Proof.
  intros s h s' H. unfold api_create in H. injection H as _ <-.
  apply only_cleans_stores; reflexivity.
Qed.

Lemma api_shape_cleans h : preserves only_cleans (api_shape h).
Proof.
  intros s x s' H. unfold api_shape in H. apply defined_Ok in H. destruct H as [_ ->].
  apply only_cleans_refl.
Qed.

Ltac cleans_leaf :=
  first
    [ apply Shape_SetDirty_cleans
    | apply Material_SetDirty_cleans
    | apply Light_SetDirty_cleans
    | apply Camera_SetDirty_cleans
    | apply split_scene_cleans
    | apply api_create_cleans
    | apply api_shape_cleans
    | apply preserves_modify; intros ?; apply only_cleans_stores; reflexivity
    | apply preserves_update_out; intros ? ? ?; apply only_cleans_stores; reflexivity ].

Ltac cleans_frame :=
  repeat first [ cleans_leaf | frame_step only_cleans_refl only_cleans_trans ].

Lemma UpdateCamera_cleans scene mat_collector tex_collector :
  preserves only_cleans (UpdateCamera scene mat_collector tex_collector).
Proof. unfold UpdateCamera, GetCamera, get_out, device. cleans_frame. Qed.

Lemma UpdateLights_cleans_only scene mat_collector tex_collector :
  preserves only_cleans (UpdateLights scene mat_collector tex_collector).
Proof.
  unfold UpdateLights, write_next_light, WriteLight, GetNumLights, CreateLightIterator,
    CreateShapeIterator, get_out, device.
  cleans_frame.
Qed.

Lemma UpdateShapes_cleans_only scene mat_collector tex_collector :
  preserves only_cleans (UpdateShapes scene mat_collector tex_collector).
Proof.
  unfold UpdateShapes, count_mesh, count_instance, CreateShapeIterator, device,
    shapes_mesh, shapes_excluded, shapes_instance, material_or_default, get_out.
  cleans_frame.
Qed.

Lemma UpdateMaterials_cleans_only scene mat_collector tex_collector :
  preserves only_cleans (UpdateMaterials scene mat_collector tex_collector).
Proof.
  unfold UpdateMaterials, write_next_material, WriteMaterial, get_out, device.
  cleans_frame.
Qed.

Lemma UpdateTextures_cleans_only scene mat_collector tex_collector :
  preserves only_cleans (UpdateTextures scene mat_collector tex_collector).
Proof.
  unfold UpdateTextures, write_next_texture, write_next_texture_data, get_out, device.
  cleans_frame.
Qed.

Lemma UpdateIntersector_cleans_only scene :
  preserves only_cleans (UpdateIntersector scene).
Proof.
  unfold UpdateIntersector, isect_mesh, isect_excluded, isect_instance,
    create_mesh_shape, SetTransform, SetId, DetachShape, DeleteShape,
    push_isect, push_visible, CreateShapeIterator, update_api, get_out.
  cleans_frame.
Qed.

Lemma ReloadIntersector_cleans_only scene :
  preserves only_cleans (ReloadIntersector scene).
Proof.
  unfold ReloadIntersector, DetachAll, AttachShape, Commit, update_api, get_out.
  cleans_frame.
Qed.

Lemma RecompileFull_cleans_only scene mat_collector tex_collector :
  preserves only_cleans (RecompileFull scene mat_collector tex_collector).
Proof.
  unfold RecompileFull.
  repeat first
    [ apply UpdateCamera_cleans | apply UpdateLights_cleans_only
    | apply UpdateShapes_cleans_only | apply UpdateMaterials_cleans_only
    | apply UpdateTextures_cleans_only | apply UpdateIntersector_cleans_only
    | progress unfold DeleteShape, update_api, get_out, device
    | cleans_leaf | frame_step only_cleans_refl only_cleans_trans ].
Qed.

(** ** What a compile leaves behind *)

Lemma cleaner_keeps {A} (clean : A -> A) (dirty : A -> bool) h h' iter :
  (forall x, dirty (clean x) = false) ->
  cleaner clean h h' -> all_clean dirty h iter -> all_clean dirty h' iter.
Proof.
  intros Hc Hcl Hall a Ha. destruct (Hall a Ha) as (x & Hx & Hd).
  destruct (Hcl a) as [E|E]; rewrite E, Hx; simpl; eauto.
Qed.

Lemma cleaned_all_clean {A} (clean : A -> A) (dirty : A -> bool) h iter :
  (forall x, clean (clean x) = clean x) ->
  (forall x, dirty (clean x) = false) ->
  (forall a, a ∈ iter -> is_Some (h !! a)) ->
  all_clean dirty (cleaned_by clean h iter) iter.
Proof.
  intros Hidem Hc Hex a Ha. rewrite (cleaned_by_lookup clean iter Hidem).
  rewrite decide_True by exact Ha. destruct (Hex a Ha) as [x Hx].
  rewrite Hx. simpl. eauto.
Qed.

Lemma any_dirty_false {T} (store : State -> gmap addr T) is_dirty l s s' :
  any_dirty store is_dirty l s = Ok false s' ->
  s' = s /\ all_clean is_dirty (store s) l.
Proof.
  induction l as [|a l IH]; intros H; simpl in H.
  - apply ret_Ok in H. destruct H as [_ ->]. split; [reflexivity|].
    intros b Hb. inversion Hb.
  - apply bind_Ok in H. destruct H as (x & s1 & Hx & H).
    apply deref_Ok in Hx. destruct Hx as [Hx ->].
    destruct (is_dirty x) eqn:Hd.
    + apply ret_Ok in H. destruct H as [H _]. discriminate H.
    + apply IH in H. destruct H as [-> Hall]. split; [reflexivity|].
      intros b Hb. apply elem_of_cons in Hb. destruct Hb as [->|Hb]; eauto.
Qed.

(** The two paths of [CompileScene], after the collection, which leaves the
    state alone. *)
Lemma CompileScene_paths fuel scene mat_collector tex_collector s r s' :
  CompileScene fuel scene mat_collector tex_collector s = Ok r s' ->
  exists sc,
    st_scenes s !! scene = Some sc /\
    match m_scene_cache s !! scene with
    | None => compile_first scene r.1 r.2 s = Ok tt s'
    | Some _ => compile_cached scene r.1 r.2 s = Ok tt s'
    end.
Proof.
  intros H. unfold CompileScene in H.
  unfold CreateShapeIterator, CreateLightIterator in H.
  repeat (apply bind_Ok in H; destruct H as (? & ? & ? & H)).
  repeat match goal with
  | H : (deref _ _ ≫= _) _ = Ok _ _ |- _ =>
      apply bind_Ok in H; destruct H as (? & ? & H & ?);
      apply deref_Ok in H; destruct H as [? ?]; subst
  | H : @mret M _ _ _ _ = Ok _ _ |- _ => apply ret_Ok in H; destruct H as [? ?]; subst
  | H : gets _ _ = Ok _ _ |- _ => apply gets_Ok in H; destruct H as [? ?]; subst
  | H : Collect _ _ (shape_materials _) _ = Ok _ _ |- _ =>
      apply Collect_shape_materials_reads in H; simpl in H; subst
  | H : Collect _ _ material_textures _ = Ok _ _ |- _ =>
      apply Collect_material_textures_reads in H; simpl in H; subst
  | H : Collect _ _ light_textures _ = Ok _ _ |- _ =>
      apply Collect_light_textures_reads in H; simpl in H; subst
  end.
  match goal with
  | Hs : st_scenes s !! scene = Some ?sc |- _ => exists sc; split; [exact Hs|]
  end.
  simpl.
  match goal with
  | H : match _ !! scene with _ => _ end _ = Ok ?u _ |- _ =>
      destruct u; destruct (m_scene_cache s !! scene); exact H
  end.
Qed.

(** The end of both paths: the flags of the scene and the dirty bits of the
    collected materials are dropped. *)
Lemma clear_material_flags_run mat_collector u s s' :
  clear_material_flags mat_collector s = Ok u s' ->
  s' = set_st_materials
         (cleaned_materials (st_materials s) (Collector.items mat_collector)) s /\
  (forall a, a ∈ Collector.items mat_collector -> is_Some (st_materials s !! a)).
Proof.
  unfold clear_material_flags, Finalize, for_each.
  generalize (Collector.items mat_collector) as l. intros l. revert u s s'.
  induction l as [|a l IH]; intros u s s' H; simpl in H.
  - apply ret_Ok in H. destruct H as [_ ->]. split; [destruct s; reflexivity|].
    intros b Hb. inversion Hb.
  - apply bind_Ok in H. destruct H as (u1 & s1 & Hstep & H).
    unfold Material_SetDirty in Hstep.
    apply bind_Ok in Hstep. destruct Hstep as (m & s0 & Hm & Hstep).
    apply deref_Ok in Hm. destruct Hm as [Hm ->].
    apply modify_Ok in Hstep. subst s1. destruct u1.
    apply IH in H. destruct H as [-> Hex]. simpl in *. split.
    + unfold cleaned_materials. rewrite (cleaned_by_cons _ _ a), Hm. reflexivity.
    + intros b Hb. apply elem_of_cons in Hb. destruct Hb as [->|Hb]; [eauto|].
      specialize (Hex b Hb). destruct (decide (a = b)) as [->|Hne]; [eauto|].
      rewrite lookup_insert_ne in Hex by exact Hne. exact Hex.
Qed.

Lemma settle_run scene mat_collector u s s' sc :
  (ClearDirtyFlags scene;; clear_material_flags mat_collector) s = Ok u s' ->
  st_scenes s !! scene = Some sc ->
  s' = set_st_materials
         (cleaned_materials (st_materials s) (Collector.items mat_collector))
         (set_st_scenes
            (<[scene := mk_Scene1 (scene_shapes sc) (scene_lights sc) (scene_camera sc)
                          Scene1Flags.kNone]> (st_scenes s)) s) /\
  (forall a, a ∈ Collector.items mat_collector -> is_Some (st_materials s !! a)).
Proof.
  intros H Hsc. unfold ClearDirtyFlags in H.
  erewrite bind_run in H.
  2:{ erewrite bind_run by (apply deref_run; exact Hsc). reflexivity. }
  apply clear_material_flags_run in H. destruct H as [-> Hex]. auto.
Qed.

Lemma UpdateCamera_clean scene mat_collector tex_collector u s s' sc :
  UpdateCamera scene mat_collector tex_collector s = Ok u s' ->
  st_scenes s !! scene = Some sc ->
  exists a, scene_camera sc = Some a /\ all_clean camera_dirty (st_cameras s') [a].
Proof.
  intros H Hsc. unfold UpdateCamera, GetCamera in H.
  erewrite bind_run in H.
  2:{ erewrite bind_run by (apply deref_run; exact Hsc). reflexivity. }
  apply bind_Ok in H. destruct H as (a & s0 & Ha & H).
  apply defined_Ok in Ha. destruct Ha as [Ha ->].
  apply bind_Ok in H. destruct H as (cam & s0 & Hcam & H).
  apply deref_Ok in Hcam. destruct Hcam as [Hcam ->].
  exists a. split; [exact Ha|].
  repeat (apply bind_Ok in H; destruct H as (? & ? & ? & H)).
  apply modify_Ok in H. subst s'. simpl.
  intros b Hb. apply list_elem_of_singleton in Hb. subst b.
  eexists. split; [apply lookup_insert_eq|reflexivity].
Qed.

Lemma WriteLight_light scene a tex_collector data rec s s' :
  WriteLight scene a tex_collector data s = Ok rec s' -> is_Some (st_lights s !! a).
Proof.
  unfold WriteLight. intros H. apply bind_Ok in H. destruct H as (l & s0 & Hl & _).
  apply deref_Ok in Hl. destruct Hl as [Hl _]. eauto.
Qed.

Lemma UpdateLights_clean scene mat_collector tex_collector u s s' sc :
  UpdateLights scene mat_collector tex_collector s = Ok u s' ->
  st_scenes s !! scene = Some sc ->
  all_clean light_dirty (st_lights s') (scene_lights sc).
Proof.
  intros H Hsc.
  destruct (UpdateLights_state _ _ _ _ _ _ _ Hsc H)
    as (out & ls & e & _ & -> & _ & Hrecs).
  simpl. apply cleaned_all_clean; try (intros x; reflexivity).
  intros a Ha. apply list_elem_of_lookup_1 in Ha. destruct Ha as [k Hk].
  destruct (Hrecs k a Hk) as (data & rec & _ & Hw).
  eapply WriteLight_light. exact Hw.
Qed.

Lemma UpdateShapes_clean scene mat_collector tex_collector u s s' sc :
  UpdateShapes scene mat_collector tex_collector s = Ok u s' ->
  st_scenes s !! scene = Some sc ->
  all_clean shape_dirty (st_shapes s') (scene_shapes sc).
Proof.
  intros H Hsc. apply UpdateShapes_loops in H.
  destruct H as (sc' & p & out & sz0 & sz1 & sz & lp1 & s1 & lp2 & s2 & lp3 & s3
                 & Hsc' & Hp & Hout & _ & _ & _ & Hm & He & Hi & ->).
  rewrite Hsc in Hsc'. injection Hsc' as <-.
  apply (shapes_clean_loop scene _ (shapes_mesh_cleans scene mat_collector)) in Hm.
  destruct Hm as (c1 & -> & _).
  apply (shapes_clean_loop scene _ (shapes_excluded_cleans scene)) in He.
  destruct He as (c2 & -> & _).
  apply (shapes_clean_loop scene _ (shapes_instance_cleans scene mat_collector)) in Hi.
  destruct Hi as (c3 & -> & _).
  simpl. unfold cleaned_shapes. rewrite <- !cleaned_by_app.
  assert (Hex : forall a, a ∈ scene_shapes sc -> is_Some (st_shapes s !! a)).
  { apply SplitMeshesAndInstances_defined. rewrite Hp. eauto. }
  destruct (partition_members _ _ _ Hp) as (Hmem & Himem & _).
  intros a Ha. destruct (Hex a Ha) as [sh Hsh].
  rewrite (cleaned_by_lookup clean_shape _ (fun x => eq_refl)).
  rewrite decide_True.
  - rewrite Hsh. simpl. eauto.
  - rewrite !elem_of_app. destruct (is_instance sh) eqn:Hk.
    + right. right. apply Himem. eauto.
    + left. apply Hmem. eauto.
Qed.

Lemma UpdateIntersector_needs_shapes scene u s s' sc :
  UpdateIntersector scene s = Ok u s' ->
  st_scenes s !! scene = Some sc ->
  scene_shapes sc <> [].
Proof.
  intros H Hsc Hnil. unfold UpdateIntersector in H.
  apply bind_Ok in H. destruct H as (out & s0 & Hout & H).
  apply get_out_Ok in Hout. destruct Hout as [Hout ->].
  rewrite (bind_run _ _ _ _ _ (detach_delete_run _ _)) in H.
  erewrite bind_run in H by (apply update_out_run; exact Hout).
  erewrite bind_run in H by (apply update_out_run; apply lookup_insert_eq).
  unfold CreateShapeIterator in H.
  erewrite bind_run in H.
  2:{ erewrite bind_run by (apply deref_run; exact Hsc). reflexivity. }
  rewrite Hnil in H. discriminate H.
Qed.

(** [only_cleans] between the two ends of a run that returned. *)
Ltac cleans_in H :=
  match type of H with
  | ?m ?s = Ok ?a ?s' =>
      let P := fresh "P" in
      assert (P : preserves only_cleans m)
        by first
             [ apply UpdateCamera_cleans | apply UpdateLights_cleans_only
             | apply UpdateShapes_cleans_only | apply UpdateMaterials_cleans_only
             | apply UpdateTextures_cleans_only | apply UpdateIntersector_cleans_only
             | apply ReloadIntersector_cleans_only | apply RecompileFull_cleans_only
             | unfold get_out, device, DeleteShape, update_api; cleans_frame ];
      specialize (P _ _ _ H); clear H; rename P into H
  end.

Ltac next_step H Hk s :=
  let a := fresh "r" in
  apply bind_Ok in H; destruct H as (a & s & Hk & H).

(** The full rebuild leaves the camera, the lights and the shapes of the
    scene clean. *)
Lemma RecompileFull_clean scene mat_collector tex_collector u s s' sc :
  RecompileFull scene mat_collector tex_collector s = Ok u s' ->
  st_scenes s !! scene = Some sc ->
  only_cleans s s' /\
  (exists a, scene_camera sc = Some a /\ all_clean camera_dirty (st_cameras s') [a]) /\
  all_clean light_dirty (st_lights s') (scene_lights sc) /\
  all_clean shape_dirty (st_shapes s') (scene_shapes sc) /\
  scene_shapes sc <> [].
Proof.
  intros H Hsc. pose proof H as Hall. cleans_in Hall.
  split; [exact Hall|].
  unfold RecompileFull in H.
  next_step H H1 t1. cleans_in H1.
  next_step H H2 t2. cleans_in H2.
  next_step H H3 t3. cleans_in H3.
  next_step H H4 t4. cleans_in H4.
  next_step H H5 t5. cleans_in H5.
  pose proof (only_cleans_trans _ _ _ H1
               (only_cleans_trans _ _ _ H2
                  (only_cleans_trans _ _ _ H3 (only_cleans_trans _ _ _ H4 H5)))) as Hpre.
  next_step H Hcam t6. next_step H Hlights t7. next_step H Hshapes t8.
  next_step H Hmats t9. next_step H Htex t10. next_step H Hisect t11.
  assert (Esc0 : st_scenes t5 !! scene = Some sc)
    by (destruct Hpre as (_ & _ & _ & _ & _ & E & _); rewrite E; exact Hsc).
  destruct (UpdateCamera_clean _ _ _ _ _ _ _ Hcam Esc0) as (a & Ha & Hcc).
  cleans_in Hcam.
  assert (Esc1 : st_scenes t6 !! scene = Some sc)
    by (destruct Hcam as (_ & _ & _ & _ & _ & E & _); rewrite E; exact Esc0).
  pose proof (UpdateLights_clean _ _ _ _ _ _ _ Hlights Esc1) as Hlc.
  cleans_in Hlights.
  assert (Esc2 : st_scenes t7 !! scene = Some sc)
    by (destruct Hlights as (_ & _ & _ & _ & _ & E & _); rewrite E; exact Esc1).
  pose proof (UpdateShapes_clean _ _ _ _ _ _ _ Hshapes Esc2) as Hsc'.
  cleans_in Hshapes. cleans_in Hmats. cleans_in Htex.
  assert (Esc3 : st_scenes t10 !! scene = Some sc).
  { destruct Hshapes as (_ & _ & _ & _ & _ & E1 & _).
    destruct Hmats as (_ & _ & _ & _ & _ & E2 & _).
    destruct Htex as (_ & _ & _ & _ & _ & E3 & _).
    rewrite E3, E2, E1. exact Esc2. }
  pose proof (UpdateIntersector_needs_shapes _ _ _ _ _ Hisect Esc3) as Hne.
  cleans_in Hisect. cleans_in H.
  pose proof (only_cleans_trans _ _ _ Hmats
               (only_cleans_trans _ _ _ Htex (only_cleans_trans _ _ _ Hisect H)))
    as Hrest.
  pose proof (only_cleans_trans _ _ _ Hshapes Hrest) as Hrest1.
  pose proof (only_cleans_trans _ _ _ Hlights Hrest1) as Hrest2.
  split.
  { exists a. split; [exact Ha|].
    destruct Hrest2 as (_ & _ & _ & C & _).
    eapply cleaner_keeps; [|exact C|exact Hcc]. intros x. reflexivity. }
  split.
  { destruct Hrest1 as (_ & _ & C & _).
    eapply cleaner_keeps; [|exact C|exact Hlc]. intros x. reflexivity. }
  split; [|exact Hne].
  destruct Hrest as (C & _).
  eapply cleaner_keeps; [|exact C|exact Hsc']. intros x. reflexivity.
Qed.

Ltac cleans_any H :=
  match type of H with
  | ?m ?s = Ok ?a ?s' =>
      let P := fresh "P" in
      assert (P : preserves only_cleans m)
        by (unfold NeedsUpdate, get_out, device, DeleteShape, update_api,
              GetDirtyFlags, GetCamera, CreateLightIterator, CreateShapeIterator;
            repeat first
              [ apply UpdateCamera_cleans | apply UpdateLights_cleans_only
              | apply UpdateShapes_cleans_only | apply UpdateMaterials_cleans_only
              | apply UpdateTextures_cleans_only | apply UpdateIntersector_cleans_only
              | apply ReloadIntersector_cleans_only | apply RecompileFull_cleans_only
              | cleans_leaf | frame_step only_cleans_refl only_cleans_trans ]);
      specialize (P _ _ _ H); clear H; rename P into H
  end.

Lemma only_cleans_scene s s' scene sc :
  only_cleans s s' -> st_scenes s !! scene = Some sc -> st_scenes s' !! scene = Some sc.
Proof. intros (_ & _ & _ & _ & _ & E & _) H. rewrite E. exact H. Qed.

Lemma settle_settled scene mat_collector u s0 s1 s' sc
    (Hclean : only_cleans s0 s1) :
  (ClearDirtyFlags scene;; clear_material_flags mat_collector) s1 = Ok u s' ->
  st_scenes s0 !! scene = Some sc ->
  m_current_scene s1 = Some scene ->
  is_Some (m_scene_cache s1 !! scene) ->
  all_clean shape_dirty (st_shapes s1) (scene_shapes sc) ->
  all_clean light_dirty (st_lights s1) (scene_lights sc) ->
  (exists a, scene_camera sc = Some a /\ all_clean camera_dirty (st_cameras s1) [a]) ->
  settled scene sc mat_collector s0 s'.
Proof.
  intros H Hsc Hcur Hcache Hshapes Hlights Hcam.
  pose proof (only_cleans_scene _ _ _ _ Hclean Hsc) as Hsc1.
  destruct (settle_run _ _ _ _ _ _ H Hsc1) as [-> Hex].
  destruct Hclean as (_ & _ & _ & _ & Et & Es & _).
  unfold settled. simpl.
  split; [exact Hcur|]. split; [exact Hcache|].
  split; [rewrite Es; reflexivity|].
  split.
  { apply cleaned_all_clean; try (intros x; reflexivity). exact Hex. }
  split; [exact Hshapes|]. split; [exact Hlights|]. split; [exact Hcam|exact Et].
Qed.

Lemma compile_first_settles scene mat_collector tex_collector s s' sc :
  compile_first scene mat_collector tex_collector s = Ok tt s' ->
  st_scenes s !! scene = Some sc ->
  settled scene sc mat_collector s s' /\ scene_shapes sc <> [].
Proof.
  intros H Hsc. unfold compile_first in H.
  next_step H H0 t0. apply modify_Ok in H0. subst t0.
  next_step H Hfull t1. next_step H Hreload t2.
  next_step H Hcur t3. apply modify_Ok in Hcur. subst t3.
  destruct (RecompileFull_clean _ _ _ _ _ _ _ Hfull Hsc)
    as (Hc1 & Hcam & Hlights & Hshapes & Hne).
  assert (Hout : exists out, m_scene_cache t1 !! scene = Some out).
  { unfold ReloadIntersector in Hreload.
    next_step Hreload Hd t. next_step Hreload Hg t'.
    apply get_out_Ok in Hg. destruct Hg as [Hg ->].
    apply modify_Ok in Hd. subst t. simpl in Hg. eauto. }
  destruct Hout as [out Hout].
  rewrite (ReloadIntersector_exact _ _ _ Hout) in Hreload.
  injection Hreload as Ht2. subst t2.
  split; [|exact Hne].
  eapply (settle_settled scene mat_collector _ s); [| exact H | exact Hsc | ..].
  - apply (only_cleans_trans _
             (set_m_scene_cache (<[scene := ClwScene_new]> (m_scene_cache s)) s));
      [apply only_cleans_stores; reflexivity|].
    apply (only_cleans_trans _ t1); [exact Hc1|apply only_cleans_stores; reflexivity].
  - reflexivity.
  - simpl. eauto.
  - exact Hshapes.
  - exact Hlights.
  - exact Hcam.
Qed.

Ltac next_val H Hk a s :=
  apply bind_Ok in H; destruct H as (a & s & Hk & H).

Lemma reads_refl : forall s : State, (fun s s' : State => s' = s) s s.
Proof. reflexivity. Qed.

Lemma reads_trans : forall s1 s2 s3 : State,
  (fun s s' : State => s' = s) s1 s2 -> (fun s s' : State => s' = s) s2 s3 ->
  (fun s s' : State => s' = s) s1 s3.
Proof. intros s1 s2 s3 H1 H2. simpl in *. congruence. Qed.

(** The state is the same at the two ends of a run that only reads. *)
Ltac reads_in H :=
  match type of H with
  | ?m ?s = Ok ?a ?s' =>
      let P := fresh "P" in
      assert (P : preserves (fun s s' : State => s' = s) m)
        by (unfold NeedsUpdate, get_out;
            repeat first [ apply any_dirty_reads
                         | frame_step reads_refl reads_trans ]);
      specialize (P _ _ _ H); simpl in P; subst s'
  end.

Lemma compile_cached_settles scene mat_collector tex_collector s s' sc :
  compile_cached scene mat_collector tex_collector s = Ok tt s' ->
  st_scenes s !! scene = Some sc ->
  settled scene sc mat_collector s s' /\
  scene_shapes sc <> [] /\ scene_lights sc <> [].
Proof.
  intros H Hsc. unfold compile_cached in H.
  next_val H Hout0 out0 t0. apply get_out_Ok in Hout0. destruct Hout0 as [Hout0 ->].
  unfold GetDirtyFlags, GetCamera in H.
  erewrite bind_run in H.
  2:{ erewrite bind_run by (apply deref_run; exact Hsc). reflexivity. }
  erewrite bind_run in H.
  2:{ erewrite bind_run by (apply deref_run; exact Hsc). reflexivity. }
  destruct (scene_camera sc) as [cam|] eqn:Hcam; [|discriminate H].
  next_val H Hc c t0. apply deref_Ok in Hc. destruct Hc as [Hc ->].
  (* camera *)
  next_val H Hcs u1 tA.
  assert (HA : only_cleans s tA /\ all_clean camera_dirty (st_cameras tA) [cam]).
  { destruct (has_flag (scene_dirty_flags sc) Scene1Flags.kCamera || camera_dirty c)
      eqn:Hcond.
    - destruct (UpdateCamera_clean _ _ _ _ _ _ _ Hcs Hsc) as (a & Ha & Hcl).
      rewrite Hcam in Ha. injection Ha as <-. cleans_any Hcs. auto.
    - apply ret_Ok in Hcs. destruct Hcs as [_ ->].
      apply orb_false_elim in Hcond. destruct Hcond as [_ Hcd].
      split; [apply only_cleans_refl|].
      intros b Hb. apply list_elem_of_singleton in Hb. subst b. eauto. }
  clear Hcs. destruct HA as [HsA HcA].
  pose proof (only_cleans_scene _ _ _ _ HsA Hsc) as HscA.
  (* lights *)
  unfold CreateLightIterator in H.
  erewrite bind_run in H.
  2:{ erewrite bind_run by (apply deref_run; exact HscA). reflexivity. }
  destruct (scene_lights sc) as [|l0 ls] eqn:Hls; [discriminate H|].
  next_val H Hany lights_changed tA'.
  pose proof Hany as Hany'. reads_in Hany'. clear Hany'.
  next_val H Hlstep u2 tB.
  assert (HB : only_cleans tA tB /\ all_clean light_dirty (st_lights tB) (l0 :: ls)).
  { destruct (has_flag (scene_dirty_flags sc) Scene1Flags.kLights || lights_changed)
      eqn:Hcond.
    - pose proof (UpdateLights_clean _ _ _ _ _ _ _ Hlstep HscA) as Hcl.
      rewrite Hls in Hcl. cleans_any Hlstep. auto.
    - apply ret_Ok in Hlstep. destruct Hlstep as [_ ->].
      apply orb_false_elim in Hcond. destruct Hcond as [_ ->].
      apply any_dirty_false in Hany. destruct Hany as [_ Hall].
      split; [apply only_cleans_refl|exact Hall]. }
  clear Hlstep Hany. destruct HB as [HsB HlB].
  pose proof (only_cleans_scene _ _ _ _ HsB HscA) as HscB.
  (* shapes *)
  unfold CreateShapeIterator in H.
  erewrite bind_run in H.
  2:{ erewrite bind_run by (apply deref_run; exact HscB). reflexivity. }
  destruct (scene_shapes sc) as [|a0 shs] eqn:Hshs; [discriminate H|].
  next_val H Hany shapes_changed tB'.
  pose proof Hany as Hany'. reads_in Hany'. clear Hany'.
  next_val H Hsstep u3 tC.
  assert (HC : only_cleans tB tC /\ all_clean shape_dirty (st_shapes tC) (a0 :: shs)).
  { destruct (has_flag (scene_dirty_flags sc) Scene1Flags.kShapes || shapes_changed)
      eqn:Hcond.
    - next_val Hsstep Hup u4 tS.
      pose proof (UpdateShapes_clean _ _ _ _ _ _ _ Hup HscB) as Hcl.
      rewrite Hshs in Hcl. cleans_any Hup. cleans_any Hsstep.
      split; [eapply only_cleans_trans; eassumption|].
      destruct Hsstep as (C & _).
      eapply cleaner_keeps; [|exact C|exact Hcl]. intros x. reflexivity.
    - apply ret_Ok in Hsstep. destruct Hsstep as [_ ->].
      apply orb_false_elim in Hcond. destruct Hcond as [_ ->].
      apply any_dirty_false in Hany. destruct Hany as [_ Hall].
      split; [apply only_cleans_refl|exact Hall]. }
  clear Hsstep Hany. destruct HC as [HsC HshC].
  (* materials and textures *)
  next_val H Hout1 out1 tC'. apply get_out_Ok in Hout1. destruct Hout1 as [Hout1 ->].
  next_val H Hmc materials_changed tC'. reads_in Hmc.
  next_val H Hmstep u5 tD. cleans_any Hmstep.
  next_val H Hout2 out2 tD'. apply get_out_Ok in Hout2. destruct Hout2 as [Hout2 ->].
  next_val H Htc textures_changed tD'. reads_in Htc.
  next_val H Htstep u6 tE.
  assert (HoutE : is_Some (m_scene_cache tE !! scene)).
  { destruct textures_changed.
    - destruct (UpdateTextures_keeps scene _ _ _ _ _ Htstep) as (_ & Hq & _).
      destruct (Hq out2 Hout2) as (out' & Hout' & _). eauto.
    - apply ret_Ok in Htstep. destruct Htstep as [_ ->]. eauto. }
  cleans_any Htstep.
  (* current scene *)
  next_val H Hcur current tE'. apply gets_Ok in Hcur. destruct Hcur as [-> ->].
  next_val H Hrl u7 tF.
  assert (HF : only_cleans tE tF /\ m_current_scene tF = Some scene /\
               is_Some (m_scene_cache tF !! scene)).
  { destruct (bool_decide (m_current_scene tE = Some scene)) eqn:Hcond.
    - apply ret_Ok in Hrl. destruct Hrl as [_ ->].
      apply bool_decide_eq_true in Hcond.
      split; [apply only_cleans_refl|]. auto.
    - destruct HoutE as [outE HoutE].
      rewrite (bind_run _ _ _ _ _ (ReloadIntersector_exact _ _ _ HoutE)) in Hrl.
      apply modify_Ok in Hrl. subst tF.
      split; [apply only_cleans_stores; reflexivity|]. simpl. eauto. }
  destruct HF as (HsF & Hcurrent & HoutF).
  (* the end *)
  assert (Hpre : only_cleans s tF).
  { eapply only_cleans_trans; [exact HsA|].
    eapply only_cleans_trans; [exact HsB|].
    eapply only_cleans_trans; [exact HsC|].
    eapply only_cleans_trans; [exact Hmstep|].
    eapply only_cleans_trans; [exact Htstep|exact HsF]. }
  split; [|split; discriminate].
  eapply (settle_settled scene mat_collector _ s tF); [exact Hpre|exact H|exact Hsc|..].
  - exact Hcurrent.
  - exact HoutF.
  - rewrite Hshs.
    assert (C : cleaner clean_shape (st_shapes tC) (st_shapes tF)).
    { assert (X : only_cleans tC tF)
        by (eapply only_cleans_trans; [exact Hmstep|];
            eapply only_cleans_trans; [exact Htstep|exact HsF]).
      destruct X as (C & _). exact C. }
    eapply cleaner_keeps; [|exact C|exact HshC]. intros x. reflexivity.
  - rewrite Hls.
    assert (C : cleaner clean_light (st_lights tB) (st_lights tF)).
    { assert (X : only_cleans tB tF)
        by (eapply only_cleans_trans; [exact HsC|];
            eapply only_cleans_trans; [exact Hmstep|];
            eapply only_cleans_trans; [exact Htstep|exact HsF]).
      destruct X as (_ & _ & C & _). exact C. }
    eapply cleaner_keeps; [|exact C|exact HlB]. intros x. reflexivity.
  - exists cam. split; [exact Hcam|].
    assert (C : cleaner clean_camera (st_cameras tA) (st_cameras tF)).
    { assert (X : only_cleans tA tF)
        by (eapply only_cleans_trans; [exact HsB|];
            eapply only_cleans_trans; [exact HsC|];
            eapply only_cleans_trans; [exact Hmstep|];
            eapply only_cleans_trans; [exact Htstep|exact HsF]).
      destruct X as (_ & _ & _ & C & _). exact C. }
    eapply cleaner_keeps; [|exact C|exact HcA]. intros x. reflexivity.
Qed.

(** X22. Whenever [CompileScene] returns, on the first compile of a
    scene or on a cached one, the scene is the current scene and is cached,
    its dirty flags are [kNone] and the scenes are otherwise as they were,
    the collected materials, the shapes and the lights of the scene and its
    camera are in the store and clean, and the textures are as they were
    before the call. *)
Theorem CompileScene_settles fuel scene mat_collector tex_collector s mc tc s' sc :
  CompileScene fuel scene mat_collector tex_collector s = Ok (mc, tc) s' ->
  st_scenes s !! scene = Some sc ->
  settled scene sc mc s s'.
Proof.
  intros H Hsc. destruct (CompileScene_paths _ _ _ _ _ _ _ H) as (sc' & Hsc' & Hpath).
  rewrite Hsc in Hsc'. injection Hsc' as <-. simpl in Hpath.
  destruct (m_scene_cache s !! scene).
  - apply (compile_cached_settles _ _ _ _ _ _ Hpath Hsc).
  - apply (compile_first_settles _ _ _ _ _ _ Hpath Hsc).
Qed.

Lemma CompileScene_settles_witness :
  settled 100%N demo_scene demo_collected.1 demo_state demo_compiled.
Proof.
  apply (CompileScene_settles 8 100%N no_items no_items demo_state
           demo_collected.1 demo_collected.2 demo_compiled demo_scene);
    vm_compute; reflexivity.
Defined.

(** X23. [CompileScene] returns only for a scene that has shapes, and
    on a cached scene only for a scene that has lights too. *)
Theorem CompileScene_rejects_empty fuel scene mat_collector tex_collector s r s' sc :
  CompileScene fuel scene mat_collector tex_collector s = Ok r s' ->
  st_scenes s !! scene = Some sc ->
  scene_shapes sc <> [] /\
  (is_Some (m_scene_cache s !! scene) -> scene_lights sc <> []).
Proof.
  intros H Hsc. destruct (CompileScene_paths _ _ _ _ _ _ _ H) as (sc' & Hsc' & Hpath).
  rewrite Hsc in Hsc'. injection Hsc' as <-.
  destruct (m_scene_cache s !! scene) as [out|].
  - destruct (compile_cached_settles _ _ _ _ _ _ Hpath Hsc) as (_ & Hs & Hl). auto.
  - destruct (compile_first_settles _ _ _ _ _ _ Hpath Hsc) as (_ & Hs).
    split; [exact Hs|]. intros [x Hx]. discriminate Hx.
Qed.

Lemma CompileScene_rejects_empty_witness :
  scene_shapes demo_scene <> [] /\
  (is_Some (m_scene_cache demo_state !! 100%N) -> scene_lights demo_scene <> []).
Proof.
  apply (CompileScene_rejects_empty 8 100%N no_items no_items demo_state
           demo_collected demo_compiled demo_scene);
    vm_compute; reflexivity.
Defined.

(** ** A compile with nothing to do *)

Lemma none_dirty_spec {A} (dirty : A -> bool) heap iter :
  none_dirty dirty heap iter = true ->
  forall a x, a ∈ iter -> heap !! a = Some x -> dirty x = false.
Proof.
  unfold none_dirty. rewrite forallb_forall. intros H a x Ha Hx.
  apply list_elem_of_In in Ha. specialize (H a Ha). rewrite Hx in H.
  destruct (dirty x); [discriminate H|reflexivity].
Qed.

Lemma NeedsUpdate_clean {T} c (store : State -> gmap addr T) is_dirty b s s' :
  none_dirty is_dirty (store s) (Collector.items c) = true ->
  NeedsUpdate c (Collector.items c) store is_dirty s = Ok b s' ->
  b = false /\ s' = s.
Proof.
  intros Hclean H. unfold NeedsUpdate in H.
  apply bind_Ok in H. destruct H as (heap & s0 & Hh & H).
  apply gets_Ok in Hh. destruct Hh as [-> ->].
  apply bind_Ok in H. destruct H as (bits & s0 & Hbits & H).
  apply defined_Ok in Hbits. destruct Hbits as [Hbits ->].
  apply ret_Ok in H. destruct H as [-> ->]. split; [|reflexivity].
  rewrite bool_decide_eq_true_2 by reflexivity. simpl.
  pose proof (none_dirty_spec _ _ _ Hclean) as Hspec.
  apply mapM_Some_1 in Hbits.
  apply not_true_is_false. intros Hex. apply existsb_exists in Hex.
  destruct Hex as (x & Hx & Hid). unfold id in Hid. subst x.
  apply list_elem_of_In, list_elem_of_lookup_1 in Hx. destruct Hx as [k Hk].
  destruct (Forall2_lookup_r _ _ _ _ _ Hbits Hk) as (a & Ha & Hfa).
  destruct (store s !! a) as [x|] eqn:Hx; [|discriminate Hfa].
  simpl in Hfa. injection Hfa as Hd.
  rewrite (Hspec a x (list_elem_of_lookup_2 _ _ _ Ha) Hx) in Hd. discriminate Hd.
Qed.

Lemma cleaned_by_id {A} (clean : A -> A) (dirty : A -> bool) heap iter :
  (forall x, dirty x = false -> clean x = x) ->
  none_dirty dirty heap iter = true ->
  cleaned_by clean heap iter = heap.
Proof.
  intros Hid Hclean. pose proof (none_dirty_spec _ _ _ Hclean) as Hspec. clear Hclean.
  unfold cleaned_by. induction iter as [|a iter IH]; [reflexivity|].
  cbn [foldl]. destruct (heap !! a) as [x|] eqn:Hx.
  - rewrite (Hid x) by (apply (Hspec a); [left|exact Hx]).
    rewrite insert_id by exact Hx. apply IH. intros b y Hb. apply Hspec. right. exact Hb.
  - apply IH. intros b y Hb. apply Hspec. right. exact Hb.
Qed.

(** X24. A compile of the cached current scene with nothing to do is a
    no-op: when the dirty flags of the scene are [kNone], its camera, lights
    and shapes and the collected materials and textures are clean, and the
    recorded bundles are the collected items, a compile that returns leaves
    the whole state, device operations included, as it was. *)
Theorem CompileScene_unchanged fuel scene mat_collector tex_collector s mc tc s'
    sc out cam c :
  CompileScene fuel scene mat_collector tex_collector s = Ok (mc, tc) s' ->
  m_scene_cache s !! scene = Some out ->
  m_current_scene s = Some scene ->
  st_scenes s !! scene = Some sc ->
  scene_dirty_flags sc = Scene1Flags.kNone ->
  scene_camera sc = Some cam ->
  st_cameras s !! cam = Some c ->
  camera_dirty c = false ->
  none_dirty light_dirty (st_lights s) (scene_lights sc) = true ->
  none_dirty shape_dirty (st_shapes s) (scene_shapes sc) = true ->
  material_bundle out = Some (Collector.items mc) ->
  none_dirty material_dirty (st_materials s) (Collector.items mc) = true ->
  (texture_bundle out = Some (Collector.items tc) \/ Collector.items tc = []) ->
  none_dirty texture_dirty (st_textures s) (Collector.items tc) = true ->
  s' = s.
Proof.
  intros H Hout Hcur Hsc Hflags Hcam Hc Hcd Hlights Hshapes Hmb Hmats Htb Htex.
  apply (CompileScene_cached _ _ _ _ _ _ _ _ Hout) in H. simpl in H.
  unfold compile_cached in H.
  erewrite bind_run in H by (apply deref_run; exact Hout).
  unfold GetDirtyFlags, GetCamera in H.
  erewrite bind_run in H.
  2:{ erewrite bind_run by (apply deref_run; exact Hsc). reflexivity. }
  erewrite bind_run in H.
  2:{ erewrite bind_run by (apply deref_run; exact Hsc). reflexivity. }
  rewrite Hcam in H.
  erewrite bind_run in H by (apply deref_run; exact Hc).
  rewrite Hflags, Hcd in H. cbn [has_flag Z.land Scene1Flags.kNone] in H.
  change (has_flag Scene1Flags.kNone Scene1Flags.kCamera) with false in H.
  change (has_flag Scene1Flags.kNone Scene1Flags.kLights) with false in H.
  change (has_flag Scene1Flags.kNone Scene1Flags.kShapes) with false in H.
  cbn [orb] in H.
  erewrite bind_run in H by reflexivity.
  unfold CreateLightIterator in H.
  erewrite bind_run in H.
  2:{ erewrite bind_run by (apply deref_run; exact Hsc). reflexivity. }
  destruct (scene_lights sc) as [|l0 ls] eqn:Hls; [discriminate H|].
  next_val H Hany lights_changed t0.
  apply any_dirty_clean in Hany; [|exact (none_dirty_spec _ _ _ Hlights)].
  destruct Hany as [-> ->]. cbn [orb] in H.
  erewrite bind_run in H by reflexivity.
  unfold CreateShapeIterator in H.
  erewrite bind_run in H.
  2:{ erewrite bind_run by (apply deref_run; exact Hsc). reflexivity. }
  destruct (scene_shapes sc) as [|a0 shs] eqn:Hshs; [discriminate H|].
  next_val H Hany shapes_changed t0.
  apply any_dirty_clean in Hany; [|exact (none_dirty_spec _ _ _ Hshapes)].
  destruct Hany as [-> ->]. cbn [orb] in H.
  erewrite bind_run in H by reflexivity.
  erewrite bind_run in H by (apply deref_run; exact Hout).
  rewrite Hmb in H.
  next_val H Hmc materials_changed t0.
  apply NeedsUpdate_clean in Hmc; [|exact Hmats]. destruct Hmc as [-> ->].
  erewrite bind_run in H by reflexivity.
  erewrite bind_run in H by (apply deref_run; exact Hout).
  next_val H Htc textures_changed t0.
  assert (Ht : textures_changed = false /\ t0 = s).
  { unfold Collector.GetNumItems in Htc.
    destruct (Collector.items tc) as [|x xs] eqn:Hitems.
    - simpl in Htc. apply ret_Ok in Htc. destruct Htc as [-> ->]. auto.
    - simpl in Htc. destruct Htb as [Htb|Htb]; [|discriminate Htb].
      rewrite Htb, <- Hitems in Htc. rewrite <- Hitems in Htex.
      apply NeedsUpdate_clean in Htc; [exact Htc|exact Htex]. }
  destruct Ht as [-> ->].
  erewrite bind_run in H by reflexivity.
  erewrite bind_run in H by reflexivity.
  rewrite Hcur, bool_decide_eq_true_2 in H by reflexivity.
  erewrite bind_run in H by reflexivity.
  destruct (settle_run _ _ _ _ _ _ H Hsc) as [-> _].
  unfold cleaned_materials.
  rewrite (cleaned_by_id clean_material material_dirty).
  - assert (E : mk_Scene1 (scene_shapes sc) (scene_lights sc) (scene_camera sc)
                  Scene1Flags.kNone = sc)
      by (destruct sc; simpl in *; subst; reflexivity).
    rewrite E, insert_id by exact Hsc.
    destruct s. reflexivity.
  - intros [k i d] Hd. simpl in Hd. subst d. reflexivity.
  - exact Hmats.
Qed.

Lemma CompileScene_unchanged_witness :
  state_after (CompileScene 8 100%N no_items no_items demo_rested) demo_rested
  = demo_rested.
Proof.
  apply (CompileScene_unchanged 8 100%N no_items no_items demo_rested
           demo_collected.1 demo_collected.2
           (state_after (CompileScene 8 100%N no_items no_items demo_rested) demo_rested)
           (default demo_scene (st_scenes demo_rested !! 100%N))
           (default ClwScene_new (m_scene_cache demo_rested !! 100%N))
           40%N (default demo_camera (st_cameras demo_rested !! 40%N)));
    try (vm_compute; reflexivity).
  left. vm_compute. reflexivity.
Defined.

(** ** The collection phase *)

Lemma union_elem x s1 s2 : x ∈ StdSet.union s1 s2 <-> x ∈ s1 \/ x ∈ s2.
Proof.
  unfold StdSet.union. revert s2.
  induction s1 as [|a s1 IH]; intros s2; simpl.
  - split; [auto|]. intros [H|H]; [inversion H|exact H].
  - rewrite IH, emplace_elem, elem_of_cons. tauto.
Qed.

Lemma foldr_emplace_elem x l : x ∈ foldr StdSet.emplace StdSet.empty l <-> x ∈ l.
Proof.
  induction l as [|a l IH]; simpl.
  - reflexivity.
  - rewrite emplace_elem, IH, elem_of_cons. reflexivity.
Qed.

Lemma elem_of_rev {A} (x : A) l : x ∈ rev l <-> x ∈ l.
Proof. rewrite !list_elem_of_In. symmetry. apply in_rev. Qed.

Lemma drain_material_stack_closure fuel :
  forall material_stack mats found s s',
    drain_material_stack fuel material_stack mats s = Ok found s' ->
    (forall x, x ∈ mats -> x ∈ found) /\
    (forall x, x ∈ material_stack -> x ∈ found) /\
    (forall x, x ∈ found ->
       x ∈ mats \/
       exists y, y ∈ material_stack /\ rtc (material_deps (st_materials s)) y x) /\
    (forall x, x ∈ found -> (x ∈ mats) \/ is_Some (st_materials s !! x)) /\
    (forall x m b, x ∈ found -> x ∉ mats -> st_materials s !! x = Some m ->
       b ∈ CreateMaterialIterator m -> b ∈ found).
Proof.
  induction fuel as [|fuel IH]; intros [|m stack] mats found s s' H; simpl in H.
  - apply ret_Ok in H. destruct H as [-> _].
    split; [auto|]. split; [intros x Hx; inversion Hx|]. split; [auto|].
    split; [auto|]. intros x mx b Hx Hn. contradiction.
  - discriminate H.
  - apply ret_Ok in H. destruct H as [-> _].
    split; [auto|]. split; [intros x Hx; inversion Hx|]. split; [auto|].
    split; [auto|]. intros x mx b Hx Hn. contradiction.
  - apply bind_Ok in H. destruct H as (mo & s0 & Hmo & H).
    apply deref_Ok in Hmo. destruct Hmo as [Hmo ->].
    apply IH in H. destruct H as (H1 & H2 & H3 & H4 & H5).
    split.
    { intros x Hx. apply H1, emplace_elem. auto. }
    split.
    { intros x Hx. apply elem_of_cons in Hx. destruct Hx as [->|Hx].
      - apply H1, emplace_elem. auto.
      - apply H2, elem_of_app. auto. }
    split.
    { intros x Hx. destruct (H3 x Hx) as [Hin|(y & Hy & Hreach)].
      - apply emplace_elem in Hin. destruct Hin as [->|Hin]; [|auto].
        right. exists m. split; [left|reflexivity].
      - right. apply elem_of_app in Hy. destruct Hy as [Hy|Hy].
        + exists m. split; [left|].
          eapply rtc_l; [|exact Hreach]. exists mo. split; [exact Hmo|].
          apply elem_of_rev. exact Hy.
        + exists y. split; [right; exact Hy|exact Hreach]. }
    split.
    { intros x Hx. destruct (H4 x Hx) as [Hin|Hex]; [|auto].
      apply emplace_elem in Hin. destruct Hin as [->|Hin]; [right; eauto|auto]. }
    intros x mx b Hx Hn Hmx Hb.
    destruct (decide (x = m)) as [->|Hne].
    + rewrite Hmo in Hmx. injection Hmx as <-.
      apply H2, elem_of_app. left. apply elem_of_rev. exact Hb.
    + apply (H5 x mx b Hx); [|exact Hmx|exact Hb].
      rewrite emplace_elem. intros [?|?]; contradiction.
Qed.

(** The working set after a collection over [iter]. *)
Lemma Collect_working (expand : addr -> M StdSet.t) :
  (forall item found s s', expand item s = Ok found s' -> s' = s) ->
  forall iter c c' s s',
    Collect c iter expand s = Ok c' s' ->
    s' = s /\ Collector.items c' = Collector.items c /\
    (forall item, item ∈ iter -> exists found, expand item s = Ok found s) /\
    (forall x, x ∈ Collector.working c' <->
       x ∈ Collector.working c \/
       exists item found, item ∈ iter /\ expand item s = Ok found s /\ x ∈ found).
Proof.
  intros Hreads. unfold Collect.
  induction iter as [|item iter IH]; intros c c' s s' H; simpl in H.
  - apply ret_Ok in H. destruct H as [-> ->]. split; [reflexivity|].
    split; [reflexivity|]. split; [intros x Hx; inversion Hx|].
    intros x. split; [auto|]. intros [Hx|(i & f & Hi & _)]; [exact Hx|inversion Hi].
  - apply bind_Ok in H. destruct H as (c1 & s1 & Hstep & H).
    apply bind_Ok in Hstep. destruct Hstep as (found & s0 & Hfound & Hstep).
    pose proof (Hreads _ _ _ _ Hfound) as ->.
    apply ret_Ok in Hstep. destruct Hstep as [-> ->].
    apply IH in H. destruct H as (-> & Hitems & Hall & Hw).
    split; [reflexivity|]. split; [rewrite Hitems; reflexivity|].
    split.
    { intros i Hi. apply elem_of_cons in Hi. destruct Hi as [->|Hi]; eauto. }
    intros x. rewrite Hw. simpl. rewrite union_elem. split.
    + intros [[Hx|Hx]|(i & f & Hi & Hf & Hx)].
      * auto.
      * right. exists item, found. split; [left|]. auto.
      * right. exists i, f. split; [right; exact Hi|]. auto.
    + intros [Hx|(i & f & Hi & Hf & Hx)]; [auto|].
      apply elem_of_cons in Hi. destruct Hi as [->|Hi].
      * rewrite Hf in Hfound. injection Hfound as <-. auto.
      * right. eauto.
Qed.

Lemma shape_materials_reads fuel item found s s' :
  shape_materials fuel item s = Ok found s' -> s' = s.
Proof.
  unfold shape_materials, material_or_default. intros H.
  apply bind_Ok in H. destruct H as (sh & s0 & Hsh & H).
  apply deref_Ok in Hsh. destruct Hsh as [_ ->].
  apply bind_Ok in H. destruct H as (m & s0 & Hm & H).
  assert (s0 = s) as ->.
  { destruct (shape_material sh).
    - apply ret_Ok in Hm. tauto.
    - apply gets_Ok in Hm. tauto. }
  apply drain_material_stack_reads in H. exact H.
Qed.

Lemma material_textures_reads item found s s' :
  material_textures item s = Ok found s' -> s' = s.
Proof.
  unfold material_textures. intros H.
  apply bind_Ok in H. destruct H as (m & s0 & Hm & H).
  apply deref_Ok in Hm. destruct Hm as [_ ->].
  apply ret_Ok in H. tauto.
Qed.

Lemma light_textures_reads item found s s' :
  light_textures item s = Ok found s' -> s' = s.
Proof.
  unfold light_textures. intros H.
  apply bind_Ok in H. destruct H as (m & s0 & Hm & H).
  apply deref_Ok in Hm. destruct Hm as [_ ->].
  apply ret_Ok in H. tauto.
Qed.

(** The collection phase of [CompileScene], run by run. *)
Lemma CompileScene_collected fuel scene mat_collector tex_collector s r s' :
  CompileScene fuel scene mat_collector tex_collector s = Ok r s' ->
  exists sc c1 c2 c3,
    st_scenes s !! scene = Some sc /\
    Collect (Collector.Clear mat_collector) (scene_shapes sc) (shape_materials fuel) s
      = Ok c1 s /\
    Collect (Collector.Clear tex_collector) (Collector.items (Collector.Commit c1))
      material_textures s = Ok c2 s /\
    Collect c2 (scene_lights sc) light_textures s = Ok c3 s /\
    r = (Collector.Commit c1, Collector.Commit c3).
Proof.
  intros H. unfold CompileScene in H.
  unfold CreateShapeIterator, CreateLightIterator in H.
  next_val H Hsh shape_iter t0.
  apply bind_Ok in Hsh. destruct Hsh as (sc & t & Hsc & Hsh).
  apply deref_Ok in Hsc. destruct Hsc as [Hsc ->].
  apply ret_Ok in Hsh. destruct Hsh as [-> ->].
  next_val H Hli light_iter t0.
  apply bind_Ok in Hli. destruct Hli as (sc' & t & Hsc' & Hli).
  apply deref_Ok in Hsc'. destruct Hsc' as [Hsc' ->].
  rewrite Hsc in Hsc'. injection Hsc' as <-.
  apply ret_Ok in Hli. destruct Hli as [-> ->].
  next_val H H1 c1 t1.
  pose proof (Collect_shape_materials_reads _ _ _ _ _ _ H1) as E. simpl in E. subst t1.
  next_val H H2 c2 t2.
  pose proof (Collect_material_textures_reads _ _ _ _ _ H2) as E. simpl in E. subst t2.
  next_val H H3 c3 t3.
  pose proof (Collect_light_textures_reads _ _ _ _ _ H3) as E. simpl in E. subst t3.
  next_val H Hc cache t4. next_val H Hrun u t5.
  apply ret_Ok in H. destruct H as [-> _].
  exists sc, c1, c2, c3. auto.
Qed.

Lemma shape_materials_found fuel item found s :
  shape_materials fuel item s = Ok found s ->
  exists sh,
    st_shapes s !! item = Some sh /\
    material_of s sh ∈ found /\
    (forall x, x ∈ found -> rtc (material_deps (st_materials s)) (material_of s sh) x) /\
    (forall x, x ∈ found -> is_Some (st_materials s !! x)) /\
    (forall x m b, x ∈ found -> st_materials s !! x = Some m ->
       b ∈ CreateMaterialIterator m -> b ∈ found).
Proof.
  unfold shape_materials, material_or_default. intros H.
  apply bind_Ok in H. destruct H as (sh & s0 & Hsh & H).
  apply deref_Ok in Hsh. destruct Hsh as [Hsh ->].
  apply bind_Ok in H. destruct H as (m & s0 & Hm & H).
  assert (m = material_of s sh /\ s0 = s) as [-> ->].
  { unfold material_of. destruct (shape_material sh).
    - apply ret_Ok in Hm. tauto.
    - apply gets_Ok in Hm. tauto. }
  apply drain_material_stack_closure in H. destruct H as (_ & H2 & H3 & H4 & H5).
  exists sh. split; [exact Hsh|]. split; [apply H2; left|].
  split.
  { intros x Hx. destruct (H3 x Hx) as [Hin|(y & Hy & Hr)]; [inversion Hin|].
    apply list_elem_of_singleton in Hy. subst y. exact Hr. }
  split.
  { intros x Hx. destruct (H4 x Hx) as [Hin|?]; [inversion Hin|assumption]. }
  intros x mx b Hx. apply H5; [exact Hx|]. intros Hin. inversion Hin.
Qed.

(** What the three collections of a compile hold when they return. *)
Lemma collected_spec fuel mat_collector tex_collector s sc c1 c2 c3 :
  Collect (Collector.Clear mat_collector) (scene_shapes sc) (shape_materials fuel) s
    = Ok c1 s ->
  Collect (Collector.Clear tex_collector) (Collector.items (Collector.Commit c1))
    material_textures s = Ok c2 s ->
  Collect c2 (scene_lights sc) light_textures s = Ok c3 s ->
  let mc := Collector.Commit c1 in
  let tc := Collector.Commit c3 in
  (forall a, a ∈ scene_shapes sc ->
     exists sh, st_shapes s !! a = Some sh /\ material_of s sh ∈ Collector.items mc) /\
  (forall x, x ∈ Collector.items mc ->
     exists m,
       st_materials s !! x = Some m /\
       (forall b, b ∈ CreateMaterialIterator m -> b ∈ Collector.items mc) /\
       (forall t, t ∈ CreateTextureIterator m -> t ∈ Collector.items tc)) /\
  (forall a, a ∈ scene_lights sc ->
     exists l,
       st_lights s !! a = Some l /\
       forall t, t ∈ Light_CreateTextureIterator l -> t ∈ Collector.items tc) /\
  (forall x, x ∈ Collector.items mc ->
     exists a sh,
       a ∈ scene_shapes sc /\ st_shapes s !! a = Some sh /\
       rtc (material_deps (st_materials s)) (material_of s sh) x) /\
  (forall t, t ∈ Collector.items tc ->
     (exists x m, x ∈ Collector.items mc /\ st_materials s !! x = Some m /\
                  t ∈ CreateTextureIterator m) \/
     (exists a l, a ∈ scene_lights sc /\ st_lights s !! a = Some l /\
                  t ∈ Light_CreateTextureIterator l)).
Proof.
  intros H1 H2 H3 mc tc. subst mc tc.
  destruct (Collect_working _ (shape_materials_reads fuel) _ _ _ _ _ H1)
    as (_ & _ & Hall1 & Hw1).
  destruct (Collect_working _ material_textures_reads _ _ _ _ _ H2)
    as (_ & _ & Hall2 & Hw2).
  destruct (Collect_working _ light_textures_reads _ _ _ _ _ H3)
    as (_ & _ & Hall3 & Hw3).
  simpl in *.
  assert (Hmat : forall x, x ∈ Collector.working c1 <->
            exists item found, item ∈ scene_shapes sc /\
              shape_materials fuel item s = Ok found s /\ x ∈ found).
  { intros x. rewrite Hw1. split; [|auto].
    intros [Hx|Hx]; [inversion Hx|exact Hx]. }
  assert (Htex : forall t, t ∈ Collector.working c3 <->
            (exists item found, item ∈ Collector.working c1 /\
               material_textures item s = Ok found s /\ t ∈ found) \/
            (exists item found, item ∈ scene_lights sc /\
               light_textures item s = Ok found s /\ t ∈ found)).
  { intros t. rewrite Hw3, Hw2. split.
    - intros [[Hx|Hx]|Hx]; [inversion Hx|auto|auto].
    - intros [Hx|Hx]; auto. }
  split.
  { intros a Ha. destruct (Hall1 a Ha) as [found Hf].
    destruct (shape_materials_found _ _ _ _ Hf) as (sh & Hsh & Hroot & _).
    exists sh. split; [exact Hsh|]. apply Hmat. eauto. }
  split.
  { intros x Hx. pose proof Hx as Hx'. apply Hmat in Hx'.
    destruct Hx' as (item & found & Hitem & Hf & Hxf).
    destruct (shape_materials_found _ _ _ _ Hf) as (sh & Hsh & _ & _ & Hex & Hcl).
    destruct (Hex x Hxf) as [m Hm]. exists m. split; [exact Hm|].
    split.
    - intros b Hb. apply Hmat. exists item, found. eauto.
    - intros t Ht. apply Htex. left. exists x.
      eexists. split; [exact Hx|]. split.
      + unfold material_textures. erewrite bind_run by (apply deref_run; exact Hm).
        reflexivity.
      + apply foldr_emplace_elem. exact Ht. }
  split.
  { intros a Ha. destruct (Hall3 a Ha) as [found Hf].
    pose proof Hf as Hf'. unfold light_textures in Hf'.
    apply bind_Ok in Hf'. destruct Hf' as (l & s0 & Hl & Hf').
    apply deref_Ok in Hl. destruct Hl as [Hl ->].
    apply ret_Ok in Hf'. destruct Hf' as [-> _].
    exists l. split; [exact Hl|]. intros t Ht. apply Htex. right.
    exists a. eexists. split; [exact Ha|]. split; [exact Hf|].
    apply foldr_emplace_elem. exact Ht. }
  split.
  { intros x Hx. apply Hmat in Hx. destruct Hx as (item & found & Hitem & Hf & Hxf).
    destruct (shape_materials_found _ _ _ _ Hf) as (sh & Hsh & _ & Hreach & _).
    exists item, sh. auto. }
  intros t Ht. apply Htex in Ht.
  destruct Ht as [(x & found & Hx & Hf & Ht)|(a & found & Ha & Hf & Ht)].
  - left. unfold material_textures in Hf.
    apply bind_Ok in Hf. destruct Hf as (m & s0 & Hm & Hf).
    apply deref_Ok in Hm. destruct Hm as [Hm ->].
    apply ret_Ok in Hf. destruct Hf as [-> _].
    exists x, m. split; [exact Hx|]. split; [exact Hm|].
    apply foldr_emplace_elem. exact Ht.
  - right. unfold light_textures in Hf.
    apply bind_Ok in Hf. destruct Hf as (l & s0 & Hl & Hf).
    apply deref_Ok in Hl. destruct Hl as [Hl ->].
    apply ret_Ok in Hf. destruct Hf as [-> _].
    exists a, l. split; [exact Ha|]. split; [exact Hl|].
    apply foldr_emplace_elem. exact Ht.
Qed.

(** X25. The collectors a compile returns hold what the scene uses and
    nothing more.  The material of every shape of the scene (the default
    material for a shape without one) is collected; every collected
    material is in the store and its input materials and its textures are
    collected; the textures of the lights of the scene are collected.
    Conversely every collected material is reached from the material of a
    shape of the scene through material inputs, and every collected texture
    is a texture of a collected material or of a light of the scene. *)
Theorem CompileScene_collects fuel scene mat_collector tex_collector s mc tc s' sc :
  CompileScene fuel scene mat_collector tex_collector s = Ok (mc, tc) s' ->
  st_scenes s !! scene = Some sc ->
  (forall a, a ∈ scene_shapes sc ->
     exists sh, st_shapes s !! a = Some sh /\ material_of s sh ∈ Collector.items mc) /\
  (forall x, x ∈ Collector.items mc ->
     exists m,
       st_materials s !! x = Some m /\
       (forall b, b ∈ CreateMaterialIterator m -> b ∈ Collector.items mc) /\
       (forall t, t ∈ CreateTextureIterator m -> t ∈ Collector.items tc)) /\
  (forall a, a ∈ scene_lights sc ->
     exists l,
       st_lights s !! a = Some l /\
       forall t, t ∈ Light_CreateTextureIterator l -> t ∈ Collector.items tc) /\
  (forall x, x ∈ Collector.items mc ->
     exists a sh,
       a ∈ scene_shapes sc /\ st_shapes s !! a = Some sh /\
       rtc (material_deps (st_materials s)) (material_of s sh) x) /\
  (forall t, t ∈ Collector.items tc ->
     (exists x m, x ∈ Collector.items mc /\ st_materials s !! x = Some m /\
                  t ∈ CreateTextureIterator m) \/
     (exists a l, a ∈ scene_lights sc /\ st_lights s !! a = Some l /\
                  t ∈ Light_CreateTextureIterator l)).
Proof.
  intros H Hsc.
  destruct (CompileScene_collected _ _ _ _ _ _ _ H)
    as (sc' & c1 & c2 & c3 & Hsc' & H1 & H2 & H3 & Hr).
  rewrite Hsc in Hsc'. injection Hsc' as <-. injection Hr as -> ->.
  exact (collected_spec _ _ _ _ _ _ _ _ H1 H2 H3).
Qed.

Lemma CompileScene_collects_witness :
  (forall a, a ∈ scene_shapes demo_scene ->
     exists sh, st_shapes demo_state !! a = Some sh /\
                material_of demo_state sh ∈ Collector.items demo_collected.1) /\
  (forall x, x ∈ Collector.items demo_collected.1 ->
     exists m,
       st_materials demo_state !! x = Some m /\
       (forall b, b ∈ CreateMaterialIterator m -> b ∈ Collector.items demo_collected.1) /\
       (forall t, t ∈ CreateTextureIterator m -> t ∈ Collector.items demo_collected.2)) /\
  (forall a, a ∈ scene_lights demo_scene ->
     exists l,
       st_lights demo_state !! a = Some l /\
       forall t, t ∈ Light_CreateTextureIterator l ->
                 t ∈ Collector.items demo_collected.2) /\
  (forall x, x ∈ Collector.items demo_collected.1 ->
     exists a sh,
       a ∈ scene_shapes demo_scene /\ st_shapes demo_state !! a = Some sh /\
       rtc (material_deps (st_materials demo_state)) (material_of demo_state sh) x) /\
  (forall t, t ∈ Collector.items demo_collected.2 ->
     (exists x m, x ∈ Collector.items demo_collected.1 /\
                  st_materials demo_state !! x = Some m /\
                  t ∈ CreateTextureIterator m) \/
     (exists a l, a ∈ scene_lights demo_scene /\ st_lights demo_state !! a = Some l /\
                  t ∈ Light_CreateTextureIterator l)).
Proof.
  apply (CompileScene_collects 8 100%N no_items no_items demo_state
           demo_collected.1 demo_collected.2 demo_compiled demo_scene);
    vm_compute; reflexivity.
Defined.

(** ** Materials that depend on themselves *)

Lemma halts_mats fuel : forall material_stack mats found s s',
  drain_material_stack fuel material_stack mats s = Ok found s' ->
  forall mats', exists found',
    drain_material_stack fuel material_stack mats' s = Ok found' s'.
Proof.
  induction fuel as [|fuel IH]; intros [|m stack] mats found s s' H mats'; simpl in *.
  - apply ret_Ok in H. destruct H as [_ ->]. eexists. reflexivity.
  - discriminate H.
  - apply ret_Ok in H. destruct H as [_ ->]. eexists. reflexivity.
  - apply bind_Ok in H. destruct H as (mo & s0 & Hmo & H).
    apply deref_Ok in Hmo. destruct Hmo as [Hmo ->].
    erewrite bind_run by (apply deref_run; exact Hmo).
    eapply IH. exact H.
Qed.

Lemma halts_nil fuel s : halts fuel [] s.
Proof. exists StdSet.empty, StdSet.empty, s. destruct fuel; reflexivity. Qed.

Lemma halts_cons fuel m stack s :
  halts (S fuel) (m :: stack) s <->
  exists mo, st_materials s !! m = Some mo /\
             halts fuel (rev (CreateMaterialIterator mo) ++ stack) s.
Proof.
  split.
  - intros (mats & found & s' & H). simpl in H.
    apply bind_Ok in H. destruct H as (mo & s0 & Hmo & H).
    apply deref_Ok in Hmo. destruct Hmo as [Hmo ->].
    exists mo. split; [exact Hmo|]. eexists _, _, _. exact H.
  - intros (mo & Hmo & mats & found & s' & H).
    destruct (halts_mats _ _ _ _ _ _ H (StdSet.emplace m StdSet.empty)) as [found' H'].
    exists StdSet.empty, found', s'. simpl.
    erewrite bind_run by (apply deref_run; exact Hmo). exact H'.
Qed.

Lemma halts_zero m stack s : ~ halts 0 (m :: stack) s.
Proof. intros (mats & found & s' & H). discriminate H. Qed.

(** What is under the top of the stack is drained later, with less fuel. *)
Lemma halts_app fuel : forall l1 l2 s,
  halts fuel (l1 ++ l2) s ->
  halts fuel l1 s /\ exists fuel', (fuel' <= fuel)%nat /\ halts fuel' l2 s.
Proof.
  induction fuel as [|fuel IH]; intros [|x l1] l2 s H; simpl in H.
  - split; [apply halts_nil|]. exists O. auto.
  - exfalso. exact (halts_zero _ _ _ H).
  - split; [apply halts_nil|]. exists (S fuel). auto.
  - apply halts_cons in H. destruct H as (mo & Hmo & H).
    rewrite app_assoc in H. apply IH in H. destruct H as (H1 & fuel' & Hle & H2).
    split.
    + apply halts_cons. eauto.
    + exists fuel'. split; [lia|exact H2].
Qed.

(** The drain of a material drains each of its inputs, with less fuel. *)
Lemma halts_input fuel a b s :
  halts fuel [a] s -> depends_on (st_materials s) a b = true ->
  exists fuel', (fuel' < fuel)%nat /\ halts fuel' [b] s.
Proof.
  intros H Hdep. destruct fuel as [|fuel]; [exfalso; exact (halts_zero _ _ _ H)|].
  apply halts_cons in H. destruct H as (mo & Hmo & H).
  unfold depends_on in Hdep. rewrite Hmo in Hdep. apply bool_decide_eq_true in Hdep.
  apply elem_of_rev, list_elem_of_split in Hdep. destruct Hdep as (l1 & l2 & E).
  rewrite E, app_nil_r in H.
  apply halts_app in H. destruct H as (_ & f1 & Hle1 & H).
  apply (halts_app f1 [b] l2) in H. destruct H as (H & _).
  exists f1. split; [lia|exact H].
Qed.

Lemma halts_walk l : forall fuel a s k z,
  is_walk (st_materials s) (a :: l) = true ->
  halts fuel [a] s ->
  (a :: l) !! k = Some z ->
  exists fuel', (fuel' + k <= fuel)%nat /\ halts fuel' [z] s.
Proof.
  induction l as [|b l IH]; intros fuel a s k z Hw H Hk.
  - destruct k; [|discriminate Hk]. injection Hk as <-. exists fuel. split; [lia|exact H].
  - destruct k as [|k].
    + injection Hk as <-. exists fuel. split; [lia|exact H].
    + cbn [is_walk] in Hw. apply andb_true_iff in Hw. destruct Hw as [Hdep Hw].
      destruct (halts_input _ _ _ _ H Hdep) as (f1 & Hlt & H1).
      destruct (IH f1 b s k z Hw H1 Hk) as (f2 & Hle & H2).
      exists f2. split; [lia|exact H2].
Qed.

Lemma is_walk_drop heap l i : is_walk heap l = true -> is_walk heap (drop i l) = true.
Proof.
  revert l. induction i as [|i IH]; intros l Hw; [rewrite drop_0; exact Hw|].
  destruct l as [|a l]; [reflexivity|]. simpl. apply IH.
  destruct l as [|b l]; [reflexivity|].
  cbn [is_walk] in Hw. apply andb_true_iff in Hw. tauto.
Qed.

(** A material that a walk of inputs leads back to is never drained. *)
Lemma never_halts walk i j z s :
  is_walk (st_materials s) walk = true ->
  walk !! i = Some z -> walk !! j = Some z -> (i < j)%nat ->
  forall fuel, ~ halts fuel [z] s.
Proof.
  intros Hw Hi Hj Hlt fuel. induction fuel as [fuel IH] using lt_wf_ind. intros H.
  pose proof (is_walk_drop _ _ i Hw) as Hw'.
  destruct (drop i walk) as [|a l] eqn:E.
  { apply (f_equal length) in E. rewrite length_drop in E.
    apply lookup_lt_Some in Hi. simpl in E. lia. }
  assert (Ha : a = z).
  { assert (X : drop i walk !! 0%nat = Some z)
      by (rewrite lookup_drop, Nat.add_0_r; exact Hi).
    rewrite E in X. injection X as ->. reflexivity. }
  subst a.
  assert (Hk : (z :: l) !! (j - i)%nat = Some z).
  { rewrite <- E, lookup_drop. replace (i + (j - i))%nat with j by lia. exact Hj. }
  destruct (halts_walk _ _ _ _ _ _ Hw' H Hk) as (f' & Hle & H').
  apply (IH f'); [lia|exact H'].
Qed.

Lemma bind_stuck {A B} (m : M A) (f : A -> M B) s :
  stuck (m s) -> stuck ((m ≫= f) s).
Proof.
  unfold stuck, mbind, M_bind. intros [H|H]; rewrite H; auto.
Qed.

Lemma Collect_stuck (expand : addr -> M StdSet.t) iter :
  (forall item, quiet (expand item)) ->
  forall c s k item,
    iter !! k = Some item -> stuck (expand item s) ->
    stuck (Collect c iter expand s).
Proof.
  intros Hq. unfold Collect.
  induction iter as [|x iter IH]; intros c s k item Hk Hstuck; [discriminate Hk|].
  simpl. pose proof (Hq x s) as Hx.
  destruct (expand x s) as [found s1| | |] eqn:E.
  - subst s1. destruct k as [|k].
    + injection Hk as <-. rewrite E in Hstuck. destruct Hstuck; discriminate.
    + erewrite bind_run.
      2:{ erewrite bind_run by exact E. reflexivity. }
      eapply IH; eassumption.
  - contradiction.
  - apply bind_stuck. left. apply bind_Fault. exact E.
  - apply bind_stuck. right. unfold mbind, M_bind. rewrite E. reflexivity.
Qed.

Lemma quiet_shape_materials fuel item : quiet (shape_materials fuel item).
Proof.
  unfold shape_materials, material_or_default.
  repeat first [ apply quiet_drain_material_stack | quiet_step ].
Qed.

(** X26. When a material of a shape of the scene reaches, through
    material inputs, a material that has itself among its dependencies,
    [CompileScene] neither returns nor raises an error, whatever the number
    of turns it is given: the stack of materials of the collection never
    runs empty. *)
Theorem CompileScene_material_cycle
    fuel scene mat_collector tex_collector s sc k a sh walk i j z :
  st_scenes s !! scene = Some sc ->
  scene_shapes sc !! k = Some a ->
  st_shapes s !! a = Some sh ->
  walk !! 0%nat = Some (material_of s sh) ->
  is_walk (st_materials s) walk = true ->
  walk !! i = Some z -> walk !! j = Some z -> (i < j)%nat ->
  stuck (CompileScene fuel scene mat_collector tex_collector s).
Proof.
  intros Hsc Hk Hsh Hroot Hw Hi Hj Hlt.
  assert (Hnever : ~ halts fuel [material_of s sh] s).
  { intros H. destruct walk as [|r l]; [discriminate Hroot|].
    injection Hroot as ->.
    destruct (halts_walk _ _ _ _ _ _ Hw H Hi) as (f' & _ & H').
    exact (never_halts _ _ _ _ _ Hw Hi Hj Hlt f' H'). }
  assert (Hitem : stuck (shape_materials fuel a s)).
  { pose proof (quiet_shape_materials fuel a s) as Hq.
    destruct (shape_materials fuel a s) as [found s1| | |] eqn:E;
      [|contradiction|left; reflexivity|right; reflexivity].
    exfalso. apply Hnever. unfold shape_materials in E.
    rewrite (bind_run _ _ _ _ _ (deref_run _ _ _ _ Hsh)) in E.
    assert (Hm : material_or_default (shape_material sh) s = Ok (material_of s sh) s)
      by (unfold material_or_default, material_of; destruct (shape_material sh);
          reflexivity).
    rewrite (bind_run _ _ _ _ _ Hm) in E.
    eexists _, _, _. exact E. }
  unfold CompileScene, CreateShapeIterator, CreateLightIterator.
  erewrite bind_run.
  2:{ erewrite bind_run by (apply deref_run; exact Hsc). reflexivity. }
  erewrite bind_run.
  2:{ erewrite bind_run by (apply deref_run; exact Hsc). reflexivity. }
  apply bind_stuck.
  eapply Collect_stuck; [apply quiet_shape_materials|exact Hk|exact Hitem].
Qed.

Lemma CompileScene_material_cycle_witness :
  stuck (CompileScene 8 100%N no_items no_items demo_cyclic).
Proof.
  apply (CompileScene_material_cycle 8 100%N no_items no_items demo_cyclic demo_scene
           1%nat 3%N (mk_Shape (Instance 2%N) (translation 3) (Some 10%N) true)
           [10%N; 10%N] 0%nat 1%nat 10%N);
    vm_compute; reflexivity.
Defined.

Ltac material_inv H material :=
  repeat match type of H with
  | context [GetInputValue material ?n] =>
      let v := fresh "v" in
      let E := fresh "E" in
      destruct (GetInputValue material n) as [v|] eqn:E; simpl in H; [|discriminate H]
  | context [match Material.type ?v with _ => _ end] =>
      let E := fresh "Ety" in
      destruct (Material.type v) eqn:E; simpl in H; try discriminate H
  | context [match Material.tex_value ?v with _ => _ end] =>
      let E := fresh "Etex" in
      destruct (Material.tex_value v) eqn:E; simpl in H; try discriminate H
  | context [match Material.mat_value ?v with _ => _ end] =>
      let E := fresh "Emat" in
      destruct (Material.mat_value v) eqn:E; simpl in H; try discriminate H
  | context [tex_index_or_minus_one ?c ?t] =>
      let E := fresh "Eidx" in
      destruct (tex_index_or_minus_one c t) eqn:E; simpl in H; [|discriminate H]
  | context [GetItemIndexPtr ?c ?t] =>
      let E := fresh "Eidx" in
      destruct (GetItemIndexPtr c t) eqn:E; simpl in H; [|discriminate H]
  | context [Collector.GetItemIndex ?c ?t] =>
      let E := fresh "Eidx" in
      destruct (Collector.GetItemIndex c t) eqn:E; simpl in H; [|discriminate H]
  end.

Lemma GetItemIndexPtr_Some c item i :
  GetItemIndexPtr c item = Some i ->
  exists a, item = Some a /\ Collector.GetItemIndex c a = Some i.
Proof.
  destruct item as [a|]; simpl; [|discriminate]. intros H. exists a. auto.
Qed.

Lemma write_compound_fields t m mc tc clw r :
  write_compound t m mc tc clw = Some r ->
  exists v0 v1 base top ib it,
    GetInputValue m "base_material" = Some v0 /\
    GetInputValue m "top_material" = Some v1 /\
    Material.mat_value v0 = Some base /\
    Material.mat_value v1 = Some top /\
    Collector.GetItemIndex mc base = Some ib /\
    Collector.GetItemIndex mc top = Some it /\
    ClwScene.brdfbaseidx r = index_to_int ib /\
    ClwScene.brdftopidx r = index_to_int it /\
    ClwScene.type r = ClwScene.type clw /\
    match t with
    | ClwScene.kMix =>
        ClwScene.fresnel r = f32_zero /\
        exists w,
          GetInputValue m "weight" = Some w /\
          match Material.type w with
          | Material.kTexture =>
              exists tex i,
                Material.tex_value w = Some tex /\
                Collector.GetItemIndex tc tex = Some i /\
                ClwScene.nsmapidx r = index_to_int i
          | _ =>
              ClwScene.nsmapidx r = -1 /\
              ClwScene.ns r = f_x (Material.float_value w)
          end
    | _ =>
        ClwScene.fresnel r = f32_one /\
        exists v,
          GetInputValue m "ior" = Some v /\
          Material.type v = Material.kFloat4 /\
          ClwScene.ni r = f_x (Material.float_value v)
    end.
Proof.
  unfold write_compound. intros H.
  destruct (GetInputValue m "base_material") as [v0|] eqn:E0; simpl in H;
    [|discriminate H].
  destruct (GetInputValue m "top_material") as [v1|] eqn:E1; simpl in H;
    [|discriminate H].
  destruct (Material.type v0); simpl in H; try discriminate H.
  destruct (Material.type v1); simpl in H; try discriminate H.
  destruct (GetItemIndexPtr mc (Material.mat_value v0)) as [ib|] eqn:Eb;
    simpl in H; [|discriminate H].
  destruct (GetItemIndexPtr mc (Material.mat_value v1)) as [it|] eqn:Et;
    simpl in H; [|discriminate H].
  apply GetItemIndexPtr_Some in Eb. destruct Eb as (base & Hb & Hib).
  apply GetItemIndexPtr_Some in Et. destruct Et as (top & Ht & Hit).
  exists v0, v1, base, top, ib, it.
  do 6 (split; [first [assumption|reflexivity]|]).
  assert (Hblend :
    (ior ← GetInputValue m "ior";
     match Material.type ior with
     | Material.kFloat4 =>
         Some (WithMaterial.ni (f_x (Material.float_value ior))
                 (WithMaterial.fresnel f32_one
                    (WithMaterial.brdftopidx (index_to_int it)
                       (WithMaterial.brdfbaseidx (index_to_int ib) clw))))
     | _ => None
     end) = Some r ->
    ClwScene.brdfbaseidx r = index_to_int ib /\
    ClwScene.brdftopidx r = index_to_int it /\
    ClwScene.type r = ClwScene.type clw /\
    ClwScene.fresnel r = f32_one /\
    exists v,
      GetInputValue m "ior" = Some v /\
      Material.type v = Material.kFloat4 /\
      ClwScene.ni r = f_x (Material.float_value v)).
  { intros Hb'. destruct (GetInputValue m "ior") as [v|]; simpl in Hb';
      [|discriminate Hb'].
    destruct (Material.type v) eqn:Ety; try discriminate Hb'.
    injection Hb' as <-. simpl. do 4 (split; [reflexivity|]).
    exists v. auto. }
  destruct t; try exact (Hblend H).
  clear Hblend.
  destruct (GetInputValue m "weight") as [w|]; simpl in H; [|discriminate H].
  destruct (Material.type w) eqn:Ety.
  - injection H as <-. simpl. do 4 (split; [reflexivity|]). exists w.
    rewrite Ety. auto.
  - destruct (GetItemIndexPtr tc (Material.tex_value w)) as [i|] eqn:Ei;
      simpl in H; [|discriminate H].
    apply GetItemIndexPtr_Some in Ei. destruct Ei as (tex & Htex & Hi).
    injection H as <-. simpl. do 4 (split; [reflexivity|]). exists w.
    rewrite Ety. split; [reflexivity|]. exists tex, i. auto.
  - injection H as <-. simpl. do 4 (split; [reflexivity|]). exists w.
    rewrite Ety. auto.
Qed.

(** X27. For a [kMix] or [kFresnelBlend] material, a run of
    [WriteMaterial] that returns has found both the base and the top
    material in the material collector and has stored their indices in
    [brdfbaseidx] and [brdftopidx], and the type in [type].  For a mix
    [fresnel] is 0 and the weight is stored: the index of its texture in
    [nsmapidx], or else -1 in [nsmapidx] and its x component in [ns].  For a
    blend [fresnel] is 1 and the x component of the float input [ior] is
    stored in [ni]. *)
Theorem WriteMaterial_compound
    material mat_collector tex_collector data s r s' m t :
  WriteMaterial material mat_collector tex_collector data s = Ok r s' ->
  st_materials s !! material = Some m ->
  material_kind m = MultiBxdf t ->
  t <> MultiBxdf.kLayered ->
  exists v0 v1 base top ib it,
    GetInputValue m "base_material" = Some v0 /\
    GetInputValue m "top_material" = Some v1 /\
    Material.mat_value v0 = Some base /\
    Material.mat_value v1 = Some top /\
    Collector.GetItemIndex mat_collector base = Some ib /\
    Collector.GetItemIndex mat_collector top = Some it /\
    ClwScene.brdfbaseidx r = index_to_int ib /\
    ClwScene.brdftopidx r = index_to_int it /\
    ClwScene.type r = GetMaterialType m /\
    match t with
    | MultiBxdf.kMix =>
        ClwScene.fresnel r = f32_zero /\
        exists w,
          GetInputValue m "weight" = Some w /\
          match Material.type w with
          | Material.kTexture =>
              exists tex i,
                Material.tex_value w = Some tex /\
                Collector.GetItemIndex tex_collector tex = Some i /\
                ClwScene.nsmapidx r = index_to_int i
          | _ =>
              ClwScene.nsmapidx r = -1 /\
              ClwScene.ns r = f_x (Material.float_value w)
          end
    | _ =>
        ClwScene.fresnel r = f32_one /\
        exists v,
          GetInputValue m "ior" = Some v /\
          Material.type v = Material.kFloat4 /\
          ClwScene.ni r = f_x (Material.float_value v)
    end.
Proof.
  intros Hrun Hm Hk Ht.
  apply WriteMaterial_Ok in Hrun. destruct Hrun as (m' & Hm' & Hrec & _).
  rewrite Hm in Hm'. injection Hm' as <-.
  unfold write_material_record in Hrec. unfold GetMaterialType in *.
  rewrite Hk in *.
  destruct t; [|contradiction Ht; reflexivity|];
    apply write_compound_fields in Hrec;
    destruct Hrec as (v0 & v1 & base & top & ib & it & H); exists v0, v1, base, top, ib, it;
    exact H.
Qed.

Lemma WriteMaterial_compound_witness :
  match WriteMaterial 10%N (Collector.mk [5%N; 10%N] [5%N; 10%N])
          (Collector.mk [] []) marked_record
          (state_with_material mix_material) with
  | Ok r _ =>
      ClwScene.brdfbaseidx r = 0 /\ ClwScene.brdftopidx r = 1 /\
      ClwScene.fresnel r = f32_zero /\ ClwScene.nsmapidx r = -1
  | _ => False
  end.
Proof.
  destruct (WriteMaterial 10%N (Collector.mk [5%N; 10%N] [5%N; 10%N])
              (Collector.mk [] []) marked_record
              (state_with_material mix_material))
    as [r s'| | |] eqn:E; try (vm_compute in E; discriminate E).
  destruct (WriteMaterial_compound
              10%N (Collector.mk [5%N; 10%N] [5%N; 10%N])
              (Collector.mk [] []) marked_record
              (state_with_material mix_material) r s'
              mix_material MultiBxdf.kMix E)
    as (v0 & v1 & base & top & ib & it & H0 & H1 & Hb & Ht & Hib & Hit
        & Hbi & Hti & _ & Hf & w & Hw & Hns).
  - vm_compute. reflexivity.
  - reflexivity.
  - discriminate.
  - vm_compute in H0. injection H0 as <-. vm_compute in H1. injection H1 as <-.
    vm_compute in Hb. injection Hb as <-. vm_compute in Ht. injection Ht as <-.
    vm_compute in Hib. injection Hib as <-. vm_compute in Hit. injection Hit as <-.
    vm_compute in Hw. injection Hw as <-.
    split; [exact Hbi|]. split; [exact Hti|]. split; [exact Hf|].
    exact (proj1 Hns).
Defined.

Lemma write_general_normal m tc clw r :
  write_general m tc clw = Some r ->
  ClwScene.type r = ClwScene.type clw /\
  match normal_map m with
  | Some (tex, flag) =>
      exists i, Collector.GetItemIndex tc tex = Some i /\
        ClwScene.nmapidx r = index_to_int i /\ ClwScene.bump_flag r = flag
  | None => ClwScene.nmapidx r = -1 /\ ClwScene.bump_flag r = 0
  end.
Proof.
  unfold write_general. intros H.
  destruct (GetInputValue m "albedo") as [va|]; simpl in H; [|discriminate H].
  match type of H with
  | (?step ≫= _) = _ => destruct step as [c1|] eqn:E1; simpl in H; [|discriminate H]
  end.
  assert (F1 : ClwScene.type c1 = ClwScene.type clw).
  { material_inv E1 m; injection E1 as <-; simpl; auto. }
  clear E1.
  destruct (GetInputValue m "normal") as [vn|] eqn:En; simpl in H; [|discriminate H].
  match type of H with
  | (?step ≫= _) = _ => destruct step as [c2|] eqn:E2; simpl in H; [|discriminate H]
  end.
  assert (F2 : ClwScene.type c2 = ClwScene.type c1 /\
               match normal_map m with
               | Some (tex, flag) =>
                   exists i, Collector.GetItemIndex tc tex = Some i /\
                     ClwScene.nmapidx c2 = index_to_int i /\
                     ClwScene.bump_flag c2 = flag
               | None => ClwScene.nmapidx c2 = -1 /\ ClwScene.bump_flag c2 = 0
               end).
  { unfold normal_map, texture_of. rewrite En.
    destruct (Material.type vn), (Material.tex_value vn) as [tn|]; simpl in E2;
      try (destruct (Collector.GetItemIndex tc tn) as [i|] eqn:Ei; simpl in E2;
           [injection E2 as <-; simpl; repeat split; exists i; auto
           |discriminate E2]);
      (destruct (GetInputValue m "bump") as [vb|]; simpl in E2; [|discriminate E2];
       destruct (Material.type vb), (Material.tex_value vb) as [tb|]; simpl in E2;
       try (destruct (Collector.GetItemIndex tc tb) as [i|] eqn:Ei; simpl in E2;
            [injection E2 as <-; simpl; repeat split; exists i; auto
            |discriminate E2]);
       injection E2 as <-; simpl; auto). }
  clear E2.
  destruct (GetInputValue m "fresnel") as [vf|]; simpl in H; [|discriminate H].
  destruct (GetInputValue m "ior") as [vi|]; simpl in H; [|discriminate H].
  destruct (GetInputValue m "roughness") as [vr|]; simpl in H; [|discriminate H].
  injection H as <-.
  destruct F2 as (B3 & B4).
  rewrite <- F1, <- B3.
  destruct (Material.type vf), (Material.type vi), (Material.type vr);
    simpl; repeat split; try reflexivity; exact B4.
Qed.

(** X28. For a single-BxDF material other than [kZero], microfacet
    or not, the record [WriteMaterial] returns has the type of the material
    and has the normal texture as its normal map with [bump_flag] 0 when the
    material has one; else the bump texture with [bump_flag] 1 when it has
    one; else [nmapidx] -1 and [bump_flag] 0.  The texture is in the texture
    collector and [nmapidx] is its index. *)
Theorem WriteMaterial_normal_map
    material mat_collector tex_collector data s r s' m t :
  WriteMaterial material mat_collector tex_collector data s = Ok r s' ->
  st_materials s !! material = Some m ->
  material_kind m = SingleBxdf t ->
  t <> SingleBxdf.kZero ->
  ClwScene.type r = GetMaterialType m /\
  match normal_map m with
  | Some (tex, flag) =>
      exists i, Collector.GetItemIndex tex_collector tex = Some i /\
        ClwScene.nmapidx r = index_to_int i /\ ClwScene.bump_flag r = flag
  | None => ClwScene.nmapidx r = -1 /\ ClwScene.bump_flag r = 0
  end.
Proof.
  intros Hrun Hm Hk Ht.
  apply WriteMaterial_Ok in Hrun. destruct Hrun as (m' & Hm' & Hrec & _).
  rewrite Hm in Hm'. injection Hm' as <-.
  unfold write_material_record in Hrec.
  assert (Hgen : exists clw,
             write_general m tex_collector clw = Some r /\
             ClwScene.type clw = GetMaterialType m).
  { unfold GetMaterialType in *. rewrite Hk in *.
    destruct t; try (contradiction Ht; reflexivity); simpl in Hrec;
      try (eexists; split; [exact Hrec|reflexivity]);
      match type of Hrec with
      | context [write_roughness ?a ?b ?c] =>
          destruct (write_roughness a b c) as [clw|] eqn:E; simpl in Hrec;
            [exists clw; split; [exact Hrec|]|discriminate Hrec]
      end;
      unfold write_roughness in E; material_inv E m; injection E as <-;
      reflexivity. }
  destruct Hgen as (clw & Hgen & Hty).
  apply write_general_normal in Hgen.
  destruct Hgen as (H3 & H4).
  rewrite H3, Hty. split; [reflexivity|exact H4].
Qed.

Lemma WriteMaterial_normal_map_witness :
  match WriteMaterial 10%N (Collector.mk [5%N; 10%N] [5%N; 10%N])
          (Collector.mk [20%N] [20%N]) marked_record
          (state_with_material lambert_bumped) with
  | Ok r _ =>
      ClwScene.nmapidx r = 0 /\ ClwScene.bump_flag r = 1 /\
      ClwScene.type r = ClwScene.kLambert
  | _ => False
  end.
Proof.
  destruct (WriteMaterial 10%N (Collector.mk [5%N; 10%N] [5%N; 10%N])
              (Collector.mk [20%N] [20%N]) marked_record
              (state_with_material lambert_bumped))
    as [r s'| | |] eqn:E; try (vm_compute in E; discriminate E).
  destruct (WriteMaterial_normal_map
              10%N (Collector.mk [5%N; 10%N] [5%N; 10%N])
              (Collector.mk [20%N] [20%N]) marked_record
              (state_with_material lambert_bumped) r s'
              lambert_bumped SingleBxdf.kLambert E)
    as (Hty & Hn).
  - vm_compute. reflexivity.
  - reflexivity.
  - discriminate.
  - assert (Hnm : normal_map lambert_bumped = Some (20%N, 1))
      by (vm_compute; reflexivity).
    rewrite Hnm in Hn. destruct Hn as (i & Hi & Hidx & Hflag).
    vm_compute in Hi. injection Hi as <-.
    repeat split; [rewrite Hidx; reflexivity|exact Hflag|exact Hty].
Defined.

(** ** Runs that return *)

Lemma returns_bind {A B} (m : M A) (f : A -> M B) s a s1 :
  m s = Ok a s1 -> returns (f a) s1 -> returns (m ≫= f) s.
Proof. intros H (b & s' & Hf). exists b, s'. rewrite (bind_run _ _ _ _ _ H). exact Hf. Qed.

Lemma returns_ret {A} (a : A) s : returns (mret a) s.
Proof. exists a, s. reflexivity. Qed.

(** A loop returns when every turn does and keeps what the turns need. *)
Lemma foldM_returns {A B} (body : B -> A -> M B) (I : B -> State -> Prop) l :
  (forall b a s, a ∈ l -> I b s -> exists b' s', body b a s = Ok b' s' /\ I b' s') ->
  forall b s, I b s -> exists b' s', foldM body l b s = Ok b' s' /\ I b' s'.
Proof.
  induction l as [|a l IH]; intros Hbody b s HI; simpl.
  - exists b, s. split; [reflexivity|exact HI].
  - destruct (Hbody b a s) as (b1 & s1 & Hstep & HI1); [left|exact HI|].
    destruct (IH (fun b a s Ha => Hbody b a s (list_elem_of_further _ _ _ Ha)) b1 s1 HI1)
      as (b' & s' & Hrest & HI').
    exists b', s'. split; [|exact HI'].
    rewrite (bind_run _ _ _ _ _ Hstep). exact Hrest.
Qed.

(** ** The drain of the material stack *)

Lemma drain_nil fuel mats s : drain_material_stack fuel [] mats s = Ok mats s.
Proof. destruct fuel; reflexivity. Qed.

Lemma drain_cons fuel m stack mats mo s :
  st_materials s !! m = Some mo ->
  drain_material_stack (S fuel) (m :: stack) mats s =
  drain_material_stack fuel (rev (CreateMaterialIterator mo) ++ stack)
    (StdSet.emplace m mats) s.
Proof.
  intros Hm. simpl. rewrite (bind_run _ _ _ _ _ (deref_run _ _ _ _ Hm)). reflexivity.
Qed.

Lemma drain_Ok_cons fuel m stack mats found s s' :
  drain_material_stack fuel (m :: stack) mats s = Ok found s' ->
  exists fuel1 mo,
    fuel = S fuel1 /\ st_materials s !! m = Some mo /\
    drain_material_stack fuel1 (rev (CreateMaterialIterator mo) ++ stack)
      (StdSet.emplace m mats) s = Ok found s'.
Proof.
  destruct fuel as [|fuel1]; simpl; [discriminate|]. intros H.
  apply bind_Ok in H. destruct H as (mo & s1 & Hmo & H).
  apply deref_Ok in Hmo. destruct Hmo as [Hmo ->].
  exists fuel1, mo. auto.
Qed.

(** More fuel does not change the result. *)
Lemma drain_mono fuel : forall material_stack mats found s s',
  drain_material_stack fuel material_stack mats s = Ok found s' ->
  forall fuel', (fuel <= fuel')%nat ->
    drain_material_stack fuel' material_stack mats s = Ok found s'.
Proof.
  induction fuel as [|fuel IH]; intros [|m stack] mats found s s' H fuel' Hle.
  - rewrite drain_nil in *. exact H.
  - discriminate H.
  - rewrite drain_nil in *. exact H.
  - apply drain_Ok_cons in H. destruct H as (fuel1 & mo & E & Hmo & H).
    injection E as <-.
    destruct fuel' as [|fuel']; [lia|].
    rewrite (drain_cons _ _ _ _ _ _ Hmo). apply (IH _ _ _ _ _ H). lia.
Qed.

(** The drain of [l1 ++ l2] is the drain of [l1] followed by the one of
    [l2]. *)
Lemma drain_app fuel1 : forall l1 mats found1 s s',
  drain_material_stack fuel1 l1 mats s = Ok found1 s' ->
  forall fuel2 l2, exists k,
    (k <= fuel1)%nat /\
    drain_material_stack (fuel1 + fuel2) (l1 ++ l2) mats s =
    drain_material_stack (fuel1 + fuel2 - k) l2 found1 s.
Proof.
  induction fuel1 as [|fuel1 IH]; intros [|m l1] mats found1 s s' H fuel2 l2.
  - rewrite drain_nil in H. injection H as <- <-. exists O.
    split; [lia|]. rewrite Nat.sub_0_r. reflexivity.
  - discriminate H.
  - rewrite drain_nil in H. injection H as <- <-. exists O.
    split; [lia|]. rewrite Nat.sub_0_r. reflexivity.
  - apply drain_Ok_cons in H. destruct H as (f & mo & E & Hmo & H).
    injection E as <-.
    destruct (IH _ _ _ _ _ H fuel2 l2) as (k & Hk & Hrun).
    exists (S k). split; [lia|].
    replace (S fuel1 + fuel2)%nat with (S (fuel1 + fuel2)) by lia.
    rewrite <- app_comm_cons, (drain_cons _ _ _ _ _ _ Hmo), app_assoc, Hrun.
    f_equal.
Qed.

Lemma drains_nil s : drains [] s.
Proof. exists O. intros fuel mats _. exists mats. apply drain_nil. Qed.

Lemma drains_app l1 l2 s : drains l1 s -> drains l2 s -> drains (l1 ++ l2) s.
Proof.
  intros [f1 H1] [f2 H2]. exists (f1 + f2)%nat. intros fuel mats Hle.
  destruct (H1 f1 mats (Nat.le_refl _)) as [found1 Hd1].
  destruct (drain_app _ _ _ _ _ _ Hd1 (fuel - f1)%nat l2) as (k & Hk & Hrun).
  replace (f1 + (fuel - f1))%nat with fuel in Hrun by lia.
  rewrite Hrun. apply H2. lia.
Qed.

Lemma drains_cons m mo s :
  st_materials s !! m = Some mo ->
  drains (rev (CreateMaterialIterator mo)) s -> drains [m] s.
Proof.
  intros Hm [f H]. exists (S f). intros fuel mats Hle.
  destruct fuel as [|fuel]; [lia|].
  rewrite (drain_cons _ _ _ _ _ _ Hm), app_nil_r. apply H. lia.
Qed.

Lemma drains_each l s : (forall a, a ∈ l -> drains [a] s) -> drains l s.
Proof.
  induction l as [|a l IH]; intros H; [apply drains_nil|].
  change (a :: l) with ([a] ++ l). apply drains_app.
  - apply H. left.
  - apply IH. intros b Hb. apply H. right. exact Hb.
Qed.

(** On a ranked heap every material drains. *)
Lemma drains_ranked rank s :
  ranked rank (st_materials s) ->
  forall n a, (rank a < n)%nat -> is_Some (st_materials s !! a) -> drains [a] s.
Proof.
  intros Hr. induction n as [|n IH]; intros a Hn [mo Hmo]; [lia|].
  apply (drains_cons _ mo); [exact Hmo|].
  apply drains_each. intros b Hb. rewrite elem_of_rev in Hb.
  destruct (Hr a mo b Hmo Hb) as [Hin Hlt].
  apply IH; [lia|exact Hin].
Qed.

(** ** The collection *)

Lemma Collect_cons c a iter (expand : addr -> M StdSet.t) found s s1 :
  expand a s = Ok found s1 ->
  Collect c (a :: iter) expand s = Collect (Collector.add c found) iter expand s1.
Proof.
  intros H. unfold Collect. cbn [foldM].
  assert (Hstep : (found ← expand a; mret (Collector.add c found)) s
                  = Ok (Collector.add c found) s1)
    by (rewrite (bind_run _ _ _ _ _ H); reflexivity).
  rewrite (bind_run _ _ _ _ _ Hstep). reflexivity.
Qed.

Lemma shape_materials_returns rank item sh s :
  ranked rank (st_materials s) ->
  st_shapes s !! item = Some sh ->
  is_Some (st_materials s !! material_of s sh) ->
  exists fuel0, forall fuel, (fuel0 <= fuel)%nat ->
    exists found, shape_materials fuel item s = Ok found s.
Proof.
  intros Hr Hsh Hmat.
  destruct (drains_ranked rank s Hr _ _ (Nat.lt_succ_diag_r _) Hmat) as [f Hf].
  exists f. intros fuel Hle.
  destruct (Hf fuel StdSet.empty Hle) as [found Hd].
  exists found. unfold shape_materials.
  rewrite (bind_run _ _ _ _ _ (deref_run _ _ _ _ Hsh)).
  unfold material_of in Hd, Hmat.
  destruct (shape_material sh) as [m|]; simpl in *; exact Hd.
Qed.

Lemma Collect_shape_materials_returns rank s :
  ranked rank (st_materials s) ->
  forall iter,
    (forall a, a ∈ iter ->
       exists sh, st_shapes s !! a = Some sh /\
                  is_Some (st_materials s !! material_of s sh)) ->
    exists fuel0, forall fuel c, (fuel0 <= fuel)%nat ->
      exists c', Collect c iter (shape_materials fuel) s = Ok c' s.
Proof.
  intros Hr. induction iter as [|a iter IH]; intros Hall.
  - exists O. intros fuel c _. exists c. reflexivity.
  - destruct (Hall a) as (sh & Hsh & Hmat); [left|].
    destruct (shape_materials_returns rank a sh s Hr Hsh Hmat) as [f1 H1].
    destruct IH as [f2 H2]; [intros b Hb; apply Hall; right; exact Hb|].
    exists (f1 `max` f2)%nat. intros fuel c Hle.
    destruct (H1 fuel) as [found Hf]; [lia|].
    destruct (H2 fuel (Collector.add c found)) as [c' Hc']; [lia|].
    exists c'. rewrite (Collect_cons _ _ _ _ _ _ _ Hf). exact Hc'.
Qed.

Lemma Collect_material_textures_returns s : forall iter c,
  (forall a, a ∈ iter -> is_Some (st_materials s !! a)) ->
  exists c', Collect c iter material_textures s = Ok c' s.
Proof.
  induction iter as [|a iter IH]; intros c Hall.
  - exists c. reflexivity.
  - destruct (Hall a) as [m Hm]; [left|].
    destruct (IH (Collector.add c
                    (foldr StdSet.emplace StdSet.empty (CreateTextureIterator m))))
      as [c' Hc']; [intros b Hb; apply Hall; right; exact Hb|].
    exists c'.
    rewrite (Collect_cons _ _ _ _
               (foldr StdSet.emplace StdSet.empty (CreateTextureIterator m)) s s);
      [exact Hc'|].
    unfold material_textures.
    rewrite (bind_run _ _ _ _ _ (deref_run _ _ _ _ Hm)). reflexivity.
Qed.

Lemma Collect_light_textures_returns s : forall iter c,
  (forall a, a ∈ iter -> is_Some (st_lights s !! a)) ->
  exists c', Collect c iter light_textures s = Ok c' s.
Proof.
  induction iter as [|a iter IH]; intros c Hall.
  - exists c. reflexivity.
  - destruct (Hall a) as [l Hl]; [left|].
    destruct (IH (Collector.add c
                    (foldr StdSet.emplace StdSet.empty (Light_CreateTextureIterator l))))
      as [c' Hc']; [intros b Hb; apply Hall; right; exact Hb|].
    exists c'.
    rewrite (Collect_cons _ _ _ _
               (foldr StdSet.emplace StdSet.empty (Light_CreateTextureIterator l)) s s);
      [exact Hc'|].
    unfold light_textures.
    rewrite (bind_run _ _ _ _ _ (deref_run _ _ _ _ Hl)). reflexivity.
Qed.

(** ** Writes that fit *)

Lemma copy_to_fits {A} off (src buf : list A) :
  (off + length src <= length buf)%nat ->
  exists buf', copy_to off src buf = Some buf' /\ length buf' = length buf.
Proof.
  intros H. unfold copy_to. rewrite decide_True by exact H.
  eexists. split; [reflexivity|].
  rewrite !length_app, length_take, length_drop. lia.
Qed.

Lemma store_at_fits {A} i (v : A) buf :
  (i < length buf)%nat ->
  exists buf', store_at i v buf = Some buf' /\ length buf' = length buf.
Proof.
  intros H. unfold store_at. rewrite decide_True by exact H.
  eexists. split; [reflexivity|]. apply length_insert.
Qed.

Lemma serialize_mesh_room a d t lp out v n u i m k :
  room lp out (GetNumVertices d + v) (GetNumNormals d + n) (GetNumUVs d + u)
    (GetNumIndices d + i) m (S k) ->
  exists lp1 out1,
    serialize_mesh a d t lp out = Some (lp1, out1) /\ room lp1 out1 v n u i m k.
Proof.
  intros (Hv & Hn & Hu & Hi & Hm & Hk). unfold serialize_mesh.
  destruct (copy_to_fits (num_vertices_written lp) (GetVertices d) (vertices out))
    as (bv & -> & Lv); [unfold GetNumVertices in Hv; lia|].
  destruct (copy_to_fits (num_normals_written lp) (GetNormals d) (normals out))
    as (bn & -> & Ln); [unfold GetNumNormals in Hn; lia|].
  destruct (copy_to_fits (num_uvs_written lp) (GetUVs d) (uvs out))
    as (bu & -> & Lu); [unfold GetNumUVs in Hu; lia|].
  destruct (copy_to_fits (num_indices_written lp) (int_indices d) (indices out))
    as (bi & -> & Li); [rewrite int_indices_length; lia|].
  destruct (store_at_fits (num_shapes_written lp) (mesh_record d t lp) (shapes out))
    as (bs & -> & Ls); [lia|].
  simpl. eexists _, _. split; [reflexivity|].
  unfold room. simpl. rewrite Lv, Ln, Lu, Li, Ls. repeat split; lia.
Qed.

Lemma fill_matids_room c x lp out v n u i m k :
  room lp out v n u i (c + m) k ->
  exists lp1 out1,
    fill_matids c x lp out = Some (lp1, out1) /\ room lp1 out1 v n u i m k.
Proof.
  intros (Hv & Hn & Hu & Hi & Hm & Hk). unfold fill_matids, fill_to.
  destruct (copy_to_fits (num_matids_written lp) (replicate c x) (materialids out))
    as (bm & -> & Lm); [rewrite length_replicate; lia|].
  simpl. eexists _, _. split; [reflexivity|].
  unfold room. simpl. rewrite Lm. repeat split; lia.
Qed.

Lemma serialize_instance_room shape lp out v n u i m k :
  room lp out v n u i m (S k) ->
  exists lp1 out1,
    serialize_instance shape lp out = Some (lp1, out1) /\ room lp1 out1 v n u i m k.
Proof.
  intros (Hv & Hn & Hu & Hi & Hm & Hk). unfold serialize_instance.
  destruct (store_at_fits (num_shapes_written lp) shape (shapes out))
    as (bs & -> & Ls); [lia|].
  simpl. eexists _, _. split; [reflexivity|].
  unfold room. simpl. rewrite Ls. repeat split; lia.
Qed.

Lemma room_shape_data lp out sd v n u i m k :
  room lp out v n u i m k ->
  room (mk_ShapesLoop (num_vertices_written lp) (num_normals_written lp)
          (num_uvs_written lp) (num_indices_written lp) (num_matids_written lp)
          (num_shapes_written lp) sd) out v n u i m k.
Proof. exact id. Qed.

Lemma shape_static_Some heap a k t m :
  shape_static heap a = Some (k, t, m) ->
  exists sh, heap !! a = Some sh /\ shape_kind sh = k /\
             shape_transform sh = t /\ shape_material sh = m.
Proof.
  unfold shape_static. destruct (heap !! a) as [sh|]; simpl; [|discriminate].
  intros H. injection H as <- <- <-. eauto.
Qed.

Lemma material_or_default_run material s :
  material_or_default material s = Ok (default (m_default_material s) material) s.
Proof. destruct material; reflexivity. Qed.

Lemma Shape_SetDirty_run a sh s :
  st_shapes s !! a = Some sh ->
  Shape_SetDirty a false s =
  Ok tt (set_st_shapes (<[a := clean_shape sh]> (st_shapes s)) s).
Proof.
  intros H. unfold Shape_SetDirty.
  rewrite (bind_run _ _ _ _ _ (deref_run _ _ _ _ H)). reflexivity.
Qed.

Lemma defined_run {A} (o : option A) a s : o = Some a -> defined o s = Ok a s.
Proof. intros ->. reflexivity. Qed.

Lemma get_out_run scene out s :
  m_scene_cache s !! scene = Some out -> get_out scene s = Ok out s.
Proof. apply deref_run. Qed.

(** ** One turn of each loop of the shapes pass *)

Section turns.
Variable scene : addr.
Variable mat_collector : Collector.t.

Lemma shapes_mesh_turn lp a s d t m idx out v n u i mm k :
  shape_static (st_shapes s) a = Some (Mesh d, t, m) ->
  Collector.GetItemIndex mat_collector (default (m_default_material s) m) = Some idx ->
  m_scene_cache s !! scene = Some out ->
  room lp out (GetNumVertices d + v) (GetNumNormals d + n) (GetNumUVs d + u)
    (GetNumIndices d + i) (GetNumIndices d / 3 + mm) (S k) ->
  exists lp' s' out',
    shapes_mesh scene mat_collector lp a s = Ok lp' s' /\
    static_eq s s' /\
    m_scene_cache s' !! scene = Some out' /\
    room lp' out' v n u i mm k.
Proof.
  intros Hst Hidx Hout Hroom.
  destruct (shape_static_Some _ _ _ _ _ Hst) as (sh & Hsh & Hk & <- & <-).
  assert (Hd : as_mesh sh = Some d) by (unfold as_mesh; rewrite Hk; reflexivity).
  destruct (serialize_mesh_room a d (shape_transform sh) lp out _ _ _ _ _ _ Hroom)
    as (lp1 & out1 & Hser & Hroom1).
  destruct (fill_matids_room (GetNumIndices d / 3) (index_to_int idx) lp1 out1
              _ _ _ _ _ _ Hroom1) as (lp2 & out2 & Hfill & Hroom2).
  exists lp2, (set_st_shapes (<[a := clean_shape sh]> (st_shapes s))
                 (set_m_scene_cache (<[scene := out2]> (m_scene_cache s)) s)), out2.
  split.
  { unfold shapes_mesh.
    rewrite (bind_run _ _ _ _ _ (deref_run _ _ _ _ Hsh)).
    rewrite (bind_run _ _ _ _ _ (defined_run _ _ _ Hd)).
    rewrite (bind_run _ _ _ _ _ (get_out_run _ _ _ Hout)).
    rewrite (bind_run _ _ _ _ _ (defined_run _ _ _ Hser)). cbn beta iota.
    rewrite (bind_run _ _ _ _ _ (material_or_default_run _ _)).
    rewrite (bind_run _ _ _ _ _ (defined_run _ _ _ Hidx)).
    rewrite (bind_run _ _ _ _ _ (defined_run _ _ _ Hfill)). cbn beta iota.
    rewrite (bind_run _ _ _ _ _ (update_out_run _ _ _ _ Hout)).
    erewrite bind_run by (apply Shape_SetDirty_run; exact Hsh).
    reflexivity. }
  split; [apply static_eq_clean; exact Hsh|].
  split; [apply lookup_insert_eq|exact Hroom2].
Qed.

Lemma shapes_excluded_turn lp a s d t m out v n u i mm k :
  shape_static (st_shapes s) a = Some (Mesh d, t, m) ->
  m_scene_cache s !! scene = Some out ->
  room lp out (GetNumVertices d + v) (GetNumNormals d + n) (GetNumUVs d + u)
    (GetNumIndices d + i) (GetNumIndices d / 3 + mm) (S k) ->
  exists lp' s' out',
    shapes_excluded scene lp a s = Ok lp' s' /\
    static_eq s s' /\
    m_scene_cache s' !! scene = Some out' /\
    room lp' out' v n u i mm k.
Proof.
  intros Hst Hout Hroom.
  destruct (shape_static_Some _ _ _ _ _ Hst) as (sh & Hsh & Hk & <- & <-).
  assert (Hd : as_mesh sh = Some d) by (unfold as_mesh; rewrite Hk; reflexivity).
  destruct (serialize_mesh_room a d (shape_transform sh) lp out _ _ _ _ _ _ Hroom)
    as (lp1 & out1 & Hser & Hroom1).
  destruct (fill_matids_room (GetNumIndices d / 3) (-1) lp1 out1
              _ _ _ _ _ _ Hroom1) as (lp2 & out2 & Hfill & Hroom2).
  exists lp2, (set_st_shapes (<[a := clean_shape sh]> (st_shapes s))
                 (set_m_scene_cache (<[scene := out2]> (m_scene_cache s)) s)), out2.
  split.
  { unfold shapes_excluded.
    rewrite (bind_run _ _ _ _ _ (deref_run _ _ _ _ Hsh)).
    rewrite (bind_run _ _ _ _ _ (defined_run _ _ _ Hd)).
    rewrite (bind_run _ _ _ _ _ (get_out_run _ _ _ Hout)).
    rewrite (bind_run _ _ _ _ _ (defined_run _ _ _ Hser)). cbn beta iota.
    rewrite (bind_run _ _ _ _ _ (defined_run _ _ _ Hfill)). cbn beta iota.
    rewrite (bind_run _ _ _ _ _ (update_out_run _ _ _ _ Hout)).
    erewrite bind_run by (apply Shape_SetDirty_run; exact Hsh).
    reflexivity. }
  split; [apply static_eq_clean; exact Hsh|].
  split; [apply lookup_insert_eq|exact Hroom2].
Qed.

Lemma shapes_instance_turn lp a s base t m bd idx out v n u i mm k :
  shape_static (st_shapes s) a = Some (Instance base, t, m) ->
  mesh_at (st_shapes s) base = Some bd ->
  Collector.GetItemIndex mat_collector (default (m_default_material s) m) = Some idx ->
  m_scene_cache s !! scene = Some out ->
  room lp out v n u i (GetNumIndices bd / 3 + mm) (S k) ->
  exists lp' s' out',
    shapes_instance scene mat_collector lp a s = Ok lp' s' /\
    static_eq s s' /\
    m_scene_cache s' !! scene = Some out' /\
    room lp' out' v n u i mm k.
Proof.
  intros Hst Hbase Hidx Hout Hroom.
  destruct (shape_static_Some _ _ _ _ _ Hst) as (sh & Hsh & Hk & <- & <-).
  assert (Hb : GetBaseShape sh = Some base)
    by (unfold GetBaseShape; rewrite Hk; reflexivity).
  destruct (mesh_at_inv _ _ _ Hbase) as (b & Hbs & Hbd).
  unfold shapes_instance.
  rewrite (bind_run _ _ _ _ _ (deref_run _ _ _ _ Hsh)).
  rewrite (bind_run _ _ _ _ _ (defined_run _ _ _ Hb)).
  rewrite (bind_run _ _ _ _ _ (deref_run _ _ _ _ Hbs)).
  rewrite (bind_run _ _ _ _ _ (defined_run _ _ _ Hbd)).
  destruct (shape_data_at base lp) as [shape lp0] eqn:Hsd.
  assert (Hroom0 : room lp0 out v n u i (GetNumIndices bd / 3 + mm) (S k)).
  { unfold shape_data_at in Hsd.
    destruct (shape_data lp !! base); injection Hsd as <- <-; exact Hroom. }
  rewrite (bind_run _ _ _ _ _ (get_out_run _ _ _ Hout)).
  destruct (serialize_instance_room (instance_record shape (shape_transform sh) lp0)
              lp0 out _ _ _ _ _ _ Hroom0) as (lp1 & out1 & Hser & Hroom1).
  destruct (fill_matids_room (GetNumIndices bd / 3) (index_to_int idx) lp1 out1
              _ _ _ _ _ _ Hroom1) as (lp2 & out2 & Hfill & Hroom2).
  exists lp2, (set_st_shapes (<[a := clean_shape sh]> (st_shapes s))
                 (set_m_scene_cache (<[scene := out2]> (m_scene_cache s)) s)), out2.
  split.
  { rewrite (bind_run _ _ _ _ _ (defined_run _ _ _ Hser)). cbn beta iota.
    rewrite (bind_run _ _ _ _ _ (material_or_default_run _ _)).
    rewrite (bind_run _ _ _ _ _ (defined_run _ _ _ Hidx)).
    rewrite (bind_run _ _ _ _ _ (defined_run _ _ _ Hfill)). cbn beta iota.
    rewrite (bind_run _ _ _ _ _ (update_out_run _ _ _ _ Hout)).
    erewrite bind_run by (apply Shape_SetDirty_run; exact Hsh).
    reflexivity. }
  split; [apply static_eq_clean; exact Hsh|].
  split; [apply lookup_insert_eq|exact Hroom2].
Qed.

End turns.

(** ** The loops of the shapes pass *)

Lemma sum_list_cons x l : sum_list (x :: l) = (x + sum_list l)%nat.
Proof. reflexivity. Qed.

Lemma pool_of_static {A} (g : MeshData -> list A) heap a d t m :
  shape_static heap a = Some (Mesh d, t, m) -> pool_of g heap a = length (g d).
Proof. intros H. unfold pool_of, mesh_at. rewrite H. reflexivity. Qed.

Lemma prims_of_static_mesh heap a d t m :
  shape_static heap a = Some (Mesh d, t, m) -> prims_of heap a = (GetNumIndices d / 3)%nat.
Proof. intros H. unfold prims_of, geometry_at. rewrite H. reflexivity. Qed.

Lemma prims_of_static_instance heap a base t m bd :
  shape_static heap a = Some (Instance base, t, m) -> mesh_at heap base = Some bd ->
  prims_of heap a = (GetNumIndices bd / 3)%nat.
Proof. intros H Hb. unfold prims_of, geometry_at. rewrite H, Hb. reflexivity. Qed.

Section loops.
Variable scene : addr.
Variable mat_collector : Collector.t.
Variable s0 : State.

Lemma shapes_mesh_loop_returns : forall l lp s out v n u i mm k,
  (forall a, a ∈ l ->
     exists d t m idx,
       shape_static (st_shapes s0) a = Some (Mesh d, t, m) /\
       Collector.GetItemIndex mat_collector (default (m_default_material s0) m)
         = Some idx) ->
  static_eq s0 s ->
  m_scene_cache s !! scene = Some out ->
  room lp out (need GetVertices (st_shapes s0) l + v) (need GetNormals (st_shapes s0) l + n)
    (need GetUVs (st_shapes s0) l + u) (need GetIndices (st_shapes s0) l + i)
    (sum_list (prims_of (st_shapes s0) <$> l) + mm) (length l + k) ->
  exists lp' s' out',
    foldM (shapes_mesh scene mat_collector) l lp s = Ok lp' s' /\
    static_eq s0 s' /\
    m_scene_cache s' !! scene = Some out' /\
    room lp' out' v n u i mm k.
Proof.
  induction l as [|a l IH]; intros lp s out v n u i mm k Hall Heq Hout Hroom.
  - exists lp, s, out. split; [reflexivity|]. auto.
  - destruct (Hall a) as (d & t & m & idx & Hst & Hidx); [left|].
    destruct Heq as [Hs Hd].
    destruct (shapes_mesh_turn scene mat_collector lp a s d t m idx out
                (need GetVertices (st_shapes s0) l + v) (need GetNormals (st_shapes s0) l + n)
                (need GetUVs (st_shapes s0) l + u) (need GetIndices (st_shapes s0) l + i)
                (sum_list (prims_of (st_shapes s0) <$> l) + mm) (length l + k))
      as (lp1 & s1 & out1 & Hrun & Heq1 & Hout1 & Hroom1).
    + rewrite Hs. exact Hst.
    + rewrite Hd. exact Hidx.
    + exact Hout.
    + unfold need in *. rewrite !fmap_cons in Hroom. rewrite !sum_list_cons in Hroom. cbn [length] in Hroom.
      rewrite !(pool_of_static _ _ _ _ _ _ Hst) in Hroom.
      rewrite (prims_of_static_mesh _ _ _ _ _ Hst) in Hroom.
      unfold room, GetNumVertices, GetNumNormals, GetNumUVs, GetNumIndices in *.
      repeat split; lia.
    + destruct (IH lp1 s1 out1 v n u i mm k) as (lp' & s' & out' & Hrest & H');
        [intros b Hb; apply Hall; right; exact Hb
        |eapply static_eq_trans; [split; eassumption|exact Heq1]
        |exact Hout1|exact Hroom1|].
      exists lp', s', out'. split; [|exact H'].
      cbn [foldM]. rewrite (bind_run _ _ _ _ _ Hrun). exact Hrest.
Qed.

Lemma shapes_excluded_loop_returns : forall l lp s out v n u i mm k,
  (forall a, a ∈ l -> exists d t m, shape_static (st_shapes s0) a = Some (Mesh d, t, m)) ->
  static_eq s0 s ->
  m_scene_cache s !! scene = Some out ->
  room lp out (need GetVertices (st_shapes s0) l + v) (need GetNormals (st_shapes s0) l + n)
    (need GetUVs (st_shapes s0) l + u) (need GetIndices (st_shapes s0) l + i)
    (sum_list (prims_of (st_shapes s0) <$> l) + mm) (length l + k) ->
  exists lp' s' out',
    foldM (shapes_excluded scene) l lp s = Ok lp' s' /\
    static_eq s0 s' /\
    m_scene_cache s' !! scene = Some out' /\
    room lp' out' v n u i mm k.
Proof.
  induction l as [|a l IH]; intros lp s out v n u i mm k Hall Heq Hout Hroom.
  - exists lp, s, out. split; [reflexivity|]. auto.
  - destruct (Hall a) as (d & t & m & Hst); [left|].
    destruct Heq as [Hs Hd].
    destruct (shapes_excluded_turn scene lp a s d t m out
                (need GetVertices (st_shapes s0) l + v) (need GetNormals (st_shapes s0) l + n)
                (need GetUVs (st_shapes s0) l + u) (need GetIndices (st_shapes s0) l + i)
                (sum_list (prims_of (st_shapes s0) <$> l) + mm) (length l + k))
      as (lp1 & s1 & out1 & Hrun & Heq1 & Hout1 & Hroom1).
    + rewrite Hs. exact Hst.
    + exact Hout.
    + unfold need in *. rewrite !fmap_cons in Hroom. rewrite !sum_list_cons in Hroom. cbn [length] in Hroom.
      rewrite !(pool_of_static _ _ _ _ _ _ Hst) in Hroom.
      rewrite (prims_of_static_mesh _ _ _ _ _ Hst) in Hroom.
      unfold room, GetNumVertices, GetNumNormals, GetNumUVs, GetNumIndices in *.
      repeat split; lia.
    + destruct (IH lp1 s1 out1 v n u i mm k) as (lp' & s' & out' & Hrest & H');
        [intros b Hb; apply Hall; right; exact Hb
        |eapply static_eq_trans; [split; eassumption|exact Heq1]
        |exact Hout1|exact Hroom1|].
      exists lp', s', out'. split; [|exact H'].
      cbn [foldM]. rewrite (bind_run _ _ _ _ _ Hrun). exact Hrest.
Qed.

Lemma shapes_instance_loop_returns : forall l lp s out v n u i mm k,
  (forall a, a ∈ l ->
     exists base t m bd idx,
       shape_static (st_shapes s0) a = Some (Instance base, t, m) /\
       mesh_at (st_shapes s0) base = Some bd /\
       Collector.GetItemIndex mat_collector (default (m_default_material s0) m)
         = Some idx) ->
  static_eq s0 s ->
  m_scene_cache s !! scene = Some out ->
  room lp out v n u i (sum_list (prims_of (st_shapes s0) <$> l) + mm) (length l + k) ->
  exists lp' s' out',
    foldM (shapes_instance scene mat_collector) l lp s = Ok lp' s' /\
    static_eq s0 s' /\
    m_scene_cache s' !! scene = Some out' /\
    room lp' out' v n u i mm k.
Proof.
  induction l as [|a l IH]; intros lp s out v n u i mm k Hall Heq Hout Hroom.
  - exists lp, s, out. split; [reflexivity|]. auto.
  - destruct (Hall a) as (base & t & m & bd & idx & Hst & Hbase & Hidx); [left|].
    destruct Heq as [Hs Hd].
    destruct (shapes_instance_turn scene mat_collector lp a s base t m bd idx out
                v n u i (sum_list (prims_of (st_shapes s0) <$> l) + mm) (length l + k))
      as (lp1 & s1 & out1 & Hrun & Heq1 & Hout1 & Hroom1).
    + rewrite Hs. exact Hst.
    + rewrite (mesh_at_ext _ _ Hs). exact Hbase.
    + rewrite Hd. exact Hidx.
    + exact Hout.
    + rewrite !fmap_cons in Hroom. rewrite !sum_list_cons in Hroom. cbn [length] in Hroom.
      rewrite (prims_of_static_instance _ _ _ _ _ _ Hst Hbase) in Hroom.
      unfold room in *. repeat split; lia.
    + destruct (IH lp1 s1 out1 v n u i mm k) as (lp' & s' & out' & Hrest & H');
        [intros b Hb; apply Hall; right; exact Hb
        |eapply static_eq_trans; [split; eassumption|exact Heq1]
        |exact Hout1|exact Hroom1|].
      exists lp', s', out'. split; [|exact H'].
      cbn [foldM]. rewrite (bind_run _ _ _ _ _ Hrun). exact Hrest.
Qed.

End loops.

(** ** The counting loops *)

Lemma count_mesh_turn sz a s sh d :
  st_shapes s !! a = Some sh -> as_mesh sh = Some d ->
  count_mesh sz a s =
  Ok (mk_ShapeSizes
        (num_vertices sz + GetNumVertices d)
        (num_normals sz + GetNumNormals d)
        (num_uvs sz + GetNumUVs d)
        (num_indices sz + GetNumIndices d)
        (num_material_ids sz + GetNumIndices d / 3)) s.
Proof.
  intros Hsh Hd. unfold count_mesh.
  rewrite (bind_run _ _ _ _ _ (deref_run _ _ _ _ Hsh)).
  rewrite (bind_run _ _ _ _ _ (defined_run _ _ _ Hd)). reflexivity.
Qed.

Lemma count_instance_turn sz a s sh base b bd :
  st_shapes s !! a = Some sh -> GetBaseShape sh = Some base ->
  st_shapes s !! base = Some b -> as_mesh b = Some bd ->
  count_instance sz a s =
  Ok (mk_ShapeSizes (num_vertices sz) (num_normals sz) (num_uvs sz) (num_indices sz)
        (num_material_ids sz + GetNumIndices bd / 3)) s.
Proof.
  intros Hsh Hb Hbs Hbd. unfold count_instance.
  rewrite (bind_run _ _ _ _ _ (deref_run _ _ _ _ Hsh)).
  rewrite (bind_run _ _ _ _ _ (defined_run _ _ _ Hb)).
  rewrite (bind_run _ _ _ _ _ (deref_run _ _ _ _ Hbs)).
  rewrite (bind_run _ _ _ _ _ (defined_run _ _ _ Hbd)). reflexivity.
Qed.

Lemma count_mesh_run : forall l sz s,
  (forall a, a ∈ l -> is_Some (mesh_at (st_shapes s) a)) ->
  foldM count_mesh l sz s =
  Ok (mk_ShapeSizes
        (num_vertices sz + need GetVertices (st_shapes s) l)
        (num_normals sz + need GetNormals (st_shapes s) l)
        (num_uvs sz + need GetUVs (st_shapes s) l)
        (num_indices sz + need GetIndices (st_shapes s) l)
        (num_material_ids sz + sum_list (prims_of (st_shapes s) <$> l))) s.
Proof.
  induction l as [|a l IH]; intros sz s Hall.
  - unfold need. simpl. rewrite !Nat.add_0_r. destruct sz. reflexivity.
  - destruct (Hall a) as [d Hd]; [left|].
    destruct (mesh_at_inv _ _ _ Hd) as (sh & Hsh & Hm).
    destruct (mesh_at_static_inv _ _ _ Hd) as (t & m & Hst).
    cbn [foldM]. rewrite (bind_run _ _ _ _ _ (count_mesh_turn sz _ _ _ _ Hsh Hm)).
    rewrite IH by (intros b Hb; apply Hall; right; exact Hb).
    unfold need. rewrite !fmap_cons, !sum_list_cons.
    rewrite !(pool_of_static _ _ _ _ _ _ Hst), (prims_of_static_mesh _ _ _ _ _ Hst).
    unfold GetNumVertices, GetNumNormals, GetNumUVs, GetNumIndices. simpl.
    f_equal. f_equal; lia.
Qed.

Lemma count_instance_run : forall l sz s,
  (forall a, a ∈ l ->
     exists base t m bd,
       shape_static (st_shapes s) a = Some (Instance base, t, m) /\
       mesh_at (st_shapes s) base = Some bd) ->
  foldM count_instance l sz s =
  Ok (mk_ShapeSizes (num_vertices sz) (num_normals sz) (num_uvs sz) (num_indices sz)
        (num_material_ids sz + sum_list (prims_of (st_shapes s) <$> l))) s.
Proof.
  induction l as [|a l IH]; intros sz s Hall.
  - simpl. rewrite !Nat.add_0_r. destruct sz. reflexivity.
  - destruct (Hall a) as (base & t & m & bd & Hst & Hbase); [left|].
    destruct (shape_static_Some _ _ _ _ _ Hst) as (sh & Hsh & Hk & _).
    assert (Hb : GetBaseShape sh = Some base)
      by (unfold GetBaseShape; rewrite Hk; reflexivity).
    destruct (mesh_at_inv _ _ _ Hbase) as (b & Hbs & Hbd).
    cbn [foldM].
    rewrite (bind_run _ _ _ _ _ (count_instance_turn sz _ _ _ _ _ _ Hsh Hb Hbs Hbd)).
    rewrite IH by (intros x Hx; apply Hall; right; exact Hx).
    rewrite !fmap_cons, !sum_list_cons.
    rewrite (prims_of_static_instance _ _ _ _ _ _ Hst Hbase). simpl.
    f_equal. f_equal; lia.
Qed.

(** ** The shapes pass returns *)

Lemma need_app {A} (g : MeshData -> list A) heap l1 l2 :
  need g heap (l1 ++ l2) = (need g heap l1 + need g heap l2)%nat.
Proof. unfold need. rewrite fmap_app. apply sum_list_with_app. Qed.

Lemma device_run o s : device o s = Ok tt (set_m_context (m_context s ++ [o]) s).
Proof. reflexivity. Qed.

(** On a well-formed scene graph the shapes pass returns: every shape of
    the partition is in the store, the excluded meshes are meshes, an
    instance has a mesh as its base, and the materials of the meshes and of
    the instances are collected. *)
Lemma UpdateShapes_returns scene mat_collector tex_collector s sc out p :
  st_scenes s !! scene = Some sc ->
  m_scene_cache s !! scene = Some out ->
  SplitMeshesAndInstances (st_shapes s) (scene_shapes sc) = Some p ->
  (forall a, a ∈ meshes p ->
     exists d t m idx,
       shape_static (st_shapes s) a = Some (Mesh d, t, m) /\
       Collector.GetItemIndex mat_collector (default (m_default_material s) m)
         = Some idx) ->
  (forall a, a ∈ excluded_meshes p ->
     exists d t m, shape_static (st_shapes s) a = Some (Mesh d, t, m)) ->
  (forall a, a ∈ instances p ->
     exists base t m bd idx,
       shape_static (st_shapes s) a = Some (Instance base, t, m) /\
       mesh_at (st_shapes s) base = Some bd /\
       Collector.GetItemIndex mat_collector (default (m_default_material s) m)
         = Some idx) ->
  returns (UpdateShapes scene mat_collector tex_collector) s.
Proof.
  intros Hsc Hout Hp Hm He Hi.
  assert (Hcm : forall a, a ∈ meshes p -> is_Some (mesh_at (st_shapes s) a)).
  { intros a Ha. destruct (Hm a Ha) as (d & t & m & idx & Hst & _).
    exists d. exact (mesh_at_static _ _ _ _ _ Hst). }
  assert (Hce : forall a, a ∈ excluded_meshes p -> is_Some (mesh_at (st_shapes s) a)).
  { intros a Ha. destruct (He a Ha) as (d & t & m & Hst).
    exists d. exact (mesh_at_static _ _ _ _ _ Hst). }
  assert (Hci : forall a, a ∈ instances p ->
            exists base t m bd,
              shape_static (st_shapes s) a = Some (Instance base, t, m) /\
              mesh_at (st_shapes s) base = Some bd).
  { intros a Ha. destruct (Hi a Ha) as (base & t & m & bd & idx & Hst & Hb & _).
    eauto 6. }
  unfold returns, UpdateShapes, CreateShapeIterator.
  rewrite (bind_run _ _ s (scene_shapes sc) s)
    by (rewrite (bind_run _ _ _ _ _ (deref_run _ _ _ _ Hsc)); reflexivity).
  rewrite (bind_run _ _ s p s) by (unfold split_scene; rewrite Hp; reflexivity).
  rewrite (bind_run _ _ _ _ _ (count_mesh_run _ _ _ Hcm)).
  rewrite (bind_run _ _ _ _ _ (count_mesh_run _ _ _ Hce)).
  rewrite (bind_run _ _ _ _ _ (count_instance_run _ _ _ Hci)).
  cbn [num_vertices num_normals num_uvs num_indices num_material_ids].
  rewrite !Nat.add_0_l.
  set (nv := (need GetVertices (st_shapes s) (meshes p)
              + need GetVertices (st_shapes s) (excluded_meshes p))%nat).
  set (nn := (need GetNormals (st_shapes s) (meshes p)
              + need GetNormals (st_shapes s) (excluded_meshes p))%nat).
  set (nu := (need GetUVs (st_shapes s) (meshes p)
              + need GetUVs (st_shapes s) (excluded_meshes p))%nat).
  set (ni := (need GetIndices (st_shapes s) (meshes p)
              + need GetIndices (st_shapes s) (excluded_meshes p))%nat).
  set (nm := (sum_list (prims_of (st_shapes s) <$> meshes p)
              + sum_list (prims_of (st_shapes s) <$> excluded_meshes p)
              + sum_list (prims_of (st_shapes s) <$> instances p))%nat).
  set (ns := (StdSet.size (meshes p) + StdSet.size (excluded_meshes p)
              + StdSet.size (instances p))%nat).
  set (out_c := with_materialids (fresh_buffer nm)
                  (with_shapes (fresh_buffer ns)
                    (with_indices (fresh_buffer ni)
                      (with_uvs (fresh_buffer nu)
                        (with_normals (fresh_buffer nn)
                          (with_vertices (fresh_buffer nv) out)))))).
  set (ops := m_context s ++
              take 12 (shapes_pass_ops nv nn nu ni ns nm)).
  set (sA := set_m_context ops
               (set_m_scene_cache (<[scene := out_c]> (m_scene_cache s)) s)).
  assert (HsA : forall (k : M unit),
            (device (CreateBuffer BufVertices nv);;
             update_out scene (with_vertices (fresh_buffer nv));;
             device (CreateBuffer BufNormals nn);;
             update_out scene (with_normals (fresh_buffer nn));;
             device (CreateBuffer BufUVs nu);;
             update_out scene (with_uvs (fresh_buffer nu));;
             device (CreateBuffer BufIndices ni);;
             update_out scene (with_indices (fresh_buffer ni));;
             device (CreateBuffer BufShapes ns);;
             update_out scene (with_shapes (fresh_buffer ns));;
             device (CreateBuffer BufMaterialIds nm);;
             update_out scene (with_materialids (fresh_buffer nm));;
             device (MapBuffer BufVertices);;
             device (MapBuffer BufNormals);;
             device (MapBuffer BufUVs);;
             device (MapBuffer BufIndices);;
             device (MapBuffer BufMaterialIds);;
             device (MapBuffer BufShapes);; k) s = k sA).
  { intros k. rewrite (canonical_state s) at 1.
    repeat first
      [ erewrite bind_run by apply device_canonical
      | erewrite bind_run
          by (apply update_out_canonical; first [exact Hout|apply lookup_insert_eq]) ].
    f_equal. subst sA ops out_c. rewrite !insert_insert_eq, <- !app_assoc. reflexivity. }
  rewrite HsA. clear HsA.
  assert (HoutA : m_scene_cache sA !! scene = Some out_c)
    by (subst sA; apply lookup_insert_eq).
  assert (HeqA : static_eq s sA) by (split; reflexivity).
  assert (Hroom : room shapes_loop_start out_c
            (need GetVertices (st_shapes s) (meshes p)
             + (need GetVertices (st_shapes s) (excluded_meshes p) + 0))
            (need GetNormals (st_shapes s) (meshes p)
             + (need GetNormals (st_shapes s) (excluded_meshes p) + 0))
            (need GetUVs (st_shapes s) (meshes p)
             + (need GetUVs (st_shapes s) (excluded_meshes p) + 0))
            (need GetIndices (st_shapes s) (meshes p)
             + (need GetIndices (st_shapes s) (excluded_meshes p) + 0))
            (sum_list (prims_of (st_shapes s) <$> meshes p)
             + (sum_list (prims_of (st_shapes s) <$> excluded_meshes p)
                + (sum_list (prims_of (st_shapes s) <$> instances p) + 0)))
            (length (meshes p)
             + (length (excluded_meshes p) + (length (instances p) + 0)))).
  { unfold room, out_c. simpl. rewrite !fresh_buffer_length.
    subst nv nn nu ni nm ns. unfold StdSet.size. repeat split; lia. }
  clearbody sA out_c.
  destruct (shapes_mesh_loop_returns scene mat_collector s (meshes p)
              shapes_loop_start sA out_c _ _ _ _ _ _ Hm HeqA HoutA Hroom)
    as (lp1 & s1 & out1 & Hrun1 & Heq1 & Hout1 & Hroom1).
  destruct (shapes_excluded_loop_returns scene s (excluded_meshes p)
              lp1 s1 out1 _ _ _ _ _ _ He Heq1 Hout1 Hroom1)
    as (lp2 & s2 & out2 & Hrun2 & Heq2 & Hout2 & Hroom2).
  destruct (shapes_instance_loop_returns scene mat_collector s (instances p)
              lp2 s2 out2 _ _ _ _ _ _ Hi Heq2 Hout2 Hroom2)
    as (lp3 & s3 & out3 & Hrun3 & _).
  rewrite (bind_run _ _ _ _ _ Hrun1), (bind_run _ _ _ _ _ Hrun2),
    (bind_run _ _ _ _ _ Hrun3).
  eexists tt, _.
  do 5 (erewrite bind_run by apply device_run).
  apply device_run.
Qed.

(** ** The intersector pass returns *)

Section isect_turns.

Variable scene : addr.

Lemma handle_step_inv visible a id heap s s' :
  handle_step visible scene a id s s' -> isect_inv scene heap s -> isect_inv scene heap s'.
Proof.
  intros (out & out' & rsh & _ & Hout' & _ & _ & _ & _ & _ & _ & _ & Hsh & _) [Hh _].
  split; [congruence|eauto].
Qed.

Lemma isect_mesh_returns st a s d t m :
  shape_static (st_shapes s) a = Some (Mesh d, t, m) ->
  is_Some (m_scene_cache s !! scene) ->
  returns (isect_mesh scene st a) s.
Proof.
  intros Hst [out Hout]. destruct st as [id rr].
  destruct (shape_static_Some _ _ _ _ _ Hst) as (sh & Hsh & Hk & _).
  assert (Hd : as_mesh sh = Some d) by (unfold as_mesh; rewrite Hk; reflexivity).
  unfold returns, isect_mesh, create_mesh_shape, SetTransform, SetId, api_shape,
    update_api, api_create, push_isect, push_visible, update_out, get_out, deref,
    modify, mbind, M_bind, defined, mret, M_ret.
  rewrite Hsh. cbn beta iota. rewrite Hd. cbn beta iota zeta.
  cbn [m_api set_m_api api_shapes api_next]. rewrite lookup_insert_eq.
  cbn beta iota zeta. cbn [m_api set_m_api api_shapes api_next].
  rewrite lookup_insert_eq. cbn beta iota zeta.
  cbn [m_scene_cache set_m_api set_m_scene_cache]. rewrite Hout.
  cbn beta iota zeta. cbn [m_scene_cache set_m_api set_m_scene_cache].
  rewrite lookup_insert_eq. cbn beta iota zeta. eauto.
Qed.

Lemma isect_excluded_returns st a s d t m :
  shape_static (st_shapes s) a = Some (Mesh d, t, m) ->
  is_Some (m_scene_cache s !! scene) ->
  returns (isect_excluded scene st a) s.
Proof.
  intros Hst [out Hout]. destruct st as [id rr].
  destruct (shape_static_Some _ _ _ _ _ Hst) as (sh & Hsh & Hk & _).
  assert (Hd : as_mesh sh = Some d) by (unfold as_mesh; rewrite Hk; reflexivity).
  unfold returns, isect_excluded, create_mesh_shape, SetTransform, SetId, api_shape,
    update_api, api_create, push_isect, update_out, get_out, deref,
    modify, mbind, M_bind, defined, mret, M_ret.
  rewrite Hsh. cbn beta iota. rewrite Hd. cbn beta iota zeta.
  cbn [m_api set_m_api api_shapes api_next]. rewrite lookup_insert_eq.
  cbn beta iota zeta. cbn [m_api set_m_api api_shapes api_next].
  rewrite lookup_insert_eq. cbn beta iota zeta.
  cbn [m_scene_cache set_m_api set_m_scene_cache]. rewrite Hout.
  cbn beta iota zeta. eauto.
Qed.

Lemma isect_instance_returns st a s base t m :
  shape_static (st_shapes s) a = Some (Instance base, t, m) ->
  is_Some (m_scene_cache s !! scene) ->
  returns (isect_instance scene st a) s.
Proof.
  intros Hst [out Hout]. destruct st as [id rr].
  destruct (shape_static_Some _ _ _ _ _ Hst) as (sh & Hsh & Hk & _).
  assert (Hb : GetBaseShape sh = Some base)
    by (unfold GetBaseShape; rewrite Hk; reflexivity).
  unfold returns, isect_instance, SetTransform, SetId, api_shape,
    update_api, api_create, push_isect, push_visible, update_out, get_out, deref,
    modify, mbind, M_bind, defined, mret, M_ret.
  rewrite Hsh. cbn beta iota. rewrite Hb. cbn beta iota zeta.
  cbn [m_api set_m_api api_shapes api_next]. rewrite lookup_insert_eq.
  cbn beta iota zeta. cbn [m_api set_m_api api_shapes api_next].
  rewrite lookup_insert_eq. cbn beta iota zeta.
  cbn [m_scene_cache set_m_api set_m_scene_cache]. rewrite Hout.
  cbn beta iota zeta. cbn [m_scene_cache set_m_api set_m_scene_cache].
  rewrite lookup_insert_eq. cbn beta iota zeta. eauto.
Qed.

Lemma isect_mesh_loop_returns heap l :
  (forall a, a ∈ l -> exists d t m, shape_static heap a = Some (Mesh d, t, m)) ->
  forall st s, isect_inv scene heap s ->
    exists st' s', foldM (isect_mesh scene) l st s = Ok st' s' /\ isect_inv scene heap s'.
Proof.
  intros Hall st s Hinv.
  apply (foldM_returns (isect_mesh scene) (fun _ s => isect_inv scene heap s)); [|exact Hinv].
  intros [id rr] a s1 Ha Hinv1. destruct (Hall a Ha) as (d & t & m & Hst).
  destruct Hinv1 as [Hh Hc].
  destruct (isect_mesh_returns (id, rr) a s1 d t m) as (st' & s' & Hrun);
    [rewrite Hh; exact Hst|exact Hc|].
  exists st', s'. split; [exact Hrun|].
  apply isect_mesh_step in Hrun. destruct Hrun as [_ Hstep].
  exact (handle_step_inv _ _ _ _ _ _ Hstep (conj Hh Hc)).
Qed.

Lemma isect_excluded_loop_returns heap l :
  (forall a, a ∈ l -> exists d t m, shape_static heap a = Some (Mesh d, t, m)) ->
  forall st s, isect_inv scene heap s ->
    exists st' s', foldM (isect_excluded scene) l st s = Ok st' s' /\ isect_inv scene heap s'.
Proof.
  intros Hall st s Hinv.
  apply (foldM_returns (isect_excluded scene) (fun _ s => isect_inv scene heap s));
    [|exact Hinv].
  intros [id rr] a s1 Ha Hinv1. destruct (Hall a Ha) as (d & t & m & Hst).
  destruct Hinv1 as [Hh Hc].
  destruct (isect_excluded_returns (id, rr) a s1 d t m) as (st' & s' & Hrun);
    [rewrite Hh; exact Hst|exact Hc|].
  exists st', s'. split; [exact Hrun|].
  apply isect_excluded_step in Hrun. destruct Hrun as [_ Hstep].
  exact (handle_step_inv _ _ _ _ _ _ Hstep (conj Hh Hc)).
Qed.

Lemma isect_instance_loop_returns heap l :
  (forall a, a ∈ l -> exists base t m, shape_static heap a = Some (Instance base, t, m)) ->
  forall st s, isect_inv scene heap s ->
    exists st' s', foldM (isect_instance scene) l st s = Ok st' s' /\ isect_inv scene heap s'.
Proof.
  intros Hall st s Hinv.
  apply (foldM_returns (isect_instance scene) (fun _ s => isect_inv scene heap s));
    [|exact Hinv].
  intros [id rr] a s1 Ha Hinv1. destruct (Hall a Ha) as (base & t & m & Hst).
  destruct Hinv1 as [Hh Hc].
  destruct (isect_instance_returns (id, rr) a s1 base t m) as (st' & s' & Hrun);
    [rewrite Hh; exact Hst|exact Hc|].
  exists st', s'. split; [exact Hrun|].
  apply isect_instance_step in Hrun. destruct Hrun as [_ Hstep].
  exact (handle_step_inv _ _ _ _ _ _ Hstep (conj Hh Hc)).
Qed.

End isect_turns.

(** On a cached scene with shapes whose partition the shapes pass accepts,
    the intersector pass returns. *)
Lemma UpdateIntersector_returns scene s sc out p :
  st_scenes s !! scene = Some sc ->
  m_scene_cache s !! scene = Some out ->
  scene_shapes sc <> [] ->
  SplitMeshesAndInstances (st_shapes s) (scene_shapes sc) = Some p ->
  (forall a, a ∈ meshes p ++ excluded_meshes p ->
     exists d t m, shape_static (st_shapes s) a = Some (Mesh d, t, m)) ->
  (forall a, a ∈ instances p ->
     exists base t m, shape_static (st_shapes s) a = Some (Instance base, t, m)) ->
  returns (UpdateIntersector scene) s.
Proof.
  intros Hsc Hout Hne Hp Hm Hi. unfold returns, UpdateIntersector.
  rewrite (bind_run _ _ _ _ _ (get_out_run _ _ _ Hout)).
  rewrite (bind_run _ _ _ _ _ (detach_delete_run _ _)).
  erewrite bind_run by (apply update_out_run; exact Hout).
  erewrite bind_run by (apply update_out_run; apply lookup_insert_eq).
  match goal with
  | |- exists a s', _ ?s1 = _ => set (sA := s1)
  end.
  assert (HscA : st_scenes sA !! scene = Some sc) by exact Hsc.
  assert (Hinv : isect_inv scene (st_shapes s) sA).
  { split; [reflexivity|]. eexists. apply lookup_insert_eq. }
  clearbody sA.
  unfold CreateShapeIterator.
  rewrite (bind_run _ _ sA (scene_shapes sc) sA)
    by (rewrite (bind_run _ _ _ _ _ (deref_run _ _ _ _ HscA)); reflexivity).
  destruct (scene_shapes sc) as [|a0 rest] eqn:Hshapes; [contradiction Hne; reflexivity|].
  destruct Hinv as [Hh Hc].
  rewrite (bind_run _ _ sA p sA)
    by (unfold split_scene; rewrite Hh, Hp; reflexivity).
  destruct (isect_mesh_loop_returns scene (st_shapes s) (meshes p)
              (fun a Ha => Hm a (proj2 (elem_of_app _ _ _) (or_introl Ha)))
              (1, ∅) sA (conj Hh Hc)) as (st1 & s1 & Hrun1 & Hinv1).
  destruct (isect_excluded_loop_returns scene (st_shapes s) (excluded_meshes p)
              (fun a Ha => Hm a (proj2 (elem_of_app _ _ _) (or_intror Ha)))
              st1 s1 Hinv1) as (st2 & s2 & Hrun2 & Hinv2).
  destruct (isect_instance_loop_returns scene (st_shapes s) (instances p) Hi
              st2 s2 Hinv2) as (st3 & s3 & Hrun3 & _).
  rewrite (bind_run _ _ _ _ _ Hrun1), (bind_run _ _ _ _ _ Hrun2),
    (bind_run _ _ _ _ _ Hrun3).
  exists tt, s3. reflexivity.
Qed.

(** ** Dirty bits and bundles *)

Lemma any_dirty_returns {T} (store : State -> gmap addr T) is_dirty l s :
  (forall a, a ∈ l -> is_Some (store s !! a)) ->
  exists b, any_dirty store is_dirty l s = Ok b s.
Proof.
  induction l as [|a l IH]; intros Hall; simpl.
  - exists false. reflexivity.
  - destruct (Hall a) as [x Hx]; [left|].
    rewrite (bind_run _ _ _ _ _ (deref_run _ _ _ _ Hx)).
    destruct (is_dirty x); [exists true; reflexivity|].
    apply IH. intros b Hb. apply Hall. right. exact Hb.
Qed.

Lemma any_dirty_none {T} (store : State -> gmap addr T) is_dirty l s :
  (forall a, a ∈ l -> exists x, store s !! a = Some x /\ is_dirty x = false) ->
  any_dirty store is_dirty l s = Ok false s.
Proof.
  induction l as [|a l IH]; intros Hall; simpl.
  - reflexivity.
  - destruct (Hall a) as (x & Hx & Hd); [left|].
    rewrite (bind_run _ _ _ _ _ (deref_run _ _ _ _ Hx)), Hd.
    apply IH. intros b Hb. apply Hall. right. exact Hb.
Qed.

Lemma NeedsUpdate_returns {T} c prev (store : State -> gmap addr T) is_dirty s :
  (forall a, a ∈ Collector.items c -> is_Some (store s !! a)) ->
  exists b, NeedsUpdate c prev store is_dirty s = Ok b s.
Proof.
  intros Hall. unfold NeedsUpdate.
  erewrite bind_run by reflexivity.
  assert (Hbits : is_Some (mapM (fun a => is_dirty <$> store s !! a) (Collector.items c))).
  { apply mapM_is_Some. apply Forall_forall. intros a Ha.
    destruct (Hall a Ha) as [x Hx]. simpl. rewrite Hx. eauto. }
  destruct Hbits as [bits Hbits].
  rewrite (bind_run _ _ _ _ _ (defined_run _ _ _ Hbits)).
  eexists. reflexivity.
Qed.

(** ** The materials pass returns *)

Lemma is_Some_None_inv {A} (P : Prop) : @is_Some A None -> P.
Proof. intros [x H]. discriminate H. Qed.

Ltac covered Hc :=
  match goal with
  | H : is_Some ?t |- _ =>
      match t with
      | context [Collector.GetItemIndex ?c ?a] =>
          let E := fresh "E" in let E' := fresh "E" in let i := fresh "i" in
          destruct (Collector.GetItemIndex c a) eqn:E; simpl in H;
          [ destruct (Hc a) as [i E']; [rewrite E; eexists; reflexivity|];
            rewrite E'; simpl
          | exact (is_Some_None_inv _ H) ]
      end
  end.

Lemma write_roughness_covers m tc tc' clw clw' :
  covers tc tc' ->
  is_Some (write_roughness m tc clw) -> is_Some (write_roughness m tc' clw').
Proof.
  intros Hc. unfold write_roughness, tex_index_or_minus_one.
  destruct (GetInputValue m "roughness") as [v|]; simpl; [|auto].
  destruct (Material.type v); simpl; eauto.
  destruct (Material.tex_value v) as [t|]; simpl; eauto.
  intros H. covered Hc. eauto.
Qed.

Lemma write_general_covers m tc tc' clw clw' :
  covers tc tc' ->
  is_Some (write_general m tc clw) -> is_Some (write_general m tc' clw').
Proof.
  intros Hc. unfold write_general, tex_index_or_minus_one.
  destruct (GetInputValue m "albedo") as [v|]; simpl; [|auto].
  intros H.
  assert (H1 : exists c1 c1',
            match Material.type v with
            | Material.kFloat4 =>
                Some (WithMaterial.kxmapidx (-1)
                        (WithMaterial.kx (Material.float_value v) clw))
            | Material.kTexture =>
                match Material.tex_value v with
                | Some t => index_to_int <$> Collector.GetItemIndex tc t
                | None => Some (-1)
                end ≫= (fun idx => Some (WithMaterial.kxmapidx idx clw))
            | Material.kMaterial => None
            end = Some c1 /\
            match Material.type v with
            | Material.kFloat4 =>
                Some (WithMaterial.kxmapidx (-1)
                        (WithMaterial.kx (Material.float_value v) clw'))
            | Material.kTexture =>
                match Material.tex_value v with
                | Some t => index_to_int <$> Collector.GetItemIndex tc' t
                | None => Some (-1)
                end ≫= (fun idx => Some (WithMaterial.kxmapidx idx clw'))
            | Material.kMaterial => None
            end = Some c1').
  { destruct (Material.type v); simpl in *; eauto.
    - destruct (Material.tex_value v) as [t|]; simpl in *; eauto.
      covered Hc. eauto.
    - exact (is_Some_None_inv _ H). }
  destruct H1 as (c1 & c1' & E1 & E1'). rewrite E1 in H. rewrite E1'.
  simpl in *. clear E1 E1'.
  destruct (GetInputValue m "normal") as [vn|]; simpl in *;
    [|exact (is_Some_None_inv _ H)].
  revert H.
  destruct (GetInputValue m "fresnel") as [vf|] eqn:Ef;
    destruct (GetInputValue m "ior") as [vi|] eqn:Ei;
    destruct (GetInputValue m "roughness") as [vr|] eqn:Er;
    destruct (GetInputValue m "bump") as [vb|] eqn:Eb;
    destruct (Material.type vn), (Material.tex_value vn) as [tn|]; simpl;
    intros H;
    try (destruct (Material.type vb), (Material.tex_value vb) as [tb|];
         simpl in H |- * );
    repeat first
      [ exact (is_Some_None_inv _ H)
      | solve [eauto]
      | covered Hc ].
Qed.

Lemma write_compound_covers type m mc mc' tc tc' clw clw' :
  covers mc mc' -> covers tc tc' ->
  is_Some (write_compound type m mc tc clw) ->
  is_Some (write_compound type m mc' tc' clw').
Proof.
  intros Hm Ht. unfold write_compound, GetItemIndexPtr.
  destruct (GetInputValue m "base_material") as [v0|]; simpl; [|auto].
  destruct (GetInputValue m "top_material") as [v1|]; simpl; [|auto].
  destruct (Material.type v0), (Material.type v1); simpl; auto.
  destruct (Material.mat_value v0) as [b|]; simpl; [|auto].
  intros H. covered Hm.
  destruct (Material.mat_value v1) as [t|]; simpl in *;
    [|exact (is_Some_None_inv _ H)].
  covered Hm.
  destruct type; simpl in *;
    try (destruct (GetInputValue m "ior") as [vi|]; simpl in *;
         [|exact (is_Some_None_inv _ H)];
         destruct (Material.type vi); simpl in *;
         solve [eauto | exact (is_Some_None_inv _ H)]).
  destruct (GetInputValue m "weight") as [vw|]; simpl in *;
    [|exact (is_Some_None_inv _ H)].
  destruct (Material.type vw); simpl in *; eauto.
  destruct (Material.tex_value vw) as [tw|]; simpl in *;
    [|exact (is_Some_None_inv _ H)].
  covered Ht. eauto.
Qed.

Lemma write_material_record_covers m mc mc' tc tc' data data' :
  covers mc mc' -> covers tc tc' ->
  is_Some (write_material_record m mc tc data) ->
  is_Some (write_material_record m mc' tc' data').
Proof.
  intros Hm Ht. unfold write_material_record.
  destruct (GetMaterialType m); eauto using write_general_covers, write_compound_covers.
  all: intros H;
    match goal with
    | |- is_Some (write_roughness _ _ ?d' ≫= _) =>
        destruct (write_roughness m tc (WithMaterial.type _ data)) as [c|] eqn:E;
          simpl in H; [|exact (is_Some_None_inv _ H)];
        destruct (write_roughness_covers m tc tc' _ d' Ht (ex_intro _ c E))
          as [c' E'];
        rewrite E'; simpl; exact (write_general_covers m tc tc' c c' Ht H)
    end.
Qed.

Lemma covers_own l c :
  (forall a, a ∈ l -> a ∈ Collector.items c) -> covers (Collector.mk l l) c.
Proof.
  intros Hin a [i Hi]. unfold Collector.GetItemIndex in *. simpl in Hi.
  apply index_of_Some in Hi. destruct Hi as [Hi _].
  destruct (index_of a (Collector.items c)) as [j|] eqn:E; [eauto|].
  apply index_of_None in E. exfalso. apply E, Hin.
  eapply list_elem_of_lookup_2. exact Hi.
Qed.

(** A material that the writer accepts is written under any collectors that
    hold its inputs. *)
Lemma writer_accepts_spec m mc tc data :
  writer_accepts m = true ->
  (forall a, a ∈ CreateMaterialIterator m -> a ∈ Collector.items mc) ->
  (forall t, t ∈ CreateTextureIterator m -> t ∈ Collector.items tc) ->
  is_Some (write_material_record m mc tc data).
Proof.
  unfold writer_accepts. intros H Hm Ht.
  destruct (write_material_record m (own_materials m) (own_textures m) filler)
    as [r|] eqn:E; [|discriminate H].
  apply (write_material_record_covers m (own_materials m) mc (own_textures m) tc
           filler data).
  - apply covers_own. exact Hm.
  - apply covers_own. exact Ht.
  - eauto.
Qed.

Lemma write_clean_material m mc tc data :
  write_material_record (clean_material m) mc tc data =
  write_material_record m mc tc data.
Proof. reflexivity. Qed.

Lemma write_next_material_returns scene mc tc n a s out m :
  m_scene_cache s !! scene = Some out ->
  (n < length (materials out))%nat ->
  st_materials s !! a = Some m ->
  (forall data, is_Some (write_material_record m mc tc data)) ->
  exists s' out',
    write_next_material scene mc tc n a s = Ok (S n) s' /\
    m_scene_cache s' !! scene = Some out' /\
    length (materials out') = length (materials out) /\
    st_materials s' = <[a := clean_material m]> (st_materials s).
Proof.
  intros Hout Hn Hm Hw. unfold write_next_material.
  destruct (lookup_lt_is_Some_2 _ _ Hn) as [data Hdata].
  destruct (Hw data) as [r Hr].
  rewrite (bind_run _ _ _ _ _ (get_out_run _ _ _ Hout)).
  rewrite (bind_run _ _ _ _ _ (defined_run _ _ _ Hdata)).
  rewrite (bind_run _ _ _ _ _ (WriteMaterial_run _ _ _ _ _ _ _ Hm Hr)).
  erewrite bind_run by (apply update_out_run; exact Hout).
  eexists _, _. split; [reflexivity|]. split; [apply lookup_insert_eq|].
  split; [apply length_insert|reflexivity].
Qed.

Lemma materials_loop_returns scene mc tc h0 : forall l n s out,
  (forall a, a ∈ l ->
     exists m, h0 !! a = Some m /\
               forall data, is_Some (write_material_record m mc tc data)) ->
  cleaner clean_material h0 (st_materials s) ->
  m_scene_cache s !! scene = Some out ->
  (n + length l <= length (materials out))%nat ->
  returns (foldM (write_next_material scene mc tc) l n) s.
Proof.
  induction l as [|a l IH]; intros n s out Hall Hcl Hout Hlen.
  - apply returns_ret.
  - simpl in Hlen. destruct (Hall a) as (m & Hm & Hw); [left|].
    assert (Hm' : exists m', st_materials s !! a = Some m' /\
                    forall data, is_Some (write_material_record m' mc tc data)).
    { destruct (Hcl a) as [E|E]; rewrite E, Hm; simpl; eauto. }
    destruct Hm' as (m' & Hm' & Hw').
    destruct (write_next_material_returns scene mc tc n a s out m' Hout
                ltac:(lia) Hm' Hw') as (s' & out' & Hrun & Hout' & Hlen' & Hst).
    simpl. apply (returns_bind _ _ _ _ _ Hrun).
    apply (IH (S n) s' out').
    + intros b Hb. apply Hall. right. exact Hb.
    + rewrite Hst. eapply cleaner_trans; [intros x; reflexivity|exact Hcl|].
      apply cleaner_insert. exact Hm'.
    + exact Hout'.
    + rewrite Hlen'. lia.
Qed.

(** The materials pass returns when every collected material is in the
    store and is one the writer accepts under the collectors. *)
Lemma UpdateMaterials_returns scene mc tc s out :
  m_scene_cache s !! scene = Some out ->
  (forall a, a ∈ Collector.items mc ->
     exists m, st_materials s !! a = Some m /\
               forall data, is_Some (write_material_record m mc tc data)) ->
  returns (UpdateMaterials scene mc tc) s.
Proof.
  intros Hout Hall. unfold UpdateMaterials.
  apply (returns_bind _ _ _ _ _ (get_out_run _ _ _ Hout)).
  assert (Hgrow : exists s1 out1,
            (if decide (length (materials out) < Collector.GetNumItems mc)%nat
             then device (CreateBuffer BufMaterials (Collector.GetNumItems mc));;
                  update_out scene
                    (with_materials (fresh_buffer (Collector.GetNumItems mc)))
             else mret tt) s = Ok tt s1 /\
            m_scene_cache s1 !! scene = Some out1 /\
            st_materials s1 = st_materials s /\
            (Collector.GetNumItems mc <= length (materials out1))%nat).
  { destruct (decide (length (materials out) < Collector.GetNumItems mc)%nat).
    - rewrite (bind_run _ _ _ _ _ (device_run _ _)).
      erewrite update_out_run by exact Hout.
      eexists _, _. split; [reflexivity|]. split; [apply lookup_insert_eq|].
      split; [reflexivity|]. simpl. unfold fresh_buffer.
      rewrite length_replicate. lia.
    - exists s, out. split; [reflexivity|]. split; [exact Hout|].
      split; [reflexivity|lia]. }
  destruct Hgrow as (s1 & out1 & Hrun1 & Hout1 & Hst1 & Hlen1).
  apply (returns_bind _ _ _ _ _ Hrun1).
  apply (returns_bind _ _ _ _ _ (device_run _ _)).
  eapply returns_bind; [apply update_out_run; exact Hout1|].
  match goal with
  | |- returns _ ?s2 => set (sA := s2)
  end.
  assert (HoutA : m_scene_cache sA !! scene
                  = Some (with_material_bundle (Some (Collector.CreateBundle mc)) out1))
    by apply lookup_insert_eq.
  assert (HstA : st_materials sA = st_materials s) by exact Hst1.
  clearbody sA.
  destruct (materials_loop_returns scene mc tc (st_materials s)
              (Collector.CreateIterator mc) O sA _ Hall
              ltac:(rewrite HstA; apply cleaner_refl) HoutA
              ltac:(exact Hlen1)) as (n' & s' & Hloop).
  apply (returns_bind _ _ _ _ _ Hloop).
  eexists _, _. apply device_run.
Qed.

(** ** The textures pass returns *)

Lemma stored_all {T} (heap : gmap addr T) l :
  (forall a, a ∈ l -> is_Some (heap !! a)) ->
  exists xs, Forall2 (fun a x => heap !! a = Some x) l xs.
Proof.
  induction l as [|a l IH]; intros Hall.
  - exists []. constructor.
  - destruct (Hall a) as [x Hx]; [left|].
    destruct IH as [xs Hxs]; [intros b Hb; apply Hall; right; exact Hb|].
    exists (x :: xs). constructor; assumption.
Qed.

Lemma texture_headers_returns scene heap : forall l ts n size s out,
  Forall2 (fun a t => heap !! a = Some t) l ts ->
  st_textures s = heap ->
  m_scene_cache s !! scene = Some out ->
  (n + length l <= length (textures out))%nat ->
  exists s' out',
    foldM (write_next_texture scene) l (n, size) s =
      Ok ((n + length l)%nat, (size + length (concat (texture_data <$> ts)))%nat) s' /\
    m_scene_cache s' !! scene = Some out' /\
    st_textures s' = heap.
Proof.
  induction l as [|a l IH]; intros ts n size s out Hts Hst Hout Hlen;
    inversion Hts as [|a' t l' ts' Ht Hrest]; subst.
  - exists s, out. simpl. rewrite !Nat.add_0_r. auto.
  - simpl in Hlen.
    assert (Hn : (n < length (textures out))%nat) by lia.
    destruct (lookup_lt_is_Some_2 _ _ Hn) as [data Hdata].
    destruct (store_at_fits n (WriteTexture t size data) (textures out) Hn)
      as (buf & Hbuf & Hlb).
    assert (Hstep : write_next_texture scene (n, size) a s =
              Ok (S n, (size + GetSizeInBytes t)%nat)
                 (set_m_scene_cache
                    (<[scene := with_textures buf out]> (m_scene_cache s)) s)).
    { unfold write_next_texture.
      rewrite (bind_run _ _ _ _ _ (deref_run _ _ _ _ Ht)).
      rewrite (bind_run _ _ _ _ _ (get_out_run _ _ _ Hout)).
      rewrite (bind_run _ _ _ _ _ (defined_run _ _ _ Hdata)).
      rewrite (bind_run _ _ _ _ _ (defined_run _ _ _ Hbuf)).
      erewrite bind_run by (apply update_out_run; exact Hout).
      reflexivity. }
    destruct (IH ts' (S n) (size + GetSizeInBytes t)%nat
                (set_m_scene_cache
                   (<[scene := with_textures buf out]> (m_scene_cache s)) s)
                (with_textures buf out)
                Hrest eq_refl (lookup_insert_eq _ _ _))
      as (s' & out' & Hrun & Hout' & Hst'); [simpl; lia|].
    exists s', out'. split; [|auto].
    simpl. rewrite (bind_run _ _ _ _ _ Hstep), Hrun.
    unfold GetSizeInBytes. rewrite length_app.
    replace (S n + length l)%nat with (n + S (length l))%nat by lia.
    rewrite Nat.add_assoc. reflexivity.
Qed.

Lemma texture_data_returns scene heap : forall l ts n s out,
  Forall2 (fun a t => heap !! a = Some t) l ts ->
  st_textures s = heap ->
  m_scene_cache s !! scene = Some out ->
  (n + length (concat (texture_data <$> ts)) <= length (texturedata out))%nat ->
  returns (foldM (write_next_texture_data scene) l n) s.
Proof.
  induction l as [|a l IH]; intros ts n s out Hts Hst Hout Hlen;
    inversion Hts as [|a' t l' ts' Ht Hrest]; subst.
  - apply returns_ret.
  - rewrite fmap_cons in Hlen. cbn [concat] in Hlen. rewrite length_app in Hlen.
    destruct (copy_to_fits n (texture_data t) (texturedata out) ltac:(lia))
      as (buf & Hbuf & Hlb).
    assert (Hstep : write_next_texture_data scene n a s =
              Ok (n + GetSizeInBytes t)%nat
                 (set_m_scene_cache
                    (<[scene := with_texturedata buf out]> (m_scene_cache s)) s)).
    { unfold write_next_texture_data.
      rewrite (bind_run _ _ _ _ _ (deref_run _ _ _ _ Ht)).
      rewrite (bind_run _ _ _ _ _ (get_out_run _ _ _ Hout)).
      rewrite (bind_run _ _ _ _ _ (defined_run _ _ _ Hbuf)).
      erewrite bind_run by (apply update_out_run; exact Hout).
      reflexivity. }
    simpl. apply (returns_bind _ _ _ _ _ Hstep).
    apply (IH ts' _
             (set_m_scene_cache
                (<[scene := with_texturedata buf out]> (m_scene_cache s)) s)
             (with_texturedata buf out) Hrest eq_refl (lookup_insert_eq _ _ _)).
    change (texturedata (with_texturedata buf out)) with buf.
    rewrite Hlb. unfold GetSizeInBytes. lia.
Qed.

(** Growing a buffer of the compiled scene when it is too short. *)
Lemma grow_returns scene (len n : nat) b (f : ClwSceneData -> ClwSceneData) s out :
  m_scene_cache s !! scene = Some out ->
  exists s1,
    (if decide (len < n)%nat
     then device (CreateBuffer b n);; update_out scene f
     else mret tt) s = Ok tt s1 /\
    m_scene_cache s1 !! scene = Some (if decide (len < n)%nat then f out else out) /\
    st_textures s1 = st_textures s /\
    st_materials s1 = st_materials s.
Proof.
  intros Hout. destruct (decide (len < n)%nat).
  - rewrite (bind_run _ _ _ _ _ (device_run _ _)).
    erewrite update_out_run by exact Hout.
    eexists. split; [reflexivity|]. split; [apply lookup_insert_eq|]. auto.
  - exists s. auto.
Qed.

(** The textures pass returns when every collected texture is in the
    store. *)
Lemma UpdateTextures_returns scene mc tc s out :
  m_scene_cache s !! scene = Some out ->
  (forall t, t ∈ Collector.items tc -> is_Some (st_textures s !! t)) ->
  returns (UpdateTextures scene mc tc) s.
Proof.
  intros Hout Hall.
  destruct (Collector.GetNumItems tc) as [|k] eqn:Hnum.
  { eexists _, _. apply (UpdateTextures_empty_run _ _ _ _ _ Hnum Hout). }
  destruct (stored_all _ _ Hall) as [ts Hts].
  unfold UpdateTextures. rewrite Hnum. rewrite <- Hnum.
  apply (returns_bind _ _ _ _ _ (get_out_run _ _ _ Hout)).
  destruct (grow_returns scene (length (textures out)) (Collector.GetNumItems tc)
              BufTextures (with_textures (fresh_buffer (Collector.GetNumItems tc)))
              s out Hout) as (s1 & Hrun1 & Hout1 & Hst1 & _).
  apply (returns_bind _ _ _ _ _ Hrun1).
  apply (returns_bind _ _ _ _ _ (device_run _ _)).
  eapply returns_bind; [apply update_out_run; exact Hout1|].
  match goal with
  | |- returns _ ?s2 => set (sA := s2)
  end.
  assert (HstA : st_textures sA = st_textures s) by exact Hst1.
  destruct (texture_headers_returns scene (st_textures s) (Collector.CreateIterator tc)
              ts O O sA _ Hts HstA (lookup_insert_eq _ _ _))
    as (sB & outB & HrunB & HoutB & HstB).
  { simpl. unfold Collector.CreateIterator, Collector.GetNumItems.
    destruct (decide (length (textures out) < length (Collector.items tc))%nat);
      simpl; [unfold fresh_buffer; rewrite length_replicate|]; lia. }
  clearbody sA.
  apply (returns_bind _ _ _ _ _ HrunB). cbn [snd].
  apply (returns_bind _ _ _ _ _ (device_run _ _)).
  match goal with
  | |- returns _ ?s2 => set (sB' := s2)
  end.
  assert (HoutB' : m_scene_cache sB' !! scene = Some outB) by exact HoutB.
  assert (HstB' : st_textures sB' = st_textures s) by exact HstB.
  clearbody sB'. clear HoutB HstB.
  apply (returns_bind _ _ _ _ _ (get_out_run _ _ _ HoutB')).
  destruct (grow_returns scene (length (texturedata outB))
              (0 + length (concat (texture_data <$> ts)))
              BufTextureData
              (with_texturedata
                 (fresh_buffer (0 + length (concat (texture_data <$> ts)))))
              sB' outB HoutB') as (sC & HrunC & HoutC & HstC & _).
  apply (returns_bind _ _ _ _ _ HrunC).
  apply (returns_bind _ _ _ _ _ (device_run _ _)).
  destruct (texture_data_returns scene (st_textures s) (Collector.CreateIterator tc)
              ts O (set_m_context (m_context sC ++ [MapBuffer BufTextureData]) sC)
              _ Hts ltac:(simpl; rewrite HstC; exact HstB') HoutC)
    as (n' & s' & Hloop).
  { destruct (decide (length (texturedata outB)
                      < 0 + length (concat (texture_data <$> ts)))%nat);
      simpl; [unfold fresh_buffer; rewrite length_replicate|]; lia. }
  apply (returns_bind _ _ _ _ _ Hloop).
  eexists _, _. apply device_run.
Qed.

(** ** Clearing the flags returns *)

Lemma ClearDirtyFlags_returns scene s :
  is_Some (st_scenes s !! scene) -> returns (ClearDirtyFlags scene) s.
Proof.
  intros [sc Hsc]. unfold ClearDirtyFlags.
  apply (returns_bind _ _ _ _ _ (deref_run _ _ _ _ Hsc)).
  eexists _, _. reflexivity.
Qed.

Lemma clear_material_flags_returns mc s :
  (forall a, a ∈ Collector.items mc -> is_Some (st_materials s !! a)) ->
  returns (clear_material_flags mc) s.
Proof.
  intros Hall. unfold clear_material_flags, Finalize, for_each.
  destruct (foldM_returns (fun (_ : unit) item => Material_SetDirty item false)
              (fun _ s1 => forall a, a ∈ Collector.items mc ->
                                     is_Some (st_materials s1 !! a))
              (Collector.items mc)) with (b := tt) (s := s)
    as (u & s' & Hrun & _); [|exact Hall|exists u, s'; exact Hrun].
  intros [] a s1 Ha HI. destruct (HI a Ha) as [m Hm].
  eexists tt, _. split.
  - unfold Material_SetDirty.
    rewrite (bind_run _ _ _ _ _ (deref_run _ _ _ _ Hm)). reflexivity.
  - intros b Hb. simpl. apply lookup_insert_is_Some'. right. apply HI. exact Hb.
Qed.

(** ** The buffers of the shapes pass after the other passes *)

Lemma same_geometry_refl o : same_geometry o o.
Proof. repeat split. Qed.

Lemma same_geometry_trans o1 o2 o3 :
  same_geometry o1 o2 -> same_geometry o2 o3 -> same_geometry o1 o3.
Proof.
  unfold same_geometry. intros (?&?&?&?&?&?) (?&?&?&?&?&?). repeat split; congruence.
Qed.

Lemma same_lengths_refl o : same_lengths o o.
Proof. repeat split. Qed.

Lemma same_lengths_trans o1 o2 o3 :
  same_lengths o1 o2 -> same_lengths o2 o3 -> same_lengths o1 o3.
Proof.
  unfold same_lengths. intros (?&?&?&?&?&?) (?&?&?&?&?&?). repeat split; congruence.
Qed.

Lemma same_handles_refl a : same_handles a a.
Proof. split; reflexivity. Qed.

Lemma same_handles_trans a1 a2 a3 :
  same_handles a1 a2 -> same_handles a2 a3 -> same_handles a1 a3.
Proof. unfold same_handles. intros [? ?] [? ?]. split; congruence. Qed.

#[global] Hint Resolve same_geometry_refl same_lengths_refl same_handles_refl : frame.

Ltac geometry_leaf :=
  first
    [ apply preserves_modify; intros ?;
      first [ solve [apply keeps_device; auto with frame; exact I]
            | solve [apply keeps_elsewhere; auto with frame]
            | solve [apply keeps_api; auto with frame; first [exact I | split; reflexivity]] ]
    | apply preserves_update_out; intros ? ? ?;
      solve [apply keeps_update_out; auto with frame; repeat split] ].

Section geometry_frames.
Variable scene : addr.

Let Rg := keeps scene any_op same_geometry same_handles.

Let Rg_refl : forall s, Rg s s :=
  keeps_refl scene _ _ _ same_geometry_refl same_handles_refl.

Let Rg_trans : forall s1 s2 s3, Rg s1 s2 -> Rg s2 s3 -> Rg s1 s3 :=
  keeps_trans scene _ _ _ same_geometry_trans same_handles_trans.

Ltac frame_g :=
  repeat first [ geometry_leaf | frame_step Rg_refl Rg_trans ].

Lemma UpdateMaterials_geometry mat_collector tex_collector :
  preserves Rg (UpdateMaterials scene mat_collector tex_collector).
Proof.
  unfold UpdateMaterials, write_next_material, WriteMaterial, Material_SetDirty,
    get_out, device.
  frame_g.
Qed.

Lemma UpdateTextures_geometry mat_collector tex_collector :
  preserves Rg (UpdateTextures scene mat_collector tex_collector).
Proof.
  unfold UpdateTextures, write_next_texture, write_next_texture_data, get_out, device.
  frame_g.
Qed.

Lemma ClearDirtyFlags_geometry : preserves Rg (ClearDirtyFlags scene).
Proof. unfold ClearDirtyFlags. frame_g. Qed.

Lemma clear_material_flags_geometry mat_collector :
  preserves Rg (clear_material_flags mat_collector).
Proof. unfold clear_material_flags, Finalize, Material_SetDirty. frame_g. Qed.

Lemma ReloadIntersector_geometry : preserves Rg (ReloadIntersector scene).
Proof.
  unfold ReloadIntersector, DetachAll, AttachShape, Commit, update_api, get_out.
  frame_g.
Qed.

Let Ri := keeps scene any_op same_geometry any_api.

Let Ri_refl : forall s, Ri s s :=
  keeps_refl scene _ _ _ same_geometry_refl any_api_refl.

Let Ri_trans : forall s1 s2 s3, Ri s1 s2 -> Ri s2 s3 -> Ri s1 s3 :=
  keeps_trans scene _ _ _ same_geometry_trans any_api_trans.

Lemma split_scene_geometry shape_iter : preserves Ri (split_scene shape_iter).
Proof.
  intros s p s' H. apply split_scene_Ok in H. destruct H as [_ ->]. apply Ri_refl.
Qed.

Lemma api_create_geometry g : preserves Ri (api_create g).
Proof.
  intros s h s' H. unfold api_create in H. injection H as _ <-.
  apply keeps_api; auto with frame. exact I.
Qed.

Lemma UpdateIntersector_geometry : preserves Ri (UpdateIntersector scene).
Proof.
  unfold UpdateIntersector, isect_mesh, isect_excluded, isect_instance,
    create_mesh_shape, SetTransform, SetId, api_shape, DetachShape, DeleteShape,
    push_isect, push_visible, CreateShapeIterator, update_api, get_out.
  repeat first [ apply split_scene_geometry | apply api_create_geometry
               | geometry_leaf | frame_step Ri_refl Ri_trans ].
Qed.
End geometry_frames.

(** ** The sizes of the buffers of the shapes pass *)

Lemma store_at_length {A} i (v : A) buf buf' :
  store_at i v buf = Some buf' -> length buf' = length buf.
Proof.
  unfold store_at. destruct (decide _); [|discriminate].
  intros H. injection H as <-. apply length_insert.
Qed.

Lemma serialize_mesh_lengths mesh d t lp out lp' out' :
  serialize_mesh mesh d t lp out = Some (lp', out') -> same_lengths out out'.
Proof.
  unfold serialize_mesh. intros H.
  repeat match type of H with
  | context [copy_to ?a ?b ?c] =>
      let E := fresh "E" in
      destruct (copy_to a b c) eqn:E; simpl in H;
      [apply copy_to_length in E|discriminate H]
  | context [store_at ?a ?b ?c] =>
      let E := fresh "E" in
      destruct (store_at a b c) eqn:E; simpl in H;
      [apply store_at_length in E|discriminate H]
  end.
  injection H as <- <-. repeat split; assumption.
Qed.

Lemma fill_matids_lengths n v lp out lp' out' :
  fill_matids n v lp out = Some (lp', out') -> same_lengths out out'.
Proof.
  unfold fill_matids, fill_to. intros H.
  destruct (copy_to (num_matids_written lp) (replicate n v) (materialids out)) eqn:E;
    simpl in H; [apply copy_to_length in E|discriminate H].
  injection H as <- <-. repeat split; assumption.
Qed.

Lemma serialize_instance_lengths shape lp out lp' out' :
  serialize_instance shape lp out = Some (lp', out') -> same_lengths out out'.
Proof.
  unfold serialize_instance. intros H.
  destruct (store_at (num_shapes_written lp) shape (shapes out)) eqn:E; simpl in H;
    [apply store_at_length in E|discriminate H].
  injection H as <- <-. repeat split; assumption.
Qed.

Section shapes_lengths.
Variable scene : addr.

Let Rl := keeps scene no_op same_lengths any_api.

Let Rl_refl : forall s, Rl s s :=
  keeps_refl scene _ _ _ same_lengths_refl any_api_refl.

Let Rl_trans : forall s1 s2 s3, Rl s1 s2 -> Rl s2 s3 -> Rl s1 s3 :=
  keeps_trans scene _ _ _ same_lengths_trans any_api_trans.

Lemma shapes_body_lengths s out out' heap' :
  m_scene_cache s !! scene = Some out ->
  same_lengths out out' ->
  Rl s (set_st_shapes heap'
          (set_m_scene_cache (<[scene := out']> (m_scene_cache s)) s)).
Proof.
  intros Hout Hl. split; [|split]; simpl.
  - exists []. rewrite app_nil_r. auto.
  - intros out0 Hout0. rewrite Hout in Hout0. injection Hout0 as <-.
    exists out'. split; [apply lookup_insert_eq|exact Hl].
  - exact I.
Qed.

Ltac inv_turn :=
  repeat (progress
            (run_inv;
             repeat match goal with
                    | x : (ShapesLoop * ClwSceneData)%type |- _ => destruct x
                    | H : material_or_default _ _ = Ok _ _ |- _ =>
                        apply material_or_default_Ok in H; destruct H as [? ?]; subst
                    end)).

Ltac use_lengths :=
  repeat match goal with
  | H : serialize_mesh _ _ _ _ _ = Some _ |- _ => apply serialize_mesh_lengths in H
  | H : fill_matids _ _ _ _ = Some _ |- _ => apply fill_matids_lengths in H
  | H : serialize_instance _ _ _ = Some _ |- _ => apply serialize_instance_lengths in H
  end.

Lemma shapes_mesh_lengths mat_collector lp mesh :
  preserves Rl (shapes_mesh scene mat_collector lp mesh).
Proof.
  intros s lp' s' H. unfold shapes_mesh, Shape_SetDirty in H. inv_turn. use_lengths.
  eapply shapes_body_lengths; [eassumption|].
  eapply same_lengths_trans; eassumption.
Qed.

Lemma shapes_excluded_lengths lp mesh :
  preserves Rl (shapes_excluded scene lp mesh).
Proof.
  intros s lp' s' H. unfold shapes_excluded, Shape_SetDirty in H. inv_turn. use_lengths.
  eapply shapes_body_lengths; [eassumption|].
  eapply same_lengths_trans; eassumption.
Qed.

Lemma shapes_instance_lengths mat_collector lp instance :
  preserves Rl (shapes_instance scene mat_collector lp instance).
Proof.
  intros s lp' s' H. unfold shapes_instance, Shape_SetDirty in H. run_inv.
  match goal with
  | H : context [shape_data_at ?b ?l] |- _ => destruct (shape_data_at b l)
  end.
  inv_turn. use_lengths.
  eapply shapes_body_lengths; [eassumption|].
  eapply same_lengths_trans; eassumption.
Qed.

(** The device operations of a shapes pass create the six buffers with the
    sizes that they have when the pass returns. *)
Lemma UpdateShapes_sizes mat_collector tex_collector u s s' sc p :
  UpdateShapes scene mat_collector tex_collector s = Ok u s' ->
  st_scenes s !! scene = Some sc ->
  SplitMeshesAndInstances (st_shapes s) (scene_shapes sc) = Some p ->
  exists out',
    m_scene_cache s' !! scene = Some out' /\
    length (shapes out') = length (partition_order p) /\
    m_context s' =
      m_context s ++
      shapes_pass_ops (length (vertices out')) (length (normals out'))
        (length (uvs out')) (length (indices out')) (length (shapes out'))
        (length (materialids out')).
Proof.
  intros H Hsc Hp. apply UpdateShapes_loops in H.
  destruct H as (sc' & p' & out & sz0 & sz1 & sz & lp1 & s1 & lp2 & s2 & lp3 & s3
                 & Hsc' & Hp' & Hout & _ & _ & _ & Hm & He & Hi & ->).
  rewrite Hsc in Hsc'. injection Hsc' as <-.
  rewrite Hp in Hp'. injection Hp' as <-.
  apply (preserves_foldM Rl Rl_refl Rl_trans _ _ _
           (shapes_mesh_lengths mat_collector)) in Hm.
  apply (preserves_foldM Rl Rl_refl Rl_trans _ _ _ shapes_excluded_lengths) in He.
  apply (preserves_foldM Rl Rl_refl Rl_trans _ _ _
           (shapes_instance_lengths mat_collector)) in Hi.
  pose proof (Rl_trans _ _ _ Hm (Rl_trans _ _ _ He Hi)) as Hk. clear Hm He Hi.
  destruct Hk as ((ops & Hops & Hno) & Hcache & _).
  assert (ops = []) as ->.
  { destruct ops as [|o ops]; [reflexivity|]. inversion Hno as [|? ? Hf]. destruct Hf. }
  rewrite app_nil_r in Hops.
  destruct (Hcache (shapes_buffers sz (length (partition_order p)) out)
              (lookup_insert_eq _ _ _)) as (out' & Hout' & Hv & Hn & Hu & Hi & Hs & Hm).
  exists out'. split; [exact Hout'|].
  simpl in Hv, Hn, Hu, Hi, Hs, Hm. rewrite fresh_buffer_length in Hv.
  rewrite fresh_buffer_length in Hn. rewrite fresh_buffer_length in Hu.
  rewrite fresh_buffer_length in Hi. rewrite fresh_buffer_length in Hs.
  rewrite fresh_buffer_length in Hm.
  split; [exact Hs|].
  simpl. rewrite Hops. simpl. rewrite Hv, Hn, Hu, Hi, Hs, Hm.
  rewrite <- app_assoc.
  change (shapes_pass_ops (num_vertices sz) (num_normals sz) (num_uvs sz)
            (num_indices sz) (length (partition_order p)) (num_material_ids sz))
    with (take 12 (shapes_pass_ops (num_vertices sz) (num_normals sz) (num_uvs sz)
                     (num_indices sz) (length (partition_order p))
                     (num_material_ids sz)) ++
          drop 12 (shapes_pass_ops (num_vertices sz) (num_normals sz) (num_uvs sz)
                     (num_indices sz) (length (partition_order p))
                     (num_material_ids sz))).
  reflexivity.
Qed.
End shapes_lengths.

(** ** Well-formed scene graphs *)

Lemma stored_spec {T} (heap : gmap addr T) a : stored heap a = true -> is_Some (heap !! a).
Proof. unfold stored. destruct (heap !! a); [eauto|discriminate]. Qed.

Lemma forallb_elem {A} (f : A -> bool) l x : forallb f l = true -> x ∈ l -> f x = true.
Proof. rewrite forallb_forall. intros H Hx. apply H, list_elem_of_In, Hx. Qed.

Lemma mesh_at_Some heap a d :
  mesh_at heap a = Some d -> exists t m, shape_static heap a = Some (Mesh d, t, m).
Proof.
  unfold mesh_at. destruct (shape_static heap a) as [[[[d'|b] t] m]|]; try discriminate.
  intros H. injection H as <-. eauto.
Qed.

Lemma scene_ok_spec rank s sc :
  scene_ok rank s sc = true ->
  scene_shapes sc <> [] /\ scene_lights sc <> [] /\
  (forall a, a ∈ scene_shapes sc ->
     exists sh, st_shapes s !! a = Some sh /\
       is_Some (st_materials s !! material_of s sh) /\
       forall base, shape_kind sh = Instance base ->
                    is_Some (mesh_at (st_shapes s) base)) /\
  (forall a, a ∈ scene_lights sc ->
     exists l, st_lights s !! a = Some l /\
       forall t, t ∈ Light_CreateTextureIterator l -> is_Some (st_textures s !! t)) /\
  ranked rank (st_materials s) /\
  (forall a m, st_materials s !! a = Some m ->
     writer_accepts m = true /\
     forall t, t ∈ CreateTextureIterator m -> is_Some (st_textures s !! t)).
Proof.
  unfold scene_ok.
  destruct (scene_shapes sc) as [|a0 shs] eqn:Hs; [discriminate|].
  destruct (scene_lights sc) as [|l0 ls] eqn:Hl; [discriminate|].
  intros H. apply andb_prop in H. destruct H as [H Hm].
  apply andb_prop in H. destruct H as [Hsh Hli].
  split; [discriminate|]. split; [discriminate|].
  split; [|split; [|split]].
  - intros a Ha. pose proof (forallb_elem _ _ _ Hsh Ha) as Hok.
    unfold shape_ok in Hok. destruct (st_shapes s !! a) as [sh|]; [|discriminate Hok].
    apply andb_prop in Hok. destruct Hok as [Hmat Hkind].
    exists sh. split; [reflexivity|]. split; [apply stored_spec, Hmat|].
    intros base Hb. rewrite Hb in Hkind.
    destruct (mesh_at (st_shapes s) base); [eauto|discriminate Hkind].
  - intros a Ha. pose proof (forallb_elem _ _ _ Hli Ha) as Hok.
    unfold light_ok in Hok. destruct (st_lights s !! a) as [l|]; [|discriminate Hok].
    exists l. split; [reflexivity|].
    intros t Ht. apply stored_spec. exact (forallb_elem _ _ _ Hok Ht).
  - intros a m b Ha Hb.
    assert (Hin : (a, m) ∈ map_to_list (st_materials s))
      by (apply elem_of_map_to_list; exact Ha).
    pose proof (forallb_elem _ _ _ Hm Hin) as Hok. simpl in Hok.
    unfold material_ok in Hok.
    apply andb_prop in Hok. destruct Hok as [Hok _].
    apply andb_prop in Hok. destruct Hok as [Hok _].
    pose proof (forallb_elem _ _ _ Hok Hb) as Hb'. simpl in Hb'.
    apply andb_prop in Hb'. destruct Hb' as [Hst Hlt].
    split; [apply stored_spec, Hst|]. apply Nat.ltb_lt. exact Hlt.
  - intros a m Ha.
    assert (Hin : (a, m) ∈ map_to_list (st_materials s))
      by (apply elem_of_map_to_list; exact Ha).
    pose proof (forallb_elem _ _ _ Hm Hin) as Hok. simpl in Hok.
    unfold material_ok in Hok.
    apply andb_prop in Hok. destruct Hok as [Hok Hw].
    apply andb_prop in Hok. destruct Hok as [_ Htex].
    split; [exact Hw|]. intros t Ht. apply stored_spec.
    exact (forallb_elem _ _ _ Htex Ht).
Qed.

(** ** What stays true while dirty bits are cleared *)

Lemma ready_start scene s out : m_scene_cache s !! scene = Some out -> ready scene s s.
Proof. intros H. split; [apply only_cleans_refl|eauto]. Qed.

Lemma ready_step {A} scene P Q R (m : M A) s0 s a s' :
  preserves only_cleans m ->
  preserves (keeps scene P Q R) m ->
  m s = Ok a s' -> ready scene s0 s -> ready scene s0 s'.
Proof.
  intros Hc Hk Hrun [Ho [out Hout]]. split.
  - eapply only_cleans_trans; [exact Ho|]. eapply Hc. exact Hrun.
  - destruct (Hk _ _ _ Hrun) as (_ & He & _).
    destruct (He out Hout) as (out' & Hout' & _). eauto.
Qed.

Lemma ready_materials scene mc tc s0 s :
  ready scene s0 s ->
  (forall a, a ∈ Collector.items mc ->
     exists m, st_materials s0 !! a = Some m /\
               forall data, is_Some (write_material_record m mc tc data)) ->
  forall a, a ∈ Collector.items mc ->
    exists m, st_materials s !! a = Some m /\
              forall data, is_Some (write_material_record m mc tc data).
Proof.
  intros [(_ & Hcl & _) _] Hall a Ha. destruct (Hall a Ha) as (m & Hm & Hw).
  destruct (Hcl a) as [E|E]; rewrite E, Hm; simpl; eauto.
Qed.

Lemma ready_textures scene s0 s : ready scene s0 s -> st_textures s = st_textures s0.
Proof. intros [(_ & _ & _ & _ & H & _) _]. exact H. Qed.

Lemma ready_scenes scene s0 s : ready scene s0 s -> st_scenes s = st_scenes s0.
Proof. intros [(_ & _ & _ & _ & _ & H & _) _]. exact H. Qed.

(** ** The passes of a compile that only the shapes flag asks for return *)

Lemma shapes_hyps s sc p mc :
  SplitMeshesAndInstances (st_shapes s) (scene_shapes sc) = Some p ->
  (forall a, a ∈ scene_shapes sc ->
     exists sh, st_shapes s !! a = Some sh /\
       material_of s sh ∈ Collector.items mc /\
       forall base, shape_kind sh = Instance base ->
                    is_Some (mesh_at (st_shapes s) base)) ->
  (forall a, a ∈ meshes p -> exists d t m idx,
     shape_static (st_shapes s) a = Some (Mesh d, t, m) /\
     Collector.GetItemIndex mc (default (m_default_material s) m) = Some idx) /\
  (forall a, a ∈ excluded_meshes p -> exists d t m,
     shape_static (st_shapes s) a = Some (Mesh d, t, m)) /\
  (forall a, a ∈ instances p -> exists base t m bd idx,
     shape_static (st_shapes s) a = Some (Instance base, t, m) /\
     mesh_at (st_shapes s) base = Some bd /\
     Collector.GetItemIndex mc (default (m_default_material s) m) = Some idx).
Proof.
  intros Hp Hall. destruct (partition_members _ _ _ Hp) as (Hm & Hi & He).
  assert (Hidx : forall x, x ∈ Collector.items mc ->
                   exists idx, Collector.GetItemIndex mc x = Some idx).
  { intros x Hx. unfold Collector.GetItemIndex.
    destruct (index_of x (Collector.items mc)) as [i|] eqn:E; [eauto|].
    apply index_of_None in E. contradiction. }
  assert (Hinst : forall a, a ∈ instances p -> exists base t m bd idx,
            shape_static (st_shapes s) a = Some (Instance base, t, m) /\
            mesh_at (st_shapes s) base = Some bd /\
            Collector.GetItemIndex mc (default (m_default_material s) m) = Some idx).
  { intros a Ha. apply Hi in Ha. destruct Ha as (Hin & sh & Hsh & Hk).
    destruct (Hall a Hin) as (sh' & Hsh' & Hmat & Hbase).
    rewrite Hsh in Hsh'. injection Hsh' as <-.
    unfold is_instance in Hk. destruct (shape_kind sh) as [d|base] eqn:Ek;
      [discriminate Hk|].
    destruct (Hbase base eq_refl) as [bd Hbd].
    destruct (Hidx _ Hmat) as [idx Hi'].
    exists base, (shape_transform sh), (shape_material sh), bd, idx.
    split; [|split; [exact Hbd|exact Hi']].
    unfold shape_static. rewrite Hsh. simpl. rewrite Ek. reflexivity. }
  split; [|split; [|exact Hinst]].
  - intros a Ha. apply Hm in Ha. destruct Ha as (Hin & sh & Hsh & Hk).
    destruct (Hall a Hin) as (sh' & Hsh' & Hmat & _).
    rewrite Hsh in Hsh'. injection Hsh' as <-.
    unfold is_instance in Hk. destruct (shape_kind sh) as [d|base] eqn:Ek;
      [|discriminate Hk].
    destruct (Hidx _ Hmat) as [idx Hi'].
    exists d, (shape_transform sh), (shape_material sh), idx.
    split; [|exact Hi'].
    unfold shape_static. rewrite Hsh. simpl. rewrite Ek. reflexivity.
  - intros a Ha. apply He in Ha. destruct Ha as [(i & sh & Hi' & Hsh & Hb) _].
    destruct (Hinst i Hi') as (base & t & m & bd & idx & Hst & Hbd & _).
    unfold shape_static in Hst. rewrite Hsh in Hst. simpl in Hst.
    unfold GetBaseShape in Hb. destruct (shape_kind sh) as [d|b]; [discriminate Hb|].
    injection Hb as ->. injection Hst as <- _ _.
    apply mesh_at_Some in Hbd. destruct Hbd as (t' & m' & Hd). eauto.
Qed.

Lemma shapes_block_returns scene mc tc s sc out p :
  st_scenes s !! scene = Some sc ->
  m_scene_cache s !! scene = Some out ->
  scene_shapes sc <> [] ->
  SplitMeshesAndInstances (st_shapes s) (scene_shapes sc) = Some p ->
  (forall a, a ∈ meshes p -> exists d t m idx,
     shape_static (st_shapes s) a = Some (Mesh d, t, m) /\
     Collector.GetItemIndex mc (default (m_default_material s) m) = Some idx) ->
  (forall a, a ∈ excluded_meshes p -> exists d t m,
     shape_static (st_shapes s) a = Some (Mesh d, t, m)) ->
  (forall a, a ∈ instances p -> exists base t m bd idx,
     shape_static (st_shapes s) a = Some (Instance base, t, m) /\
     mesh_at (st_shapes s) base = Some bd /\
     Collector.GetItemIndex mc (default (m_default_material s) m) = Some idx) ->
  exists s3,
    (UpdateShapes scene mc tc;; UpdateIntersector scene;; ReloadIntersector scene) s
      = Ok tt s3 /\
    ready scene s s3.
Proof.
  intros Hsc Hout Hne Hp Hm He Hi.
  destruct (UpdateShapes_returns scene mc tc s sc out p Hsc Hout Hp Hm He Hi)
    as ([] & s1 & Hrun1).
  pose proof (ready_step _ _ _ _ _ _ _ _ _
                (UpdateShapes_cleans_only scene mc tc)
                (UpdateShapes_keeps scene mc tc) Hrun1 (ready_start _ _ _ Hout)) as Hr1.
  destruct (UpdateShapes_graph _ _ _ _ _ _ Hrun1) as (Hsc1 & _ & Hst1).
  destruct (proj2 Hr1) as [out1 Hout1].
  destruct (UpdateIntersector_returns scene s1 sc out1 p) as ([] & s2 & Hrun2).
  - rewrite Hsc1. exact Hsc.
  - exact Hout1.
  - exact Hne.
  - rewrite (SplitMeshesAndInstances_ext _ _ Hst1). exact Hp.
  - intros a Ha. rewrite Hst1. apply elem_of_app in Ha. destruct Ha as [Ha|Ha].
    + destruct (Hm a Ha) as (d & t & m & _ & Hst & _). eauto.
    + apply He. exact Ha.
  - intros a Ha. rewrite Hst1.
    destruct (Hi a Ha) as (base & t & m & _ & _ & Hst & _). eauto.
  - pose proof (ready_step _ _ _ _ _ _ _ _ _
                  (UpdateIntersector_cleans_only scene)
                  (UpdateIntersector_keeps scene) Hrun2 Hr1) as Hr2.
    destruct (proj2 Hr2) as [out2 Hout2].
    pose proof (ReloadIntersector_exact scene out2 s2 Hout2) as Hrun3.
    pose proof (ready_step _ _ _ _ _ _ _ _ _
                  (ReloadIntersector_cleans_only scene)
                  (ReloadIntersector_keeps scene) Hrun3 Hr2) as Hr3.
    eexists. split; [|exact Hr3].
    rewrite (bind_run _ _ _ _ _ Hrun1), (bind_run _ _ _ _ _ Hrun2). exact Hrun3.
Qed.

Lemma changed_returns {T} c (bundle : option Collector.Bundle)
    (store : State -> gmap addr T) is_dirty s :
  (forall a, a ∈ Collector.items c -> is_Some (store s !! a)) ->
  exists b,
    match bundle return M bool with
    | None => mret true
    | Some bundle => NeedsUpdate c bundle store is_dirty
    end s = Ok b s.
Proof.
  intros Hall. destruct bundle as [bundle|]; [|exists true; reflexivity].
  apply NeedsUpdate_returns. exact Hall.
Qed.

Lemma materials_block_returns scene mc tc (b : bool) s0 s :
  ready scene s0 s ->
  (forall a, a ∈ Collector.items mc ->
     exists m, st_materials s0 !! a = Some m /\
               forall data, is_Some (write_material_record m mc tc data)) ->
  exists s',
    (if b then UpdateMaterials scene mc tc else mret tt) s = Ok tt s' /\
    ready scene s0 s'.
Proof.
  intros Hr Hall. destruct b; [|exists s; split; [reflexivity|exact Hr]].
  destruct (proj2 Hr) as [out Hout].
  destruct (UpdateMaterials_returns scene mc tc s out Hout
              (ready_materials scene mc tc s0 s Hr Hall)) as ([] & s' & Hrun).
  exists s'. split; [exact Hrun|].
  exact (ready_step _ _ _ _ _ _ _ _ _
           (UpdateMaterials_cleans_only scene mc tc)
           (UpdateMaterials_keeps scene mc tc) Hrun Hr).
Qed.

Lemma textures_block_returns scene mc tc (b : bool) s0 s :
  ready scene s0 s ->
  (forall t, t ∈ Collector.items tc -> is_Some (st_textures s0 !! t)) ->
  exists s',
    (if b then UpdateTextures scene mc tc else mret tt) s = Ok tt s' /\
    ready scene s0 s'.
Proof.
  intros Hr Hall. destruct b; [|exists s; split; [reflexivity|exact Hr]].
  destruct (proj2 Hr) as [out Hout].
  destruct (UpdateTextures_returns scene mc tc s out Hout) as ([] & s' & Hrun).
  { rewrite (ready_textures _ _ _ Hr). exact Hall. }
  exists s'. split; [exact Hrun|].
  exact (ready_step _ _ _ _ _ _ _ _ _
           (UpdateTextures_cleans_only scene mc tc)
           (UpdateTextures_keeps scene mc tc) Hrun Hr).
Qed.

Lemma only_cleans_material s0 s a :
  only_cleans s0 s -> is_Some (st_materials s0 !! a) -> is_Some (st_materials s !! a).
Proof.
  intros (_ & Hcl & _) [m Hm]. destruct (Hcl a) as [E|E]; rewrite E, Hm; simpl; eauto.
Qed.

Lemma gets_run {A} (f : State -> A) s : gets f s = Ok (f s) s.
Proof. reflexivity. Qed.

Lemma settle_returns scene mc s0 s :
  ready scene s0 s ->
  is_Some (st_scenes s0 !! scene) ->
  (forall a, a ∈ Collector.items mc -> is_Some (st_materials s0 !! a)) ->
  returns (current ← gets m_current_scene;
           (if bool_decide (current = Some scene)
            then mret tt
            else ReloadIntersector scene;;
                 modify (set_m_current_scene (Some scene)));;
           ClearDirtyFlags scene;;
           clear_material_flags mc) s.
Proof.
  intros Hr [sc Hsc] Hall.
  assert (Hcur : exists s1,
            (if bool_decide (m_current_scene s = Some scene)
             then mret tt
             else ReloadIntersector scene;;
                  modify (set_m_current_scene (Some scene))) s = Ok tt s1 /\
            st_scenes s1 = st_scenes s /\ st_materials s1 = st_materials s).
  { destruct (bool_decide (m_current_scene s = Some scene)); [exists s; auto|].
    destruct (proj2 Hr) as [out Hout].
    rewrite (bind_run _ _ _ _ _ (ReloadIntersector_exact scene out s Hout)).
    eexists. split; [reflexivity|]. split; reflexivity. }
  destruct Hcur as (s1 & Hrun1 & Hsc1 & Hm1).
  apply (returns_bind _ _ _ _ _ (gets_run m_current_scene s)).
  apply (returns_bind _ _ _ _ _ Hrun1).
  assert (Hsc' : st_scenes s1 !! scene = Some sc).
  { rewrite Hsc1, (ready_scenes _ _ _ Hr). exact Hsc. }
  unfold ClearDirtyFlags.
  eapply returns_bind.
  { rewrite (bind_run _ _ _ _ _ (deref_run _ _ _ _ Hsc')). reflexivity. }
  apply clear_material_flags_returns. intros a Ha. simpl. rewrite Hm1.
  apply (only_cleans_material s0 s a (proj1 Hr)). apply Hall. exact Ha.
Qed.

(** On a cached, well-formed scene whose only flag is [kShapes], with a
    clean camera and clean lights, the cached path returns. *)
Lemma compile_cached_returns scene mc tc s sc out cam c p :
  m_scene_cache s !! scene = Some out ->
  st_scenes s !! scene = Some sc ->
  scene_dirty_flags sc = Scene1Flags.kShapes ->
  scene_camera sc = Some cam ->
  st_cameras s !! cam = Some c ->
  camera_dirty c = false ->
  (forall l li, l ∈ scene_lights sc -> st_lights s !! l = Some li ->
     light_dirty li = false) ->
  scene_lights sc <> [] ->
  (forall l, l ∈ scene_lights sc -> is_Some (st_lights s !! l)) ->
  scene_shapes sc <> [] ->
  SplitMeshesAndInstances (st_shapes s) (scene_shapes sc) = Some p ->
  (forall a, a ∈ scene_shapes sc ->
     exists sh, st_shapes s !! a = Some sh /\
       material_of s sh ∈ Collector.items mc /\
       forall base, shape_kind sh = Instance base ->
                    is_Some (mesh_at (st_shapes s) base)) ->
  (forall a, a ∈ Collector.items mc ->
     exists m, st_materials s !! a = Some m /\
               forall data, is_Some (write_material_record m mc tc data)) ->
  (forall t, t ∈ Collector.items tc -> is_Some (st_textures s !! t)) ->
  returns (compile_cached scene mc tc) s.
Proof.
  intros Hout Hsc Hflags Hcam Hc Hcd Hclean Hl Hls Hs Hp Hshapes Hmats Htexs.
  destruct has_flag_shapes as (Hfc & Hfl & Hfs).
  destruct (shapes_hyps s sc p mc Hp Hshapes) as (Hm & He & Hi).
  unfold compile_cached, GetDirtyFlags, GetCamera, CreateLightIterator,
    CreateShapeIterator.
  apply (returns_bind _ _ _ _ _ (get_out_run _ _ _ Hout)).
  eapply returns_bind;
    [rewrite (bind_run _ _ _ _ _ (deref_run _ _ _ _ Hsc)); reflexivity|].
  eapply returns_bind;
    [rewrite (bind_run _ _ _ _ _ (deref_run _ _ _ _ Hsc)); reflexivity|].
  rewrite Hcam.
  apply (returns_bind _ _ _ _ _ (deref_run _ _ _ _ Hc)).
  rewrite Hflags, Hcd, Hfc, Hfl, Hfs. cbn [orb].
  apply (returns_bind _ _ s tt s eq_refl).
  eapply returns_bind;
    [rewrite (bind_run _ _ _ _ _ (deref_run _ _ _ _ Hsc)); reflexivity|].
  destruct (scene_lights sc) as [|l0 ls] eqn:Els; [contradiction Hl; reflexivity|].
  apply (returns_bind _ _ _ _ _
           (any_dirty_none st_lights light_dirty (l0 :: ls) s
              (fun a Ha => match Hls a Ha with
                           | ex_intro _ li Hli =>
                               ex_intro _ li (conj Hli (Hclean a li Ha Hli))
                           end))).
  cbn [orb].
  apply (returns_bind _ _ s tt s eq_refl).
  eapply returns_bind;
    [rewrite (bind_run _ _ _ _ _ (deref_run _ _ _ _ Hsc)); reflexivity|].
  destruct (scene_shapes sc) as [|a0 shs] eqn:Eshs; [contradiction Hs; reflexivity|].
  destruct (any_dirty_returns st_shapes shape_dirty (a0 :: shs) s) as [b Hb].
  { intros a Ha. destruct (Hshapes a Ha) as (sh & Hsh & _). eauto. }
  apply (returns_bind _ _ _ _ _ Hb). cbn [orb].
  destruct (shapes_block_returns scene mc tc s sc out p Hsc Hout)
    as (s3 & Hrun3 & Hr3); try assumption.
  { rewrite Eshs. discriminate. }
  { rewrite Eshs. exact Hp. }
  apply (returns_bind _ _ _ _ _ Hrun3).
  destruct (proj2 Hr3) as [out3 Hout3].
  apply (returns_bind _ _ _ _ _ (get_out_run _ _ _ Hout3)).
  destruct (changed_returns mc (material_bundle out3) st_materials material_dirty s3)
    as [mb Hmb].
  { intros a Ha. destruct (ready_materials scene mc tc s s3 Hr3 Hmats a Ha)
      as (m & Hm' & _). eauto. }
  apply (returns_bind _ _ _ _ _ Hmb).
  destruct (materials_block_returns scene mc tc mb s s3 Hr3 Hmats)
    as (s4 & Hrun4 & Hr4).
  apply (returns_bind _ _ _ _ _ Hrun4).
  destruct (proj2 Hr4) as [out4 Hout4].
  apply (returns_bind _ _ _ _ _ (get_out_run _ _ _ Hout4)).
  assert (Htb : exists tb,
            match Collector.GetNumItems tc return M bool with
            | O => mret false
            | S _ =>
                match texture_bundle out4 return M bool with
                | None => mret true
                | Some bundle => NeedsUpdate tc bundle st_textures texture_dirty
                end
            end s4 = Ok tb s4).
  { destruct (Collector.GetNumItems tc); [exists false; reflexivity|].
    apply changed_returns. rewrite (ready_textures _ _ _ Hr4). exact Htexs. }
  destruct Htb as [tb Htb].
  apply (returns_bind _ _ _ _ _ Htb).
  destruct (textures_block_returns scene mc tc tb s s4 Hr4 Htexs)
    as (s5 & Hrun5 & Hr5).
  apply (returns_bind _ _ _ _ _ Hrun5).
  apply (settle_returns scene mc s s5 Hr5); [eauto|].
  intros a Ha. destruct (Hmats a Ha) as (m & Hm' & _). eauto.
Qed.

(** ** What a compile that only the shapes flag asks for does *)

Lemma handle_of_static heap heap' a rsh :
  (forall x, shape_static heap' x = shape_static heap x) ->
  handle_of heap' a rsh -> handle_of heap a rsh.
Proof.
  intros Hst (sh' & Hsh' & Ht & Hk).
  pose proof (Hst a) as E. unfold shape_static in E. rewrite Hsh' in E.
  destruct (heap !! a) as [sh|] eqn:Hsh; [|discriminate E].
  simpl in E. injection E as Ek Et _.
  exists sh. split; [exact Hsh|]. rewrite <- Ek, <- Et. auto.
Qed.

Lemma compile_cached_shapes_only scene mat_collector tex_collector s s' sc out cam c :
  m_scene_cache s !! scene = Some out ->
  st_scenes s !! scene = Some sc ->
  scene_dirty_flags sc = Scene1Flags.kShapes ->
  scene_camera sc = Some cam ->
  st_cameras s !! cam = Some c ->
  camera_dirty c = false ->
  (forall l li, l ∈ scene_lights sc -> st_lights s !! l = Some li ->
     light_dirty li = false) ->
  compile_cached scene mat_collector tex_collector s = Ok tt s' ->
  exists p s1 out1 rest out',
    SplitMeshesAndInstances (st_shapes s) (scene_shapes sc) = Some p /\
    UpdateShapes scene mat_collector tex_collector s = Ok tt s1 /\
    m_scene_cache s1 !! scene = Some out1 /\
    m_context s' = m_context s1 ++ rest /\
    Forall off_camera_lights rest /\
    m_scene_cache s' !! scene = Some out' /\
    same_camera_lights out out' /\
    same_geometry out1 out' /\
    intersector_loaded scene
      (fresh_handles (api_next (m_api s)) (length (partition_order p))) s' /\
    (forall k a, partition_order p !! k = Some a ->
       exists rsh,
         api_shapes (m_api s') !! (api_next (m_api s) + N.of_nat k)%N = Some rsh /\
         rr_id rsh = Some (Nat.iter k int_succ 1) /\
         handle_of (st_shapes s) a rsh).
Proof.
  intros Hout Hsc Hflags Hcam Hc Hcd Hlights H.
  destruct has_flag_shapes as (Hfc & Hfl & Hfs).
  unfold compile_cached, GetDirtyFlags, GetCamera in H.
  do 3 head_inv H. head_inv H.
  rewrite Hflags in H. rewrite Hcd, Hfc, Hfl, Hfs in H. simpl in H.
  head_inv H.
  unfold CreateLightIterator in H. head_inv H.
  destruct (scene_lights sc) as [|l0 ls] eqn:Hls; [discriminate H|].
  apply bind_Ok in H. destruct H as (b & s1 & Hb & H).
  apply any_dirty_clean in Hb; [|exact Hlights]. destruct Hb as [-> ->].
  head_inv H.
  unfold CreateShapeIterator in H. head_inv H.
  destruct (scene_shapes sc) as [|x0 xs] eqn:Hxs; [discriminate H|].
  apply bind_Ok in H. destruct H as (b & s1 & Hb & H).
  apply any_dirty_reads in Hb. simpl in Hb. subst s1. clear b.
  apply bind_Ok in H. destruct H as (u1 & s3 & Hblock & H).
  apply bind_Ok in Hblock. destruct Hblock as (u2 & s1 & Hshapes & Hblock).
  apply bind_Ok in Hblock. destruct Hblock as (u3 & s2 & Hisect & Hreload).
  destruct u2.
  pose proof (UpdateShapes_keeps _ _ _ _ _ _ Hshapes) as Hk1.
  destruct (UpdateShapes_graph _ _ _ _ _ _ Hshapes) as (Hsc1 & Hapi1 & Hst1).
  pose proof (UpdateIntersector_keeps _ _ _ _ Hisect) as Hk2.
  pose proof (UpdateIntersector_geometry _ _ _ _ Hisect) as Hg2.
  apply UpdateIntersector_Ok in Hisect.
  destruct Hisect as (sc' & p & out2 & Hsc' & Hp & Hout2 & Hi2 & _ & Hhandles & _).
  rewrite Hsc1, Hsc in Hsc'. injection Hsc' as <-.
  rewrite (SplitMeshesAndInstances_ext _ _ Hst1) in Hp. rewrite Hapi1 in Hi2.
  pose proof (ReloadIntersector_keeps _ _ _ _ Hreload) as Hk3.
  pose proof (ReloadIntersector_geometry _ _ _ _ Hreload) as Hg3.
  assert (Hl3 : intersector_loaded scene
            (fresh_handles (api_next (m_api s)) (length (partition_order p))) s3)
    by (eapply intersector_loaded_reload; eauto).
  clear Hreload.
  apply bind_Ok in H. destruct H as (out3 & s4 & Hout3 & H).
  apply get_out_Ok in Hout3. destruct Hout3 as [Hout3 ->].
  apply bind_Ok in H. destruct H as (mc & s4 & Hmc & H).
  assert (s4 = s3) as ->.
  { destruct (material_bundle out3);
      [exact (NeedsUpdate_reads _ _ _ _ _ _ _ Hmc) | apply ret_Ok in Hmc; tauto]. }
  apply bind_Ok in H. destruct H as (u4 & s4 & Hmat & H).
  assert (Hk4 : keeps scene off_camera_lights same_camera_lights_handles eq s3 s4 /\
                keeps scene any_op same_geometry same_handles s3 s4).
  { destruct mc;
      [split; [exact (UpdateMaterials_keeps _ _ _ _ _ _ Hmat)
              |exact (UpdateMaterials_geometry _ _ _ _ _ _ Hmat)]|].
    apply ret_Ok in Hmat. destruct Hmat as [_ ->].
    split; apply keeps_refl; auto with frame. }
  destruct Hk4 as [Hk4 Hg4]. clear Hmc Hmat.
  apply bind_Ok in H. destruct H as (out4 & s5 & Hout4 & H).
  apply get_out_Ok in Hout4. destruct Hout4 as [Hout4 ->].
  apply bind_Ok in H. destruct H as (tc & s5 & Htc & H).
  assert (s5 = s4) as ->.
  { destruct (Collector.GetNumItems tex_collector);
      [apply ret_Ok in Htc; tauto|].
    destruct (texture_bundle out4);
      [exact (NeedsUpdate_reads _ _ _ _ _ _ _ Htc) | apply ret_Ok in Htc; tauto]. }
  apply bind_Ok in H. destruct H as (u5 & s5 & Htex & H).
  assert (Hk5 : keeps scene off_camera_lights same_camera_lights_handles eq s4 s5 /\
                keeps scene any_op same_geometry same_handles s4 s5).
  { destruct tc;
      [split; [exact (UpdateTextures_keeps _ _ _ _ _ _ Htex)
              |exact (UpdateTextures_geometry _ _ _ _ _ _ Htex)]|].
    apply ret_Ok in Htex. destruct Htex as [_ ->].
    split; apply keeps_refl; auto with frame. }
  destruct Hk5 as [Hk5 Hg5]. clear Htc Htex.
  apply bind_Ok in H. destruct H as (current & s6 & Hcur & H).
  apply gets_Ok in Hcur. destruct Hcur as [-> ->].
  apply bind_Ok in H. destruct H as (u6 & s6 & Hcurrent & H).
  apply bind_Ok in H. destruct H as (u7 & s7 & Hclear & Hfin).
  pose proof (ClearDirtyFlags_keeps _ _ _ _ Hclear) as Hk7.
  pose proof (ClearDirtyFlags_geometry _ _ _ _ Hclear) as Hg7.
  pose proof (clear_material_flags_keeps scene _ _ _ _ Hfin) as Hk8.
  pose proof (clear_material_flags_geometry scene _ _ _ _ Hfin) as Hg8.
  clear Hclear Hfin.
  pose proof (intersector_loaded_keeps _ _ _ _ Hk5
                (intersector_loaded_keeps _ _ _ _ Hk4 Hl3)) as Hl5.
  assert (Hk6 : keeps scene off_camera_lights same_camera_lights any_api s5 s6 /\
                keeps scene any_op same_geometry same_handles s5 s6 /\
                intersector_loaded scene
                  (fresh_handles (api_next (m_api s)) (length (partition_order p))) s6).
  { destruct (bool_decide (m_current_scene s5 = Some scene)).
    - apply ret_Ok in Hcurrent. destruct Hcurrent as [_ ->].
      split; [apply keeps_refl; auto with frame|].
      split; [apply keeps_refl; auto with frame | exact Hl5].
    - apply bind_Ok in Hcurrent. destruct Hcurrent as (u8 & s8 & Hre & Hmod).
      apply modify_Ok in Hmod. subst s6.
      split; [|split].
      + eapply keeps_trans; [apply same_camera_lights_trans | apply any_api_trans | |].
        * exact (ReloadIntersector_keeps _ _ _ _ Hre).
        * apply keeps_elsewhere; auto with frame.
      + eapply keeps_trans; [apply same_geometry_trans | apply same_handles_trans | |].
        * exact (ReloadIntersector_geometry _ _ _ _ Hre).
        * apply keeps_elsewhere; auto with frame.
      + apply intersector_loaded_current.
        destruct Hl5 as (o5 & Ho5 & Hi5 & _).
        eapply intersector_loaded_reload; eauto. }
  destruct Hk6 as (Hk6 & Hg6 & Hl6). clear Hcurrent.
  pose proof (intersector_loaded_keeps _ _ _ _ Hk8
                (intersector_loaded_keeps _ _ _ _ Hk7 Hl6)) as Hl8.
  apply keeps_handles_weaken in Hk4, Hk5, Hk7, Hk8.
  assert (Hrest : keeps scene off_camera_lights same_camera_lights any_api s1 s').
  { pose proof (keeps_trans scene off_camera_lights _ _
                   same_camera_lights_trans any_api_trans) as T.
    exact (T _ _ _ Hk2 (T _ _ _ Hk3 (T _ _ _ Hk4 (T _ _ _ Hk5
             (T _ _ _ Hk6 (T _ _ _ Hk7 Hk8)))))). }
  assert (Hapis : keeps scene any_op same_geometry same_handles s2 s').
  { pose proof (keeps_trans scene any_op _ _
                   same_geometry_trans same_handles_trans) as T.
    exact (T _ _ _ Hg3 (T _ _ _ Hg4 (T _ _ _ Hg5 (T _ _ _ Hg6 (T _ _ _ Hg7 Hg8))))). }
  assert (Hgeo : keeps scene any_op same_geometry any_api s1 s').
  { eapply keeps_trans;
      [apply same_geometry_trans | apply any_api_trans | exact Hg2 |].
    revert Hapis. apply keeps_weaken; [auto|intros; exact I]. }
  destruct Hk1 as (_ & He1 & _). destruct (He1 out Hout) as (out1 & Hout1 & Hq1).
  destruct Hrest as ((rest & Hops & Hoff) & He & _).
  destruct (He out1 Hout1) as (out' & Hout' & Hq).
  destruct Hgeo as (_ & Hge & _).
  destruct (Hge out1 Hout1) as (out'' & Hout'' & Hsame).
  rewrite Hout' in Hout''. injection Hout'' as <-.
  destruct Hapis as (_ & _ & Hshapes' & _).
  exists p, s1, out1, rest, out'.
  split; [rewrite Hxs in Hp; exact Hp|]. split; [exact Hshapes|].
  split; [exact Hout1|]. split; [exact Hops|]. split; [exact Hoff|].
  split; [exact Hout'|].
  split; [eapply same_camera_lights_trans; eassumption|].
  split; [exact Hsame|]. split; [exact Hl8|].
  intros k a Hk. destruct (Hhandles k a Hk) as (rsh & Hrsh & Hid & Hof).
  exists rsh. rewrite Hshapes', <- Hapi1. split; [exact Hrsh|]. split; [exact Hid|].
  exact (handle_of_static _ _ _ _ Hst1 Hof).
Qed.

Lemma UpdateShapes_rebuilt scene mat_collector tex_collector s s1 sc p out1 :
  UpdateShapes scene mat_collector tex_collector s = Ok tt s1 ->
  st_scenes s !! scene = Some sc ->
  SplitMeshesAndInstances (st_shapes s) (scene_shapes sc) = Some p ->
  m_scene_cache s1 !! scene = Some out1 ->
  shapes_rebuilt mat_collector s p out1.
Proof.
  intros Hrun Hsc Hp Hout1.
  destruct (UpdateShapes_buffers _ _ _ _ _ _ _ _ Hrun Hsc Hp)
    as (o & dm & de & xm & xe & xi & Ho & Hdm & Hde & Hv & Hn & Hu & Hi
        & Hxm & Hxe & Hxi & Hids & Hrec).
  rewrite Hout1 in Ho. injection Ho as <-.
  destruct (UpdateShapes_Ok _ _ _ _ _ _ Hrun)
    as (sc' & p' & o & Hsc' & Hp' & Ho & Hlen & _ & _ & _ & _ & Hinst).
  rewrite Hsc in Hsc'. injection Hsc' as <-.
  rewrite Hp in Hp'. injection Hp' as <-.
  rewrite Hout1 in Ho. injection Ho as <-.
  exists dm, de, xm, xe, xi. cbv zeta.
  do 10 (split; [assumption|]). split; [exact Hlen|]. split; [exact Hrec|].
  intros k a Hk.
  destruct (Hinst k a Hk)
    as (base & bd & t & m & matidx & rec & jb & brec & Hst & _ & Hr & Hjb & Hbr
        & Hnp & Hsv & Hsi & Htr & _ & Hsm & _).
  exists base, t, m, rec, jb, brec. auto 10.
Qed.

(** ** The compile returns *)

Lemma CompileScene_returns rank scene mat_collector tex_collector s sc out cam c p :
  m_scene_cache s !! scene = Some out ->
  st_scenes s !! scene = Some sc ->
  scene_dirty_flags sc = Scene1Flags.kShapes ->
  scene_camera sc = Some cam ->
  st_cameras s !! cam = Some c ->
  camera_dirty c = false ->
  lights_clean (st_lights s) (scene_lights sc) = true ->
  scene_ok rank s sc = true ->
  SplitMeshesAndInstances (st_shapes s) (scene_shapes sc) = Some p ->
  exists fuel0, forall fuel, (fuel0 <= fuel)%nat ->
    exists mc tc s',
      CompileScene fuel scene mat_collector tex_collector s = Ok (mc, tc) s'.
Proof.
  intros Hout Hsc Hflags Hcam Hc Hcd Hclean Hok Hp.
  destruct (scene_ok_spec rank s sc Hok)
    as (Hs & Hl & Hshapes & Hlights & Hranked & Hmats).
  destruct (Collect_shape_materials_returns rank s Hranked (scene_shapes sc))
    as [fuel0 Hfuel].
  { intros a Ha. destruct (Hshapes a Ha) as (sh & Hsh & Hm & _). eauto. }
  exists fuel0. intros fuel Hle.
  destruct (Hfuel fuel (Collector.Clear mat_collector) Hle) as [c1 H1].
  destruct (Collect_working _ (shape_materials_reads fuel) _ _ _ _ _ H1)
    as (_ & _ & _ & Hw1).
  destruct (Collect_material_textures_returns s
              (Collector.items (Collector.Commit c1)) (Collector.Clear tex_collector))
    as [c2 H2].
  { intros a Ha. simpl in Ha. apply Hw1 in Ha.
    destruct Ha as [Ha|(item & found & _ & Hrun & Hx)]; [inversion Ha|].
    destruct (shape_materials_found _ _ _ _ Hrun) as (_ & _ & _ & _ & Hin & _).
    apply Hin. exact Hx. }
  destruct (Collect_light_textures_returns s (scene_lights sc) c2) as [c3 H3].
  { intros a Ha. destruct (Hlights a Ha) as (l & Hli & _). eauto. }
  destruct (collected_spec fuel mat_collector tex_collector s sc c1 c2 c3 H1 H2 H3)
    as (Hc1 & Hc2 & Hc3 & _ & Hc5).
  destruct (compile_cached_returns scene (Collector.Commit c1) (Collector.Commit c3)
              s sc out cam c p Hout Hsc Hflags Hcam Hc Hcd
              (lights_clean_spec _ _ Hclean) Hl) as ([] & s' & Hrun);
    try assumption.
  - intros a Ha. destruct (Hlights a Ha) as (l & Hli & _). eauto.
  - intros a Ha. destruct (Hshapes a Ha) as (sh & Hsh & _ & Hbase).
    destruct (Hc1 a Ha) as (sh' & Hsh' & Hin).
    rewrite Hsh in Hsh'. injection Hsh' as <-. eauto.
  - intros a Ha. destruct (Hc2 a Ha) as (m & Hm & Hcm & Hct).
    exists m. split; [exact Hm|]. intros data.
    apply writer_accepts_spec; [|exact Hcm|exact Hct].
    exact (proj1 (Hmats a m Hm)).
  - intros t Ht. destruct (Hc5 t Ht) as [(x & m & _ & Hm & Hin)|(a & l & Ha & Hli & Hin)].
    + exact (proj2 (Hmats x m Hm) t Hin).
    + destruct (Hlights a Ha) as (l' & Hli' & Hall).
      rewrite Hli in Hli'. injection Hli' as <-. apply Hall. exact Hin.
  - exists (Collector.Commit c1), (Collector.Commit c3), s'.
    unfold CompileScene, CreateShapeIterator, CreateLightIterator.
    rewrite (bind_run _ _ s (scene_shapes sc) s)
      by (rewrite (bind_run _ _ _ _ _ (deref_run _ _ _ _ Hsc)); reflexivity).
    rewrite (bind_run _ _ s (scene_lights sc) s)
      by (rewrite (bind_run _ _ _ _ _ (deref_run _ _ _ _ Hsc)); reflexivity).
    rewrite (bind_run _ _ _ _ _ H1).
    unfold Collector.CreateIterator.
    rewrite (bind_run _ _ _ _ _ H2), (bind_run _ _ _ _ _ H3).
    rewrite (bind_run _ _ _ _ _ (gets_run m_scene_cache s)).
    rewrite Hout. rewrite (bind_run _ _ _ _ _ Hrun). reflexivity.
Qed.


